(* ===== verification/_CoqProject ===== *)
-Q . S2P
Prelude.v
GoStrings.v
GoPath.v
GoOs.v
Ext.v
World.v
Toy.v
Effects.v
Log.v
Cancel.v
Calls.v
Config.v
Ports.v
ConfigSpec.v
Repo.v
RepoSpec.v
Json.v
JsonFuel.v
Settings.v
Progress.v
Serve.v
ServeSpec.v
Start.v
StartSpec.v
Lifecycle.v
Bindings.v
BindingsSpec.v
Monitor.v
MonitorSpec.v
System.v
Frames.v
Invariants.v
Answers.v
Reach.v
