(* ===== verification/Prelude.v ===== *)
(** * asio-ipfs: the Go glue between Boost.Asio and an embedded IPFS node

    asio-ipfs lets a C++ program run an IPFS node in its own process.  C++ calls a
    small C interface exported by Go (src/src/ipfs_bindings/); the Go side starts
    go-ipfs, runs each operation in a goroutine, and answers through C callbacks.
    This library models the whole of that Go code, and the part of the C++ side
    that hands it its settings.

    ** The program and the files that model it

    - Ipfs_config.go, the configuration: [Config.v] ([AsioConfig], [updateConfig],
      [replacePorts], [updateRepo], [configUnlocked], [makeBuildCfg]); theorems in
      [Ports.v] (port replacement on rendered multiaddrs) and [ConfigSpec.v].
    - Ipfs_repo.go, the repository on disk: [Repo.v] ([initRepo], [openRepo],
      [checkWritable]); theorems in [RepoSpec.v].
    - Ipfs_api.go, ipfs_gc.go, ipfs_mfs.go, the background services: [Serve.v]
      ([maybeServeHTTPApi], [maybeServeHTTPGateway], [maybeRunGC]); theorems in
      [ServeSpec.v].
    - Ipfs_node.go, the node's life cycle: [Start.v] ([start_node] with its parts
      [start_repo], [start_core], [start_services], [start_api], [start_monitor];
      the exported start, free and id functions); theorems in [StartSpec.v] and
      [Lifecycle.v].  Its monitor goroutine, with the goroutines that feed it:
      [Monitor.v], theorems in [MonitorSpec.v].
    - Ipfs_bindings.go, the operations (publish, calc-cid, add, cat, pin, unpin and
      ipfs_gc.go's gc): [Bindings.v]; theorems in [BindingsSpec.v].  An operation
      is two definitions, the handler [go_asio_ipfs_*] that runs on C++'s thread and
      the goroutine [run_*] it queues.
    - Ipfs_cancel.go, cancellation: [Cancel.v], with its abstract registry.
    - Ipfs_log.go and the callback executors of ipfs_bindings.go: [Log.v].
    - Include/ipfs_config.h and [config_to_json] of src/node.cpp against the struct
      that [json.Unmarshal] fills: [Settings.v].
    - The process, C++'s calls interleaved with the goroutines: [System.v]; theorems
      over all its runs in [Answers.v] and [Reach.v].

    Below them, [Effects.v] has the primitives of the Go runtime and of cgo on the
    state of [World.v]; [GoStrings.v], [GoPath.v], [GoOs.v] and [Json.v] model the
    parts of Go's standard library in use ([JsonFuel.v] with the scanner's fuel);
    [Ext.v] is the interface of the third-party code; [Toy.v] is an instance of it
    with which the witnesses compute.
    [Calls.v], [Progress.v], [Frames.v] and [Invariants.v] carry the proofs.

    ** State and operations

    [World] is one record for what the program keeps: the package variables
    ([g_node] and three flags), the [Node] structs by address (C++ can still hold
    a freed one's goroutines, so a [Node] is a heap object, not a value), contexts with
    their ancestors and the set of cancelled ones, channels, pending goroutines, the
    logger, the C heap, and the third-party state with the host's files.  It also
    records the observable events: third-party calls, callbacks, lines on stderr.
    Code is in the monad [M World]: it returns or ends in a Go panic, which stops
    the process.  An early [return] of the source is an early result of the
    definition, an error a value of type [result].

    A C pointer to a callback or its argument is an integer, 0 for NULL; a C string
    or buffer argument is the memory it points to.  Integers are [Z] with the
    conversions of cgo written out ([u32], [u64], [i32], [i64] below); the width
    of Go's [int] is the parameter [GoIntBits].

    Third-party code is a parameter ([External]) about which nothing is assumed; a
    theorem that relies on its documented behaviour says so in a hypothesis.
    A third-party call is one step: it is told whether its context was done when
    the call was made.

    ** What the theorems show

    - Starting ([StartSpec.v], [Lifecycle.v]): each stage is specified by the calls it
      may make, with their arguments and results, and what it then gives; the whole is
      their composition, in which the first call that fails ends the start with its
      own stage's code, and a success has the node, its goroutines and its channels
      complete; a failed start keeps the slot; freeing gives everything back.
    - Operations ([BindingsSpec.v], [Answers.v]): a handler registers and queues, its
      goroutine replies once and as specified; over all interleavings, answers given,
      answers owed and resolves (which the code drops) add up to the requests made;
      sizes and durations wrap as computed; a cancelled request is seen as cancelled
      by its operation; what each operation does on a node still starting.
    - Cancellation ([Cancel.v]): the signal map refines a registry in which a signal
      stands for exactly the operation it was last given to.
    - The state of the process ([Reach.v]): an invariant of every reachable state, and
      where the log goes.
    - Services and monitor ([ServeSpec.v], [MonitorSpec.v]): a service starts its
      goroutines only after all its fallible calls succeeded, or none of them; the
      monitor, along any schedule, reports exactly the changes of the peer count, stops
      the node on a service's error and reports the last such error at the end.
    - Settings ([Settings.v], [ConfigSpec.v], [Ports.v]): settings survive the trip from
      C++ to Go, land in their fields of the configuration, and rewriting them at each
      start is idempotent for swarm addresses that show one port.
    - Repository ([RepoSpec.v]): each step of creating or configuring it is made only if
      all before it succeeded, with exactly the requested settings (a swarm key that
      cannot be written leaves the repository created); a locked configuration is not
      written; what the writability probe does to the directory.
    - Log ([Log.v]): redirection takes effect at once; a null callback panics later.

    The specifications of the longer functions are predicates on lists of _items_
    ([Calls.v]): an item is one interaction with third-party code or the host, with
    its arguments and its result, and [called l w w'] says that [w'] is [w] after
    exactly the interactions [l], in that order, and some logging.

    ** Fuel

    The only fuel is that of the JSON scanner, one unit more than twice the length of
    the text; [JsonFuel.v] proves that more never changes its result.  Everything else
    is structural recursion; the monitor's endless loop is given its schedule (its
    choices and what the rest of the process does between them), the scheduler of the
    process the sequence of its steps.

    ** What is not modelled

    The asio side of src/node.cpp (its [Handle] objects, the posting of callbacks to
    an [io_service]) and error.cpp's category; data races (a step of [System.v] is
    atomic up to a goroutine's blocking point); the state third-party code keeps,
    other than as the parameter above; goroutines started by go-ipfs itself.  An
    operation's context is sampled when its third-party call starts, so a
    cancellation arriving during the call is one that call does not see. *)
From stdpp Require Export base gmap sets list strings pretty.
From Stdlib Require Export ZArith Lia.

(** ** Go errors

    A Go [error] value is observed by the program in two ways only: through its
    text ([err.Error()], ["%s"], ["%q"]) and through the predicates
    [errors.Is(err, os.ErrNotExist)], [os.IsNotExist], [os.IsPermission]. *)
Inductive errkind := ENotExist | EPermission | EOther.

Record error := mkError { err_kind : errkind; err_msg : string }.

#[export] Instance errkind_eq_dec : EqDecision errkind.
Proof. solve_decision. Defined.

#[export] Instance error_eq_dec : EqDecision error.
Proof. solve_decision. Defined.

(** A Go function returning [(T, error)] that sets exactly one of the two. *)
Abbreviation result A := (A + error)%type.

(** [fmt.Errorf] without ["%w"]: the result wraps nothing. *)
Definition Errorf (msg : string) : error := mkError EOther msg.

(** ** Effects: explicit state with panics

    [M S A] is a computation over the state [S] which either returns or ends in
    a Go panic (an unrecovered panic stops the whole process, so nothing of the
    program runs after it; the state reached is kept to say what had been done
    by then). *)
Inductive outcome (A : Type) := Ok (a : A) | Panic (msg : string).
Arguments Ok {A} _.
Arguments Panic {A} _.

Definition M (S A : Type) : Type := S -> outcome A * S.

Definition ret {S A} (a : A) : M S A := fun s => (Ok a, s).

Definition panic {S A} (msg : string) : M S A := fun s => (Panic msg, s).

Definition bind {S A B} (m : M S A) (k : A -> M S B) : M S B :=
  fun s => match m s with
           | (Ok a, s') => k a s'
           | (Panic p, s') => (Panic p, s')
           end.

Definition gets {S A} (f : S -> A) : M S A := fun s => (Ok (f s), s).

Definition modify {S} (f : S -> S) : M S unit := fun s => (Ok tt, f s).

Declare Scope go_scope.
Delimit Scope go_scope with go.
Notation "x <- c1 ;; c2" := (bind c1 (fun x => c2))
  (at level 100, c1 at next level, right associativity) : go_scope.
Notation "c1 ;;; c2" := (bind c1 (fun _ => c2))
  (at level 100, right associativity) : go_scope.

(** [for _, x := range l { body }] with no early exit. *)
Fixpoint for_range {S A} (l : list A) (body : A -> M S unit) : M S unit :=
  match l with
  | [] => ret tt
  | x :: l' => bind (body x) (fun _ => for_range l' body)
  end.

(** [for _, x := range l { y, err := body(x); if err != nil { return err };
    acc = append(acc, y) }]: stops at the first error. *)
Fixpoint collect {S A B} (l : list A) (body : A -> M S (result B)) : M S (result (list B)) :=
  match l with
  | [] => ret (inl [])
  | x :: l' =>
      bind (body x) (fun r =>
        match r with
        | inr e => ret (inr e)
        | inl y => bind (collect l' body) (fun rs =>
            match rs with
            | inr e => ret (inr e)
            | inl ys => ret (inl (y :: ys))
            end)
        end)
  end.

(** ** Laws of the monad *)
Section monad_laws.
Context {S A B C : Type}.

Lemma bind_ret_l (a : A) (k : A -> M S B) s : bind (ret a) k s = k a s.
Proof. reflexivity. Qed.

Lemma bind_assoc (m : M S A) (k : A -> M S B) (h : B -> M S C) s :
  bind (bind m k) h s = bind m (fun a => bind (k a) h) s.
Proof. unfold bind. destruct (m s) as [[a|p] s']; reflexivity. Qed.

Lemma bind_Ok (m : M S A) (k : A -> M S B) s a s' :
  m s = (Ok a, s') -> bind m k s = k a s'.
Proof. unfold bind. by intros ->. Qed.

Lemma bind_Ok_inv (m : M S A) (k : A -> M S B) s b s' :
  bind m k s = (Ok b, s') ->
  exists a s1, m s = (Ok a, s1) /\ k a s1 = (Ok b, s').
Proof. unfold bind. destruct (m s) as [[a|p] s1]; [eauto|done]. Qed.
End monad_laws.

(** ** Weakest preconditions

    [wp m Q s] says that [m], run from [s], ends in an outcome and a state that
    satisfy [Q]; the computations are total functions, so this is total
    correctness.  [returns m Q s] also excludes a panic. *)
Definition wp {S A} (m : M S A) (Q : outcome A -> S -> Prop) (s : S) : Prop :=
  Q (m s).1 (m s).2.

Definition returns {S A} (m : M S A) (Q : A -> S -> Prop) (s : S) : Prop :=
  wp m (fun r s' => match r with Ok a => Q a s' | Panic _ => False end) s.

Section wp_rules.
Context {S A B : Type}.

Lemma returns_ret (a : A) (Q : A -> S -> Prop) s : Q a s -> returns (ret a) Q s.
Proof. done. Qed.

Lemma returns_bind (m : M S A) (k : A -> M S B) (Q : B -> S -> Prop) s :
  returns m (fun a s' => returns (k a) Q s') s -> returns (bind m k) Q s.
Proof. unfold returns, wp, bind. destruct (m s) as [[a|p] s']; done. Qed.

Lemma returns_mono (m : M S A) (Q Q' : A -> S -> Prop) s :
  returns m Q s -> (forall a s', Q a s' -> Q' a s') -> returns m Q' s.
Proof. unfold returns, wp. destruct (m s) as [[a|p] s']; simpl; auto. Qed.

Lemma returns_run (m : M S A) (Q : A -> S -> Prop) s :
  returns m Q s -> returns m (fun a s' => m s = (Ok a, s') /\ Q a s') s.
Proof. unfold returns, wp. by destruct (m s) as [[a|p] s']. Qed.

Lemma returns_and (m : M S A) (P Q : A -> S -> Prop) s :
  returns m P s -> returns m Q s -> returns m (fun a s' => P a s' /\ Q a s') s.
Proof. unfold returns, wp. by destruct (m s) as [[a|p] s']. Qed.

Lemma returns_ext (m m' : M S A) (Q : A -> S -> Prop) s :
  m s = m' s -> returns m' Q s -> returns m Q s.
Proof. unfold returns, wp. by intros ->. Qed.

Lemma returns_Ok (m : M S A) (Q : A -> S -> Prop) s :
  returns m Q s <-> exists a s', m s = (Ok a, s') /\ Q a s'.
Proof.
  unfold returns, wp. destruct (m s) as [[a|p] s']; simpl; naive_solver.
Qed.
End wp_rules.

(** ** Relations every run of a computation respects

    [preserves R m]: whatever the outcome, the states before and after [m] are
    related by [R].  For a preorder this composes, so frame conditions and
    monotonicity facts of a long handler follow from those of its calls. *)
Definition preserves {S A} (R : S -> S -> Prop) (m : M S A) : Prop :=
  forall s, R s (m s).2.

Section preserves_rules.
Context {S : Type} (R : S -> S -> Prop) `{!PreOrder R}.

Lemma preserves_ret {A} (a : A) : preserves R (ret a).
Proof. intros s. reflexivity. Qed.

Lemma preserves_panic {A} p : preserves R (panic (A:=A) p).
Proof. intros s. reflexivity. Qed.

Lemma preserves_gets {A} (f : S -> A) : preserves R (gets f).
Proof. intros s. reflexivity. Qed.

Lemma preserves_modify f : (forall s, R s (f s)) -> preserves R (modify f).
Proof. intros H s. apply H. Qed.

Lemma preserves_bind {A B} (m : M S A) (k : A -> M S B) :
  preserves R m -> (forall a, preserves R (k a)) -> preserves R (bind m k).
Proof.
  intros Hm Hk s. unfold bind. specialize (Hm s).
  destruct (m s) as [[a|p] s'] eqn:E; simpl in *; [|done].
  transitivity s'; [done|]. apply Hk.
Qed.

Lemma preserves_bind_assoc {A B C} (m : M S A) (k : A -> M S B) (h : B -> M S C) :
  preserves R (bind m (fun a => bind (k a) h)) -> preserves R (bind (bind m k) h).
Proof. intros Hp s. rewrite bind_assoc. apply Hp. Qed.

Lemma preserves_for_range {A} (l : list A) body :
  (forall x, preserves R (body x)) -> preserves R (for_range l body).
Proof.
  intros H. induction l as [|x l IH]; simpl;
    [apply preserves_ret | apply preserves_bind; auto].
Qed.

Lemma preserves_collect {A B} (l : list A) (body : A -> M S (result B)) :
  (forall x, preserves R (body x)) -> preserves R (collect l body).
Proof.
  intros H. induction l as [|x l IH]; simpl; [apply preserves_ret|].
  apply preserves_bind; [done|]. intros [y|e]; [|apply preserves_ret].
  apply preserves_bind; [done|]. intros [ys|e]; apply preserves_ret.
Qed.
End preserves_rules.

Create HintDb preserve.
#[export] Hint Resolve preserves_ret preserves_panic preserves_gets : preserve.

(** One step of the syntax-directed search for [preserves R m]. *)
Ltac preserve_step :=
  lazymatch goal with
  | |- preserves ?R (bind _ _) => apply (preserves_bind R); [ | intros ?]
  | |- preserves ?R (for_range _ _) => apply (preserves_for_range R); intros ?
  | |- preserves ?R (collect _ _) => apply (preserves_collect R); intros ?
  | |- preserves _ (match ?x with _ => _ end) => destruct x
  | |- preserves _ (let _ := _ in _) => cbv zeta
  | |- preserves ?R (ret _) => apply (preserves_ret R)
  | |- preserves ?R (panic _) => apply (preserves_panic R)
  | |- preserves ?R (gets _) => apply (preserves_gets R)
  | |- preserves _ _ => solve [eauto with preserve]
  end.

(** ** Machine integers

    Values are kept as [Z]; these are the wrap-arounds of Go's and C's
    fixed-width conversions and arithmetic. *)
Definition u64 (z : Z) : Z := (z mod 2 ^ 64)%Z.

Definition u32 (z : Z) : Z := (z mod 2 ^ 32)%Z.

Definition i64 (z : Z) : Z := ((z + 2 ^ 63) mod 2 ^ 64 - 2 ^ 63)%Z.

Definition i32 (z : Z) : Z := ((z + 2 ^ 31) mod 2 ^ 32 - 2 ^ 31)%Z.

Lemma u64_range z : (0 <= u64 z < 2 ^ 64)%Z.
Proof. unfold u64. apply Z.mod_pos_bound. lia. Qed.

Lemma u64_small z : (0 <= z < 2 ^ 64)%Z -> u64 z = z.
Proof. unfold u64. apply Z.mod_small. Qed.

Lemma i64_range z : (- 2 ^ 63 <= i64 z < 2 ^ 63)%Z.
Proof. unfold i64. pose proof (Z.mod_pos_bound (z + 2 ^ 63) (2 ^ 64)). lia. Qed.

Lemma i64_small z : (- 2 ^ 63 <= z < 2 ^ 63)%Z -> i64 z = z.
Proof. unfold i64. intros. rewrite Z.mod_small; lia. Qed.

Lemma i64_id_iff z : i64 z = z <-> (- 2 ^ 63 <= z < 2 ^ 63)%Z.
Proof. split; [|apply i64_small]. pose proof (i64_range z). lia. Qed.

