(* ===== verification/GoStrings.v ===== *)
(** * Strings of Go and C

    A Go [string] is a byte sequence, modelled by [string].  This file has the
    standard-library functions the glue applies to strings: [strings.Replace],
    [strconv.FormatInt], the formatting verbs of [fmt] that occur in the source,
    and the conversions of cgo ([C.CString], [C.GoString], [C.GoBytes]). *)
From S2P Require Import Prelude.
From Stdlib Require Import Ascii.
#[global] Arguments String.append _ _ : simpl nomatch.
#[global] Arguments ascii_dec : simpl never.

(** [strconv.FormatInt(n, 10)]. *)
Definition FormatInt10 (n : Z) : string := pretty n.

(** [strings.Replace(s, old, new, -1)] for a non-empty [old]: the leftmost
    non-overlapping occurrences.  [skip] counts the bytes of an occurrence that
    has already been replaced. *)
Fixpoint replace_from (old new : string) (skip : nat) (s : string) : string :=
  match s with
  | "" => ""
  | String c s' =>
      match skip with
      | S k => replace_from old new k s'
      | O => if String.prefix old s
             then new +:+ replace_from old new (String.length old - 1) s'
             else String c (replace_from old new 0 s')
      end
  end.

Definition strings_Replace_all (s old new : string) : string := replace_from old new 0 s.

(** The byte at the head, and the string from its [n]-th byte on. *)
Fixpoint string_drop (n : nat) (s : string) : string :=
  match n, s with
  | S n', String _ s' => string_drop n' s'
  | _, _ => s
  end.

Fixpoint string_take (n : nat) (s : string) : string :=
  match n, s with
  | S n', String c s' => String c (string_take n' s')
  | _, _ => ""
  end.

(** ** Separators *)

(** [strings.Split(s, sep)] for a one-byte separator. *)
Fixpoint split_on (sep : ascii) (s : string) : list string :=
  match s with
  | "" => [""]
  | String c s' =>
      if decide (c = sep) then "" :: split_on sep s'
      else match split_on sep s' with
           | h :: t => String c h :: t
           | [] => [String c ""]
           end
  end.

(** [strings.Join(l, sep)]. *)
Fixpoint join_with (sep : string) (l : list string) : string :=
  match l with
  | [] => ""
  | [x] => x
  | x :: l' => x +:+ sep +:+ join_with sep l'
  end.

(** The byte [c] does not occur in [s]. *)
Fixpoint lacks (c : ascii) (s : string) : bool :=
  match s with
  | "" => true
  | String d s' => bool_decide (c <> d) && lacks c s'
  end.

(** ** [fmt] *)

(** An operand of a formatting call. *)
Inductive farg := FStr (s : string) | FInt (z : Z) | FBytes (b : string).

Definition hex_digit (n : nat) : ascii :=
  match String.get n "0123456789abcdef" with Some c => c | None => "0"%char end.

Definition hex_byte (c : ascii) : string :=
  let n := nat_of_ascii c in
  String (hex_digit (n / 16)) (String (hex_digit (n mod 16)) "").

Fixpoint hex_string (s : string) : string :=
  match s with "" => "" | String c s' => hex_byte c +:+ hex_string s' end.

Definition dquote : ascii := ascii_of_nat 34.

Definition newline : ascii := ascii_of_nat 10.

(** [strconv.Quote], byte by byte: exact for ASCII text; a byte above 127 is
    copied, as for printable UTF-8. *)
Definition quote_byte (c : ascii) : string :=
  let n := nat_of_ascii c in
  if decide (c = dquote \/ c = "\"%char) then String "\" (String c "")
  else if decide (n = 7) then "\a" else if decide (n = 8) then "\b"
  else if decide (n = 12) then "\f" else if decide (n = 10) then "\n"
  else if decide (n = 13) then "\r" else if decide (n = 9) then "\t"
  else if decide (n = 11) then "\v"
  else if decide (n < 32 \/ n = 127) then "\x" +:+ hex_byte c
  else String c "".

Fixpoint quote_bytes (s : string) : string :=
  match s with "" => "" | String c s' => quote_byte c +:+ quote_bytes s' end.

Definition strconv_Quote (s : string) : string :=
  String dquote "" +:+ quote_bytes s +:+ String dquote "".

(** One verb applied to one operand (the verb/operand pairs of the source). *)
Definition fmt_verb (v : ascii) (a : farg) : string :=
  match a with
  | FStr s => if decide (v = "q"%char) then strconv_Quote s
              else if decide (v = "x"%char) then hex_string s else s
  | FInt z => FormatInt10 z
  | FBytes b => if decide (v = "x"%char) then hex_string b else b
  end.

(** [fmt.Sprintf]. *)
Fixpoint Sprintf (f : string) (args : list farg) : string :=
  match f with
  | "" => ""
  | String "%" (String v f') =>
      match args with
      | a :: args' => fmt_verb v a +:+ Sprintf f' args'
      | [] => "%!" +:+ String v "(MISSING)" +:+ Sprintf f' []
      end
  | String c f' => String c (Sprintf f' args)
  end.

(** [fmt.Sprintln] of string operands. *)
Definition Sprintln (l : list string) : string := join_with " " l +:+ String newline "".

(** ** cgo conversions *)

(** The C string that starts at a memory block: the bytes before the first NUL. *)
Fixpoint c_str (mem : string) : string :=
  match mem with
  | "" => ""
  | String c s => if decide (c = Ascii.zero) then "" else String c (c_str s)
  end.

(** [C.GoString]. *)
Definition C_GoString (mem : string) : string := c_str mem.

(** [C.GoBytes(p, n)] with [n] a C [int]: the runtime panics on a negative length. *)
Definition C_GoBytes (mem : string) (n : Z) : outcome string :=
  if decide (n < 0)%Z then Panic "gobytes: length out of range"
  else Ok (string_take (Z.to_nat n) mem).

(** ** Lemmas *)

Lemma string_app_nil_r s : s +:+ "" = s.
Proof. induction s as [|c s IH]; simpl; congruence. Qed.

Lemma string_app_assoc a b c : (a +:+ b) +:+ c = a +:+ (b +:+ c).
Proof. induction a as [|x a IH]; simpl; congruence. Qed.

Lemma string_length_app a b : String.length (a +:+ b) = String.length a + String.length b.
Proof. induction a as [|x a IH]; simpl; congruence. Qed.

Lemma prefix_app a b : String.prefix a (a +:+ b) = true.
Proof. induction a as [|x a IH]; [by destruct b|]. cbn. destruct (ascii_dec x x); [exact IH|done]. Qed.

Lemma prefix_true a s : String.prefix a s = true <-> exists t, s = a +:+ t.
Proof.
  split; [|intros [t ->]; apply prefix_app].
  revert s. induction a as [|x a IH]; intros s H; [by exists s|].
  destruct s as [|y s]; [done|]. simpl in H. destruct (ascii_dec x y) as [->|]; [|done].
  destruct (IH _ H) as [t ->]. by exists t.
Qed.

Lemma string_drop_app a b : string_drop (String.length a) (a +:+ b) = b.
Proof. induction a as [|x a IH]; simpl; [by destruct b|done]. Qed.

Lemma string_take_app a b : string_take (String.length a) (a +:+ b) = a.
Proof. induction a as [|x a IH]; simpl; [by destruct b|congruence]. Qed.

Lemma string_take_length n s : String.length (string_take n s) = n `min` String.length s.
Proof. revert n. induction s as [|c s IH]; intros [|n]; simpl; try done. by rewrite IH. Qed.

Lemma replace_from_skip old new a b :
  replace_from old new (String.length a) (a +:+ b) = replace_from old new 0 b.
Proof. induction a as [|x a IH]; simpl; done. Qed.

Lemma replace_hit old new rest :
  old <> "" ->
  replace_from old new 0 (old +:+ rest) = new +:+ replace_from old new 0 rest.
Proof.
  intros Hne. destruct old as [|c old]; [done|].
  change (String c old +:+ rest) with (String c (old +:+ rest)).
  cbn [replace_from].
  change (String c (old +:+ rest)) with (String c old +:+ rest).
  rewrite prefix_app. f_equal.
  change (String.length (String c old) - 1) with (String.length old - 0).
  rewrite Nat.sub_0_r. apply replace_from_skip.
Qed.

Lemma replace_miss old new c s :
  String.prefix old (String c s) = false ->
  replace_from old new 0 (String c s) = String c (replace_from old new 0 s).
Proof. intros H. cbn [replace_from]. by rewrite H. Qed.

Lemma lacks_app c a b : lacks c (a +:+ b) = lacks c a && lacks c b.
Proof. induction a as [|x a IH]; simpl; [done|]. by rewrite IH, andb_assoc. Qed.

Lemma split_on_app sep a b :
  split_on sep (a +:+ String sep b) = (split_on sep a ++ split_on sep b)%list.
Proof.
  induction a as [|c a IH]; simpl; [by rewrite decide_True|].
  case_decide; rewrite IH; [done|].
  destruct (split_on sep a) as [|h t] eqn:E; [|done].
  destruct a as [|d a]; simpl in E; [done|]. case_decide; [done|].
  by destruct (split_on sep a).
Qed.

Lemma split_on_lacks sep s : lacks sep s = true -> split_on sep s = [s].
Proof.
  induction s as [|c s IH]; simpl; [done|].
  rewrite andb_true_iff, bool_decide_eq_true. intros [H1 H2].
  rewrite decide_False by congruence. by rewrite IH.
Qed.

Lemma split_on_Forall sep s : Forall (fun x => lacks sep x = true) (split_on sep s).
Proof.
  induction s as [|c s IH]; simpl; [by repeat constructor|].
  case_decide as Hc; [by constructor|].
  destruct (split_on sep s) as [|h t]; inversion IH; subst; constructor; simpl; try done;
    rewrite bool_decide_true by congruence; done.
Qed.

Lemma split_join sep l :
  l <> [] -> Forall (fun x => lacks sep x = true) l ->
  split_on sep (join_with (String sep "") l) = l.
Proof.
  induction l as [|x l IH]; [done|]. intros _ Hl. inversion Hl; subst.
  destruct l as [|y l].
  - simpl. by apply split_on_lacks.
  - change (join_with (String sep "") (x :: y :: l))
      with (x +:+ String sep (join_with (String sep "") (y :: l))).
    rewrite split_on_app, split_on_lacks by done. rewrite IH by done. done.
Qed.

(** Decimal text is made of digits, after an optional minus sign. *)
Definition decimal_char (c : ascii) : bool :=
  bool_decide (c = "-"%char) || bool_decide (48 <= nat_of_ascii c <= 57).

Lemma pretty_N_go_lacks c x s :
  decimal_char c = false -> lacks c s = true -> lacks c (pretty_N_go x s) = true.
Proof.
  intros Hc. revert s. induction (N.lt_wf_0 x) as [x _ IH]; intros s Hs.
  assert (x = 0 \/ 0 < x)%N as [->|Hx] by lia; [done|].
  rewrite pretty_N_go_step by done. apply IH; [by apply N.div_lt|].
  simpl. rewrite Hs, andb_true_r, bool_decide_eq_true. intros ->.
  revert Hc. generalize (x mod 10)%N as d. intros d.
  unfold pretty_N_char. repeat case_match; done.
Qed.

Lemma FormatInt10_lacks c n : decimal_char c = false -> lacks c (FormatInt10 n) = true.
Proof.
  intros Hc.
  assert (HN : forall x : N, lacks c (pretty x) = true).
  { intros x. unfold pretty, pretty_N. case_decide.
    - unfold lacks. rewrite andb_true_r, bool_decide_eq_true. intros ->. done.
    - by apply pretty_N_go_lacks. }
  destruct n as [|p|p].
  - apply (HN 0%N).
  - apply (HN (Npos p)).
  - change (lacks c (String "-" (pretty (Npos p))) = true). simpl.
    rewrite HN, andb_true_r, bool_decide_eq_true. intros ->. done.
Qed.

Lemma pretty_N_go_length x s : String.length s <= String.length (pretty_N_go x s).
Proof.
  revert s. induction (N.lt_wf_0 x) as [x _ IH]; intros s.
  assert (x = 0 \/ 0 < x)%N as [->|Hx] by lia; [done|].
  rewrite pretty_N_go_step by done.
  etransitivity; [|apply IH; by apply N.div_lt]. simpl. lia.
Qed.

Lemma FormatInt10_nonempty n : FormatInt10 n <> "".
Proof.
  destruct n as [|p|p]; [done| |done].
  change (pretty (Npos p) <> ""). unfold pretty, pretty_N. rewrite decide_False by done.
  rewrite pretty_N_go_step by done. intros Heq.
  pose proof (pretty_N_go_length (Npos p `div` 10) (String (pretty_N_char (Npos p `mod` 10)) "")) as Hl.
  rewrite Heq in Hl. simpl in Hl. lia.
Qed.
