(* ===== verification/GoPath.v ===== *)
(** * [path/filepath] on Unix

    [Clean] and [Join] of the Go standard library, computed on the slash
    separated elements of a path, with the laws the repository code relies on:
    cleaning keeps a normal form, and cleaning a prefix first is absorbed by
    cleaning the whole path. *)
From S2P Require Import Prelude GoStrings.
From Stdlib Require Import Ascii.

Definition slash : ascii := "/"%char.

Definition is_rooted (p : string) : bool :=
  match p with String c _ => bool_decide (c = slash) | _ => false end.

(** One element of the path, [stack] holding the output elements, last first:
    empty and ["."] elements vanish, [".."] removes the last element, stays when
    there is none to remove, and vanishes at the root. *)
Definition push_elem (rooted : bool) (stack : list string) (e : string) : list string :=
  if decide (e = "" \/ e = ".") then stack
  else if decide (e = "..") then
    match stack with
    | [] => if rooted then [] else [".."]
    | top :: st => if decide (top = "..") then ".." :: stack else st
    end
  else e :: stack.

Definition clean_elems (rooted : bool) (es : list string) : list string :=
  rev (foldl (push_elem rooted) [] es).

(** The path whose elements are [es]. *)
Definition render_path (rooted : bool) (es : list string) : string :=
  let out := join_with "/" es in
  if rooted then String slash out
  else match es with [] => "." | _ => out end.

Definition Clean (p : string) : string :=
  match p with
  | "" => "."
  | _ => render_path (is_rooted p) (clean_elems (is_rooted p) (split_on slash p))
  end.

(** [filepath.Join(a, b)]: [strings.Join(elem[i:], "/")] from the first
    non-empty element on, cleaned. *)
Definition Join (a b : string) : string :=
  match a, b with
  | "", "" => ""
  | "", _ => Clean b
  | _, _ => Clean (a +:+ String slash b)
  end.

(** The directory that holds the (cleaned) path [p]. *)
Definition parent_dir (p : string) : string :=
  let es := clean_elems (is_rooted p) (split_on slash p) in
  render_path (is_rooted p) (removelast es).

(** ** Normal forms *)

Definition ordinary (e : string) : Prop :=
  e <> "" /\ e <> "." /\ e <> ".." /\ lacks slash e = true.

(** Stacks that [push_elem] can build: ordinary elements above [".."] ones, the
    latter only in a relative path. *)
Definition normal (rooted : bool) (stack : list string) : Prop :=
  exists ords k, stack = (ords ++ replicate k "..")%list /\ Forall ordinary ords
                 /\ (rooted = true -> k = 0).

Lemma push_elem_normal rooted stack e :
  lacks slash e = true -> normal rooted stack -> normal rooted (push_elem rooted stack e).
Proof.
  intros Hs (ords & k & -> & Ho & Hk). unfold push_elem.
  case_decide as H1; [by exists ords, k|].
  case_decide as H2.
  - subst. destruct ords as [|o ords]; simpl.
    + destruct k as [|k]; simpl.
      * destruct rooted; [by exists [], 0 | by exists [], 1].
      * exists [], (S (S k)). repeat split; [done|]. intros Hr. specialize (Hk Hr). lia.
    + inversion Ho as [|? ? (?&?&?&?) Ho']; subst. rewrite decide_False by done.
      by exists ords, k.
  - exists (e :: ords), k. split; [done|]. split; [|done].
    constructor; [|done]. repeat split; naive_solver.
Qed.

Lemma foldl_push_normal rooted es stack :
  Forall (fun x => lacks slash x = true) es -> normal rooted stack ->
  normal rooted (foldl (push_elem rooted) stack es).
Proof.
  intros Hes. revert stack. induction Hes as [|e es He Hes IH]; intros stack Hn; simpl; [done|].
  apply IH. by apply push_elem_normal.
Qed.

Lemma push_ordinary rooted stack e :
  ordinary e -> push_elem rooted stack e = e :: stack.
Proof.
  intros (?&?&?&?). unfold push_elem. rewrite decide_False by naive_solver.
  by rewrite decide_False.
Qed.

Lemma foldl_push_ordinary rooted stack es :
  Forall ordinary es -> foldl (push_elem rooted) stack (rev es) = (es ++ stack)%list.
Proof.
  intros H. induction H as [|e es He Hes IH]; simpl; [done|].
  rewrite foldl_app, IH. simpl. by rewrite push_ordinary.
Qed.

Lemma foldl_push_dotdots k : foldl (push_elem false) [] (replicate k "..") = replicate k "..".
Proof.
  assert (Hgen : forall j, foldl (push_elem false) (replicate j "..") (replicate k "..")
                           = replicate (k + j) "..").
  { induction k as [|k IH]; intros j; simpl; [done|].
    assert (push_elem false (replicate j "..") ".." = replicate (S j) "..") as ->.
    { destruct j; reflexivity. }
    rewrite IH. replace (k + S j) with (S (k + j)) by lia. done. }
  rewrite <- (Nat.add_0_r k) at 2. apply (Hgen 0).
Qed.

Lemma foldl_push_self rooted stack :
  normal rooted stack -> foldl (push_elem rooted) [] (rev stack) = stack.
Proof.
  intros (ords & k & -> & Ho & Hk). rewrite rev_app_distr, foldl_app.
  assert (rev (replicate k "..") = replicate k "..") as ->.
  { rewrite rev_alt. apply reverse_replicate. }
  destruct rooted.
  - rewrite (Hk eq_refl). simpl. rewrite foldl_push_ordinary by done. done.
  - rewrite foldl_push_dotdots. by apply foldl_push_ordinary.
Qed.

(** ** [Clean] is a projection onto normal forms *)

Lemma normal_lacks_slash rooted stack :
  normal rooted stack -> Forall (fun x => lacks slash x = true) stack.
Proof.
  intros (ords & k & -> & Ho & _). apply Forall_app. split.
  - eapply Forall_impl; [exact Ho|]. by intros e (?&?&?&?).
  - by apply Forall_replicate.
Qed.

Lemma normal_nonempty rooted stack : normal rooted stack -> Forall (fun e => e <> "") stack.
Proof.
  intros (ords & k & -> & Ho & _). apply Forall_app. split.
  - eapply Forall_impl; [exact Ho|]. by intros e (?&?&?&?).
  - by apply Forall_replicate.
Qed.

Lemma clean_elems_normal rooted p :
  normal rooted (rev (clean_elems rooted (split_on slash p))).
Proof.
  unfold clean_elems. rewrite rev_involutive. apply foldl_push_normal; [apply split_on_Forall|].
  by exists [], 0.
Qed.

Lemma Clean_render p : p <> "" ->
  Clean p = render_path (is_rooted p) (clean_elems (is_rooted p) (split_on slash p)).
Proof. by destruct p. Qed.

Lemma lacks_slash_not_rooted e t : e <> "" -> lacks slash e = true -> is_rooted (e +:+ t) = false.
Proof.
  destruct e as [|c e]; [done|]. simpl. intros _.
  rewrite andb_true_iff, bool_decide_eq_true. intros [H _].
  apply bool_decide_eq_false. congruence.
Qed.

Lemma render_rooted rooted stack :
  normal rooted stack -> is_rooted (render_path rooted (rev stack)) = rooted.
Proof.
  intros Hn. destruct rooted; [done|]. unfold render_path.
  pose proof (Forall_rev (normal_lacks_slash _ _ Hn)) as Hl.
  pose proof (Forall_rev (normal_nonempty _ _ Hn)) as He.
  destruct (rev stack) as [|e es]; [done|].
  inversion Hl; inversion He; subst. destruct es as [|e' es]; simpl.
  - rewrite <- (string_app_nil_r e). by apply lacks_slash_not_rooted.
  - by apply lacks_slash_not_rooted.
Qed.

Lemma render_nonempty rooted stack : normal rooted stack -> render_path rooted (rev stack) <> "".
Proof.
  intros Hn. unfold render_path. destruct rooted; [done|].
  pose proof (Forall_rev (normal_nonempty _ _ Hn)) as He.
  destruct (rev stack) as [|e es]; [done|]. inversion He; subst.
  destruct es; simpl; [done|]. by destruct e.
Qed.

(** Splitting a rendered normal form and pushing its elements rebuilds it. *)
Lemma push_render rooted stack :
  normal rooted stack ->
  foldl (push_elem rooted) [] (split_on slash (render_path rooted (rev stack))) = stack.
Proof.
  intros Hn. pose proof (foldl_push_self _ _ Hn) as Hself.
  pose proof (Forall_rev (normal_lacks_slash _ _ Hn)) as Hl.
  unfold render_path. destruct (rev stack) as [|e es] eqn:E.
  - simpl in Hself. subst. by destruct rooted.
  - change "/" with (String slash "") in *. destruct rooted.
    + change (split_on slash (String slash (join_with (String slash "") (e :: es))))
        with ("" :: split_on slash (join_with (String slash "") (e :: es))).
      rewrite split_join by done. exact Hself.
    + rewrite split_join by done. exact Hself.
Qed.

Lemma Clean_rooted p : is_rooted (Clean p) = is_rooted p.
Proof.
  destruct (decide (p = "")) as [->|Hp]; [done|]. rewrite Clean_render by done.
  rewrite <- (rev_involutive (clean_elems _ _)).
  apply render_rooted, clean_elems_normal.
Qed.

Lemma Clean_nonempty p : Clean p <> "".
Proof.
  destruct (decide (p = "")) as [->|Hp]; [done|]. rewrite Clean_render by done.
  rewrite <- (rev_involutive (clean_elems _ _)). apply render_nonempty, clean_elems_normal.
Qed.

Lemma push_Clean p :
  p <> "" ->
  foldl (push_elem (is_rooted p)) [] (split_on slash (Clean p))
  = foldl (push_elem (is_rooted p)) [] (split_on slash p).
Proof.
  intros Hp. rewrite Clean_render by done.
  rewrite <- (rev_involutive (clean_elems _ _)).
  rewrite push_render by apply clean_elems_normal.
  unfold clean_elems. apply rev_involutive.
Qed.

Lemma Clean_idempotent p : Clean (Clean p) = Clean p.
Proof.
  destruct (decide (p = "")) as [->|Hp]; [done|].
  rewrite (Clean_render (Clean p)) by apply Clean_nonempty.
  rewrite Clean_rooted. unfold clean_elems. rewrite push_Clean by done.
  by rewrite (Clean_render p).
Qed.

Lemma is_rooted_app a b : a <> "" -> is_rooted (a +:+ b) = is_rooted a.
Proof. by destruct a. Qed.

Lemma Clean_app_l a b : a <> "" -> Clean (Clean a +:+ String slash b) = Clean (a +:+ String slash b).
Proof.
  intros Ha. assert (Happ : forall x y, x <> "" -> x +:+ y <> "") by (by intros []).
  rewrite (Clean_render (Clean a +:+ _)) by apply Happ, Clean_nonempty.
  rewrite (Clean_render (a +:+ _)) by by apply Happ.
  rewrite !is_rooted_app by (done || apply Clean_nonempty). rewrite Clean_rooted.
  unfold clean_elems. rewrite !split_on_app, !foldl_app, push_Clean by done. done.
Qed.

(** Joining a relative name to a cleaned directory is joining it to the directory. *)
Lemma Join_Clean_l a b : b <> "" -> is_rooted b = false -> Join (Clean a) b = Join a b.
Proof.
  intros Hb Hr. destruct b as [|c b]; [done|].
  destruct (decide (a = "")) as [->|Ha].
  - change (Join (Clean "") (String c b)) with (Clean ("." +:+ String slash (String c b))).
    change (Join "" (String c b)) with (Clean (String c b)).
    rewrite !Clean_render by done. rewrite Hr.
    change (is_rooted ("." +:+ String slash (String c b))) with false.
    unfold clean_elems. rewrite split_on_app, foldl_app. done.
  - pose proof (Clean_nonempty a) as Hc. unfold Join.
    destruct (Clean a) as [|x ca] eqn:E; [done|].
    destruct a as [|y a]; [done|]. rewrite <- E. by apply Clean_app_l.
Qed.

Example Clean_ex1 : Clean "./ipfs-repo//x/../y/." = "ipfs-repo/y".
Proof. reflexivity. Qed.

Example Clean_ex2 : Clean "/../a/./../../b" = "/b".
Proof. reflexivity. Qed.

Example Clean_ex3 : Clean "a/../../.." = "../..".
Proof. reflexivity. Qed.

Example parent_ex : parent_dir "a/b/c" = "a/b".
Proof. reflexivity. Qed.

(** ** A file directly inside a directory *)

(** Joining an ordinary name to a directory appends it to the directory's elements. *)
Lemma Join_Clean_elems root fname :
  ordinary fname ->
  Join (Clean root) fname
  = render_path (is_rooted root) (clean_elems (is_rooted root) (split_on slash root) ++ [fname]).
Proof.
  intros Hf. assert (Hr : is_rooted fname = false).
  { destruct Hf as (? & _ & _ & ?). rewrite <- (string_app_nil_r fname). by apply lacks_slash_not_rooted. }
  assert (Hne : fname <> "") by apply Hf.
  rewrite Join_Clean_l by done. destruct (decide (root = "")) as [->|Hroot].
  - destruct fname as [|c s]; [done|]. change (Join "" (String c s)) with (Clean (String c s)).
    rewrite Clean_render, Hr by done. rewrite split_on_lacks by apply Hf.
    unfold clean_elems. simpl. by rewrite push_ordinary.
  - assert (Join root fname = Clean (root +:+ String slash fname)) as ->.
    { destruct root; [done|]. by destruct fname. }
    rewrite Clean_render by by destruct root. rewrite is_rooted_app by done.
    unfold clean_elems. rewrite split_on_app, foldl_app, (split_on_lacks _ fname) by apply Hf.
    simpl. by rewrite push_ordinary.
Qed.

Lemma parent_dir_Join root fname : ordinary fname -> parent_dir (Join (Clean root) fname) = Clean root.
Proof.
  intros Hf. rewrite Join_Clean_elems by done.
  pose proof (clean_elems_normal (is_rooted root) root) as Hn.
  set (es := clean_elems (is_rooted root) (split_on slash root)) in *.
  assert (Hn' : normal (is_rooted root) (rev (es ++ [fname]))).
  { rewrite rev_app_distr. simpl. destruct Hn as (ords & k & E & Ho & Hk).
    exists (fname :: ords), k. simpl. rewrite E. split; [done|]. by split; [constructor|]. }
  unfold parent_dir. rewrite <- (rev_involutive (es ++ [fname])).
  rewrite render_rooted by done. unfold clean_elems. rewrite push_render by done.
  rewrite rev_involutive, removelast_last.
  destruct (decide (root = "")) as [->|Hroot]; [done|]. by rewrite Clean_render.
Qed.

Lemma Clean_Join_Clean root fname : Clean (Join (Clean root) fname) = Join (Clean root) fname.
Proof.
  pose proof (Clean_nonempty root) as Hc. unfold Join.
  destruct (Clean root) as [|c r]; [done|]. apply Clean_idempotent.
Qed.

Lemma Join_Clean_nonempty root fname : Join (Clean root) fname <> "".
Proof.
  pose proof (Clean_nonempty root) as Hc. unfold Join.
  destruct (Clean root) as [|c r]; [done|]. apply Clean_nonempty.
Qed.

(** A file in a directory is not the directory. *)
Lemma Join_Clean_neq root fname : ordinary fname -> Join (Clean root) fname <> Clean root.
Proof.
  intros Hf Heq. pose proof (Join_Clean_elems root fname Hf) as He.
  pose proof (clean_elems_normal (is_rooted root) root) as Hn.
  set (es := clean_elems (is_rooted root) (split_on slash root)) in *.
  assert (Hn' : normal (is_rooted root) (rev (es ++ [fname]))).
  { rewrite rev_app_distr. simpl. destruct Hn as (ords & k & E & Ho & Hk).
    exists (fname :: ords), k. simpl. rewrite E. split; [done|]. by split; [constructor|]. }
  pose proof (push_render _ _ Hn') as Hp. rewrite rev_involutive, <- He, Heq in Hp.
  assert (Hc : foldl (push_elem (is_rooted root)) [] (split_on slash (Clean root)) = rev es).
  { destruct (decide (root = "")) as [->|Hr]; [done|]. rewrite push_Clean by done.
    unfold es, clean_elems. by rewrite rev_involutive. }
  rewrite Hc in Hp. apply (f_equal length) in Hp. rewrite !length_rev, length_app in Hp.
  simpl in Hp. lia.
Qed.
