(* ===== verification/GoOs.v ===== *)
(** * [os]: the file system of the host

    The calls of package [os] the repository code makes ([Stat], [Create],
    [File.WriteString], [Remove], [Mkdir]) over a finite map from cleaned paths
    to files and directories.  Paths are resolved lexically (no symbolic links);
    ["."] and ["/"] always exist.  [fs_fault op path] lets the host refuse a call
    (permissions, a full disk, a path through a regular file); a refused write
    may still have written a prefix, of [fs_short path] bytes. *)
From S2P Require Import Prelude GoStrings GoPath.

Inductive fnode := FFile (data : string) | FDir.

#[export] Instance fnode_eq_dec : EqDecision fnode.
Proof. solve_decision. Defined.

Record FS := mkFS {
  fs_tab : gmap string fnode;
  fs_fault : string -> string -> option error;
  fs_short : string -> nat;
}.

Definition fs_with_tab (f : gmap string fnode -> gmap string fnode) (fs : FS) : FS :=
  mkFS (f (fs_tab fs)) (fs_fault fs) (fs_short fs).

(** The map key a path resolves to; the empty path resolves to nothing. *)
Definition fs_key (p : string) : option string :=
  if decide (p = "") then None else Some (Clean p).

Definition fs_get (fs : FS) (k : string) : option fnode :=
  if decide (k = "." \/ k = "/") then Some FDir else fs_tab fs !! k.

Definition PathError (op p : string) (kind : errkind) (msg : string) : error :=
  mkError kind (op +:+ " " +:+ p +:+ ": " +:+ msg).

Definition ENOENT_at (op p : string) : error :=
  PathError op p ENotExist "no such file or directory".

(** [os.Stat]. *)
Definition os_Stat (p : string) (fs : FS) : result fnode :=
  match fs_fault fs "stat" p with
  | Some e => inr e
  | None =>
      match fs_key p ≫= fs_get fs with
      | Some n => inl n
      | None => inr (ENOENT_at "stat" p)
      end
  end.

(** The checks common to the calls that make a directory entry. *)
Definition parent_check (op p k : string) (fs : FS) : option error :=
  match fs_get fs (parent_dir k) with
  | Some FDir => None
  | Some (FFile _) => Some (PathError op p EOther "not a directory")
  | None => Some (ENOENT_at op p)
  end.

(** [os.Create]: truncates an existing file; the open file is named by its key. *)
Definition os_Create (p : string) (fs : FS) : result string * FS :=
  match fs_fault fs "create" p with
  | Some e => (inr e, fs)
  | None =>
      match fs_key p with
      | None => (inr (ENOENT_at "open" p), fs)
      | Some k =>
          match fs_get fs k with
          | Some FDir => (inr (PathError "open" p EOther "is a directory"), fs)
          | _ =>
              match parent_check "open" p k fs with
              | Some e => (inr e, fs)
              | None => (inl k, fs_with_tab <[k := FFile ""]> fs)
              end
          end
      end
  end.

(** [f.WriteString(s)] on the file [k], written from its start. *)
Definition File_WriteString (k s : string) (fs : FS) : option error * FS :=
  match fs_fault fs "write" k with
  | Some e => (Some e, fs_with_tab <[k := FFile (string_take (fs_short fs k) s)]> fs)
  | None => (None, fs_with_tab <[k := FFile s]> fs)
  end.

(** [os.Remove]. *)
Definition os_Remove (p : string) (fs : FS) : option error * FS :=
  match fs_fault fs "remove" p with
  | Some e => (Some e, fs)
  | None =>
      match fs_key p with
      | None => (Some (ENOENT_at "remove" p), fs)
      | Some k =>
          match fs_get fs k with
          | None => (Some (ENOENT_at "remove" p), fs)
          | Some FDir =>
              if decide (k = "." \/ k = "/" \/
                         filter (fun kv => parent_dir kv.1 = k) (fs_tab fs) <> ∅)
              then (Some (PathError "remove" p EOther "directory not empty"), fs)
              else (None, fs_with_tab (delete k) fs)
          | Some (FFile _) => (None, fs_with_tab (delete k) fs)
          end
      end
  end.

(** [os.Mkdir]. *)
Definition os_Mkdir (p : string) (fs : FS) : option error * FS :=
  match fs_fault fs "mkdir" p with
  | Some e => (Some e, fs)
  | None =>
      match fs_key p with
      | None => (Some (ENOENT_at "mkdir" p), fs)
      | Some k =>
          match fs_get fs k with
          | Some _ => (Some (PathError "mkdir" p EOther "file exists"), fs)
          | None =>
              match parent_check "mkdir" p k fs with
              | Some e => (Some e, fs)
              | None => (None, fs_with_tab <[k := FDir]> fs)
              end
          end
      end
  end.

(** [os.IsNotExist(err)] and [errors.Is(err, os.ErrNotExist)]. *)
Definition is_not_exist (e : error) : bool := bool_decide (err_kind e = ENotExist).

(** [os.IsPermission(err)]. *)
Definition is_permission (e : error) : bool := bool_decide (err_kind e = EPermission).
