(* ===== verification/Ext.v ===== *)
(** * The code the glue is linked with

    Everything that is not in this repository (go-ipfs, libp2p, multiaddr,
    prometheus, the plugin loader) is a parameter: its data types are the fields
    of [ExtTypes], its functions those of [External].  A function with effects
    runs on [Env], the host file system together with whatever state the
    third-party code keeps; the three that can end in a panic say so in their
    result.  No law is assumed here; a theorem that needs a
    documented behaviour of one of these functions states it as a hypothesis. *)
From S2P Require Import Prelude GoStrings GoOs.

(** Types occurring in a go-ipfs configuration. *)
Class CfgTypes := {
  cfg_rest : Type;          (** fields of [config.Config] the glue never touches *)
  Flag : Type;              (** [config.Flag] *)
  ServiceMode : Type;       (** [config.AutoNATServiceMode] *)
  AddrInfo : Type;          (** [peer.AddrInfo] *)
}.

Class ExtTypes := {
  et_cfg :: CfgTypes;
  ext_st : Type;            (** state of all third-party code *)
  Multiaddr : Type;         (** [ma.Multiaddr] *)
  Identity : Type;          (** [config.Identity] *)
  loader_rest : Type;       (** [loader.PluginLoader] after its first word *)
  Repo : Type;              (** [repo.Repo] *)
  Listener : Type;          (** [manet.Listener] *)
  ipfs_rest : Type;         (** the rest of [core.IpfsNode] *)
  CoreAPI : Type;           (** [coreiface.CoreAPI] *)
  KeyEncoder : Type;        (** [keyencode.KeyEncoder] *)
  Cid : Type;               (** [cid.Cid] *)
  IPath : Type;             (** [corepath.Path] *)
  GPath : Type;             (** [path.Path] of go-path *)
  FileReader : Type;        (** [files.File] *)
  float64 : Type;           (** a metric value *)
}.

(** [config.AutoNATThrottleConfig], as far as the glue sets it. *)
Record Throttle := mkThrottle { GlobalLimit : Z; PeerLimit : Z }.

(** [config.Config]: one field per path the glue reads or writes. *)
Record Config `{CfgTypes} := mkConfig {
  ConnMgr_LowWater : Z;
  ConnMgr_HighWater : Z;
  ConnMgr_GracePeriod : string;
  Swarm_EnableAutoRelay : bool;
  Swarm_EnableRelayHop : bool;
  Network_Relay : Flag;
  Routing_Type : string;
  Datastore_StorageMax : string;
  AutoNAT_ServiceMode : ServiceMode;
  AutoNAT_Throttle : option Throttle;
  Addresses_Swarm : list string;
  Addresses_API : list string;
  Addresses_Gateway : list string;
  Bootstrap : list string;
  Peering_Peers : list AddrInfo;
  Gateway_Writable : bool;
  Gateway_RootRedirect : string;
  Experimental_P2pHttpProxy : bool;
  cfg_other : cfg_rest;
}.

(** [loader.PluginLoader]: its first word is the state the glue pokes. *)
Record PluginLoader `{ExtTypes} := mkLoader { pl_state : Z; pl_rest : loader_rest }.

(** [core.IpfsNode]: the fields the glue reads or writes. *)
Record IpfsNode `{ExtTypes} := mkIpfs {
  IsDaemon : bool;
  IsOnline : bool;
  PNetFingerprint : option string;
  in_rest : ipfs_rest;
}.

(** [libp2p] routing options, by name. *)
Inductive RoutingOption := DHTClientOption | DHTOption | DHTServerOption | NilRouterOption.

#[export] Instance RoutingOption_eq_dec : EqDecision RoutingOption.
Proof. solve_decision. Defined.

(** [core.BuildCfg], the fields the glue sets. *)
Record BuildCfg `{ExtTypes} := mkBuildCfg {
  bc_Repo : Repo;
  bc_Permanent : bool;
  bc_Online : bool;
  bc_DisableEncryptedConnections : bool;
  bc_ExtraOpts : gmap string bool;
  bc_Routing : RoutingOption;
}.

(** A component of a multiaddr: its protocol code and its value's text. *)
Record Component := mkComp { comp_Code : Z; comp_Value : string }.

(** The options of [Unixfs().Add] in use. *)
Inductive AddOption := Unixfs_HashOnly (b : bool) | Unixfs_Pin (b : bool).

(** The dynamic type of a [files.Node]. *)
Inductive FilesNode `{ExtTypes} := FN_File (f : FileReader) | FN_Directory | FN_Other.

Arguments mkConfig {_} _ _ _ _ _ _ _ _ _ _ _ _ _ _ _ _ _ _ _.
Arguments mkLoader {_} _ _.
Arguments mkIpfs {_} _ _ _ _.
Arguments mkBuildCfg {_} _ _ _ _ _ _.
Arguments FN_File {_} _.
Arguments FN_Directory {_}.
Arguments FN_Other {_}.

(** [corehttp.ServeOption] values, by constructor. *)
Inductive ServeOption :=
| MetricsCollectionOption (handler : string)
| MetricsOpenCensusCollectionOption
| CheckVersionOption
| CommandsOption (gateway : bool)
| CommandsROOption (gateway : bool)
| GatewayOption (writable : bool) (paths : list string)
| VersionOption
| HostnameOption
| P2PProxyOption
| DefaultMux (path : string)
| MutexFractionOption (path : string)
| MetricsScrapingOption (path : string)
| LogOption
| RedirectOption (prefix path : string).

Section env.
Context `{ExtTypes}.

Record Env := mkEnv { env_fs : FS; env_x : ext_st }.

Definition Ext (A : Type) : Type := Env -> A * Env.
End env.

Class External `{ExtTypes} := {
  (** Constants. *)
  Flag_True : Flag;
  Flag_String : Flag -> string;
  AutoNATServiceEnabled : ServiceMode;
  AutoNATServiceDisabled : ServiceMode;
  P_TCP : Z;
  P_UDP : Z;
  WebUIPaths : list string;
  CurrentVersionNumber : string;
  CurrentCommit : string;
  fsrepo_RepoVersion : Z;
  runtime_GOARCH : string;
  runtime_GOOS : string;
  runtime_Version : string;
  GoIntBits : Z;  (** the width of [int] *)
  float_zero : float64;
  float_add : float64 -> float64 -> float64;
  float_uint32 : float64 -> Z;  (** the conversion [uint32(f)], before it is cut to 32 bits *)
  (** Pure functions. *)
  ma_NewMultiaddr : string -> result Multiaddr;
  ma_components : Multiaddr -> list Component;
  ma_String : Multiaddr -> string;
  config_ParseBootstrapPeers : list string -> result (list AddrInfo);
  config_BootstrapPeerStrings : list AddrInfo -> list string;
  peer_AddrInfosFromP2pAddrs : list Multiaddr -> result (list AddrInfo);
  config_Profiles : string -> option (Config -> Config * option error);
  config_Clone : Config -> result Config;
  Listener_Multiaddr : Listener -> Multiaddr;
  keyencode_FromString : string -> result KeyEncoder;
  ke_FormatID : KeyEncoder -> IpfsNode -> string;
  corepath_New : string -> IPath;
  path_ParseCidToPath : string -> result GPath;
  Cid_String : Cid -> string;
  fmt_Duration : Z -> string;
  (** Functions with effects. *)
  time_Now : Ext Z;
  log_date : Ext string;
  log_time : Ext string;
  config_CreateIdentity : Ext (result Identity);
  config_InitWithIdentity : Identity -> Ext (result Config);
  fsrepo_IsInitialized : string -> Ext bool;
  fsrepo_Init : string -> Config -> Ext (option error);
  fsrepo_Open : string -> Ext (result Repo);
  repo_Config : Repo -> Ext (result Config);
  repo_SetConfig : Repo -> Config -> Ext (option error);
  loader_New : string -> Ext (result PluginLoader);
  loader_Initialize : PluginLoader -> Ext (option error * PluginLoader);
  loader_Inject : PluginLoader -> Ext (option error * PluginLoader);
  loader_Start : PluginLoader -> IpfsNode -> Ext (option error * PluginLoader);
  loader_Close : PluginLoader -> Ext (option error * PluginLoader);
  mprome_Inject : Ext (option error);
  core_NewNode : bool -> BuildCfg -> Ext (result IpfsNode);
  node_Close : IpfsNode -> Ext (option error);
  cctx_GetConfig : string -> option (string -> outcome (result Config)) -> Ext (outcome (result Config));
  manet_Listen : Multiaddr -> Ext (result Listener);
  node_SetAPIAddr : IpfsNode -> Multiaddr -> Ext (option error);
  promauto_ipfs_info : string -> string -> Ext (outcome unit);
  prometheus_MustRegister : IpfsNode -> Ext (outcome unit);
  prometheus_Unregister : IpfsNode -> Ext bool;
  coreapi_New : IpfsNode -> Ext (result CoreAPI);
  Swarm_Peers : CoreAPI -> IpfsNode -> Ext (result (list (string * string)));
  InterfaceListenAddresses : IpfsNode -> Ext (list string * option error);
  PeerHost_Addrs : IpfsNode -> Ext (list string);
  Unixfs_Add : CoreAPI -> bool -> string -> AddOption -> Ext (result Cid);
  Unixfs_Get : CoreAPI -> bool -> IPath -> Ext (result FilesNode);
  ioutil_ReadAll : FileReader -> Ext (result string);
  Pin_Add : CoreAPI -> bool -> IPath -> Ext (option error);
  Pin_Rm : CoreAPI -> bool -> IPath -> Ext (option error);
  PublishWithEOL : bool -> IpfsNode -> GPath -> Z -> Ext (option error);
  GarbageCollect : IpfsNode -> bool -> Ext (option error);
  GarbageCollect_nil : bool -> Ext (outcome (option error));
  PeersTotalValues : IpfsNode -> Ext (list float64);
  PeriodicGC : bool -> IpfsNode -> Ext (option error);
  PeriodicGC_nil : bool -> Ext (outcome (option error));
  corehttp_Serve : IpfsNode -> Listener -> list ServeOption -> Ext (option error);
}.
