(* ===== verification/World.v ===== *)
(** * The state of the process

    One record holds what the glue keeps: its package variables, the heap of
    [Node] structs, the contexts with their cancellation state, the channels of
    the serving goroutines, the goroutines that have been started, the standard
    logger and the C heap.  [w_trace] records what is observable from outside:
    calls into third-party code and the callbacks into C++. *)
From S2P Require Import Prelude GoStrings GoOs Ext.

(** ** Events *)

(** [data] is the content of the C block passed to the callback, [None] for NULL. *)
Inductive event :=
| ECall (name : string)
| EVoidCB (fn err arg : Z)
| EDataCB (fn err : Z) (data : option string) (size arg : Z)
| EStateCB (fn arg : Z) (err : option string) (peercnt : Z)
| ELogCB (fn : Z) (bytes : string)
| EStderr (line : string).

#[export] Instance event_eq_dec : EqDecision event.
Proof. solve_decision. Defined.

(** ** Error codes of include/ipfs_error_codes.h *)
Definition IPFS_SUCCESS : Z := 0.
Definition IPFS_NODE_EXISTS : Z := 1.
Definition IPFS_PARSE_CONFIG_FAIL : Z := 2.
Definition IPFS_READ_CONFIG_FAILED : Z := 3.
Definition IPFS_CREATE_REPO_FAILED : Z := 4.
Definition IPFS_OPEN_REPO_FAILED : Z := 5.
Definition IPFS_PLUGINS_FAILED : Z := 6.
Definition IPFS_API_ACCESS_FAILED : Z := 7.
Definition IPFS_START_NODE_FAILED : Z := 8.
Definition IPFS_MPROME_INJECT_FAILED : Z := 9.
Definition IPFS_NO_NODE : Z := 12.
Definition IPFS_ADD_FAILED : Z := 14.
Definition IPFS_CAT_FAILED : Z := 15.
Definition IPFS_READ_FAILED : Z := 16.
Definition IPFS_PUBLISH_FAILED : Z := 17.
Definition IPFS_PIN_FAILED : Z := 18.
Definition IPFS_UNPIN_FAILED : Z := 19.
Definition IPFS_GC_FAILED : Z := 20.
Definition IPFS_API_FAILED : Z := 21.
Definition IPFS_GATEWAY_FAILED : Z := 22.
Definition IPFS_BUILD_ENV_FAILED : Z := 24.
Definition IPFS_CALC_CID_FAILED : Z := 25.

(** ** Package [log] *)

(** ipfs_log.go: [CustomLog]; a NULL callback is 0. *)
Record CustomLog := mkCustomLog { log_cb : Z }.

Inductive LogOutput := OutStderr | OutCustom (l : CustomLog).

Record Logger := mkLogger { lg_flags : Z; lg_out : LogOutput }.

(** ** Channels of the serving goroutines

    An unbuffered [chan error] with the goroutines blocked in a send on it
    ([true]: the garbage collector's, which closes the channel after its send;
    [false]: a server's, which then signals the wait group). *)
Record Chan := mkChan {
  ch_sendq : list (option error * bool);
  ch_wg : nat;
  ch_closed : bool;
}.

(** ** The [Node] struct and its command context (ipfs_node.go) *)
Section state.
Context `{ExtTypes}.

(** [oldcmds.Context] as [buildEnv] fills it: [LoadConfig] is nil or the closure
    that captures the repository path and the configuration, [ConstructNode] the
    closure that captures the node's address. *)
Record CmdCtx := mkCmdCtx {
  ConfigRoot : string;
  LoadConfig : option (string * Config);
  Plugins : PluginLoader;
  ConstructNode : nat;
  Gateway : bool;
}.

(** ipfs_node.go: [Node].  [n_cancel] is the context its [CancelFunc] cancels,
    and [n_cancel_signals] maps a signal to the context its function cancels. *)
Record Node := mkNode {
  n_ctx : nat;
  n_cctx : option CmdCtx;
  n_node : option IpfsNode;
  n_api : option CoreAPI;
  n_collector : option IpfsNode;
  n_cancel : nat;
  n_next_cancel_signal_id : Z;
  n_cancel_signals : gmap Z nat;
  n_state_cb : Z;
  n_state_cb_arg : Z;
  n_log_cb : Z;
}.

(** The state of the monitor goroutine of [start_node]: its captured channels
    (a nil channel is [None]), the last peer count and the last error. *)
Record Monitor := mkMonitor {
  mon_node : nat;
  mon_gcErrc : option nat;
  mon_apiErrc : option nat;
  mon_gwErrc : option nat;
  mon_pcnt : Z;
  mon_lasterr : option error;
}.

(** The [go] statements of the source, with the variables they capture. *)
Inductive Goroutine :=
| GVoidCB (fn code fn_arg : Z)
| GDataCB (fn code fn_arg : Z)
| GStart (cfg : string) (n : nat) (repoRoot : string) (fn fn_arg : Z)
| GPublish (cancel_ctx : nat) (seconds : Z) (n : nat) (id : string) (fn fn_arg : Z)
| GCalcCid (cancel_ctx n : nat) (msg : string) (fn fn_arg : Z)
| GAdd (cancel_ctx n : nat) (msg : string) (pin : bool) (fn fn_arg : Z)
| GCat (cancel_ctx n : nat) (cid : string) (fn fn_arg : Z)
| GPin (cancel_ctx n : nat) (cid : string) (fn fn_arg : Z)
| GUnpin (cancel_ctx n : nat) (cid : string) (fn fn_arg : Z)
| GGc (cancel_ctx n : nat) (fn fn_arg : Z)
| GPeriodicGC (n errc : nat)
| GCloseGC (errc : nat)
| GServe (errc : nat) (node : IpfsNode) (lis : Listener) (opts : list ServeOption)
| GWaitClose (errc : nat)
| GMonitorStart (m : Monitor)
| GMonitor (m : Monitor).

Record World := mkWorld {
  w_gnode : option nat;  (** [g_node] *)
  w_mprome_injected : bool;  (** [g_mprome_injected] *)
  w_mporme_metrics : bool;  (** [g_mporme_metrics] *)
  w_plugins_injected : bool;  (** [g_plugins_injected] *)
  w_next : nat;  (** next unused address (nodes, contexts, channels) *)
  w_nodes : gmap nat Node;  (** the [Node] structs, by address *)
  w_ctx_anc : gmap nat (list nat);  (** contexts: each with its ancestors, itself first *)
  w_cancelled : gset nat;  (** contexts whose [CancelFunc] has been called *)
  w_chans : gmap nat Chan;  (** channels made by the serving functions *)
  w_gor : list Goroutine;  (** goroutines started and not finished *)
  w_logger : Logger;  (** the standard logger of package [log] *)
  w_cnext : nat;  (** next unused C address (0 is NULL) *)
  w_cheap : gmap nat string;  (** live blocks of the C heap *)
  w_trace : list event;  (** what has happened, oldest first *)
  w_env : Env;  (** host file system and third-party state *)
}.

(** Field updates. *)
Definition upd_gnode (f : option nat -> option nat) (w : World) : World :=
  mkWorld (f (w_gnode w)) (w_mprome_injected w) (w_mporme_metrics w) (w_plugins_injected w) (w_next w) (w_nodes w) (w_ctx_anc w) (w_cancelled w) (w_chans w) (w_gor w) (w_logger w) (w_cnext w) (w_cheap w) (w_trace w) (w_env w).

Definition upd_mprome_injected (f : bool -> bool) (w : World) : World :=
  mkWorld (w_gnode w) (f (w_mprome_injected w)) (w_mporme_metrics w) (w_plugins_injected w) (w_next w) (w_nodes w) (w_ctx_anc w) (w_cancelled w) (w_chans w) (w_gor w) (w_logger w) (w_cnext w) (w_cheap w) (w_trace w) (w_env w).

Definition upd_mporme_metrics (f : bool -> bool) (w : World) : World :=
  mkWorld (w_gnode w) (w_mprome_injected w) (f (w_mporme_metrics w)) (w_plugins_injected w) (w_next w) (w_nodes w) (w_ctx_anc w) (w_cancelled w) (w_chans w) (w_gor w) (w_logger w) (w_cnext w) (w_cheap w) (w_trace w) (w_env w).

Definition upd_plugins_injected (f : bool -> bool) (w : World) : World :=
  mkWorld (w_gnode w) (w_mprome_injected w) (w_mporme_metrics w) (f (w_plugins_injected w)) (w_next w) (w_nodes w) (w_ctx_anc w) (w_cancelled w) (w_chans w) (w_gor w) (w_logger w) (w_cnext w) (w_cheap w) (w_trace w) (w_env w).

Definition upd_next (f : nat -> nat) (w : World) : World :=
  mkWorld (w_gnode w) (w_mprome_injected w) (w_mporme_metrics w) (w_plugins_injected w) (f (w_next w)) (w_nodes w) (w_ctx_anc w) (w_cancelled w) (w_chans w) (w_gor w) (w_logger w) (w_cnext w) (w_cheap w) (w_trace w) (w_env w).

Definition upd_nodes (f : gmap nat Node -> gmap nat Node) (w : World) : World :=
  mkWorld (w_gnode w) (w_mprome_injected w) (w_mporme_metrics w) (w_plugins_injected w) (w_next w) (f (w_nodes w)) (w_ctx_anc w) (w_cancelled w) (w_chans w) (w_gor w) (w_logger w) (w_cnext w) (w_cheap w) (w_trace w) (w_env w).

Definition upd_ctx_anc (f : gmap nat (list nat) -> gmap nat (list nat)) (w : World) : World :=
  mkWorld (w_gnode w) (w_mprome_injected w) (w_mporme_metrics w) (w_plugins_injected w) (w_next w) (w_nodes w) (f (w_ctx_anc w)) (w_cancelled w) (w_chans w) (w_gor w) (w_logger w) (w_cnext w) (w_cheap w) (w_trace w) (w_env w).

Definition upd_cancelled (f : gset nat -> gset nat) (w : World) : World :=
  mkWorld (w_gnode w) (w_mprome_injected w) (w_mporme_metrics w) (w_plugins_injected w) (w_next w) (w_nodes w) (w_ctx_anc w) (f (w_cancelled w)) (w_chans w) (w_gor w) (w_logger w) (w_cnext w) (w_cheap w) (w_trace w) (w_env w).

Definition upd_chans (f : gmap nat Chan -> gmap nat Chan) (w : World) : World :=
  mkWorld (w_gnode w) (w_mprome_injected w) (w_mporme_metrics w) (w_plugins_injected w) (w_next w) (w_nodes w) (w_ctx_anc w) (w_cancelled w) (f (w_chans w)) (w_gor w) (w_logger w) (w_cnext w) (w_cheap w) (w_trace w) (w_env w).

Definition upd_gor (f : list Goroutine -> list Goroutine) (w : World) : World :=
  mkWorld (w_gnode w) (w_mprome_injected w) (w_mporme_metrics w) (w_plugins_injected w) (w_next w) (w_nodes w) (w_ctx_anc w) (w_cancelled w) (w_chans w) (f (w_gor w)) (w_logger w) (w_cnext w) (w_cheap w) (w_trace w) (w_env w).

Definition upd_logger (f : Logger -> Logger) (w : World) : World :=
  mkWorld (w_gnode w) (w_mprome_injected w) (w_mporme_metrics w) (w_plugins_injected w) (w_next w) (w_nodes w) (w_ctx_anc w) (w_cancelled w) (w_chans w) (w_gor w) (f (w_logger w)) (w_cnext w) (w_cheap w) (w_trace w) (w_env w).

Definition upd_cnext (f : nat -> nat) (w : World) : World :=
  mkWorld (w_gnode w) (w_mprome_injected w) (w_mporme_metrics w) (w_plugins_injected w) (w_next w) (w_nodes w) (w_ctx_anc w) (w_cancelled w) (w_chans w) (w_gor w) (w_logger w) (f (w_cnext w)) (w_cheap w) (w_trace w) (w_env w).

Definition upd_cheap (f : gmap nat string -> gmap nat string) (w : World) : World :=
  mkWorld (w_gnode w) (w_mprome_injected w) (w_mporme_metrics w) (w_plugins_injected w) (w_next w) (w_nodes w) (w_ctx_anc w) (w_cancelled w) (w_chans w) (w_gor w) (w_logger w) (w_cnext w) (f (w_cheap w)) (w_trace w) (w_env w).

Definition upd_trace (f : list event -> list event) (w : World) : World :=
  mkWorld (w_gnode w) (w_mprome_injected w) (w_mporme_metrics w) (w_plugins_injected w) (w_next w) (w_nodes w) (w_ctx_anc w) (w_cancelled w) (w_chans w) (w_gor w) (w_logger w) (w_cnext w) (w_cheap w) (f (w_trace w)) (w_env w).

Definition upd_env (f : Env -> Env) (w : World) : World :=
  mkWorld (w_gnode w) (w_mprome_injected w) (w_mporme_metrics w) (w_plugins_injected w) (w_next w) (w_nodes w) (w_ctx_anc w) (w_cancelled w) (w_chans w) (w_gor w) (w_logger w) (w_cnext w) (w_cheap w) (w_trace w) (f (w_env w)).

(** Assignments to the fields of a [Node]. *)
Definition set_n_cctx (x : option CmdCtx) (n : Node) : Node :=
  mkNode (n_ctx n) x (n_node n) (n_api n) (n_collector n) (n_cancel n) (n_next_cancel_signal_id n) (n_cancel_signals n) (n_state_cb n) (n_state_cb_arg n) (n_log_cb n).

Definition set_n_node (x : option IpfsNode) (n : Node) : Node :=
  mkNode (n_ctx n) (n_cctx n) x (n_api n) (n_collector n) (n_cancel n) (n_next_cancel_signal_id n) (n_cancel_signals n) (n_state_cb n) (n_state_cb_arg n) (n_log_cb n).

Definition set_n_api (x : option CoreAPI) (n : Node) : Node :=
  mkNode (n_ctx n) (n_cctx n) (n_node n) x (n_collector n) (n_cancel n) (n_next_cancel_signal_id n) (n_cancel_signals n) (n_state_cb n) (n_state_cb_arg n) (n_log_cb n).

Definition set_n_collector (x : option IpfsNode) (n : Node) : Node :=
  mkNode (n_ctx n) (n_cctx n) (n_node n) (n_api n) x (n_cancel n) (n_next_cancel_signal_id n) (n_cancel_signals n) (n_state_cb n) (n_state_cb_arg n) (n_log_cb n).

Definition set_n_next_cancel_signal_id (x : Z) (n : Node) : Node :=
  mkNode (n_ctx n) (n_cctx n) (n_node n) (n_api n) (n_collector n) (n_cancel n) x (n_cancel_signals n) (n_state_cb n) (n_state_cb_arg n) (n_log_cb n).

Definition set_n_cancel_signals (x : gmap Z nat) (n : Node) : Node :=
  mkNode (n_ctx n) (n_cctx n) (n_node n) (n_api n) (n_collector n) (n_cancel n) (n_next_cancel_signal_id n) x (n_state_cb n) (n_state_cb_arg n) (n_log_cb n).

End state.
