(* ===== verification/Toy.v ===== *)
(** * A concrete third-party world

    A small executable instance of [ExtTypes] and [External], on which the
    witnesses of the theorems are evaluated: repositories are a map from paths to
    configurations, multiaddrs are parsed component by component, prometheus
    keeps the number of registered collectors, and any function whose name is in
    [t_fail] reports an error.  The instances are local: a file that evaluates
    witnesses on them declares them itself. *)
From S2P Require Import Prelude GoStrings GoPath GoOs Ext World.
From Stdlib Require Import Ascii.

Definition toy_cfg : CfgTypes := {|
  cfg_rest := unit;
  Flag := bool;
  ServiceMode := bool;
  AddrInfo := string;
|}.
#[local] Existing Instance toy_cfg.

Record toy_st := mkToy {
  t_fail : list string;
  t_repos : gmap string Config;
  t_default : Config;
  t_registered : nat;
  t_info : nat;
  t_store : gmap string string;
}.

Definition toy_types : ExtTypes := {|
  ext_st := toy_st;
  Multiaddr := list Component;
  Identity := unit;
  loader_rest := unit;
  Repo := string;
  Listener := list Component;
  ipfs_rest := unit;
  CoreAPI := unit;
  KeyEncoder := unit;
  Cid := string;
  IPath := string;
  GPath := string;
  FileReader := string;
  float64 := Z;
|}.
#[local] Existing Instance toy_types.

(** Decimal text of a port. *)
Fixpoint toy_digits (acc : Z) (s : string) : option Z :=
  match s with
  | "" => Some acc
  | String c s' =>
      let n := nat_of_ascii c in
      if decide (48 <= n <= 57) then toy_digits (10 * acc + (Z.of_nat n - 48)) s' else None
  end.

Definition toy_port (s : string) : bool :=
  match s with
  | "" => false
  | _ => match toy_digits 0 s with Some p => bool_decide (0 <= p <= 65535)%Z | None => false end
  end.

(** Protocol names with their codes; ["quic"] carries no value. *)
Definition toy_code (p : string) : option Z :=
  if decide (p = "tcp") then Some 6%Z
  else if decide (p = "udp") then Some 273%Z
  else if decide (p = "ip4") then Some 4%Z
  else if decide (p = "ip6") then Some 41%Z
  else if decide (p = "dns4") then Some 54%Z
  else if decide (p = "p2p") then Some 421%Z
  else None.

Fixpoint toy_parse (segs : list string) : result (list Component) :=
  match segs with
  | [] => inl []
  | p :: rest =>
      if decide (p = "quic") then
        match toy_parse rest with inl cs => inl (mkComp 460 "" :: cs) | inr e => inr e end
      else
        match toy_code p, rest with
        | Some c, v :: rest' =>
            if decide ((c = 6%Z \/ c = 273%Z) /\ toy_port v = false)
            then inr (Errorf "failed to parse multiaddr: bad port")
            else match toy_parse rest' with inl cs => inl (mkComp c v :: cs) | inr e => inr e end
        | _, _ => inr (Errorf "failed to parse multiaddr")
        end
  end.

Definition toy_NewMultiaddr (s : string) : result (list Component) :=
  match split_on slash s with
  | "" :: segs => toy_parse segs
  | _ => inr (Errorf "failed to parse multiaddr: must begin with /")
  end.

Section toy_ops.
Definition tenv := @Env toy_types.

Definition tupd (f : toy_st -> toy_st) (e : tenv) : tenv := mkEnv (env_fs e) (f (env_x e)).

Definition toy_err (name : string) : error := Errorf (name +:+ " failed").

(** [name] fails when it is listed in [t_fail], and otherwise runs [op]. *)
Definition toy_try {A} (name : string) (op : tenv -> A * tenv) : tenv -> (A + error) * tenv :=
  fun e => if decide (name ∈ t_fail (env_x e)) then (inr (toy_err name), e)
           else let '(a, e') := op e in (inl a, e').

Definition toy_opt (name : string) (op : tenv -> tenv) : tenv -> option error * tenv :=
  fun e => if decide (name ∈ t_fail (env_x e)) then (Some (toy_err name), e) else (None, op e).

Definition toy_loader_op (name : string) (state : Z) (l : @PluginLoader toy_types) :
    tenv -> (option error * @PluginLoader toy_types) * tenv :=
  fun e => if decide (name ∈ t_fail (env_x e)) then ((Some (toy_err name), l), e)
           else ((None, mkLoader state (pl_rest l)), e).

Definition toy_put_repo (r : string) (c : Config) : tenv -> tenv :=
  tupd (fun s => mkToy (t_fail s) (<[r := c]> (t_repos s)) (t_default s) (t_registered s)
                       (t_info s) (t_store s)).

Definition toy_register (d : nat -> nat) : tenv -> tenv :=
  tupd (fun s => mkToy (t_fail s) (t_repos s) (t_default s) (d (t_registered s)) (t_info s)
                       (t_store s)).

Definition toy_add_info : tenv -> tenv :=
  tupd (fun s => mkToy (t_fail s) (t_repos s) (t_default s) (t_registered s) (S (t_info s))
                       (t_store s)).

Definition toy_put (k v : string) : tenv -> tenv :=
  tupd (fun s => mkToy (t_fail s) (t_repos s) (t_default s) (t_registered s) (t_info s)
                       (<[k := v]> (t_store s))).

Definition toy_set_storage (m : string) (c : Config) : Config :=
  mkConfig (ConnMgr_LowWater c) (ConnMgr_HighWater c) (ConnMgr_GracePeriod c)
    (Swarm_EnableAutoRelay c) (Swarm_EnableRelayHop c) (Network_Relay c) (Routing_Type c)
    m (AutoNAT_ServiceMode c) (AutoNAT_Throttle c) (Addresses_Swarm c)
    (Addresses_API c) (Addresses_Gateway c) (Bootstrap c) (Peering_Peers c)
    (Gateway_Writable c) (Gateway_RootRedirect c) (Experimental_P2pHttpProxy c) (cfg_other c).
End toy_ops.

Definition toy_ext : External := {|
  Flag_True := true;
  Flag_String := fun b : bool => if b then "true" else "false";
  AutoNATServiceEnabled := true;
  AutoNATServiceDisabled := false;
  P_TCP := 6;
  P_UDP := 273;
  WebUIPaths := ["/ipfs/webui"];
  CurrentVersionNumber := "0.10.0";
  CurrentCommit := "64b532f";
  fsrepo_RepoVersion := 11;
  runtime_GOARCH := "amd64";
  runtime_GOOS := "linux";
  runtime_Version := "go1.16";
  GoIntBits := 64;
  float_zero := 0%Z;
  float_add := Z.add;
  float_uint32 := u32;
  ma_NewMultiaddr := toy_NewMultiaddr;
  ma_components := fun m => m;
  ma_String := fun m => join_with "" (map comp_Value m);
  config_ParseBootstrapPeers := fun l => if decide ("" ∈ l) then inr (toy_err "ParseBootstrapPeers") else inl l;
  config_BootstrapPeerStrings := fun l => l;
  peer_AddrInfosFromP2pAddrs := fun l => inl (map (fun m => join_with "/" (map comp_Value m)) l);
  config_Profiles := fun p =>
    if decide (p = "server") then Some (fun c => (toy_set_storage "20GB" c, None)) else None;
  config_Clone := fun c => inl c;
  Listener_Multiaddr := fun l => l;
  keyencode_FromString := fun _ => inl tt;
  ke_FormatID := fun _ _ => "QmToyId";
  corepath_New := fun s => s;
  path_ParseCidToPath := fun s => if decide (s = "") then inr (toy_err "ParseCidToPath") else inl s;
  Cid_String := fun c => c;
  fmt_Duration := fun _ => "1ms";
  time_Now := fun e => (0%Z, e);
  log_date := fun e => ("2021/10/01", e);
  log_time := fun e => ("12:00:00", e);
  config_CreateIdentity := toy_try "CreateIdentity" (fun e => (tt, e));
  config_InitWithIdentity := fun _ => toy_try "InitWithIdentity" (fun e => (t_default (env_x e), e));
  fsrepo_IsInitialized := fun r e => (bool_decide (is_Some (t_repos (env_x e) !! r)), e);
  fsrepo_Init := fun r c => toy_opt "fsrepo.Init" (toy_put_repo r c);
  fsrepo_Open := fun r => toy_try "fsrepo.Open" (fun e => (r, e));
  repo_Config := fun r => toy_try "repo.Config" (fun e => (default (t_default (env_x e)) (t_repos (env_x e) !! r), e));
  repo_SetConfig := fun r c => toy_opt "repo.SetConfig" (toy_put_repo r c);
  loader_New := fun _ => toy_try "NewPluginLoader" (fun e => (mkLoader 0 tt, e));
  loader_Initialize := toy_loader_op "Initialize" 2;
  loader_Inject := toy_loader_op "Inject" 4;
  loader_Start := fun l _ => toy_loader_op "Start" 6 l;
  loader_Close := toy_loader_op "Close" 8;
  mprome_Inject := toy_opt "mprome.Inject" (fun e => e);
  core_NewNode := fun _ _ => toy_try "core.NewNode" (fun e => (mkIpfs false true None tt, e));
  node_Close := fun _ => toy_opt "node.Close" (fun e => e);
  cctx_GetConfig := fun r f => fun e =>
    (match f with None => Ok (inr (Errorf "nil LoadConfig function")) | Some g => g r end, e);
  manet_Listen := fun m => toy_try "manet.Listen" (fun e => (m, e));
  node_SetAPIAddr := fun _ _ => toy_opt "SetAPIAddr" (fun e => e);
  promauto_ipfs_info := fun _ _ e =>
    (if decide (t_info (env_x e) = 0) then Ok tt else Panic "duplicate metrics collector registration attempted",
     toy_add_info e);
  prometheus_MustRegister := fun _ e =>
    (if decide (t_registered (env_x e) = 0) then Ok tt else Panic "duplicate metrics collector registration attempted",
     toy_register S e);
  prometheus_Unregister := fun _ e => (true, toy_register pred e);
  coreapi_New := fun _ => toy_try "NewCoreAPI" (fun e => (tt, e));
  Swarm_Peers := fun _ _ => toy_try "Swarm.Peers" (fun e => ([("QmPeer", "/ip4/1.2.3.4/tcp/4001")], e));
  InterfaceListenAddresses := fun _ e => ((["/ip4/127.0.0.1/tcp/10100"], None), e);
  PeerHost_Addrs := fun _ e => (["/ip4/1.2.3.4/tcp/10100"], e);
  Unixfs_Add := fun _ done msg o =>
    toy_try (if done then "" else "Unixfs.Add")
      (fun e => ("Qm" +:+ msg, match o with Unixfs_HashOnly _ => e | Unixfs_Pin _ => toy_put ("Qm" +:+ msg) msg e end));
  Unixfs_Get := fun _ _ p e =>
    (match t_store (env_x e) !! p with
     | Some d => inl (FN_File d)
     | None => if decide (p = "dir") then inl FN_Directory else inr (toy_err "Unixfs.Get")
     end, e);
  ioutil_ReadAll := fun f => toy_try "ReadAll" (fun e => (f, e));
  Pin_Add := fun _ _ _ => toy_opt "Pin.Add" (fun e => e);
  Pin_Rm := fun _ _ _ => toy_opt "Pin.Rm" (fun e => e);
  PublishWithEOL := fun _ _ _ _ => toy_opt "PublishWithEOL" (fun e => e);
  GarbageCollect := fun _ _ => toy_opt "GarbageCollect" (fun e => e);
  GarbageCollect_nil := fun _ e => (Panic "nil node", e);
  PeersTotalValues := fun _ e => ([3%Z; 2%Z], e);
  PeriodicGC := fun _ _ => toy_opt "PeriodicGC" (fun e => e);
  PeriodicGC_nil := fun _ e => (Panic "nil node", e);
  corehttp_Serve := fun _ _ _ => toy_opt "Serve" (fun e => e);
|}.
#[local] Existing Instance toy_ext.

(** A default configuration, as [config.InitWithIdentity] would build it. *)
Definition toy_config : @Config (@et_cfg toy_types) :=
  mkConfig 600 900 "20s" false false false "dht" "10GB" true None
    ["/ip4/0.0.0.0/tcp/4001"; "/ip6/::/tcp/4001"; "/ip4/0.0.0.0/udp/4001/quic"]
    ["/ip4/127.0.0.1/tcp/5001"] ["/ip4/127.0.0.1/tcp/8080"]
    ["/dns4/bootstrap/tcp/4001/p2p/QmBoot"] [] false "" false tt.

(** A process that has just been loaded, over a file system with a directory. *)
Definition toy_fs : FS := mkFS {["repo" := FDir]} (fun _ _ => None) (fun _ => 0).

Definition toy_env (fails : list string) : Env :=
  mkEnv toy_fs (mkToy fails ∅ toy_config 0 0 ∅).

Definition toy_world (fails : list string) : World :=
  mkWorld None false false false 0 ∅ ∅ ∅ ∅ [] (mkLogger 3 OutStderr) 1 ∅ [] (toy_env fails).
