(* ===== verification/Effects.v ===== *)
(** * The elementary effects

    Calls into third-party code and the host, addresses, contexts, goroutines,
    C memory: the operations of the Go runtime and of cgo the glue is written
    with, each on the process state. *)
From S2P Require Import Prelude GoStrings GoOs Ext World.
#[local] Open Scope go_scope.

(** Two states agree on what [f] reads. *)
Definition same {S A} (f : S -> A) (s s' : S) : Prop := f s' = f s.

#[export] Instance same_preorder {S A} (f : S -> A) : PreOrder (same f).
Proof. split; [done|]. intros x y z. unfold same. congruence. Qed.

Section effects.
Context `{ExtTypes}.

(** ** Calls *)

Definition emit (e : event) : M World unit := modify (upd_trace (fun t => t ++ [e])%list).

(** A call of the third-party function [name]. *)
Definition call {A} (name : string) (op : Ext A) : M World A := fun w =>
  let '(a, e) := op (w_env w) in
  (Ok a, upd_env (fun _ => e) (upd_trace (fun t => t ++ [ECall name])%list w)).

(** A third-party function that may panic. *)
Definition call_may_panic {A} (name : string) (op : Ext (outcome A)) : M World A :=
  r <- call name op ;;
  match r with Ok a => ret a | Panic p => panic p end.

(** A call of package [os] that changes the file system, or only reads it. *)
Definition on_fs {A} (op : FS -> A * FS) : M World A := fun w =>
  let '(a, fs) := op (env_fs (w_env w)) in
  (Ok a, upd_env (fun e => mkEnv fs (env_x e)) w).

Definition read_fs {A} (op : FS -> A) : M World A := gets (fun w => op (env_fs (w_env w))).

(** ** Go heap and contexts *)

(** A fresh address. *)
Definition fresh : M World nat := fun w => (Ok (w_next w), upd_next S w).

Definition nil_deref : string := "invalid memory address or nil pointer dereference".

(** Dereference of a possibly nil pointer field. *)
Definition deref {A} (o : option A) : M World A :=
  match o with Some a => ret a | None => panic nil_deref end.

Definition load_node (n : nat) : M World Node :=
  o <- gets (fun w => w_nodes w !! n) ;; deref o.

Definition store_node (n : nat) (f : Node -> Node) : M World unit :=
  modify (upd_nodes (alter f n)).

(** [context.WithCancel(parent)]; [None] is [context.Background()].  The returned
    context is also what its [CancelFunc] cancels. *)
Definition context_WithCancel (parent : option nat) : M World nat :=
  c <- fresh ;;
  anc <- gets (fun w => match parent with
                        | None => []
                        | Some p => default [p] (w_ctx_anc w !! p)
                        end) ;;
  modify (upd_ctx_anc <[c := c :: anc]>) ;;;
  ret c.

Definition cancel_func (c : nat) : M World unit := modify (upd_cancelled (fun s => {[c]} ∪ s)).

(** Whether [ctx.Done()] is closed: the context or one it derives from is cancelled. *)
Definition ctx_done (w : World) (c : nat) : bool :=
  existsb (fun a => bool_decide (a ∈ w_cancelled w)) (default [c] (w_ctx_anc w !! c)).

(** The [go] statement. *)
Definition go (g : Goroutine) : M World unit := modify (upd_gor (fun l => l ++ [g])%list).

(** [make(chan error)], with [wg] senders registered in its wait group. *)
Definition make_chan (wg : nat) : M World nat :=
  c <- fresh ;; modify (upd_chans <[c := mkChan [] wg false]>) ;;; ret c.

(** ** C memory *)

Definition C_malloc (content : string) : M World nat := fun w =>
  (Ok (w_cnext w), upd_cnext S (upd_cheap <[w_cnext w := content]> w)).

(** [C.free]; freeing NULL does nothing, freeing anything not live aborts. *)
Definition C_free (p : nat) : M World unit :=
  if decide (p = 0) then ret tt
  else o <- gets (fun w => w_cheap w !! p) ;;
       match o with
       | Some _ => modify (upd_cheap (delete p))
       | None => panic "free(): invalid pointer"
       end.

Definition C_CString (s : string) : M World nat := C_malloc (s +:+ String Ascii.zero "").

Definition C_CBytes (s : string) : M World nat := C_malloc s.

(** What C code reads through a pointer. *)
Definition C_read (p : nat) : M World string :=
  o <- gets (fun w => w_cheap w !! p) ;;
  match o with Some s => ret s | None => panic "use of a dead C block" end.

(** ** Frames of the effects *)
Section frames.
Context (R : World -> World -> Prop) `{!PreOrder R}.

Lemma preserves_emit e :
  (forall w, R w (upd_trace (fun t => t ++ [e])%list w)) -> preserves R (emit e).
Proof. intros HR. by apply preserves_modify. Qed.

Lemma preserves_call {A} name (op : Ext A) :
  (forall w e, R w (upd_env (fun _ => e) (upd_trace (fun t => t ++ [ECall name])%list w))) ->
  preserves R (call name op).
Proof. intros HR w. unfold call. destruct (op (w_env w)). apply HR. Qed.

Lemma preserves_call_may_panic {A} name (op : Ext (outcome A)) :
  (forall w e, R w (upd_env (fun _ => e) (upd_trace (fun t => t ++ [ECall name])%list w))) ->
  preserves R (call_may_panic name op).
Proof.
  intros HR. apply (preserves_bind R); [by apply preserves_call|].
  intros [a|p]; auto using preserves_ret, preserves_panic.
Qed.

Lemma preserves_on_fs {A} (op : FS -> A * FS) :
  (forall w fs, R w (upd_env (fun e => mkEnv fs (env_x e)) w)) -> preserves R (on_fs op).
Proof. intros HR w. unfold on_fs. destruct (op _). apply HR. Qed.

Lemma preserves_read_fs {A} (op : FS -> A) : preserves R (read_fs op).
Proof. by apply preserves_gets. Qed.

Lemma preserves_fresh : (forall w, R w (upd_next S w)) -> preserves R fresh.
Proof. intros HR w. apply HR. Qed.

Lemma preserves_deref {A} (o : option A) : preserves R (deref o).
Proof. destruct o; [by apply preserves_ret|by apply preserves_panic]. Qed.

Lemma preserves_load_node n : preserves R (load_node n).
Proof.
  apply (preserves_bind R); [by apply preserves_gets|]. intros; apply preserves_deref.
Qed.

Lemma preserves_C_malloc s :
  (forall w, R w (upd_cnext S (upd_cheap <[w_cnext w := s]> w))) -> preserves R (C_malloc s).
Proof. intros HR w. apply HR. Qed.
End frames.
End effects.

#[export] Hint Resolve preserves_read_fs preserves_deref preserves_load_node : preserve.

(** Closes the side condition of an effect's frame lemma when the relation holds
    definitionally of the update. *)
Ltac frame_side := solve [ intros; reflexivity | intros; cbn; eauto with preserve ].

Ltac frame_step :=
  first
    [ preserve_step
    | apply preserves_modify; frame_side
    | apply preserves_emit; frame_side
    | apply preserves_call; frame_side
    | match goal with |- preserves ?R _ => apply (preserves_call_may_panic R) end; frame_side
    | apply preserves_on_fs; frame_side
    | apply preserves_fresh; frame_side
    | apply preserves_C_malloc; frame_side
    | match goal with
      | |- preserves _ (go _) => unfold go
      | |- preserves _ (store_node _ _) => unfold store_node
      | |- preserves _ (cancel_func _) => unfold cancel_func
      | |- preserves _ (context_WithCancel _) => unfold context_WithCancel
      | |- preserves _ (make_chan _) => unfold make_chan
      | |- preserves _ (C_free _) => unfold C_free
      | |- preserves _ (C_CString _) => unfold C_CString
      | |- preserves _ (C_CBytes _) => unfold C_CBytes
      | |- preserves _ (C_read _) => unfold C_read
      end ].

Ltac frame_tac := intros; repeat frame_step.
