(* ===== verification/Log.v ===== *)
(** * The C callbacks and the log

    ipfs_log.go with the callback executors of ipfs_bindings.go: how a Go error
    code, a byte block, a state report or a log line reaches C++, and package
    [log] as the glue uses it. *)
From S2P Require Import Prelude GoStrings GoOs Ext World Toy Effects.
#[local] Open Scope go_scope.

Section log.
Context `{External}.

(** ** ipfs_bindings.go: the C callbacks *)

Definition C_execute_void_cb (fn err arg : Z) : M World unit := emit (EVoidCB fn err arg).

(** [data] is a C pointer, 0 for NULL; the block is read when the callback runs. *)
Definition C_execute_data_cb (fn err : Z) (data : nat) (size arg : Z) : M World unit :=
  if decide (data = 0) then emit (EDataCB fn err None size arg)
  else s <- C_read data ;; emit (EDataCB fn err (Some s) size arg).

Definition C_execute_state_cb (fn arg : Z) (err : nat) (peercnt : Z) : M World unit :=
  if decide (err = 0) then emit (EStateCB fn arg None peercnt)
  else s <- C_read err ;; emit (EStateCB fn arg (Some (c_str s)) peercnt).

Definition C_execute_log_cb (fn : Z) (bytes : nat) : M World unit :=
  s <- C_read bytes ;; emit (ELogCB fn (c_str s)).

Definition executeVoidCB (fn code fn_arg : Z) : M World unit := C_execute_void_cb fn code fn_arg.

Definition executeLogCB (fn : Z) (data : string) : M World unit :=
  if decide (String.length data = 0) then panic "slice bounds out of range"
  else
    cstr <- C_CString (string_take (String.length data - 1) data) ;;
    C_execute_log_cb fn cstr ;;;
    C_free cstr.

(** The closure [makeStateCB] returns, applied to [(err, peercnt)]; [state_cb] and
    [state_arg] are the fields read when it was made. *)
Definition stateCB (state_cb state_arg : Z) (err : option error) (peercnt : Z) : M World unit :=
  match err with
  | Some e =>
      cstr <- C_CString (err_msg e) ;;
      C_execute_state_cb state_cb state_arg cstr (u32 peercnt) ;;;
      C_free cstr
  | None => C_execute_state_cb state_cb state_arg 0 (u32 peercnt)
  end.

Definition makeStateCB (n : nat) : M World (option error -> Z -> M World unit) :=
  nd <- load_node n ;;
  ret (stateCB (n_state_cb nd) (n_state_cb_arg nd)).

(** ipfs_bindings.go: [go_asio_memfree]. *)
Definition go_asio_memfree (what : nat) : M World unit := C_free what.

(** ** ipfs_log.go *)

Definition CustomLog_Write (l : CustomLog) (data : string) : M World Z :=
  (if decide (log_cb l = 0%Z) then panic "CustomLog.Write called while logcb is nil" else ret tt) ;;;
  executeLogCB (log_cb l) data ;;;
  ret (Z.of_nat (String.length data)).

(** ** Package [log] *)

Definition Ldate : Z := 1.
Definition Ltime : Z := 2.

(** [Logger.formatHeader]: the date and the time, when the flags ask for them. *)
Definition log_header (flags : Z) : M World string :=
  d <- (if decide (Z.land flags Ldate = 0%Z) then ret ""
        else s <- call "time.Now.date" log_date ;; ret (s +:+ " ")) ;;
  t <- (if decide (Z.land flags Ltime = 0%Z) then ret ""
        else s <- call "time.Now.time" log_time ;; ret (s +:+ " ")) ;;
  ret (d +:+ t).

Definition ends_with_newline (s : string) : bool :=
  bool_decide (String.get (String.length s - 1) s = Some newline).

(** [Logger.Output]: header, message, a newline if the message has none; one
    [Write] to the output. *)
Definition log_Output (s : string) : M World unit :=
  lg <- gets w_logger ;;
  h <- log_header (lg_flags lg) ;;
  let buf := h +:+ s +:+ (if ends_with_newline s then "" else String newline "") in
  match lg_out lg with
  | OutStderr => emit (EStderr buf)
  | OutCustom l => CustomLog_Write l buf ;;; ret tt
  end.

Definition log_Println (l : list string) : M World unit := log_Output (Sprintln l).

Definition log_Printf (f : string) (args : list farg) : M World unit := log_Output (Sprintf f args).

Definition log_SetFlags (f : Z) : M World unit :=
  modify (upd_logger (fun lg => mkLogger f (lg_out lg))).

Definition log_SetOutput (o : LogOutput) : M World unit :=
  modify (upd_logger (fun lg => mkLogger (lg_flags lg) o)).

Definition go_asio_ipfs_redirect_logs (log_cb : Z) : M World unit :=
  (if decide (log_cb = 0%Z) then
     f <- gets (fun w => lg_flags (w_logger w)) ;;
     log_SetFlags (Z.lor f (Z.lor Ldate Ltime)) ;;;
     log_SetOutput OutStderr
   else ret tt) ;;;
  f <- gets (fun w => lg_flags (w_logger w)) ;;
  log_SetFlags (Z.ldiff f (Z.lor Ldate Ltime)) ;;;
  log_SetOutput (OutCustom (mkCustomLog log_cb)).

(** ** What logging does to the rest of the state *)

(** Logging works: the output is not a [CustomLog] over a NULL callback. *)
Definition log_ok (w : World) : Prop := lg_out (w_logger w) <> OutCustom (mkCustomLog 0).

(** Events of the log: its clock readings and its lines. *)
Definition log_event (e : event) : Prop :=
  match e with
  | ECall c => c = "time.Now.date" \/ c = "time.Now.time"
  | ELogCB _ _ | EStderr _ => True
  | _ => False
  end.

(** The part of the state logging leaves alone. *)
Record same_core (w w' : World) : Prop := mkSameCore {
  sc_gnode : w_gnode w' = w_gnode w;
  sc_mprome : w_mprome_injected w' = w_mprome_injected w;
  sc_mporme : w_mporme_metrics w' = w_mporme_metrics w;
  sc_plugins : w_plugins_injected w' = w_plugins_injected w;
  sc_next : w_next w' = w_next w;
  sc_nodes : w_nodes w' = w_nodes w;
  sc_ctx_anc : w_ctx_anc w' = w_ctx_anc w;
  sc_cancelled : w_cancelled w' = w_cancelled w;
  sc_chans : w_chans w' = w_chans w;
  sc_gor : w_gor w' = w_gor w;
  sc_logger : w_logger w' = w_logger w;
  sc_cheap : w_cheap w' = w_cheap w;
  sc_cnext : w_cnext w <= w_cnext w';
}.

(** The trace has grown by events that satisfy [P]. *)
Definition trace_grows (P : event -> Prop) (w w' : World) : Prop :=
  exists es, w_trace w' = (w_trace w ++ es)%list /\ Forall P es.

(** A reading of the clock, all the environment sees of a log line. *)
Inductive tick : Env -> Env -> Prop :=
| tick_date e : tick e (log_date e).2
| tick_time e : tick e (log_time e).2
| tick_now e : tick e (time_Now e).2.

Definition ticks : Env -> Env -> Prop := rtc tick.

(** [w'] is [w] after some logging: only log events are added, and nothing but the
    clock state of the environment and the C allocator's cursor has moved. *)
Definition logged (w w' : World) : Prop :=
  same_core w w' /\ trace_grows log_event w w' /\ ticks (w_env w) (w_env w').

#[export] Instance same_core_preorder : PreOrder same_core.
Proof.
  split; [intros w; by split|].
  intros w1 w2 w3 [] []. split; try congruence. lia.
Qed.

#[export] Instance trace_grows_preorder P : PreOrder (trace_grows P).
Proof.
  split.
  - intros w. exists []. by rewrite app_nil_r.
  - intros w1 w2 w3 (es1 & E1 & H1) (es2 & E2 & H2). exists (es1 ++ es2)%list.
    rewrite E2, E1, app_assoc. split; [done|]. by apply Forall_app.
Qed.

#[export] Instance logged_preorder : PreOrder logged.
Proof.
  split; [by intros w|]. intros w1 w2 w3 (S1 & T1 & E1) (S2 & T2 & E2).
  split; [by etransitivity|]. split; [by etransitivity|]. unfold ticks in *. by etransitivity.
Qed.

(** The block the next allocation returns is not in use. *)
Definition heap_ok (w : World) : Prop :=
  0 < w_cnext w /\ forall p, w_cnext w <= p -> w_cheap w !! p = None.
(** ** Lemmas on the elementary effects *)

Lemma returns_call {A} name (op : Ext A) (Q : A -> World -> Prop) w :
  (forall a e, op (w_env w) = (a, e) ->
    Q a (upd_env (fun _ => e) (upd_trace (fun t => t ++ [ECall name])%list w))) ->
  returns (call name op) Q w.
Proof.
  intros HQ. unfold returns, wp, call. destruct (op (w_env w)) as [a e] eqn:E. by apply HQ.
Qed.

Lemma returns_gets {A} (f : World -> A) (Q : A -> World -> Prop) w :
  Q (f w) w -> returns (gets f) Q w.
Proof. done. Qed.

Lemma returns_modify f (Q : unit -> World -> Prop) w : Q tt (f w) -> returns (modify f) Q w.
Proof. done. Qed.

Lemma heap_ok_fresh w : heap_ok w -> w_cheap w !! w_cnext w = None.
Proof. intros [_ Hf]. by apply Hf. Qed.

(** A block is allocated, shown to one callback and freed: one event that carries
    the block's content, and the C heap is what it was. *)
Definition one_event (e : event) (w w' : World) : Prop :=
  same_core w w' /\ w_trace w' = (w_trace w ++ [e])%list /\ w_env w' = w_env w.

Lemma one_event_heap_ok e w w' : heap_ok w -> one_event e w w' -> heap_ok w'.
Proof.
  intros [H1 H2] ([] & _ & _). split; [lia|]. intros p Hp. rewrite sc_cheap0. apply H2. lia.
Qed.

Lemma logged_heap_ok w w' : heap_ok w -> logged w w' -> heap_ok w'.
Proof.
  intros [H1 H2] [[] _]. split; [lia|]. intros p Hp. rewrite sc_cheap0. apply H2. lia.
Qed.

Lemma logged_log_ok w w' : log_ok w -> logged w w' -> log_ok w'.
Proof. unfold log_ok. intros Hl [[] _]. by rewrite sc_logger0. Qed.

Lemma show_block (s : string) (k : string -> event) w :
  heap_ok w ->
  returns (p <- C_malloc s ;; (t <- C_read p ;; emit (k t)) ;;; C_free p)
    (fun _ w' => one_event (k s) w w') w.
Proof.
  intros Hok. pose proof (heap_ok_fresh _ Hok) as Hn. destruct Hok as [Hpos Hf].
  unfold returns, wp, C_malloc, C_read, C_free, gets, emit, modify, ret, bind. simpl.
  rewrite decide_False by lia. rewrite lookup_insert_eq. simpl.
  rewrite lookup_insert_eq. simpl.
  split; [split; simpl; try reflexivity; [|lia]|done].
  by rewrite delete_insert_id.
Qed.

Lemma string_take_drop_last s c :
  string_take (String.length (s +:+ String c "") - 1) (s +:+ String c "") = s.
Proof.
  rewrite string_length_app. simpl. rewrite Nat.add_sub. apply string_take_app.
Qed.

Lemma c_str_app_nul s : c_str (s +:+ String Ascii.zero "") = c_str s.
Proof. induction s as [|c s IH]; simpl; [done|]. case_decide; [done|]. by rewrite IH. Qed.

Lemma executeLogCB_spec fn data c w :
  heap_ok w ->
  returns (executeLogCB fn (data +:+ String c ""))
    (fun _ w' => one_event (ELogCB fn (c_str data)) w w') w.
Proof.
  intros Hok. unfold executeLogCB.
  rewrite decide_False by (rewrite string_length_app; simpl; lia).
  rewrite string_take_drop_last. rewrite <- (c_str_app_nul data).
  apply (show_block (data +:+ String Ascii.zero "") (fun t => ELogCB fn (c_str t))). done.
Qed.

Lemma get_app_last s c : String.get (String.length s) (s +:+ String c "") = Some c.
Proof. induction s as [|d s IH]; simpl; done. Qed.

Lemma ends_with_newline_app s : ends_with_newline (s +:+ String newline "") = true.
Proof.
  unfold ends_with_newline. rewrite string_length_app. simpl. rewrite Nat.add_sub.
  rewrite get_app_last. by apply bool_decide_eq_true.
Qed.

Lemma ends_with_newline_inv s : ends_with_newline s = true -> exists s', s = s' +:+ String newline "".
Proof.
  unfold ends_with_newline. rewrite bool_decide_eq_true.
  induction s as [|c s IH]; [done|]. destruct s as [|d s].
  - simpl. intros [= ->]. by exists "".
  - intros Hg. destruct IH as [s' Hs'].
    + simpl in *. by rewrite Nat.sub_0_r.
    + exists (String c s'). by rewrite Hs'.
Qed.

(** What [Logger.Output] writes always ends in a newline. *)
Lemma output_buffer h s :
  exists b, h +:+ s +:+ (if ends_with_newline s then "" else String newline "")
            = b +:+ String newline "".
Proof.
  destruct (ends_with_newline s) eqn:E.
  - destruct (ends_with_newline_inv _ E) as [s' ->]. exists (h +:+ s').
    by rewrite string_app_nil_r, string_app_assoc.
  - exists (h +:+ s). by rewrite string_app_assoc.
Qed.

Lemma log_clock_spec (P : Prop) `{Decision P} name (op : Ext string) w :
  log_event (ECall name) -> (forall e, tick e (op e).2) ->
  returns (if decide P then ret "" else s <- call name op ;; ret (s +:+ " "))
    (fun h w' => logged w w' /\ (P -> h = "" /\ w' = w)) w.
Proof.
  intros Hname Hop. case_decide; [by apply returns_ret|].
  apply returns_bind, returns_call. intros a e He. apply returns_ret. split; [|done].
  split; [by split|]. split; [exists [ECall name]; split; [done|]; by constructor|].
  apply rtc_once. specialize (Hop (w_env w)). by rewrite He in Hop.
Qed.

Lemma log_header_spec flags w :
  returns (log_header flags)
    (fun h w' => logged w w' /\
       (Z.land flags Ldate = 0%Z -> Z.land flags Ltime = 0%Z -> h = "" /\ w' = w)) w.
Proof.
  unfold log_header. apply returns_bind.
  eapply returns_mono; [apply log_clock_spec; [by left|constructor]|]. intros d w1 [H1 Hd].
  apply returns_bind.
  eapply returns_mono; [apply log_clock_spec; [by right|constructor]|]. intros t w2 [H2 Ht].
  apply returns_ret. split; [by etransitivity|].
  intros Hz1 Hz2. destruct (Hd Hz1), (Ht Hz2); by subst.
Qed.

(** With a working output, logging returns and disturbs nothing else. *)
Lemma log_Output_spec s w :
  log_ok w -> heap_ok w -> returns (log_Output s) (fun _ w' => logged w w') w.
Proof.
  intros Hl Hh. unfold log_Output. apply returns_bind, returns_gets, returns_bind.
  eapply returns_mono; [apply log_header_spec|]. intros h w1 [Hw1 _].
  destruct (output_buffer h s) as [b ->].
  pose proof (logged_heap_ok _ _ Hh Hw1) as Hh1.
  unfold log_ok in Hl. destruct (lg_out (w_logger w)) as [|[cb]] eqn:E.
  - apply returns_modify. etransitivity; [exact Hw1|]. split; [by split|].
    split; [|apply rtc_refl]. eexists. split; [reflexivity|]. by repeat constructor.
  - unfold CustomLog_Write. cbn [log_cb]. rewrite decide_False by congruence.
    do 3 apply returns_bind. apply returns_ret.
    eapply returns_mono; [by apply executeLogCB_spec|]. intros [] w2 (Hc & Ht & He).
    do 2 apply returns_ret. etransitivity; [exact Hw1|]. split; [done|].
    split; [|rewrite He; apply rtc_refl]. eexists. split; [exact Ht|]. by repeat constructor.
Qed.

Lemma log_Println_spec l w :
  log_ok w -> heap_ok w -> returns (log_Println l) (fun _ w' => logged w w') w.
Proof. apply log_Output_spec. Qed.

Lemma log_Printf_spec f l w :
  log_ok w -> heap_ok w -> returns (log_Printf f l) (fun _ w' => logged w w') w.
Proof. apply log_Output_spec. Qed.

(** ** Properties *)

(** A log line reaches the registered callback unchanged: with a callback
    installed and the date and time flags clear, [log.Println] makes exactly one
    call, whose C string is the operands joined by spaces (up to the first NUL)
    without the newline package [log] adds; the block passed to C is freed. *)
Lemma log_Println_delivers l cb w :
  lg_out (w_logger w) = OutCustom (mkCustomLog cb) -> cb <> 0%Z ->
  Z.land (lg_flags (w_logger w)) Ldate = 0%Z -> Z.land (lg_flags (w_logger w)) Ltime = 0%Z ->
  heap_ok w ->
  returns (log_Println l)
    (fun _ w' => one_event (ELogCB cb (c_str (join_with " " l))) w w') w.
Proof.
  intros Hout Hcb Hd Ht Hh. unfold log_Println, log_Output, Sprintln.
  apply returns_bind, returns_gets, returns_bind.
  eapply returns_mono; [apply log_header_spec|]. intros h w1 [_ Hw1].
  destruct (Hw1 Hd Ht) as [-> ->]. rewrite Hout, ends_with_newline_app, string_app_nil_r.
  unfold CustomLog_Write. cbn [log_cb]. rewrite decide_False by done.
  do 3 apply returns_bind. apply returns_ret.
  eapply returns_mono; [by apply executeLogCB_spec|]. intros [] w2 Hw2. done.
Qed.

Lemma redirect_flags_clear f b :
  (b = Ldate \/ b = Ltime) -> Z.land (Z.ldiff f (Z.lor Ldate Ltime)) b = 0%Z.
Proof.
  intros Hb. rewrite Z.ldiff_land, <- Z.land_assoc.
  replace (Z.land (Z.lnot (Z.lor Ldate Ltime)) b) with 0%Z by (by destruct Hb as [-> | ->]).
  apply Z.land_0_r.
Qed.

Lemma redirect_logs_state cb w :
  returns (go_asio_ipfs_redirect_logs cb)
    (fun _ w' => (exists f, w_logger w' = mkLogger (Z.ldiff f (Z.lor Ldate Ltime))
                                            (OutCustom (mkCustomLog cb)))
                 /\ w_cheap w' = w_cheap w /\ w_cnext w' = w_cnext w /\ w_trace w' = w_trace w) w.
Proof.
  unfold go_asio_ipfs_redirect_logs. apply returns_bind. case_decide.
  all: repeat first [apply returns_bind | apply returns_gets | apply returns_modify | apply returns_ret].
  all: by eauto.
Qed.

(** The line [log.Println] hands to the callback [cb]. *)
Definition log_line (cb : Z) (l : list string) : event := ELogCB cb (c_str (join_with " " l)).

Lemma log_lines_delivered cb ls w :
  lg_out (w_logger w) = OutCustom (mkCustomLog cb) -> cb <> 0%Z ->
  Z.land (lg_flags (w_logger w)) Ldate = 0%Z -> Z.land (lg_flags (w_logger w)) Ltime = 0%Z ->
  heap_ok w ->
  returns (for_range ls log_Println)
    (fun _ w' => w_trace w' = (w_trace w ++ map (log_line cb) ls)%list
                 /\ w_cheap w' = w_cheap w) w.
Proof.
  intros Hout Hcb Hd Ht. revert w Hout Hd Ht.
  induction ls as [|l ls IH]; intros w Hout Hd Ht Hh; simpl.
  { apply returns_ret. by rewrite app_nil_r. }
  apply returns_bind. eapply returns_mono; [by apply (log_Println_delivers l cb)|].
  intros [] w1 Hw1. pose proof (one_event_heap_ok _ _ _ Hh Hw1) as Hh1.
  destruct Hw1 as ([] & Ht1 & _).
  eapply returns_mono; [apply IH; by rewrite ?sc_logger0|].
  intros [] w2 [Hw2 Hc2]. rewrite Hw2, Ht1, Hc2, <- app_assoc. done.
Qed.

(** C19. Registering a callback takes effect whatever the logger was before: every
    later line goes to that callback, in order, as one C string without date,
    time or the final newline, nothing else is sent, and every C block used on
    the way is freed. *)
Theorem redirect_logs_installs cb ls w :
  cb <> 0%Z -> heap_ok w ->
  returns (go_asio_ipfs_redirect_logs cb ;;; for_range ls log_Println)
    (fun _ w' => w_trace w' = (w_trace w ++ map (log_line cb) ls)%list
                 /\ w_cheap w' = w_cheap w) w.
Proof.
  intros Hcb Hh. apply returns_bind.
  eapply returns_mono; [apply redirect_logs_state|].
  intros [] w1 ([f Hf] & Hc & Hn & Ht).
  eapply returns_mono.
  - apply (log_lines_delivered cb); [|done| | |].
    all: try (rewrite Hf; simpl; first [reflexivity | apply redirect_flags_clear; auto]).
    unfold heap_ok. by rewrite Hc, Hn.
  - intros [] w2 [Ht2 Hc2]. by rewrite Ht2, Ht, Hc2, Hc.
Qed.

(** C30. Passing NULL does not restore the default output: the writer left behind
    is a [CustomLog] over the NULL callback, and the next log line panics. *)
Theorem redirect_logs_null_panics l w :
  ((go_asio_ipfs_redirect_logs 0 ;;; log_Println l) w).1
  = Panic "CustomLog.Write called while logcb is nil".
Proof.
  pose proof (redirect_logs_state 0 w) as Hr. apply returns_Ok in Hr.
  destruct Hr as ([] & w1 & Hw1 & [f Hf] & _ & _ & _). rewrite (bind_Ok _ _ _ _ _ Hw1).
  unfold log_Println, log_Output. rewrite (bind_Ok _ _ w1 (w_logger w1) w1) by done.
  rewrite Hf. cbn [lg_flags lg_out].
  pose proof (log_header_spec (Z.ldiff f (Z.lor Ldate Ltime)) w1) as Hh.
  apply returns_Ok in Hh. destruct Hh as (h & w2 & Hw2 & _).
  by rewrite (bind_Ok _ _ _ _ _ Hw2).
Qed.

End log.

(** ** Witnesses *)

#[local] Existing Instance toy_types.
#[local] Existing Instance toy_ext.

Lemma toy_heap_ok fails : heap_ok (toy_world fails).
Proof. split; [simpl; lia|done]. Qed.

Lemma redirect_logs_installs_witness :
  returns (go_asio_ipfs_redirect_logs 7 ;;; for_range [["IPFS"; "node"]; ["ready"]] log_Println)
    (fun _ w' => w_trace w' = [ELogCB 7 "IPFS node"; ELogCB 7 "ready"] /\ w_cheap w' = ∅)
    (toy_world []).
Proof.
  apply (redirect_logs_installs 7 [["IPFS"; "node"]; ["ready"]] (toy_world [])).
  - discriminate.
  - apply toy_heap_ok.
Defined.
