(* ===== verification/Cancel.v ===== *)
(** * Cancellation of single operations (ipfs_cancel.go)

    C++ allocates a signal, passes it to the operation it starts, and may later
    cancel through it; the glue keeps a map from signals to the cancel functions
    of the operations' contexts, which derive from the node's context. *)
From S2P Require Import Prelude GoStrings GoOs Ext World Toy Effects Log.
#[local] Open Scope go_scope.

Section cancel.
Context `{External}.

(** ** ipfs_cancel.go *)

Definition withCancel (n : nat) (cancel_signal : Z) : M World nat :=
  nd <- load_node n ;;
  ctx <- context_WithCancel (Some (n_ctx nd)) ;;
  store_node n (fun nd => set_n_cancel_signals (<[cancel_signal := ctx]> (n_cancel_signals nd)) nd) ;;;
  ret ctx.

Definition go_asio_ipfs_cancellation_allocate : M World Z :=
  g <- gets w_gnode ;;
  match g with
  | None => ret (2 ^ 64 - 1)%Z
  | Some n =>
      nd <- load_node n ;;
      let r := n_next_cancel_signal_id nd in
      store_node n (fun nd => set_n_next_cancel_signal_id (u64 (n_next_cancel_signal_id nd + 1)) nd) ;;;
      ret r
  end.

Definition go_asio_ipfs_cancellation_free (cancel_signal : Z) : M World unit :=
  g <- gets w_gnode ;;
  match g with
  | None => ret tt
  | Some n =>
      store_node n (fun nd => set_n_cancel_signals (delete cancel_signal (n_cancel_signals nd)) nd)
  end.

Definition go_asio_ipfs_cancel (cancel_signal : Z) : M World unit :=
  g <- gets w_gnode ;;
  match g with
  | None => ret tt
  | Some n =>
      nd <- load_node n ;;
      match n_cancel_signals nd !! cancel_signal with
      | None => ret tt
      | Some cancel => cancel_func cancel
      end
  end.

(** ** What the component promises

    Operations are numbered in the order they are started.  [a_sig] says which
    operation a signal stands for, [a_cancelled] which operations are cancelled. *)
Record Registry := mkRegistry {
  a_next : Z;
  a_sig : gmap Z nat;
  a_count : nat;
  a_cancelled : gset nat;
}.

(** What C++ can do with signals. *)
Inductive sig_op := SAllocate | SStart (s : Z) | SFree (s : Z) | SCancel (s : Z).

Definition reg_step (r : Registry) (o : sig_op) : Registry :=
  match o with
  | SAllocate => mkRegistry (u64 (a_next r + 1)) (a_sig r) (a_count r) (a_cancelled r)
  | SStart s => mkRegistry (a_next r) (<[s := a_count r]> (a_sig r)) (S (a_count r)) (a_cancelled r)
  | SFree s => mkRegistry (a_next r) (delete s (a_sig r)) (a_count r) (a_cancelled r)
  | SCancel s =>
      match a_sig r !! s with
      | None => r
      | Some i => mkRegistry (a_next r) (a_sig r) (a_count r) ({[i]} ∪ a_cancelled r)
      end
  end.

(** The same operation through the exported functions (an operation is started
    through [withCancel] by the handlers). *)
Definition run_sig_op (n : nat) (o : sig_op) : M World unit :=
  match o with
  | SAllocate => _ <- go_asio_ipfs_cancellation_allocate ;; ret tt
  | SStart s => _ <- withCancel n s ;; ret tt
  | SFree s => go_asio_ipfs_cancellation_free s
  | SCancel s => go_asio_ipfs_cancel s
  end.

(** [cs] lists the contexts of the operations, in the order they were started. *)
Record implements (n : nat) (cs : list nat) (w : World) (r : Registry) : Prop := mkImplements {
  im_gnode : w_gnode w = Some n;
  im_node : exists nd, w_nodes w !! n = Some nd
    /\ n_next_cancel_signal_id nd = a_next r
    /\ (forall s, n_cancel_signals nd !! s = ((a_sig r !! s) ≫= (fun i => cs !! i)))
    /\ w_ctx_anc w !! n_ctx nd = Some [n_ctx nd]
    /\ n_ctx nd < w_next w /\ (n_ctx nd ∉ cs) /\ (n_ctx nd ∉ w_cancelled w)
    /\ (forall c, c ∈ cs -> w_ctx_anc w !! c = Some [c; n_ctx nd] /\ c < w_next w);
  im_count : length cs = a_count r;
  im_nodup : NoDup cs;
  im_sig : forall s i, a_sig r !! s = Some i -> i < length cs;
  im_fresh : forall c, c ∈ w_cancelled w -> c < w_next w;
  im_cancelled : forall i c, cs !! i = Some c -> (c ∈ w_cancelled w <-> i ∈ a_cancelled r);
  im_bound : forall i, i ∈ a_cancelled r -> i < length cs;
}.

Lemma returns_load_node n nd (Q : Node -> World -> Prop) w :
  w_nodes w !! n = Some nd -> Q nd w -> returns (load_node n) Q w.
Proof. intros Hn HQ. unfold returns, wp, load_node, bind, gets. by rewrite Hn. Qed.

Lemma withCancel_spec n s nd w (Q : nat -> World -> Prop) :
  w_nodes w !! n = Some nd -> w_ctx_anc w !! n_ctx nd = Some [n_ctx nd] ->
  (forall w', w_gnode w' = w_gnode w ->
     w_nodes w' = <[n := set_n_cancel_signals (<[s := w_next w]> (n_cancel_signals nd)) nd]> (w_nodes w) ->
     w_ctx_anc w' = <[w_next w := [w_next w; n_ctx nd]]> (w_ctx_anc w) ->
     w_next w' = S (w_next w) -> w_cancelled w' = w_cancelled w ->
     w_gor w' = w_gor w -> w_trace w' = w_trace w -> w_env w' = w_env w ->
     w_logger w' = w_logger w -> w_cheap w' = w_cheap w -> w_cnext w' = w_cnext w ->
     Q (w_next w) w') ->
  returns (withCancel n s) Q w.
Proof.
  intros Hn Hc HQ. unfold withCancel. apply returns_bind.
  eapply returns_load_node; [done|].
  unfold returns, wp, context_WithCancel, store_node, bind, fresh, gets, modify, ret.
  simpl. apply HQ; try reflexivity; simpl.
  - apply map_eq. intros k. rewrite lookup_alter, lookup_insert. case_decide; [|done].
    subst. by rewrite Hn.
  - by rewrite Hc.
Qed.

(** One step of the registry is implemented by the corresponding function. *)
Lemma implements_step n cs w r o :
  implements n cs w r ->
  returns (run_sig_op n o)
    (fun _ w' => exists cs', implements n cs' w' (reg_step r o) /\ cs `prefix_of` cs') w.
Proof.
  intros [Hg (nd & Hn & Hnx & Hs & Hroot & Hlt & Hni & Hnc & Hcs) Hcnt Hnd Hsig Hfr Hcan Hb].
  destruct o as [|s|s|s]; simpl.
  - apply returns_bind. unfold go_asio_ipfs_cancellation_allocate.
    apply returns_bind, returns_gets. rewrite Hg. apply returns_bind.
    eapply returns_load_node; [done|]. apply returns_bind, returns_modify.
    do 2 apply returns_ret. exists cs. split; [|done]. constructor; simpl; try done.
    eexists. rewrite lookup_alter_eq, Hn. split; [done|]. simpl. by rewrite Hnx.
  - apply returns_bind. eapply withCancel_spec; [done..|].
    intros w' E1 E2 E3 E4 E5 _ _ _ _ _ _. apply returns_ret.
    exists (cs ++ [w_next w]). split; [|by apply prefix_app_r].
    assert (Hnew : w_next w ∉ cs) by (intros Hin; destruct (Hcs _ Hin); lia).
    constructor; simpl.
    + by rewrite E1.
    + eexists. rewrite E2, lookup_insert_eq. split; [done|]. simpl. split; [done|].
      split. { intros t. rewrite !lookup_insert. case_decide; simpl.
        - rewrite <- Hcnt. by rewrite list_lookup_middle.
        - rewrite Hs. destruct (a_sig r !! t) as [i|] eqn:Ei; simpl; [|done].
          rewrite lookup_app_l by eauto. done. }
      rewrite E3, E4, E5. rewrite lookup_insert_ne by lia.
      split; [done|]. split; [lia|]. split; [set_solver by lia|]. split; [done|].
      intros c Hc. apply elem_of_app in Hc. destruct Hc as [Hc|Hc].
      * destruct (Hcs c Hc). rewrite lookup_insert_ne by lia. split; [done|lia].
      * apply list_elem_of_singleton in Hc. subst. rewrite lookup_insert_eq. split; [done|lia].
    + rewrite length_app. simpl. lia.
    + apply NoDup_app. split; [done|]. split; [set_solver|apply NoDup_singleton].
    + intros t i. rewrite lookup_insert, length_app. simpl. case_decide.
      * intros [= <-]. lia.
      * intros Ht. specialize (Hsig _ _ Ht). lia.
    + intros c. rewrite E4, E5. intros Hc. specialize (Hfr c Hc). lia.
    + intros i c. rewrite E5. rewrite lookup_app_Some. intros [Hi|[Hl Hi]]; [by apply Hcan|].
      apply list_lookup_singleton_Some in Hi. destruct Hi as [Hi <-].
      split; intros Hx; [specialize (Hfr _ Hx)|specialize (Hb _ Hx)]; lia.
    + intros i Hi. specialize (Hb i Hi). rewrite length_app. lia.
  - unfold go_asio_ipfs_cancellation_free. apply returns_bind, returns_gets. rewrite Hg.
    apply returns_modify. exists cs. split; [|done]. constructor; simpl; try done.
    + eexists. rewrite lookup_alter_eq, Hn. split; [done|]. simpl. split; [done|].
      split; [|done]. intros t. rewrite !lookup_delete. case_decide; simpl; [done|]. apply Hs.
    + intros t i. rewrite lookup_delete. case_decide; [done|]. apply Hsig.
  - unfold go_asio_ipfs_cancel. apply returns_bind, returns_gets. rewrite Hg. apply returns_bind.
    eapply returns_load_node; [done|]. rewrite Hs.
    destruct (a_sig r !! s) as [i|] eqn:Ei; simpl.
    2:{ apply returns_ret. exists cs. split; [|done]. constructor; try done.
        exists nd. repeat split_and; try done. }
    destruct (lookup_lt_is_Some_2 cs i) as [c Hc]; [eauto|]. rewrite Hc.
    apply returns_modify. exists cs. split; [|done].
    assert (Hcin : c ∈ cs) by (by eapply list_elem_of_lookup_2).
    constructor; simpl; try done.
    + exists nd. split; [done|]. repeat split; try done; try apply Hcs; try done. set_solver.
    + intros d Hd. apply elem_of_union in Hd. destruct Hd as [Hd|Hd]; [|by apply Hfr].
      apply elem_of_singleton in Hd. subst. by apply Hcs.
    + intros j d Hd. rewrite !elem_of_union, !elem_of_singleton, Hcan by done.
      split; (intros [->|?]; [left|by right]); [|congruence].
      by eapply NoDup_lookup.
    + intros j Hj. apply elem_of_union in Hj. destruct Hj as [Hj|Hj]; [|by apply Hb].
      apply elem_of_singleton in Hj. subst. eauto.
Qed.

Lemma implements_done n cs w r i c :
  implements n cs w r -> cs !! i = Some c ->
  ctx_done w c = bool_decide (i ∈ a_cancelled r).
Proof.
  intros [_ (nd & _ & _ & _ & _ & _ & _ & Hnc & Hcs) _ _ _ _ Hcan _] Hi.
  assert (Hin : c ∈ cs) by (by eapply list_elem_of_lookup_2).
  unfold ctx_done. rewrite (proj1 (Hcs c Hin)). simpl.
  rewrite (bool_decide_eq_false_2 (n_ctx nd ∈ _)) by done. simpl.
  rewrite orb_false_r. by apply bool_decide_ext, Hcan.
Qed.

(** C5. Signals cancel exactly the operation they were last given to: along any
    sequence of allocations, operation starts, frees and cancels, an operation's
    context is done precisely when the registry says it was cancelled, so that
    cancelling one operation never cancels another, a freed or unknown signal
    cancels nothing, and a reused signal stands for its latest operation. *)
Theorem cancellation_refines_registry n cs w r ops :
  implements n cs w r ->
  returns (for_range ops (run_sig_op n))
    (fun _ w' => exists cs', implements n cs' w' (foldl reg_step r ops) /\ cs `prefix_of` cs' /\
       forall i c, cs' !! i = Some c ->
         ctx_done w' c = bool_decide (i ∈ a_cancelled (foldl reg_step r ops))) w.
Proof.
  revert cs w r. induction ops as [|o ops IH]; intros cs w r Him; simpl.
  { apply returns_ret. exists cs. split; [done|]. split; [done|]. intros i c.
    by apply (implements_done n). }
  apply returns_bind. eapply returns_mono; [by apply implements_step|].
  intros [] w1 (cs1 & H1 & Hp1).
  eapply returns_mono; [by apply IH|]. intros [] w2 (cs2 & H2 & Hp2 & Hd).
  exists cs2. split; [done|]. split; [by etransitivity|done].
Qed.

(** [k] allocations in a row. *)
Fixpoint allocate_signals (k : nat) : M World (list Z) :=
  match k with
  | O => ret []
  | S k' => s <- go_asio_ipfs_cancellation_allocate ;;
            l <- allocate_signals k' ;;
            ret (s :: l)
  end.

Lemma allocate_signals_spec k : forall n nd w,
  w_gnode w = Some n -> w_nodes w !! n = Some nd ->
  (0 <= n_next_cancel_signal_id nd < 2 ^ 64)%Z ->
  returns (allocate_signals k)
    (fun l _ => l = map (fun j => u64 (n_next_cancel_signal_id nd + Z.of_nat j)) (seq 0 k)) w.
Proof.
  induction k as [|k IH]; intros n nd w Hg Hn Hr; simpl; [by apply returns_ret|].
  apply returns_bind. unfold go_asio_ipfs_cancellation_allocate.
  apply returns_bind, returns_gets. rewrite Hg. apply returns_bind.
  eapply returns_load_node; [done|]. apply returns_bind, returns_modify, returns_ret, returns_bind.
  eapply returns_mono.
  - eapply (IH n (set_n_next_cancel_signal_id (u64 (n_next_cancel_signal_id nd + 1)) nd)).
    + done.
    + simpl. by rewrite lookup_alter_eq, Hn.
    + apply u64_range.
  - intros l w' ->. apply returns_ret. simpl. rewrite Z.add_0_r, (u64_small (n_next_cancel_signal_id nd)) by done.
    f_equal. rewrite <- seq_shift, map_map. apply map_ext. intros j.
    unfold u64. rewrite Zplus_mod_idemp_l. f_equal. lia.
Qed.

(** C23. Live signals never collide: as many allocations in a row as a 64-bit
    counter can number return pairwise distinct signals (the counter wraps, so
    one more would repeat the first). *)
Theorem allocated_signals_distinct k n nd w :
  w_gnode w = Some n -> w_nodes w !! n = Some nd ->
  (0 <= n_next_cancel_signal_id nd < 2 ^ 64)%Z -> (Z.of_nat k <= 2 ^ 64)%Z ->
  returns (allocate_signals k)
    (fun l _ => NoDup l /\ length l = k /\ Forall (fun s => (0 <= s < 2 ^ 64)%Z) l) w.
Proof.
  intros Hg Hn Hr Hk. eapply returns_mono; [by eapply allocate_signals_spec|].
  intros l _ ->. split.
  - apply NoDup_fmap_2_strong; [|apply NoDup_seq]. intros i j Hi Hj.
    apply elem_of_seq in Hi, Hj. unfold u64. intros Heq.
    assert (Hd : (((n_next_cancel_signal_id nd + Z.of_nat i) - (n_next_cancel_signal_id nd + Z.of_nat j))
                 mod 2 ^ 64 = 0)%Z) by (rewrite Zminus_mod, Heq, Z.sub_diag; apply Z.mod_0_l; lia).
    replace (n_next_cancel_signal_id nd + Z.of_nat i - (n_next_cancel_signal_id nd + Z.of_nat j))%Z
      with (Z.of_nat i - Z.of_nat j)%Z in Hd by lia.
    apply Z.mod_divide in Hd; [|lia]. destruct Hd as [q Hq].
    assert (q = 0)%Z by nia. lia.
  - split; [by rewrite length_map, length_seq|]. apply Forall_map, Forall_forall.
    intros j _. apply u64_range.
Qed.
End cancel.

(** ** Witnesses *)

#[local] Existing Instance toy_types.
#[local] Existing Instance toy_ext.

(** A process with one node, at address 0, whose context is 1. *)
Definition toy_node (api : option CoreAPI) (ipfs : option IpfsNode) : Node :=
  mkNode 1 None ipfs api None 1 0 ∅ 100 200 0.

Definition toy_node_world (fails : list string) api ipfs : World :=
  mkWorld (Some 0) true true true 2 {[0 := toy_node api ipfs]} {[1 := [1]]} ∅ ∅ []
    (mkLogger 3 OutStderr) 1 ∅ [] (toy_env fails).

Lemma toy_node_world_implements fails api ipfs :
  implements 0 [] (toy_node_world fails api ipfs) (mkRegistry 0 ∅ 0 ∅).
Proof.
  constructor; [reflexivity | | reflexivity | apply NoDup_nil_2 | done | set_solver | done | set_solver].
  exists (toy_node api ipfs). split; [reflexivity|]. split; [reflexivity|].
  split; [done|]. split; [reflexivity|]. split; [simpl; lia|]. set_solver.
Qed.

Lemma cancellation_refines_registry_witness :
  returns (for_range [SAllocate; SStart 0; SAllocate; SStart 1; SCancel 0] (run_sig_op 0))
    (fun _ w' => exists cs', length cs' = 2 /\
       forall i c, cs' !! i = Some c -> ctx_done w' c = bool_decide (i = 0))
    (toy_node_world [] None None).
Proof.
  eapply returns_mono.
  - apply (cancellation_refines_registry 0 [] _ _ [SAllocate; SStart 0; SAllocate; SStart 1; SCancel 0]
             (toy_node_world_implements [] None None)).
  - intros [] w' (cs' & Him & _ & Hd). exists cs'. split.
    + rewrite (im_count _ _ _ _ Him). reflexivity.
    + intros i c Hi. rewrite (Hd i c Hi). apply bool_decide_ext. simpl. set_solver.
Defined.

Lemma allocated_signals_distinct_witness :
  returns (allocate_signals 3)
    (fun l _ => NoDup l /\ length l = 3 /\ Forall (fun s => (0 <= s < 2 ^ 64)%Z) l)
    (toy_node_world [] None None).
Proof.
  apply (allocated_signals_distinct 3 0 (toy_node None None)); [reflexivity|reflexivity|simpl; lia|lia].
Defined.
