(* ===== verification/Calls.v ===== *)
(** * Sequences of third-party calls

    The trace records every call of third-party code; [calls] lists them without
    the clock readings of the logger.

    An [item] is one interaction with the environment, with its result: a call of a
    named third-party function with its arguments, an access to the file system, or
    the run of a smaller function.  [called l w w'] says that [w'] is [w] after
    exactly the interactions [l], in this order, and some logging, with everything
    the glue itself keeps unchanged.  The specifications of the repository and of
    the start-up are predicates on such lists: which interactions may occur, and
    what is returned after them. *)
From S2P Require Import Prelude GoStrings GoOs Ext World Toy Effects Log.
#[local] Open Scope go_scope.

Definition clocks : list string := ["time.Now.date"; "time.Now.time"; "time.Now"].

Definition call_name (e : event) : option string :=
  match e with
  | ECall c => if decide (c ∈ clocks) then None else Some c
  | _ => None
  end.

Definition calls (t : list event) : list string := omap call_name t.

Lemma calls_app t1 t2 : calls (t1 ++ t2) = calls t1 ++ calls t2.
Proof. apply omap_app. Qed.

Lemma calls_log_events es : Forall log_event es -> calls es = [].
Proof.
  induction 1 as [|e es He _ IH]; [done|]. unfold calls in *. cbn [omap list_omap].
  destruct e; simpl in *; try done. rewrite decide_True; [done|].
  destruct He as [-> | ->]; set_solver.
Qed.

(** The events C++ sees, other than log lines. *)
Definition is_callback (e : event) : bool :=
  match e with EVoidCB _ _ _ | EDataCB _ _ _ _ _ | EStateCB _ _ _ _ => true | _ => false end.

Definition callbacks (t : list event) : list event := filter (fun e => is_callback e = true) t.

Lemma callbacks_app t1 t2 : callbacks (t1 ++ t2) = callbacks t1 ++ callbacks t2.
Proof. apply filter_app. Qed.

Lemma callbacks_log_events es : Forall log_event es -> callbacks es = [].
Proof.
  induction 1 as [|e es He _ IH]; [done|]. unfold callbacks in *. rewrite filter_cons, IH.
  destruct e; simpl in *; try done; by case_decide.
Qed.

Lemma callbacks_call name : callbacks [ECall name] = [].
Proof. reflexivity. Qed.

Section calls.
Context `{External}.

(** ** Interactions *)

(** The named calls an interaction adds to the trace, and how it changes the
    environment. *)
Record item := mkItem {
  it_names : list string;
  it_step : Env -> Env -> Prop;
}.

(** The third-party function [name] was called as [op] and returned [a]. *)
Definition did {A} (name : string) (op : Ext A) (a : A) : item :=
  mkItem [name] (fun e e' => op e = (a, e')).

(** The clock was read as [op] and showed [a]. *)
Definition read_clock {A} (op : Ext A) (a : A) : item :=
  mkItem [] (fun e e' => op e = (a, e')).

(** Package [os] was called as [op] and returned [a]. *)
Definition did_fs {A} (op : FS -> A * FS) (a : A) : item :=
  mkItem [] (fun e e' => op (env_fs e) = (a, env_fs e') /\ env_x e' = env_x e).

(** The file system was found to satisfy [P]. *)
Definition saw (P : FS -> Prop) : item := mkItem [] (fun e e' => e' = e /\ P (env_fs e)).

(** The code [m], which makes no named call, was run and returned [a]. *)
Definition ran {A} (m : M World A) (a : A) : item :=
  mkItem [] (fun e e' => exists w w', w_env w = e /\ w_env w' = e' /\ m w = (Ok a, w')).

Definition names (l : list item) : list string := flat_map it_names l.

Lemma names_app l1 l2 : names (l1 ++ l2) = names l1 ++ names l2.
Proof. apply flat_map_app. Qed.

(** The environment goes from [e] to [e'] through [l], the clock being read in
    between. *)
Inductive interacts : list item -> Env -> Env -> Prop :=
| int_nil e e' : ticks e e' -> interacts [] e e'
| int_cons i l e e1 e2 e' :
    ticks e e1 -> it_step i e1 e2 -> interacts l e2 e' -> interacts (i :: l) e e'.

Lemma ticks_interacts l e e1 e' : ticks e e1 -> interacts l e1 e' -> interacts l e e'.
Proof.
  intros Ht Hi. unfold ticks in Ht. inversion Hi as [e2 e3 H2|i l' e2 e3 e4 e5 H2 H3 H4]; subst.
  - apply int_nil. unfold ticks in *. by etransitivity.
  - eapply int_cons; [unfold ticks in *; by etransitivity|done|done].
Qed.

Lemma interacts_app l1 l2 e e1 e' : interacts l1 e e1 -> interacts l2 e1 e' -> interacts (l1 ++ l2) e e'.
Proof. induction 1; simpl; eauto using ticks_interacts, int_cons. Qed.

Lemma interacts_one i e e' : it_step i e e' -> interacts [i] e e'.
Proof. intros. eapply int_cons; [apply rtc_refl|done|]. constructor. apply rtc_refl. Qed.

Definition called (l : list item) (w w' : World) : Prop :=
  same_core w w' /\ calls (w_trace w') = calls (w_trace w) ++ names l /\
  callbacks (w_trace w') = callbacks (w_trace w) /\ interacts l (w_env w) (w_env w').

Lemma called_refl w : called [] w w.
Proof. split; [done|]. rewrite app_nil_r. split; [done|]. split; [done|]. constructor. apply rtc_refl. Qed.

Lemma called_trans l1 l2 w1 w2 w3 :
  called l1 w1 w2 -> called l2 w2 w3 -> called (l1 ++ l2) w1 w3.
Proof.
  intros (S1 & E1 & C1 & I1) (S2 & E2 & C2 & I2). split; [by etransitivity|].
  rewrite E2, E1, names_app, app_assoc, C2, C1. eauto using interacts_app.
Qed.

Lemma called_trans_nil l w1 w2 w3 : called l w1 w2 -> called [] w2 w3 -> called l w1 w3.
Proof. intros H1 H2. pose proof (called_trans _ _ _ _ _ H1 H2) as Hc. by rewrite app_nil_r in Hc. Qed.

Lemma logged_called w w' : logged w w' -> called [] w w'.
Proof.
  intros [Hs [(es & Ht & Hf) Hk]]. split; [done|].
  rewrite Ht, calls_app, callbacks_app, (calls_log_events es), (callbacks_log_events es), !app_nil_r.
  2-3: done.
  split; [done|]. split; [done|]. by constructor.
Qed.

(** Code that makes no named call and only looks at the environment; its run is one
    interaction. *)
Definition hushed (w w' : World) : Prop :=
  same_core w w' /\ calls (w_trace w') = calls (w_trace w) /\
  callbacks (w_trace w') = callbacks (w_trace w).

#[export] Instance hushed_preorder : PreOrder hushed.
Proof.
  split; [by intros w|]. intros w1 w2 w3 (S1 & E1 & C1) (S2 & E2 & C2).
  split; [by etransitivity|]. split; congruence.
Qed.

Lemma hushed_ran {A} (m : M World A) (a : A) w w' :
  m w = (Ok a, w') -> hushed w w' -> called [ran m a] w w'.
Proof.
  intros Hm (S & E & C). split; [done|]. simpl. rewrite app_nil_r. split; [done|]. split; [done|].
  apply interacts_one. by exists w, w'.
Qed.

(** Logging is possible and safe. *)
Definition ready (w : World) : Prop := log_ok w /\ heap_ok w.

Lemma same_core_ready w w' : same_core w w' -> ready w -> ready w'.
Proof.
  intros [] [Hl [H1 H2]]. split; [unfold log_ok; congruence|]. split; [lia|].
  intros p Hp. rewrite sc_cheap. apply H2. lia.
Qed.

Lemma called_ready l w w' : called l w w' -> ready w -> ready w'.
Proof. intros [Hs _]. by apply same_core_ready. Qed.

(** ** Steps *)

Lemma call_called {A} name (op : Ext A) w :
  (name ∉ clocks) ->
  returns (call name op)
    (fun a w' => called [did name op a] w w' /\ exists e, op (w_env w) = (a, e) /\ w_env w' = e) w.
Proof.
  intros Hn. apply returns_call. intros a e Hop. split; [|by eexists].
  split; [by split|]. simpl. rewrite calls_app, callbacks_app, (callbacks_call name), app_nil_r. split.
  { f_equal. unfold calls. simpl. by rewrite decide_False by done. }
  split; [done|]. by apply interacts_one.
Qed.

Lemma clock_read {A} name (op : Ext A) w :
  (name ∈ clocks) -> returns (call name op) (fun a w' => called [read_clock op a] w w' /\ op (w_env w) = (a, w_env w')) w.
Proof.
  intros Hn. apply returns_call. intros a e Hop. split; [|done]. split; [by split|].
  simpl. rewrite calls_app, callbacks_app, (callbacks_call name), !app_nil_r. split.
  { unfold calls at 2. simpl. by rewrite decide_True, app_nil_r by done. }
  split; [done|]. by apply interacts_one.
Qed.

(** A reading whose result does not matter is one of the log's. *)
Lemma clock_called w : returns (call "time.Now" time_Now) (fun _ w' => called [] w w') w.
Proof.
  eapply returns_mono; [apply clock_read; set_solver|]. intros a w' [(S & E & C & _) He].
  split; [done|]. split; [done|]. split; [done|]. constructor. apply rtc_once.
  change (w_env w') with (a, w_env w').2. rewrite <- He. constructor.
Qed.

Lemma on_fs_called {A} (op : FS -> A * FS) w :
  returns (on_fs op)
    (fun a w' => called [did_fs op a] w w' /\ op (env_fs (w_env w)) = (a, env_fs (w_env w'))) w.
Proof.
  unfold returns, wp, on_fs. destruct (op (env_fs (w_env w))) as [a fs] eqn:E. simpl.
  split; [|done]. split; [by split|]. rewrite app_nil_r. split; [done|]. split; [done|].
  by apply interacts_one.
Qed.

Lemma on_fs_hushed {A} (op : FS -> A * FS) w : returns (on_fs op) (fun _ w' => hushed w w') w.
Proof.
  eapply returns_mono; [apply on_fs_called|]. intros a w' [(S & E & C & _) _].
  simpl in E. rewrite app_nil_r in E. by split.
Qed.

Lemma read_fs_called {A} (op : FS -> A) w : returns (read_fs op) (fun a w' => w' = w /\ a = op (env_fs (w_env w))) w.
Proof. done. Qed.

Lemma log_Println_called l w : ready w -> returns (log_Println l) (fun _ w' => called [] w w') w.
Proof.
  intros [Hl Hh]. eapply returns_mono; [by apply log_Println_spec|]. intros ? w'. apply logged_called.
Qed.

Lemma log_Printf_called f l w : ready w -> returns (log_Printf f l) (fun _ w' => called [] w w') w.
Proof.
  intros [Hl Hh]. eapply returns_mono; [by apply log_Printf_spec|]. intros ? w'. apply logged_called.
Qed.

(** ** Running a handler step by step

    [called cs w w1] accumulates the interactions since the handler was entered in
    [w]; each rule performs the next statement. *)
Definition not_clock (name : string) : bool :=
  bool_decide (name ∉ clocks).

Section steps.
Context {A B : Type} (w w1 : World) (cs : list item).

Lemma step_call name (op : Ext A) (k : A -> M World B) Q :
  called cs w w1 -> not_clock name = true ->
  (forall a w2, op (w_env w1) = (a, w_env w2) -> called (cs ++ [did name op a]) w w2 -> returns (k a) Q w2) ->
  returns (bind (call name op) k) Q w1.
Proof.
  unfold not_clock. rewrite bool_decide_eq_true. intros Hc Hn Hk. apply returns_bind.
  eapply returns_mono; [by apply call_called|].
  intros a w2 (Hc2 & e & He & He2). subst e. apply Hk; [done|]. by eapply called_trans.
Qed.

Lemma step_logf f l (k : unit -> M World B) Q :
  called cs w w1 -> ready w ->
  (forall w2, called cs w w2 -> returns (k tt) Q w2) ->
  returns (bind (log_Printf f l) k) Q w1.
Proof.
  intros Hc Hr Hk. apply returns_bind.
  eapply returns_mono; [apply log_Printf_called; by eapply called_ready|].
  intros [] w2 Hc2. apply Hk. by eapply called_trans_nil.
Qed.

Lemma step_log l (k : unit -> M World B) Q :
  called cs w w1 -> ready w ->
  (forall w2, called cs w w2 -> returns (k tt) Q w2) ->
  returns (bind (log_Println l) k) Q w1.
Proof.
  intros Hc Hr Hk. apply returns_bind.
  eapply returns_mono; [apply log_Println_called; by eapply called_ready|].
  intros [] w2 Hc2. apply Hk. by eapply called_trans_nil.
Qed.

(** A statement that makes no call, with a postcondition [P]. *)
Lemma step_quiet (m : M World A) (k : A -> M World B) (P : A -> World -> Prop) Q :
  called cs w w1 ->
  returns m (fun a w2 => called [] w1 w2 /\ P a w2) w1 ->
  (forall a w2, called cs w w2 -> P a w2 -> returns (k a) Q w2) ->
  returns (bind m k) Q w1.
Proof.
  intros Hc Hm Hk. apply returns_bind. eapply returns_mono; [exact Hm|].
  intros a w2 [Hc2 HP]. apply Hk; [|done]. by eapply called_trans_nil.
Qed.

(** A smaller function that returns [a], as one interaction. *)
Lemma step_ran (m : M World A) (k : A -> M World B) (P : A -> World -> Prop) Q :
  called cs w w1 ->
  returns m (fun a w2 => hushed w1 w2 /\ P a w2) w1 ->
  (forall a w2, called (cs ++ [ran m a]) w w2 -> P a w2 -> returns (k a) Q w2) ->
  returns (bind m k) Q w1.
Proof.
  intros Hc Hm Hk. apply returns_bind. unfold returns, wp in *.
  destruct (m w1) as [[a|p] w2] eqn:E; [|done]. destruct Hm as [Hh HP]. apply Hk; [|done].
  eapply called_trans; [done|]. by apply hushed_ran.
Qed.

(** A look at the file system. *)
Lemma step_saw (m : M World A) (k : A -> M World B) (P : A -> FS -> Prop) Q :
  called cs w w1 ->
  returns m (fun a w2 => w2 = w1 /\ P a (env_fs (w_env w1))) w1 ->
  (forall a, called (cs ++ [saw (P a)]) w w1 -> P a (env_fs (w_env w1)) -> returns (k a) Q w1) ->
  returns (bind m k) Q w1.
Proof.
  intros Hc Hm Hk. apply returns_bind. eapply returns_mono; [exact Hm|]. intros a w2 [-> HP].
  apply Hk; [|done]. eapply called_trans; [done|]. split; [done|]. rewrite app_nil_r.
  split; [done|]. split; [done|]. by apply interacts_one.
Qed.
End steps.
End calls.
