(* ===== verification/Config.v ===== *)
(** * Configuration (ipfs_config.go)

    [AsioConfig] is what C++ passes in; [updateConfig] writes it into the go-ipfs
    configuration of the repository, [replacePorts] moves the swarm addresses to
    the requested port, [makeBuildCfg] turns the result into the options the node
    is built with. *)
From S2P Require Import Prelude GoStrings GoPath GoOs Ext World Toy Effects Log.
From Stdlib Require Import Ascii.
#[local] Open Scope go_scope.

Record AsioConfig := mkAsioConfig {
  LowWater : Z;
  HighWater : Z;
  GracePeriod : string;
  AutoRelay : bool;
  RelayHop : bool;
  cBootstrap : list string;
  cPeering : list string;
  SwarmPort : Z;
  APIAddress : string;
  GatewayAddress : string;
  DefaultProfile : string;
  StorageMax : string;
  AutoNAT : bool;
  AutoNATLimit : Z;
  AutoNATPeerLimit : Z;
  SwarmKey : string;
  RoutingType : string;
  RunGC : bool;
}.

Definition configLock : string := "config.lock".

Definition formRepoPath (repoRoot fname : string) : string :=
  let repoPath := Clean repoRoot in
  Join repoPath fname.

(** ** Assignments to the fields of a [config.Config] *)
Section config_fields.
Context `{CfgTypes}.

Definition set_ConnMgr_LowWater (x : Z) (c : Config) : Config :=
  mkConfig x (ConnMgr_HighWater c) (ConnMgr_GracePeriod c) (Swarm_EnableAutoRelay c) (Swarm_EnableRelayHop c) (Network_Relay c) (Routing_Type c) (Datastore_StorageMax c) (AutoNAT_ServiceMode c) (AutoNAT_Throttle c) (Addresses_Swarm c) (Addresses_API c) (Addresses_Gateway c) (Bootstrap c) (Peering_Peers c) (Gateway_Writable c) (Gateway_RootRedirect c) (Experimental_P2pHttpProxy c) (cfg_other c).

Definition set_ConnMgr_HighWater (x : Z) (c : Config) : Config :=
  mkConfig (ConnMgr_LowWater c) x (ConnMgr_GracePeriod c) (Swarm_EnableAutoRelay c) (Swarm_EnableRelayHop c) (Network_Relay c) (Routing_Type c) (Datastore_StorageMax c) (AutoNAT_ServiceMode c) (AutoNAT_Throttle c) (Addresses_Swarm c) (Addresses_API c) (Addresses_Gateway c) (Bootstrap c) (Peering_Peers c) (Gateway_Writable c) (Gateway_RootRedirect c) (Experimental_P2pHttpProxy c) (cfg_other c).

Definition set_ConnMgr_GracePeriod (x : string) (c : Config) : Config :=
  mkConfig (ConnMgr_LowWater c) (ConnMgr_HighWater c) x (Swarm_EnableAutoRelay c) (Swarm_EnableRelayHop c) (Network_Relay c) (Routing_Type c) (Datastore_StorageMax c) (AutoNAT_ServiceMode c) (AutoNAT_Throttle c) (Addresses_Swarm c) (Addresses_API c) (Addresses_Gateway c) (Bootstrap c) (Peering_Peers c) (Gateway_Writable c) (Gateway_RootRedirect c) (Experimental_P2pHttpProxy c) (cfg_other c).

Definition set_Swarm_EnableAutoRelay (x : bool) (c : Config) : Config :=
  mkConfig (ConnMgr_LowWater c) (ConnMgr_HighWater c) (ConnMgr_GracePeriod c) x (Swarm_EnableRelayHop c) (Network_Relay c) (Routing_Type c) (Datastore_StorageMax c) (AutoNAT_ServiceMode c) (AutoNAT_Throttle c) (Addresses_Swarm c) (Addresses_API c) (Addresses_Gateway c) (Bootstrap c) (Peering_Peers c) (Gateway_Writable c) (Gateway_RootRedirect c) (Experimental_P2pHttpProxy c) (cfg_other c).

Definition set_Swarm_EnableRelayHop (x : bool) (c : Config) : Config :=
  mkConfig (ConnMgr_LowWater c) (ConnMgr_HighWater c) (ConnMgr_GracePeriod c) (Swarm_EnableAutoRelay c) x (Network_Relay c) (Routing_Type c) (Datastore_StorageMax c) (AutoNAT_ServiceMode c) (AutoNAT_Throttle c) (Addresses_Swarm c) (Addresses_API c) (Addresses_Gateway c) (Bootstrap c) (Peering_Peers c) (Gateway_Writable c) (Gateway_RootRedirect c) (Experimental_P2pHttpProxy c) (cfg_other c).

Definition set_Network_Relay (x : Flag) (c : Config) : Config :=
  mkConfig (ConnMgr_LowWater c) (ConnMgr_HighWater c) (ConnMgr_GracePeriod c) (Swarm_EnableAutoRelay c) (Swarm_EnableRelayHop c) x (Routing_Type c) (Datastore_StorageMax c) (AutoNAT_ServiceMode c) (AutoNAT_Throttle c) (Addresses_Swarm c) (Addresses_API c) (Addresses_Gateway c) (Bootstrap c) (Peering_Peers c) (Gateway_Writable c) (Gateway_RootRedirect c) (Experimental_P2pHttpProxy c) (cfg_other c).

Definition set_Routing_Type (x : string) (c : Config) : Config :=
  mkConfig (ConnMgr_LowWater c) (ConnMgr_HighWater c) (ConnMgr_GracePeriod c) (Swarm_EnableAutoRelay c) (Swarm_EnableRelayHop c) (Network_Relay c) x (Datastore_StorageMax c) (AutoNAT_ServiceMode c) (AutoNAT_Throttle c) (Addresses_Swarm c) (Addresses_API c) (Addresses_Gateway c) (Bootstrap c) (Peering_Peers c) (Gateway_Writable c) (Gateway_RootRedirect c) (Experimental_P2pHttpProxy c) (cfg_other c).

Definition set_Datastore_StorageMax (x : string) (c : Config) : Config :=
  mkConfig (ConnMgr_LowWater c) (ConnMgr_HighWater c) (ConnMgr_GracePeriod c) (Swarm_EnableAutoRelay c) (Swarm_EnableRelayHop c) (Network_Relay c) (Routing_Type c) x (AutoNAT_ServiceMode c) (AutoNAT_Throttle c) (Addresses_Swarm c) (Addresses_API c) (Addresses_Gateway c) (Bootstrap c) (Peering_Peers c) (Gateway_Writable c) (Gateway_RootRedirect c) (Experimental_P2pHttpProxy c) (cfg_other c).

Definition set_AutoNAT_ServiceMode (x : ServiceMode) (c : Config) : Config :=
  mkConfig (ConnMgr_LowWater c) (ConnMgr_HighWater c) (ConnMgr_GracePeriod c) (Swarm_EnableAutoRelay c) (Swarm_EnableRelayHop c) (Network_Relay c) (Routing_Type c) (Datastore_StorageMax c) x (AutoNAT_Throttle c) (Addresses_Swarm c) (Addresses_API c) (Addresses_Gateway c) (Bootstrap c) (Peering_Peers c) (Gateway_Writable c) (Gateway_RootRedirect c) (Experimental_P2pHttpProxy c) (cfg_other c).

Definition set_AutoNAT_Throttle (x : option Throttle) (c : Config) : Config :=
  mkConfig (ConnMgr_LowWater c) (ConnMgr_HighWater c) (ConnMgr_GracePeriod c) (Swarm_EnableAutoRelay c) (Swarm_EnableRelayHop c) (Network_Relay c) (Routing_Type c) (Datastore_StorageMax c) (AutoNAT_ServiceMode c) x (Addresses_Swarm c) (Addresses_API c) (Addresses_Gateway c) (Bootstrap c) (Peering_Peers c) (Gateway_Writable c) (Gateway_RootRedirect c) (Experimental_P2pHttpProxy c) (cfg_other c).

Definition set_Addresses_Swarm (x : list string) (c : Config) : Config :=
  mkConfig (ConnMgr_LowWater c) (ConnMgr_HighWater c) (ConnMgr_GracePeriod c) (Swarm_EnableAutoRelay c) (Swarm_EnableRelayHop c) (Network_Relay c) (Routing_Type c) (Datastore_StorageMax c) (AutoNAT_ServiceMode c) (AutoNAT_Throttle c) x (Addresses_API c) (Addresses_Gateway c) (Bootstrap c) (Peering_Peers c) (Gateway_Writable c) (Gateway_RootRedirect c) (Experimental_P2pHttpProxy c) (cfg_other c).

Definition set_Addresses_API (x : list string) (c : Config) : Config :=
  mkConfig (ConnMgr_LowWater c) (ConnMgr_HighWater c) (ConnMgr_GracePeriod c) (Swarm_EnableAutoRelay c) (Swarm_EnableRelayHop c) (Network_Relay c) (Routing_Type c) (Datastore_StorageMax c) (AutoNAT_ServiceMode c) (AutoNAT_Throttle c) (Addresses_Swarm c) x (Addresses_Gateway c) (Bootstrap c) (Peering_Peers c) (Gateway_Writable c) (Gateway_RootRedirect c) (Experimental_P2pHttpProxy c) (cfg_other c).

Definition set_Addresses_Gateway (x : list string) (c : Config) : Config :=
  mkConfig (ConnMgr_LowWater c) (ConnMgr_HighWater c) (ConnMgr_GracePeriod c) (Swarm_EnableAutoRelay c) (Swarm_EnableRelayHop c) (Network_Relay c) (Routing_Type c) (Datastore_StorageMax c) (AutoNAT_ServiceMode c) (AutoNAT_Throttle c) (Addresses_Swarm c) (Addresses_API c) x (Bootstrap c) (Peering_Peers c) (Gateway_Writable c) (Gateway_RootRedirect c) (Experimental_P2pHttpProxy c) (cfg_other c).

Definition set_Bootstrap (x : list string) (c : Config) : Config :=
  mkConfig (ConnMgr_LowWater c) (ConnMgr_HighWater c) (ConnMgr_GracePeriod c) (Swarm_EnableAutoRelay c) (Swarm_EnableRelayHop c) (Network_Relay c) (Routing_Type c) (Datastore_StorageMax c) (AutoNAT_ServiceMode c) (AutoNAT_Throttle c) (Addresses_Swarm c) (Addresses_API c) (Addresses_Gateway c) x (Peering_Peers c) (Gateway_Writable c) (Gateway_RootRedirect c) (Experimental_P2pHttpProxy c) (cfg_other c).

Definition set_Peering_Peers (x : list AddrInfo) (c : Config) : Config :=
  mkConfig (ConnMgr_LowWater c) (ConnMgr_HighWater c) (ConnMgr_GracePeriod c) (Swarm_EnableAutoRelay c) (Swarm_EnableRelayHop c) (Network_Relay c) (Routing_Type c) (Datastore_StorageMax c) (AutoNAT_ServiceMode c) (AutoNAT_Throttle c) (Addresses_Swarm c) (Addresses_API c) (Addresses_Gateway c) (Bootstrap c) x (Gateway_Writable c) (Gateway_RootRedirect c) (Experimental_P2pHttpProxy c) (cfg_other c).

End config_fields.

Section config.
Context `{External}.

Definition configUnlocked (repoRoot : string) : M World bool :=
  let cpath := formRepoPath repoRoot configLock in
  r <- read_fs (os_Stat cpath) ;;
  match r with
  | inr err => if is_not_exist err then ret true else ret false
  | inl _ => ret false
  end.

(** The closure inside [replacePorts]: every component of the protocol rewrites
    the text accumulated so far. *)
Definition replacePort (addr : string) (proto : Z) (prefix : string) (newPort : Z) : result string :=
  match ma_NewMultiaddr addr with
  | inr err => inr err
  | inl maddr =>
      inl (foldl (fun addr comp =>
                    if decide (comp_Code comp = proto) then
                      let sport := comp_Value comp in
                      let what := prefix +:+ sport in
                      let with_ := prefix +:+ FormatInt10 newPort in
                      strings_Replace_all addr what with_
                    else addr)
                 addr (ma_components maddr))
  end.

(** The slice is updated in place, so an error leaves the addresses before it
    rewritten and the rest as they were. *)
Fixpoint replacePorts (addrs : list string) (newPort : Z) : list string * option error :=
  match addrs with
  | [] => ([], None)
  | addr0 :: rest =>
      match replacePort addr0 P_TCP "/tcp/" newPort with
      | inr err => (addr0 :: rest, Some err)
      | inl addr =>
          match replacePort addr P_UDP "/udp/" newPort with
          | inr err => (addr0 :: rest, Some err)
          | inl addr =>
              let '(rest', err) := replacePorts rest newPort in
              (addr :: rest', err)
          end
      end
  end.

(** The loop of [updateConfig] over the peering addresses. *)
Fixpoint parsePeering (addrs : list string) : result (list Multiaddr) :=
  match addrs with
  | [] => inl []
  | addr :: rest =>
      match ma_NewMultiaddr addr with
      | inr err => inr (Errorf (Sprintf "Failed to parse peering address: %s" [FStr (err_msg err)]))
      | inl maddr =>
          match parsePeering rest with
          | inr err => inr err
          | inl maddrs => inl (maddr :: maddrs)
          end
      end
  end.

(** [updateConfig] mutates [conf] and returns an error or nil; the new value of
    [*conf] is returned with it. *)
Definition updateConfig (conf : Config) (c : AsioConfig) : M World (Config * option error) :=
  let conf := set_ConnMgr_LowWater (LowWater c) conf in
  let conf := set_ConnMgr_HighWater (HighWater c) conf in
  let conf := set_ConnMgr_GracePeriod (GracePeriod c) conf in
  let conf := set_Swarm_EnableAutoRelay (AutoRelay c) conf in
  let conf := set_Swarm_EnableRelayHop (RelayHop c) conf in
  let conf := set_Network_Relay Flag_True conf in
  let conf := set_Routing_Type (RoutingType c) conf in
  let conf := set_Datastore_StorageMax (StorageMax c) conf in
  let conf := set_AutoNAT_ServiceMode
                (if AutoNAT c then AutoNATServiceEnabled else AutoNATServiceDisabled) conf in
  let conf := set_AutoNAT_Throttle (Some (mkThrottle (AutoNATLimit c) (AutoNATPeerLimit c))) conf in
  let '(swarm, err) := replacePorts (Addresses_Swarm conf) (SwarmPort c) in
  let conf := set_Addresses_Swarm swarm conf in
  match err with
  | Some err => ret (conf, Some err)
  | None =>
  let conf := set_Addresses_API
                (if decide (String.length (APIAddress c) = 0) then [] else [APIAddress c]) conf in
  let conf := set_Addresses_Gateway
                (if decide (String.length (GatewayAddress c) = 0) then [] else [GatewayAddress c]) conf in
  r <- (if decide (length (cBootstrap c) = 0) then
          log_Println ["IPFS WARNING: empty bootstrap peers in config. Default IPFS bootstrap peers would be used."] ;;;
          ret (conf, None)
        else
          match config_ParseBootstrapPeers (cBootstrap c) with
          | inr err => ret (conf, Some (Errorf (Sprintf "Failed to parse bootstrap peers: %s" [FStr (err_msg err)])))
          | inl ps => ret (set_Bootstrap (config_BootstrapPeerStrings ps) conf, None)
          end) ;;
  match r with
  | (conf, Some err) => ret (conf, Some err)
  | (conf, None) =>
      if decide (length (cPeering c) = 0) then
        log_Println ["IPFS WARNING: empty peering in config."] ;;;
        ret (conf, None)
      else
        match parsePeering (cPeering c) with
        | inr err => ret (conf, Some err)
        | inl maddrs =>
            match peer_AddrInfosFromP2pAddrs maddrs with
            | inr err => ret (conf, Some (Errorf (Sprintf "Failed to parse peering list: %s" [FStr (err_msg err)])))
            | inl addrs => ret (set_Peering_Peers addrs conf, None)
            end
        end
  end
  end.

Definition updateRepo (repoRoot : string) (acfg : AsioConfig) : M World (option error) :=
  if decide (SwarmKey acfg = "") then ret None
  else
    let spath := formRepoPath repoRoot "swarm.key" in
    f <- on_fs (os_Create spath) ;;
    match f with
    | inr err => ret (Some err)
    | inl f =>
        err <- on_fs (File_WriteString f (SwarmKey acfg)) ;;
        match err with
        | Some err => ret (Some err)
        | None => ret None
        end
    end.

Definition makeBuildCfg (repo : Repo) (cfg : Config) : M World BuildCfg :=
  let ncfg := mkBuildCfg repo true true false
                (<["pubsub" := false]> (<["ipnsps" := false]> ∅)) in
  let routingOption := if decide (Routing_Type cfg = "") then "dht" else Routing_Type cfg in
  if decide (routingOption = "dhtclient") then ret (ncfg DHTClientOption)
  else if decide (routingOption = "dht") then ret (ncfg DHTOption)
  else if decide (routingOption = "dhtserver") then ret (ncfg DHTServerOption)
  else if decide (routingOption = "none") then ret (ncfg NilRouterOption)
  else panic (err_msg (Errorf (Sprintf "unrecognized routing option: %s" [FStr routingOption]))).

End config.
