(* ===== verification/Ports.v ===== *)
(** * Port replacement on rendered addresses

    A multiaddr's text is a sequence of slash-separated segments.  This file
    computes [strings.Replace], as [replacePort] calls it, on that sequence: a
    reference function on segments, its equivalence with the byte-level one, and
    from it what [replacePorts] does to an address. *)
From S2P Require Import Prelude GoStrings GoPath GoOs Ext World Toy Effects Log Config.
From Stdlib Require Import Ascii.

(** The text of a sequence of segments: a slash before each. *)
Fixpoint render_segs (segs : list string) : string :=
  match segs with
  | [] => ""
  | s :: rest => String slash (s +:+ render_segs rest)
  end.

(** Reference: after each segment [proto], a following segment that starts with
    [p] has that prefix replaced by [q]. *)
Fixpoint replace_segs (proto p q : string) (segs : list string) : list string :=
  match segs with
  | [] => []
  | s :: rest =>
      match rest with
      | v :: rest' =>
          if decide (s = proto /\ String.prefix p v = true)
          then s :: (q +:+ string_drop (String.length p) v) :: replace_segs proto p q rest'
          else s :: replace_segs proto p q rest
      | [] => [s]
      end
  end.

Definition no_slash (s : string) : Prop := lacks slash s = true.

Lemma replace_skip_lacks o new s t :
  no_slash s ->
  replace_from (String slash o) new 0 (s +:+ t) = s +:+ replace_from (String slash o) new 0 t.
Proof.
  unfold no_slash. induction s as [|c s IH]; [done|]. simpl.
  rewrite andb_true_iff, bool_decide_eq_true. intros [Hc Hs].
  destruct (ascii_dec slash c); [congruence|]. by rewrite IH.
Qed.

Lemma no_slash_cons c s : no_slash (String c s) <-> c <> slash /\ no_slash s.
Proof.
  unfold no_slash. simpl. rewrite andb_true_iff, bool_decide_eq_true. naive_solver.
Qed.

Lemma prefix_cons c d a b :
  String.prefix (String c a) (String d b) = true <-> c = d /\ String.prefix a b = true.
Proof. simpl. destruct (ascii_dec c d); naive_solver. Qed.

Lemma prefix_into_seg p v rest :
  no_slash p -> String.prefix p (v +:+ render_segs rest) = String.prefix p v.
Proof.
  revert v. induction p as [|c p IH]; intros v Hp; [by destruct v, rest|].
  apply no_slash_cons in Hp. destruct Hp as [Hc Hp].
  destruct v as [|d v].
  - destruct rest as [|r rest]; [done|]. simpl. by destruct (ascii_dec c slash).
  - simpl. destruct (ascii_dec c d); [by apply IH|done].
Qed.

Lemma prefix_seg a p s rest :
  no_slash a -> no_slash p -> no_slash s ->
  String.prefix (a +:+ String slash p) (s +:+ render_segs rest) = true <->
  s = a /\ exists v rest', rest = v :: rest' /\ String.prefix p v = true.
Proof.
  intros Ha Hp. revert s. induction a as [|c a IH]; intros s Hs.
  - destruct s as [|d s].
    + simpl. destruct rest as [|v rest]; [naive_solver|].
      change (String.prefix (String slash p) (String slash (v +:+ render_segs rest)) = true
              <-> "" = "" /\ exists v0 rest', v :: rest = v0 :: rest' /\ String.prefix p v0 = true).
      rewrite prefix_cons, prefix_into_seg by done. naive_solver.
    + apply no_slash_cons in Hs. destruct Hs as [Hd _].
      change (String.prefix (String slash p) (String d (s +:+ render_segs rest)) = true
              <-> String d s = "" /\ exists v0 rest', rest = v0 :: rest' /\ String.prefix p v0 = true).
      rewrite prefix_cons. naive_solver.
  - apply no_slash_cons in Ha. destruct Ha as [Hc Ha]. destruct s as [|d s].
    + destruct rest as [|v rest]; [naive_solver|].
      change (String.prefix (String c (a +:+ String slash p)) (String slash (v +:+ render_segs rest)) = true
              <-> "" = String c a /\ exists v0 rest', v :: rest = v0 :: rest' /\ String.prefix p v0 = true).
      rewrite prefix_cons. naive_solver.
    + apply no_slash_cons in Hs. destruct Hs as [_ Hs].
      change (String.prefix (String c (a +:+ String slash p)) (String d (s +:+ render_segs rest)) = true
              <-> String d s = String c a /\ exists v0 rest', rest = v0 :: rest' /\ String.prefix p v0 = true).
      rewrite prefix_cons, IH by done. naive_solver.
Qed.

(** The text [replacePort] searches for, or replaces it with. *)
Definition port_text (proto p : string) : string := String slash (proto +:+ String slash p).

Lemma replace_render_miss proto p q s rest :
  no_slash proto -> no_slash p -> no_slash s ->
  ~ (s = proto /\ exists v rest', rest = v :: rest' /\ String.prefix p v = true) ->
  strings_Replace_all (render_segs (s :: rest)) (port_text proto p) (port_text proto q)
  = String slash (s +:+ strings_Replace_all (render_segs rest) (port_text proto p) (port_text proto q)).
Proof.
  intros Hproto Hp Hs Hno. unfold strings_Replace_all, port_text. cbn [render_segs].
  rewrite replace_miss; [by rewrite replace_skip_lacks|].
  apply not_true_iff_false. rewrite prefix_cons, prefix_seg by done. tauto.
Qed.

Lemma replace_render_hit proto p q v rest :
  no_slash p -> no_slash v -> String.prefix p v = true ->
  strings_Replace_all (render_segs (proto :: v :: rest)) (port_text proto p) (port_text proto q)
  = String slash (proto +:+ String slash ((q +:+ string_drop (String.length p) v)
      +:+ strings_Replace_all (render_segs rest) (port_text proto p) (port_text proto q))).
Proof.
  intros Hp Hv Hpre. apply prefix_true in Hpre. destruct Hpre as [x ->].
  rewrite string_drop_app. unfold strings_Replace_all. cbn [render_segs].
  replace (String slash (proto +:+ String slash ((p +:+ x) +:+ render_segs rest)))
    with (port_text proto p +:+ (x +:+ render_segs rest)).
  2:{ unfold port_text. simpl. by rewrite !string_app_assoc. }
  rewrite replace_hit by done. unfold port_text at 1. simpl. f_equal.
  rewrite !string_app_assoc. f_equal. simpl. do 2 f_equal.
  unfold port_text. apply replace_skip_lacks. unfold no_slash in *.
  rewrite lacks_app, andb_true_iff in Hv. tauto.
Qed.

(** Equivalence of the byte-level replacement with the reference on segments. *)
Lemma replace_render proto p q segs :
  no_slash proto -> no_slash p -> Forall no_slash segs ->
  strings_Replace_all (render_segs segs) (port_text proto p) (port_text proto q)
  = render_segs (replace_segs proto p q segs).
Proof.
  intros Hproto Hp. induction segs as [segs IH] using (well_founded_induction_type
    (Wf_nat.well_founded_ltof _ (@length string))). intros Hs.
  destruct segs as [|s rest]; [done|]. inversion Hs as [|? ? Hs1 Hs2]; subst.
  assert (Hrest : strings_Replace_all (render_segs rest) (port_text proto p) (port_text proto q)
                  = render_segs (replace_segs proto p q rest)).
  { apply IH; [unfold Wf_nat.ltof; simpl; lia|done]. }
  destruct rest as [|v rest].
  - rewrite replace_render_miss by naive_solver. done.
  - inversion Hs2 as [|? ? Hv Hs3]; subst. cbn [replace_segs]. case_decide as Hd.
    + destruct Hd as [-> Hpre]. rewrite replace_render_hit by done.
      rewrite IH by (unfold Wf_nat.ltof; simpl; lia || done). done.
    + rewrite replace_render_miss by naive_solver. rewrite Hrest. done.
Qed.

(** ** Addresses with one port *)

Record listen_addr := mkListen {
  la_pre : list string;
  la_udp : bool;
  la_port : Z;
  la_post : list string;
}.

Definition proto_name (udp : bool) : string := if udp then "udp" else "tcp".

Definition la_segs (a : listen_addr) : list string :=
  la_pre a ++ proto_name (la_udp a) :: FormatInt10 (la_port a) :: la_post a.

Definition la_text (a : listen_addr) : string := render_segs (la_segs a).

Definition set_port (p : Z) (a : listen_addr) : listen_addr :=
  mkListen (la_pre a) (la_udp a) p (la_post a).

(** No other segment is a port protocol's name. *)
Definition one_port (a : listen_addr) : Prop :=
  Forall (fun s => no_slash s /\ s <> "tcp" /\ s <> "udp") (la_pre a ++ la_post a).

Lemma FormatInt10_no_slash p : no_slash (FormatInt10 p).
Proof. by apply FormatInt10_lacks. Qed.

Lemma FormatInt10_not_proto p udp : FormatInt10 p <> proto_name udp.
Proof.
  intros Heq.
  assert (Hp : lacks "p"%char (FormatInt10 p) = true) by by apply FormatInt10_lacks.
  assert (Ht : lacks "t"%char (FormatInt10 p) = true) by by apply FormatInt10_lacks.
  assert (Hu : lacks "u"%char (FormatInt10 p) = true) by by apply FormatInt10_lacks.
  rewrite Heq in *. by destruct udp.
Qed.

Lemma prefix_refl s : String.prefix s s = true.
Proof. rewrite <- (string_app_nil_r s) at 2. apply prefix_app. Qed.

Lemma replace_segs_none proto p q segs :
  proto ∉ segs -> replace_segs proto p q segs = segs.
Proof.
  induction segs as [|s [|v rest] IH]; [done|done|]. intros Hn.
  cbn [replace_segs]. rewrite decide_False by set_solver. f_equal. apply IH. set_solver.
Qed.

Lemma replace_segs_app proto p q pre rest :
  proto ∉ pre -> replace_segs proto p q (pre ++ rest) = pre ++ replace_segs proto p q rest.
Proof.
  induction pre as [|s pre IH]; [done|]. intros Hn.
  assert (Hs : s <> proto) by set_solver.
  simpl. destruct (pre ++ rest) as [|v r] eqn:E.
  - destruct pre; [|done]. simpl in E. subst. done.
  - rewrite decide_False by tauto. f_equal. apply IH. set_solver.
Qed.

Lemma replace_segs_hit proto p q rest :
  replace_segs proto p q (proto :: p :: rest) = proto :: q :: replace_segs proto p q rest.
Proof.
  cbn [replace_segs]. rewrite decide_True by (split; [done|apply prefix_refl]).
  assert (string_drop (String.length p) p = "") as ->.
  { pose proof (string_drop_app p "") as Hd. by rewrite string_app_nil_r in Hd. }
  by rewrite string_app_nil_r.
Qed.

Lemma one_port_pre a udp : one_port a -> proto_name udp ∉ la_pre a.
Proof. intros Ha Hin. apply Forall_app in Ha as [Ha _]. rewrite Forall_forall in Ha.
  destruct (Ha _ Hin) as (_ & ? & ?). by destruct udp. Qed.

Lemma one_port_post a udp : one_port a -> proto_name udp ∉ la_post a.
Proof. intros Ha Hin. apply Forall_app in Ha as [_ Ha]. rewrite Forall_forall in Ha.
  destruct (Ha _ Hin) as (_ & ? & ?). by destruct udp. Qed.

Lemma one_port_segs a : one_port a -> Forall no_slash (la_segs a).
Proof.
  intros Ha. apply Forall_app in Ha as [H1 H2]. apply Forall_app. split.
  - eapply Forall_impl; [exact H1|]. naive_solver.
  - repeat constructor; [by destruct (la_udp a)|apply FormatInt10_no_slash|].
    eapply Forall_impl; [exact H2|]. naive_solver.
Qed.

(** Replacing the port text of an address with one port. *)
Lemma replace_la a p :
  one_port a ->
  strings_Replace_all (la_text a) (port_text (proto_name (la_udp a)) (FormatInt10 (la_port a)))
    (port_text (proto_name (la_udp a)) (FormatInt10 p)) = la_text (set_port p a).
Proof.
  intros Ha. unfold la_text. rewrite replace_render.
  - f_equal. unfold la_segs. simpl. rewrite replace_segs_app by by apply one_port_pre.
    rewrite replace_segs_hit, replace_segs_none by by apply one_port_post. done.
  - by destruct (la_udp a).
  - apply FormatInt10_no_slash.
  - by apply one_port_segs.
Qed.

Section ports.
Context `{External}.

(** The values of the components of protocol [proto]. *)
Definition comps_of (proto : Z) (m : Multiaddr) : list string :=
  map comp_Value (filter (fun c => comp_Code c = proto) (ma_components m)).

(** Documented behaviour of [ma.NewMultiaddr] on the text of [a]: it is accepted,
    and its TCP and UDP components are the one port it shows. *)
Definition parses (a : listen_addr) : Prop :=
  exists m, ma_NewMultiaddr (la_text a) = inl m /\
    comps_of P_TCP m = (if la_udp a then [] else [FormatInt10 (la_port a)]) /\
    comps_of P_UDP m = (if la_udp a then [FormatInt10 (la_port a)] else []).

Lemma replacePort_comps addr proto prefix p m :
  ma_NewMultiaddr addr = inl m ->
  replacePort addr proto prefix p
  = inl (foldl (fun addr v => strings_Replace_all addr (prefix +:+ v) (prefix +:+ FormatInt10 p))
               addr (comps_of proto m)).
Proof.
  intros Hm. unfold replacePort, comps_of. rewrite Hm. f_equal.
  clear Hm. revert addr. induction (ma_components m) as [|c cs IH]; intros a; simpl; [done|].
  rewrite filter_cons. case_decide as Hc; simpl; apply IH.
Qed.

Lemma replacePort_la a (udp : bool) p :
  one_port a -> parses a ->
  replacePort (la_text a) (if udp then P_UDP else P_TCP) (String slash (proto_name udp +:+ "/")) p
  = inl (la_text (if decide (la_udp a = udp) then set_port p a else a)).
Proof.
  intros Ha (m & Hm & Ht & Hu). rewrite (replacePort_comps _ _ _ _ m Hm).
  assert (comps_of (if udp then P_UDP else P_TCP) m
          = if decide (la_udp a = udp) then [FormatInt10 (la_port a)] else []) as ->.
  { destruct udp, (la_udp a); done. }
  case_decide as Heq; [|done]. simpl. subst udp.
  f_equal. rewrite <- (replace_la a p Ha). unfold port_text. f_equal; simpl;
    by rewrite string_app_assoc.
Qed.

Lemma replacePorts_moved l p :
  Forall one_port l -> Forall parses l -> Forall parses (map (set_port p) l) ->
  replacePorts (map la_text l) p = (map (fun a => la_text (set_port p a)) l, None) /\
  replacePorts (map (fun a => la_text (set_port p a)) l) p
    = (map (fun a => la_text (set_port p a)) l, None).
Proof.
  assert (Hone : forall l, Forall one_port l -> Forall parses l -> Forall parses (map (set_port p) l) ->
    replacePorts (map la_text l) p = (map (fun a => la_text (set_port p a)) l, None)).
  { clear l. intros l. induction l as [|a l IH]; intros H1 H2 H3; [done|].
    inversion H1; inversion H2; inversion H3; subst. simpl.
    rewrite (replacePort_la a false) by done. case_decide as Hu; simpl.
    - rewrite (replacePort_la (set_port p a) true) by done. simpl.
      rewrite decide_False by congruence. rewrite IH by done. done.
    - rewrite (replacePort_la a true) by done.
      rewrite decide_True by (by destruct (la_udp a)). rewrite IH by done. done. }
  intros H1 H2 H3. split; [by apply Hone|].
  replace (map (fun a => la_text (set_port p a)) l) with (map la_text (map (set_port p) l)) at 1
    by by rewrite map_map.
  rewrite Hone; [by rewrite !map_map| |done|].
  - apply Forall_map. eapply Forall_impl; [exact H1|]. done.
  - by rewrite map_map.
Qed.

(** C18. Moving the swarm to another port: on addresses that show one port,
    [replacePorts] sets that port, TCP or UDP, and nothing else of the address,
    in every address of the list and without error; doing it again changes
    nothing (it runs at every start of the node). *)
Theorem replacePorts_moves_swarm l p :
  Forall one_port l -> Forall parses l -> Forall parses (map (set_port p) l) ->
  replacePorts (map la_text l) p = (map (fun a => la_text (set_port p a)) l, None) /\
  replacePorts (map (fun a => la_text (set_port p a)) l) p
    = (map (fun a => la_text (set_port p a)) l, None).
Proof. apply replacePorts_moved. Qed.

Lemma replace_segs_miss proto p q v rest :
  String.prefix p v = false ->
  replace_segs proto p q (proto :: v :: rest) = proto :: replace_segs proto p q (v :: rest).
Proof. intros Hp. cbn [replace_segs]. by rewrite decide_False by (intros [_ ?]; congruence). Qed.

(** C31. Ports that share a prefix are not told apart: the text ["/tcp/" + port] is
    replaced wherever it occurs, so in an address with a second TCP component
    whose port begins with the digits of the first ([p] and [p +:+ x]), the second
    becomes the new port followed by the left-over digits [x]. *)
Theorem replacePort_prefix_clash pre mid post p x q m :
  Forall (fun s => no_slash s /\ s <> "tcp") (pre ++ mid ++ post ++ [p; p +:+ x]) ->
  ma_NewMultiaddr (render_segs (pre ++ "tcp" :: p :: mid ++ "tcp" :: (p +:+ x) :: post)) = inl m ->
  comps_of P_TCP m = [p; p +:+ x] ->
  String.prefix (p +:+ x) (FormatInt10 q +:+ x) = false ->
  replacePort (render_segs (pre ++ "tcp" :: p :: mid ++ "tcp" :: (p +:+ x) :: post)) P_TCP "/tcp/" q
  = inl (render_segs (pre ++ "tcp" :: FormatInt10 q :: mid ++ "tcp" :: (FormatInt10 q +:+ x) :: post)).
Proof.
  rewrite !Forall_app, !Forall_cons. intros (Hpre & Hmid & Hpost & [Hp Hp'] & [Hx Hx'] & _) Hm Hc Hq.
  assert (Hnone : forall l, Forall (fun s => no_slash s /\ s <> "tcp") l -> "tcp" ∉ l).
  { intros l Hl Hin. rewrite Forall_forall in Hl. by destruct (Hl _ Hin). }
  assert (Hslash : forall l, Forall (fun s => no_slash s /\ s <> "tcp") l -> Forall no_slash l).
  { intros l Hl. eapply Forall_impl; [exact Hl|]. naive_solver. }
  assert (Hxs : no_slash x).
  { unfold no_slash in *. rewrite lacks_app, andb_true_iff in Hx. tauto. }
  assert (Hq0 : String.prefix (p +:+ x) (FormatInt10 q) = false).
  { apply not_true_iff_false. intros Ht. apply prefix_true in Ht as [t Ht].
    rewrite Ht, string_app_assoc, prefix_app in Hq. done. }
  rewrite (replacePort_comps _ _ _ _ m Hm), Hc. f_equal. cbn [foldl].
  change ("/tcp/" +:+ ?v) with (port_text "tcp" v).
  rewrite replace_render; [|done..|].
  2:{ rewrite !Forall_app, !Forall_cons, !Forall_app, !Forall_cons. repeat split; auto; done. }
  rewrite replace_segs_app by auto. rewrite replace_segs_hit, replace_segs_app by auto.
  cbn [replace_segs]. rewrite decide_True by (split; [done|apply prefix_app]).
  rewrite string_drop_app.
  assert (replace_segs "tcp" p (FormatInt10 q) post = post) as -> by (apply replace_segs_none; auto).
  assert (Hqx : no_slash (FormatInt10 q +:+ x)).
  { unfold no_slash in *. by rewrite lacks_app, FormatInt10_no_slash, Hxs. }
  rewrite replace_render; [|done..|].
  2:{ rewrite !Forall_app, !Forall_cons, !Forall_app, !Forall_cons.
      repeat split; auto using FormatInt10_no_slash; done. }
  f_equal. rewrite replace_segs_app by auto. rewrite replace_segs_miss by done.
  change (FormatInt10 q :: mid ++ ?r) with ((FormatInt10 q :: mid) ++ r).
  rewrite replace_segs_app.
  - rewrite replace_segs_miss by done. rewrite replace_segs_none; [done|].
    intros Hin. apply elem_of_cons in Hin as [Hin|Hin].
    + pose proof (FormatInt10_lacks "t"%char q eq_refl) as Ht.
      pose proof (FormatInt10_nonempty q) as Hne.
      destruct (FormatInt10 q) as [|c fq]; [done|]. simpl in Hin, Ht.
      injection Hin as <- _. by rewrite bool_decide_eq_false_2 in Ht.
    + by apply (Hnone post).
  - intros Hin. apply elem_of_cons in Hin as [Hin|Hin].
    + by apply (FormatInt10_not_proto q false).
    + by apply (Hnone mid).
Qed.
End ports.

(** ** Witnesses *)
#[local] Existing Instance toy_types.
#[local] Existing Instance toy_ext.

(** The swarm addresses go-ipfs configures by default. *)
Definition default_swarm : list listen_addr :=
  [mkListen ["ip4"; "0.0.0.0"] false 4001 []; mkListen ["ip6"; "::"] false 4001 [];
   mkListen ["ip4"; "0.0.0.0"] true 4001 ["quic"]; mkListen ["ip6"; "::"] true 4001 ["quic"]].

Ltac solve_one_port :=
  repeat constructor; try (vm_compute; reflexivity); try discriminate.

Ltac solve_parses :=
  repeat (apply Forall_cons; split; [eexists; split; [vm_compute; reflexivity|split; vm_compute; reflexivity]|]);
  apply Forall_nil; exact I.

Lemma default_swarm_one_port : Forall one_port default_swarm.
Proof. solve_one_port. Qed.

Lemma default_swarm_parses p :
  p = 4001%Z \/ p = 10100%Z -> Forall parses (map (set_port p) default_swarm).
Proof. intros [-> | ->]; solve_parses. Qed.

Lemma replacePorts_moves_swarm_witness :
  replacePorts ["/ip4/0.0.0.0/tcp/4001"; "/ip6/::/tcp/4001";
                "/ip4/0.0.0.0/udp/4001/quic"; "/ip6/::/udp/4001/quic"] 10100
  = (["/ip4/0.0.0.0/tcp/10100"; "/ip6/::/tcp/10100";
      "/ip4/0.0.0.0/udp/10100/quic"; "/ip6/::/udp/10100/quic"], None).
Proof.
  apply (replacePorts_moves_swarm default_swarm 10100).
  - exact default_swarm_one_port.
  - exact (default_swarm_parses 4001 (or_introl eq_refl)).
  - exact (default_swarm_parses 10100 (or_intror eq_refl)).
Defined.

Lemma replacePort_prefix_clash_witness :
  replacePort (render_segs ["ip4"; "1.2.3.4"; "tcp"; "40"; "p2p"; "Qm"; "tcp"; "4001"]) P_TCP "/tcp/" 10100
  = inl "/ip4/1.2.3.4/tcp/10100/p2p/Qm/tcp/1010001".
Proof.
  etransitivity.
  - apply (replacePort_prefix_clash ["ip4"; "1.2.3.4"] ["p2p"; "Qm"] [] "40" "01" 10100
             ([mkComp 4 "1.2.3.4"; mkComp 6 "40"; mkComp 421 "Qm"; mkComp 6 "4001"]
              : @Multiaddr toy_types)).
    + repeat constructor; try (vm_compute; reflexivity); discriminate.
    + vm_compute. reflexivity.
    + vm_compute. reflexivity.
    + vm_compute. reflexivity.
  - vm_compute. reflexivity.
Defined.

(** So setting the same port twice need not be the same as setting it once: the
    corrupted port is itself replaced the second time. *)
Example two_ports_not_idempotent :
  replacePorts ["/ip4/1.2.3.4/tcp/40/p2p/Qm/tcp/4001"] 10
  = (["/ip4/1.2.3.4/tcp/10/p2p/Qm/tcp/1001"], None) /\
  replacePorts ["/ip4/1.2.3.4/tcp/10/p2p/Qm/tcp/1001"] 10
  = (["/ip4/1.2.3.4/tcp/10/p2p/Qm/tcp/10"], None).
Proof. split; vm_compute; reflexivity. Qed.
