(* ===== verification/ConfigSpec.v ===== *)
(** * What the configuration code promises

    The functional behaviour of [updateConfig], [updateRepo], [makeBuildCfg] and
    [formRepoPath] on every branch, and the idempotence that makes rewriting the
    configuration at each start harmless. *)
From S2P Require Import Prelude GoStrings GoPath GoOs Ext World Toy Effects Log Config.
From S2P Require Import Ports.
#[local] Open Scope go_scope.

Section spec.
Context `{External}.

(** When [updateConfig] succeeds: every address it has to parse is well formed. *)
Definition acceptable (c : AsioConfig) (conf : Config) : Prop :=
  (replacePorts (Addresses_Swarm conf) (SwarmPort c)).2 = None /\
  (cBootstrap c = [] \/ exists ps, config_ParseBootstrapPeers (cBootstrap c) = inl ps) /\
  (cPeering c = [] \/ exists ms addrs, parsePeering (cPeering c) = inl ms
                                       /\ peer_AddrInfosFromP2pAddrs ms = inl addrs).

(** An address that may be empty, as the list go-ipfs expects. *)
Definition optional_addr (a : string) : list string := if decide (a = "") then [] else [a].

(** What [updateConfig] never touches. *)
Definition untouched (conf conf' : Config) : Prop :=
  Gateway_Writable conf' = Gateway_Writable conf /\
  Gateway_RootRedirect conf' = Gateway_RootRedirect conf /\
  Experimental_P2pHttpProxy conf' = Experimental_P2pHttpProxy conf /\
  cfg_other conf' = cfg_other conf.

(** [conf'] is [conf] with every setting of [c] in place. *)
Record written (c : AsioConfig) (conf conf' : Config) : Prop := mkWritten {
  wr_low : ConnMgr_LowWater conf' = LowWater c;
  wr_high : ConnMgr_HighWater conf' = HighWater c;
  wr_grace : ConnMgr_GracePeriod conf' = GracePeriod c;
  wr_autorelay : Swarm_EnableAutoRelay conf' = AutoRelay c;
  wr_relayhop : Swarm_EnableRelayHop conf' = RelayHop c;
  wr_relay : Network_Relay conf' = Flag_True;
  wr_routing : Routing_Type conf' = RoutingType c;
  wr_storage : Datastore_StorageMax conf' = StorageMax c;
  wr_nat : AutoNAT_ServiceMode conf'
           = if AutoNAT c then AutoNATServiceEnabled else AutoNATServiceDisabled;
  wr_throttle : AutoNAT_Throttle conf' = Some (mkThrottle (AutoNATLimit c) (AutoNATPeerLimit c));
  wr_swarm : Addresses_Swarm conf' = (replacePorts (Addresses_Swarm conf) (SwarmPort c)).1;
  wr_api : Addresses_API conf' = optional_addr (APIAddress c);
  wr_gw : Addresses_Gateway conf' = optional_addr (GatewayAddress c);
  wr_bootstrap : match cBootstrap c with
                 | [] => Bootstrap conf' = Bootstrap conf
                 | l => exists ps, config_ParseBootstrapPeers l = inl ps
                                   /\ Bootstrap conf' = config_BootstrapPeerStrings ps
                 end;
  wr_peering : match cPeering c with
               | [] => Peering_Peers conf' = Peering_Peers conf
               | l => exists ms, parsePeering l = inl ms
                                 /\ peer_AddrInfosFromP2pAddrs ms = inl (Peering_Peers conf')
               end;
  wr_rest : untouched conf conf';
}.

Lemma optional_addr_len a :
  (if decide (String.length a = 0) then [] else [a]) = optional_addr a.
Proof. unfold optional_addr. by destruct a. Qed.

(** The two stages after the swarm addresses, as [updateConfig] runs them on a
    configuration [conf1]. *)
Lemma bootstrap_stage (c : AsioConfig) (conf1 : Config) w :
  log_ok w -> heap_ok w ->
  returns (if decide (length (cBootstrap c) = 0) then
             log_Println ["IPFS WARNING: empty bootstrap peers in config. Default IPFS bootstrap peers would be used."] ;;;
             ret (conf1, None)
           else
             match config_ParseBootstrapPeers (cBootstrap c) with
             | inr err => ret (conf1, Some (Errorf (Sprintf "Failed to parse bootstrap peers: %s" [FStr (err_msg err)])))
             | inl ps => ret (set_Bootstrap (config_BootstrapPeerStrings ps) conf1, None)
             end)
    (fun r w' => logged w w' /\ exists b, r.1 = set_Bootstrap b conf1 /\
       (r.2 = None <-> cBootstrap c = [] \/ exists ps, config_ParseBootstrapPeers (cBootstrap c) = inl ps) /\
       (r.2 = None -> match cBootstrap c with
                      | [] => b = Bootstrap conf1
                      | l => exists ps, config_ParseBootstrapPeers l = inl ps
                                        /\ b = config_BootstrapPeerStrings ps
                      end)) w.
Proof.
  intros Hl Hh. assert (Hid : conf1 = set_Bootstrap (Bootstrap conf1) conf1) by by destruct conf1.
  destruct (cBootstrap c) as [|b bs] eqn:Eb; simpl.
  - apply returns_bind. eapply returns_mono; [by apply log_Println_spec|].
    intros [] w1 Hw1. apply returns_ret. split; [done|]. exists (Bootstrap conf1). naive_solver.
  - destruct (config_ParseBootstrapPeers (b :: bs)) as [ps|e] eqn:Ep; apply returns_ret;
      (split; [done|]).
    + exists (config_BootstrapPeerStrings ps). naive_solver.
    + exists (Bootstrap conf1). naive_solver.
Qed.

Lemma peering_stage (c : AsioConfig) (conf2 : Config) w :
  log_ok w -> heap_ok w ->
  returns (if decide (length (cPeering c) = 0) then
             log_Println ["IPFS WARNING: empty peering in config."] ;;; ret (conf2, None)
           else
             match parsePeering (cPeering c) with
             | inr err => ret (conf2, Some err)
             | inl maddrs =>
                 match peer_AddrInfosFromP2pAddrs maddrs with
                 | inr err => ret (conf2, Some (Errorf (Sprintf "Failed to parse peering list: %s" [FStr (err_msg err)])))
                 | inl addrs => ret (set_Peering_Peers addrs conf2, None)
                 end
             end)
    (fun r w' => logged w w' /\ exists p, r.1 = set_Peering_Peers p conf2 /\
       (r.2 = None <-> cPeering c = [] \/ exists ms addrs, parsePeering (cPeering c) = inl ms
                                           /\ peer_AddrInfosFromP2pAddrs ms = inl addrs) /\
       (r.2 = None -> match cPeering c with
                      | [] => p = Peering_Peers conf2
                      | l => exists ms, parsePeering l = inl ms
                                        /\ peer_AddrInfosFromP2pAddrs ms = inl p
                      end)) w.
Proof.
  intros Hl Hh. assert (Hid : conf2 = set_Peering_Peers (Peering_Peers conf2) conf2) by by destruct conf2.
  destruct (cPeering c) as [|b bs] eqn:Eb.
  - apply returns_bind. eapply returns_mono; [by apply log_Println_spec|].
    intros [] w1 Hw1. apply returns_ret. split; [done|]. exists (Peering_Peers conf2). naive_solver.
  - rewrite decide_False by done. destruct (parsePeering (b :: bs)) as [ms|e] eqn:Ep.
    + destruct (peer_AddrInfosFromP2pAddrs ms) as [ps|e] eqn:Ea; apply returns_ret; (split; [done|]).
      * exists ps. naive_solver.
      * exists (Peering_Peers conf2). split; [done|]. split; [split; [done|]|done].
        intros [?|(ms' & ? & [= <-] & ?)]; congruence.
    + apply returns_ret. split; [done|]. exists (Peering_Peers conf2). naive_solver.
Qed.

Lemma updateConfig_meets conf c w :
  log_ok w -> heap_ok w ->
  returns (updateConfig conf c)
    (fun r w' => logged w w' /\ untouched conf r.1 /\ (r.2 = None <-> acceptable c conf)
                 /\ (r.2 = None -> written c conf r.1)) w.
Proof.
  intros Hl Hh. unfold updateConfig, acceptable. cbv zeta.
  change (Addresses_Swarm (set_AutoNAT_Throttle _ _)) with (Addresses_Swarm conf).
  destruct (replacePorts (Addresses_Swarm conf) (SwarmPort c)) as [swarm [e|]] eqn:Erp.
  { apply returns_ret. split; [done|]. split; [done|]. split; [|done]. by split; [|intros [? _]]. }
  rewrite !optional_addr_len.
  match goal with |- context [set_Addresses_Gateway ?x ?y] =>
    set (conf1 := set_Addresses_Gateway x y) end.
  apply returns_bind. eapply returns_mono; [by apply bootstrap_stage|].
  intros [conf2 err] w1 (Hw1 & b & Hb & Hiff & Hval). cbn [fst snd] in *. subst conf2.
  destruct err as [err|].
  { apply returns_ret. split; [done|]. split; [done|]. split; [|done]. split; [done|].
    intros (_ & Hp & _). by apply Hiff in Hp. }
  eapply returns_mono; [apply peering_stage; eauto using logged_log_ok, logged_heap_ok|].
  intros [conf3 err] w2 (Hw2 & p & Hp & Hiff' & Hval'). cbn [fst snd] in *. subst conf3.
  split; [by etransitivity|]. split; [done|].
  split; [split; [intros E; apply Hiff' in E; pose proof (proj1 Hiff eq_refl); tauto
                 |intros (_ & _ & E); by apply Hiff'] |].
  intros ->.
  specialize (Hval eq_refl). specialize (Hval' eq_refl).
  constructor; try reflexivity; simpl.
  - by rewrite Erp.
  - destruct (cBootstrap c); exact Hval.
  - destruct (cPeering c); exact Hval'.
  - done.
Qed.


Lemma written_twice c conf conf1 conf2 :
  written c conf conf1 -> written c conf1 conf2 ->
  (replacePorts (Addresses_Swarm conf1) (SwarmPort c)).1 = Addresses_Swarm conf1 ->
  conf2 = conf1.
Proof.
  intros [] [] Hsw. destruct wr_rest1 as (?&?&?&?).
  destruct conf1, conf2; simpl in *. f_equal; try congruence.
  - destruct (cBootstrap c) as [|b bs]; [done|].
    destruct wr_bootstrap0 as (ps & E1 & ->), wr_bootstrap1 as (ps' & E2 & ->). congruence.
  - destruct (cPeering c) as [|b bs]; [done|].
    destruct wr_peering0 as (ms & E1 & E1'), wr_peering1 as (ms' & E2 & E2'). congruence.
Qed.

(** C17. Restarting with the same settings is idempotent when every swarm address
    parses and shows exactly one port: if [updateConfig] succeeds on such a
    configuration, running it again (as [openRepo] does at every start) succeeds and
    gives the same configuration back.  With two ports in an address it need not be,
    see [two_ports_not_idempotent] of Ports.v. *)
Theorem updateConfig_idempotent conf c l w :
  log_ok w -> heap_ok w ->
  Addresses_Swarm conf = map la_text l -> Forall one_port l -> Forall parses l ->
  Forall parses (map (set_port (SwarmPort c)) l) ->
  returns (r1 <- updateConfig conf c ;; r2 <- updateConfig r1.1 c ;; ret (r1, r2))
    (fun r _ => r.1.2 = None -> r.2 = r.1) w.
Proof.
  intros Hl Hh Hsw H1 H2 H3.
  destruct (replacePorts_moved l (SwarmPort c) H1 H2 H3) as [Hr1 Hr2].
  apply returns_bind. eapply returns_mono; [by apply updateConfig_meets|].
  intros [conf1 e1] w1 (Hw1 & _ & Hok1 & Hwr1). cbn [fst snd] in *.
  apply returns_bind. eapply returns_mono;
    [apply updateConfig_meets; eauto using logged_log_ok, logged_heap_ok|].
  intros [conf2 e2] w2 (_ & _ & Hok2 & Hwr2). cbn [fst snd] in *. apply returns_ret.
  simpl. intros ->. specialize (Hwr1 eq_refl).
  assert (Hsw1 : Addresses_Swarm conf1 = map (fun a => la_text (set_port (SwarmPort c) a)) l).
  { by rewrite (wr_swarm _ _ _ Hwr1), Hsw, Hr1. }
  assert (He2 : e2 = None).
  { apply Hok2. destruct (proj1 Hok1 eq_refl) as (_ & Hb & Hp).
    split; [by rewrite Hsw1, Hr2|by split]. }
  subst e2. f_equal. apply (written_twice c conf); auto. by rewrite Hsw1, Hr2.
Qed.

(** C29. The files of the repository lie directly in it: for an ordinary file name,
    [formRepoPath] is the cleaned repository path with the name appended, whatever
    ["."], [".."] or doubled slashes the repository path contains. *)
Theorem formRepoPath_in_root repoRoot fname :
  ordinary fname ->
  parent_dir (formRepoPath repoRoot fname) = Clean repoRoot /\
  formRepoPath repoRoot fname
  = render_path (is_rooted repoRoot)
      (clean_elems (is_rooted repoRoot) (split_on slash repoRoot) ++ [fname]).
Proof.
  intros Hf. unfold formRepoPath. split; [by apply parent_dir_Join|by apply Join_Clean_elems].
Qed.

Definition go_fs (w : World) : FS := env_fs (w_env w).

Lemma formRepoPath_key repoRoot fname :
  fs_key (formRepoPath repoRoot fname) = Some (formRepoPath repoRoot fname).
Proof.
  unfold fs_key, formRepoPath. rewrite decide_False by apply Join_Clean_nonempty.
  by rewrite Clean_Join_Clean.
Qed.

Lemma returns_on_fs {A} (op : FS -> A * FS) (Q : A -> World -> Prop) w a fs' :
  op (go_fs w) = (a, fs') -> Q a (upd_env (fun e => mkEnv fs' (env_x e)) w) ->
  returns (on_fs op) Q w.
Proof. unfold returns, wp, on_fs, go_fs. by intros ->. Qed.

Lemma swarm_key_ordinary : ordinary "swarm.key".
Proof. by repeat split. Qed.

Lemma formRepoPath_parent repoRoot fname :
  ordinary fname -> parent_dir (formRepoPath repoRoot fname) = Clean repoRoot.
Proof. apply parent_dir_Join. Qed.

(** When [os.Create] succeeds on a file of the repository. *)
Definition creatable (repoRoot fname : string) (fs : FS) : Prop :=
  let k := formRepoPath repoRoot fname in
  fs_fault fs "create" k = None /\ fs_get fs k <> Some FDir /\
  fs_get fs (Clean repoRoot) = Some FDir.

Lemma os_Create_in_root repoRoot fname fs :
  ordinary fname ->
  let k := formRepoPath repoRoot fname in
  (creatable repoRoot fname fs /\ os_Create k fs = (inl k, fs_with_tab <[k := FFile ""]> fs)) \/
  (~ creatable repoRoot fname fs /\ exists e, os_Create k fs = (inr e, fs)).
Proof.
  intros Hf k. unfold creatable. fold k.
  assert (Hk : fs_key k = Some k) by apply formRepoPath_key.
  assert (Hp : parent_dir k = Clean repoRoot) by by apply formRepoPath_parent.
  clearbody k. unfold os_Create, parent_check. rewrite Hk, Hp. cbn beta iota.
  destruct (fs_fault fs "create" k) as [e|]; [right; naive_solver|].
  destruct (fs_get fs k) as [[d|]|]; destruct (fs_get fs (Clean repoRoot)) as [[d'|]|];
    first [ left; split; [|done]; split; [done|]; split; congruence
          | right; split; [|by eexists]; intros (_ & ? & ?); congruence ].
Qed.

Lemma os_Create_cases repoRoot fname w :
  ordinary fname ->
  let k := formRepoPath repoRoot fname in
  returns (on_fs (os_Create k))
    (fun r w' => (creatable repoRoot fname (go_fs w) /\ r = inl k /\
                  go_fs w' = fs_with_tab <[k := FFile ""]> (go_fs w) /\
                  w' = upd_env (fun e => mkEnv (fs_with_tab <[k := FFile ""]> (go_fs w)) (env_x e)) w)
                 \/ (~ creatable repoRoot fname (go_fs w) /\ exists e, r = inr e /\ go_fs w' = go_fs w /\
                     w' = upd_env (fun e => mkEnv (go_fs w) (env_x e)) w)) w.
Proof.
  intros Hf k. destruct (os_Create_in_root repoRoot fname (go_fs w) Hf) as [[Hc Heq]|[Hc [e Heq]]];
    fold k in Heq; (eapply returns_on_fs; [exact Heq|]).
  - left. done.
  - right. split; [done|]. by exists e.
Qed.

Lemma updateRepo_meets repoRoot c w :
  let k := formRepoPath repoRoot "swarm.key" in
  returns (updateRepo repoRoot c)
    (fun r w' =>
       (forall k', k' <> k -> fs_tab (go_fs w') !! k' = fs_tab (go_fs w) !! k') /\
       (SwarmKey c = "" -> r = None /\ w' = w) /\
       (SwarmKey c <> "" ->
          (r = None <-> creatable repoRoot "swarm.key" (go_fs w)
                        /\ fs_fault (go_fs w) "write" k = None)) /\
       (SwarmKey c <> "" -> r = None -> fs_tab (go_fs w') !! k = Some (FFile (SwarmKey c)))) w.
Proof.
  intros k. unfold updateRepo. case_decide as Hk; [by apply returns_ret|]. fold k.
  apply returns_bind. eapply returns_mono; [by apply os_Create_cases|]. fold k.
  intros r w1 [(Hc & -> & Hfs & _)|(Hc & e & -> & Hfs & _)].
  2:{ apply returns_ret. rewrite Hfs. naive_solver. }
  apply returns_bind. unfold File_WriteString.
  destruct (fs_fault (go_fs w) "write" k) as [e|] eqn:Ew.
  all: eapply returns_on_fs; [unfold File_WriteString; rewrite Hfs; simpl; by rewrite Ew|].
  all: apply returns_ret; unfold go_fs in *; simpl; split;
    [intros k' Hk'; by rewrite !lookup_insert_ne by done|].
  - naive_solver.
  - split; [done|]. split; [done|]. intros _ _. apply lookup_insert_eq.
Qed.

(** C26. The swarm key ends up in the file [swarm.key] of the repository: with no
    key configured nothing is written; otherwise the call succeeds exactly when
    the file can be created and written, a success leaves the key, and only the
    key, as its content, and no other file is touched even by a failure. *)
Theorem updateRepo_writes_key repoRoot c w :
  let k := formRepoPath repoRoot "swarm.key" in
  returns (updateRepo repoRoot c)
    (fun r w' =>
       (forall k', k' <> k -> fs_tab (go_fs w') !! k' = fs_tab (go_fs w) !! k') /\
       (SwarmKey c = "" -> r = None /\ w' = w) /\
       (SwarmKey c <> "" ->
          (r = None <-> creatable repoRoot "swarm.key" (go_fs w)
                        /\ fs_fault (go_fs w) "write" k = None)) /\
       (SwarmKey c <> "" -> r = None -> fs_tab (go_fs w') !! k = Some (FFile (SwarmKey c)))) w.
Proof. apply updateRepo_meets. Qed.

(** The routing options the glue knows. *)
Definition routing_table : gmap string RoutingOption :=
  list_to_map [("", DHTOption); ("dht", DHTOption); ("dhtclient", DHTClientOption);
               ("dhtserver", DHTServerOption); ("none", NilRouterOption)].

Lemma makeBuildCfg_cases repo cfg w :
  match routing_table !! Routing_Type cfg with
  | Some r =>
      exists b, makeBuildCfg repo cfg w = (Ok b, w) /\ bc_Routing b = r /\ bc_Repo b = repo /\
        bc_Permanent b = true /\ bc_Online b = true /\ bc_DisableEncryptedConnections b = false /\
        bc_ExtraOpts b !! "pubsub" = Some false /\ bc_ExtraOpts b !! "ipnsps" = Some false
  | None =>
      makeBuildCfg repo cfg w
      = (Panic ("unrecognized routing option: " +:+ Routing_Type cfg), w)
  end.
Proof.
  unfold makeBuildCfg, routing_table. cbn [list_to_map foldr fst snd].
  rewrite !lookup_insert, lookup_empty. set (t := Routing_Type cfg).
  repeat case_decide; simplify_eq/=; try congruence; try (eexists; by repeat split).
  by rewrite string_app_nil_r.
Qed.

(** C27. Building the node's options never fails quietly: a known routing type
    (empty meaning [dht]) selects its router for a permanent, online, encrypted
    node with pubsub and IPNS-over-pubsub off; any other string, which C++ can
    pass, panics and so stops the process. *)
Theorem makeBuildCfg_total repo cfg w :
  match routing_table !! Routing_Type cfg with
  | Some r =>
      exists b, makeBuildCfg repo cfg w = (Ok b, w) /\ bc_Routing b = r /\ bc_Repo b = repo /\
        bc_Permanent b = true /\ bc_Online b = true /\ bc_DisableEncryptedConnections b = false /\
        bc_ExtraOpts b !! "pubsub" = Some false /\ bc_ExtraOpts b !! "ipnsps" = Some false
  | None =>
      makeBuildCfg repo cfg w
      = (Panic ("unrecognized routing option: " +:+ Routing_Type cfg), w)
  end.
Proof. apply makeBuildCfg_cases. Qed.
End spec.

(** ** Witnesses *)
#[local] Existing Instance toy_types.
#[local] Existing Instance toy_ext.

(** The settings C++ sends by default, with one bootstrap peer. *)
Definition toy_asio : AsioConfig :=
  mkAsioConfig 100 200 "20s" true false ["/dns4/b/tcp/4001/p2p/QmB"] [] 10100 "" "" "" "2GB"
    true 30 3 "key" "dht" true.

Lemma toy_log_ok fails : log_ok (toy_world fails).
Proof. done. Qed.


Definition toy_swarm : list listen_addr :=
  [mkListen ["ip4"; "0.0.0.0"] false 4001 []; mkListen ["ip6"; "::"] false 4001 [];
   mkListen ["ip4"; "0.0.0.0"] true 4001 ["quic"]].

Lemma updateConfig_idempotent_witness :
  returns (r1 <- updateConfig toy_config toy_asio ;; r2 <- updateConfig r1.1 toy_asio ;; ret (r1, r2))
    (fun r _ => r.1.2 = None -> r.2 = r.1) (toy_world []).
Proof.
  apply (updateConfig_idempotent toy_config toy_asio toy_swarm (toy_world [])).
  - apply toy_log_ok.
  - apply toy_heap_ok.
  - vm_compute. reflexivity.
  - solve_one_port.
  - solve_parses.
  - solve_parses.
Defined.

Lemma formRepoPath_in_root_witness :
  parent_dir (formRepoPath "./a//b/../repo/" "swarm.key") = "a/repo" /\
  formRepoPath "./a//b/../repo/" "swarm.key" = "a/repo/swarm.key".
Proof. apply (formRepoPath_in_root "./a//b/../repo/" "swarm.key" swarm_key_ordinary). Defined.
