(* ===== verification/Repo.v ===== *)
(** * The repository (ipfs_repo.go)

    Creating the repository on first use, opening it and rewriting its
    configuration with the settings passed in, and the check that its directory
    can be written. *)
From S2P Require Import Prelude GoStrings GoPath GoOs Ext World Toy Effects Log Config.
#[local] Open Scope go_scope.

Section repo.
Context `{External}.

Definition checkWritable (dir : string) : M World (option error) :=
  r <- read_fs (os_Stat dir) ;;
  match r with
  | inl _ =>
      let testfile := Join dir "test" in
      fi <- on_fs (os_Create testfile) ;;
      match fi with
      | inr err =>
          if is_permission err then
            ret (Some (Errorf (Sprintf "%s is not writeable by the current user" [FStr dir])))
          else
            ret (Some (Errorf (Sprintf "unexpected error while checking writeablility of repo root: %s"
                                 [FStr (err_msg err)])))
      | inl _ => on_fs (os_Remove testfile)
      end
  | inr err =>
      if is_not_exist err then on_fs (os_Mkdir dir)
      else if is_permission err then
        ret (Some (Errorf (Sprintf "cannot write to %s, incorrect permissions" [FStr (err_msg err)])))
      else ret (Some err)
  end.

Definition initRepo (repoRoot : string) (asiocfg : AsioConfig) : M World (option error) :=
  log_Printf ("Initializing IPFS node at %s" +:+ String newline "") [FStr repoRoot] ;;;
  identity <- call "config.CreateIdentity" config_CreateIdentity ;;
  match identity with
  | inr err => ret (Some err)
  | inl identity =>
  conf <- call "config.InitWithIdentity" (config_InitWithIdentity identity) ;;
  match conf with
  | inr err => ret (Some err)
  | inl conf =>
  err <- checkWritable repoRoot ;;
  match err with
  | Some err => ret (Some err)
  | None =>
  already <- call "fsrepo.IsInitialized" (fsrepo_IsInitialized repoRoot) ;;
  if (already : bool) then
    ret (Some (Errorf (Sprintf "Repo already exists at %s" [FStr repoRoot])))
  else
  prof <- (if decide (DefaultProfile asiocfg = "") then ret (conf, None)
           else
             log_Printf "Applying %s IPFS profile" [FStr (DefaultProfile asiocfg)] ;;;
             match config_Profiles (DefaultProfile asiocfg) with
             | None => ret (conf, Some (Errorf "Unable to find default server profile."))
             | Some transform => ret (transform conf)
             end) ;;
  match prof with
  | (_, Some err) => ret (Some err)
  | (conf, None) =>
  upd <- updateConfig conf asiocfg ;;
  match upd with
  | (_, Some err) => ret (Some err)
  | (conf, None) =>
  err <- call "fsrepo.Init" (fsrepo_Init repoRoot conf) ;;
  match err with
  | Some err => ret (Some err)
  | None =>
  err <- updateRepo repoRoot asiocfg ;;
  match err with
  | Some err => ret (Some err)
  | None => ret None
  end end end end end end end.

Definition openRepo (repoRoot : string) (asiocfg : AsioConfig) : M World (result Repo) :=
  repo <- call "fsrepo.Open" (fsrepo_Open repoRoot) ;;
  match repo with
  | inr err => ret (inr err)
  | inl repo =>
  conf <- call "repo.Config" (repo_Config repo) ;;
  match conf with
  | inr err => ret (inr err)
  | inl conf =>
  match config_Clone conf with
  | inr err => ret (inr err)
  | inl conf =>
  unlocked <- configUnlocked repoRoot ;;
  if negb unlocked then
    log_Printf ("WARNING: IPFS config is locked via %s. Config would be read from repository."
                  +:+ String newline "") [FStr configLock] ;;;
    ret (inl repo)
  else
  upd <- updateConfig conf asiocfg ;;
  match upd with
  | (_, Some err) => ret (inr err)
  | (conf, None) =>
  err <- call "repo.SetConfig" (repo_SetConfig repo conf) ;;
  match err with
  | Some err => ret (inr err)
  | None =>
  err <- updateRepo repoRoot asiocfg ;;
  match err with
  | Some err => ret (inr err)
  | None => ret (inl repo)
  end end end end end end.
End repo.
