(* ===== verification/RepoSpec.v ===== *)
(** * What the repository code promises

    The file-system effect of the writability probe, and which third-party calls
    creating and opening a repository make, in which order and with which
    configuration. *)
From S2P Require Import Prelude GoStrings GoPath GoOs Ext World Toy Effects Log Calls.
From S2P Require Import Config Ports ConfigSpec Repo.
#[local] Open Scope go_scope.

Section repo_spec.
Context `{External}.

Lemma test_ordinary : ordinary "test".
Proof. by repeat split. Qed.

Lemma Join_test dir : Join dir "test" = formRepoPath dir "test".
Proof. unfold formRepoPath. by rewrite Join_Clean_l. Qed.

Lemma fs_get_insert_ne fs k k' n : k' <> k -> fs_get (fs_with_tab <[k := n]> fs) k' = fs_get fs k'.
Proof. intros Hk. unfold fs_get. case_decide; [done|]. simpl. by rewrite lookup_insert_ne. Qed.

Lemma fs_get_delete_ne fs k k' : k' <> k -> fs_get (fs_with_tab (delete k) fs) k' = fs_get fs k'.
Proof. intros Hk. unfold fs_get. case_decide; [done|]. simpl. by rewrite lookup_delete_ne. Qed.

Lemma root_not_key k d : k <> "." /\ k <> "/" -> forall fs,
  fs_get (fs_with_tab <[k := FFile d]> fs) k = Some (FFile d).
Proof.
  intros [H1 H2] fs. unfold fs_get. rewrite decide_False by tauto. simpl.
  apply lookup_insert_eq.
Qed.

Lemma formRepoPath_not_root dir fname :
  ordinary fname -> formRepoPath dir fname <> "." /\ formRepoPath dir fname <> "/".
Proof.
  intros Hf. pose proof (formRepoPath_parent dir fname Hf) as Hp.
  split; intros E; rewrite E in Hp; symmetry in Hp.
  - apply (Join_Clean_neq dir fname Hf). fold (formRepoPath dir fname). by rewrite E, Hp.
  - apply (Join_Clean_neq dir fname Hf). fold (formRepoPath dir fname). by rewrite E, Hp.
Qed.

Lemma os_Mkdir_cases p fs r fs' :
  os_Mkdir p fs = (r, fs') ->
  (r <> None /\ fs' = fs) \/
  (r = None /\ fs_get fs (Clean p) = None /\ fs' = fs_with_tab <[Clean p := FDir]> fs).
Proof.
  unfold os_Mkdir, fs_key. destruct (fs_fault fs "mkdir" p); [naive_solver|].
  case_decide; [naive_solver|]. destruct (fs_get fs (Clean p)) eqn:E; [naive_solver|].
  destruct (parent_check _ _ _ _); naive_solver.
Qed.

(** The probe: [os.Remove] of the file [os.Create] has just made. *)
Lemma os_Remove_probe dir fs :
  let k := formRepoPath dir "test" in
  os_Remove k (fs_with_tab <[k := FFile ""]> fs)
  = match fs_fault fs "remove" k with
    | Some e => (Some e, fs_with_tab <[k := FFile ""]> fs)
    | None => (None, fs_with_tab (delete k) (fs_with_tab <[k := FFile ""]> fs))
    end.
Proof.
  intros k. unfold os_Remove. simpl. destruct (fs_fault fs "remove" k); [done|].
  unfold k. rewrite formRepoPath_key. fold k. rewrite root_not_key; [done|].
  by apply formRepoPath_not_root, test_ordinary.
Qed.

(** C25. The writability probe leaves the directory there and itself gone: a
    success means the repository path is now a directory, created when it was
    missing; apart from that entry and the probe file [test], no file is touched,
    success or not.  The probe file is absent after a success, also when a file of
    that name was there before: the probe destroys it. *)
Theorem checkWritable_effect dir w :
  let k := formRepoPath dir "test" in
  returns (checkWritable dir)
    (fun r w' =>
       same_core w w' /\ w_trace w' = w_trace w /\
       (forall k', k' <> k -> k' <> Clean dir -> fs_tab (go_fs w') !! k' = fs_tab (go_fs w) !! k') /\
       (fs_tab (go_fs w') !! Clean dir = fs_tab (go_fs w) !! Clean dir
        \/ fs_get (go_fs w) (Clean dir) = None) /\
       (r = None -> fs_get (go_fs w') (Clean dir) = Some FDir) /\
       (r = None -> is_Some (fs_get (go_fs w) (Clean dir)) -> fs_get (go_fs w') k = None)) w.
Proof.
  intros k. pose proof (Join_Clean_neq dir "test" test_ordinary) as Hne.
  fold (formRepoPath dir "test") in Hne. fold k in Hne.
  destruct (formRepoPath_not_root dir "test" test_ordinary) as [Hk1 Hk2]. fold k in Hk1, Hk2.
  unfold checkWritable. apply returns_bind.
  eapply returns_mono; [apply read_fs_called|]. intros st w1 [-> Hst]. fold (go_fs w) in Hst.
  destruct st as [n|err].
  - rewrite Join_test. fold k. apply returns_bind.
    eapply returns_mono; [by apply os_Create_cases, test_ordinary|].
    fold k. intros r w1 [(Hc & -> & Hfs & ->)|(Hc & e & -> & Hfs & ->)].
    + destruct Hc as (_ & _ & Hdir). pose proof (os_Remove_probe dir (go_fs w)) as Hrm.
      cbv zeta in Hrm. fold k in Hrm. rewrite <- Hfs in Hrm.
      destruct (fs_fault (go_fs w) "remove" k) as [e|]; (eapply returns_on_fs; [exact Hrm|]);
        unfold go_fs in *; simpl; (split; [by split|]); (split; [done|]).
      * split; [intros k' ? _; by rewrite lookup_insert_ne|]. rewrite lookup_insert_ne by done.
        by split; [left|].
      * split; [intros k' ? _; by rewrite lookup_delete_ne, lookup_insert_ne|].
        rewrite lookup_delete_ne, lookup_insert_ne by done. split; [by left|]. split.
        { intros _. by rewrite fs_get_delete_ne, fs_get_insert_ne. }
        intros _ _. unfold fs_get. rewrite decide_False by tauto. apply lookup_delete_eq.
    + case_match; apply returns_ret; unfold go_fs in *; simpl;
        (split; [by split|]); (split; [done|]); (split; [done|]); (split; [by left|]); done.
  - case_match; [|case_match; apply returns_ret; (split; [done|]); (split; [done|]);
      (split; [done|]); (split; [by left|]); done].
    destruct (os_Mkdir dir (go_fs w)) as [r fs'] eqn:Em. eapply returns_on_fs; [exact Em|].
    change (go_fs (upd_env _ w)) with fs'. split; [by split|]. split; [done|].
    apply os_Mkdir_cases in Em as [[Hr ->]|(-> & Hn & ->)].
    + split; [done|]. split; [by left|]. split; intros ->; done.
    + simpl. split; [intros k' _ ?; by rewrite lookup_insert_ne|]. split; [by right|].
      rewrite Hn. split; [|by intros _ [? ?]]. intros _. unfold fs_get. simpl.
      case_decide; [done|]. apply lookup_insert_eq.
Qed.

(** ** The smaller functions, as steps *)

Lemma checkWritable_step dir w : returns (checkWritable dir) (fun _ w' => hushed w w' /\ True) w.
Proof.
  unfold checkWritable. apply returns_bind. eapply returns_mono; [apply read_fs_called|].
  intros [n|err] w1 [-> _].
  - apply returns_bind. eapply returns_mono; [apply on_fs_hushed|]. intros [f|e] w2 Hw2.
    + eapply returns_mono; [apply on_fs_hushed|]. intros r w3 Hw3. split; [by etransitivity|done].
    + case_match; by apply returns_ret.
  - case_match.
    + eapply returns_mono; [apply on_fs_hushed|]. by intros r w3 Hw3.
    + case_match; by apply returns_ret.
Qed.

(** The swarm key is in place when one is asked for. *)
Definition key_written (repoRoot : string) (c : AsioConfig) (fs : FS) : Prop :=
  SwarmKey c <> "" -> fs_tab fs !! formRepoPath repoRoot "swarm.key" = Some (FFile (SwarmKey c)).

Lemma updateRepo_step repoRoot c w :
  returns (updateRepo repoRoot c)
    (fun r w' => hushed w w' /\ (r = None -> key_written repoRoot c (go_fs w'))) w.
Proof.
  pose proof (updateRepo_meets repoRoot c w) as Hm. cbv zeta in Hm.
  apply (returns_and _ (fun _ w' => hushed w w')).
  - unfold updateRepo. case_decide; [by apply returns_ret|].
    apply returns_bind. eapply returns_mono; [apply on_fs_hushed|]. intros [f|e] w1 Hw1.
    + apply returns_bind. eapply returns_mono; [apply on_fs_hushed|]. intros [e|] w2 Hw2;
        apply returns_ret; by etransitivity.
    + by apply returns_ret.
  - eapply returns_mono; [exact Hm|]. intros r w' (_ & _ & _ & Hk) Hr Hs. auto.
Qed.

Lemma updateConfig_step conf c w :
  ready w ->
  returns (updateConfig conf c)
    (fun r w' => called [] w w' /\
       match r.2 with Some _ => ~ acceptable c conf | None => written c conf r.1 end) w.
Proof.
  intros [Hl Hh]. eapply returns_mono; [by apply updateConfig_meets|].
  intros [conf' [e|]] w' (Hlg & _ & Hac & Hwr); (split; [by apply logged_called|]); simpl in *.
  - intros Ha. by apply Hac in Ha.
  - by apply Hwr.
Qed.

(** The configuration lock: the file is there, or cannot be looked at. *)
Definition config_locked (repoRoot : string) (fs : FS) : bool :=
  match os_Stat (formRepoPath repoRoot configLock) fs with
  | inl _ => true
  | inr e => negb (is_not_exist e)
  end.

Lemma configUnlocked_step repoRoot w :
  returns (configUnlocked repoRoot)
    (fun b w' => w' = w /\ config_locked repoRoot (env_fs (w_env w)) = negb b) w.
Proof.
  unfold configUnlocked, config_locked. apply returns_bind.
  eapply returns_mono; [apply read_fs_called|]. intros r w1 [-> Hr]. rewrite <- Hr.
  destruct r as [n|e]; [by apply returns_ret|]. by destruct (is_not_exist e); apply returns_ret.
Qed.

(** ** Creating the repository *)

(** The default configuration after the requested profile. *)
Definition profile_of (c : AsioConfig) (conf : Config) : Config * option error :=
  if decide (DefaultProfile c = "") then (conf, None)
  else match config_Profiles (DefaultProfile c) with
       | None => (conf, Some (Errorf "Unable to find default server profile."))
       | Some transform => transform conf
       end.

Section initializes.
Context (repoRoot : string) (c : AsioConfig).

Abbreviation identity id := (did "config.CreateIdentity" config_CreateIdentity (inl id)).
Abbreviation default id conf := (did "config.InitWithIdentity" (config_InitWithIdentity id) (inl conf)).
Abbreviation writable := (ran (checkWritable repoRoot) None).
Abbreviation initialized b := (did "fsrepo.IsInitialized" (fsrepo_IsInitialized repoRoot) b).

(** The ways [initRepo] can go: its interactions and its result.  Each step is made
    only when all before it succeeded; a failure is the result. *)
Inductive initializes : list item -> option error -> Prop :=
| init_no_identity err :
    initializes [did "config.CreateIdentity" config_CreateIdentity (inr err)] (Some err)
| init_no_default id err :
    initializes [identity id; did "config.InitWithIdentity" (config_InitWithIdentity id) (inr err)]
      (Some err)
| init_unwritable id conf0 err :
    initializes [identity id; default id conf0; ran (checkWritable repoRoot) (Some err)] (Some err)
| init_exists id conf0 :
    initializes [identity id; default id conf0; writable; initialized true]
      (Some (Errorf (Sprintf "Repo already exists at %s" [FStr repoRoot])))
| init_bad_profile id conf0 conf1 err :
    profile_of c conf0 = (conf1, Some err) ->
    initializes [identity id; default id conf0; writable; initialized false] (Some err)
| init_bad_settings id conf0 conf1 err :
    profile_of c conf0 = (conf1, None) -> ~ acceptable c conf1 ->
    initializes [identity id; default id conf0; writable; initialized false] (Some err)
| init_refused id conf0 conf1 conf err :
    profile_of c conf0 = (conf1, None) -> written c conf1 conf ->
    initializes [identity id; default id conf0; writable; initialized false;
                 did "fsrepo.Init" (fsrepo_Init repoRoot conf) (Some err)] (Some err)
| init_keyed id conf0 conf1 conf r :
    profile_of c conf0 = (conf1, None) -> written c conf1 conf ->
    initializes [identity id; default id conf0; writable; initialized false;
                 did "fsrepo.Init" (fsrepo_Init repoRoot conf) None; ran (updateRepo repoRoot c) r] r.
End initializes.

Ltac way_out := apply returns_ret; eexists; (split; [eassumption|]); (split; [|discriminate]).

Lemma initRepo_meets repoRoot c w :
  ready w ->
  returns (initRepo repoRoot c)
    (fun r w' => exists l, called l w w' /\ initializes repoRoot c l r /\
       (r = None -> key_written repoRoot c (go_fs w'))) w.
Proof.
  intros Hr. unfold initRepo.
  eapply step_logf; [apply called_refl|done|]. intros w1 H1.
  eapply step_call; [done|done|]. intros [id|e] w2 _ H2; [|way_out; by constructor].
  eapply step_call; [done|done|]. intros [conf0|e] w3 _ H3; [|way_out; by constructor].
  eapply step_ran; [done|apply checkWritable_step|]. intros [e|] w4 H4 _; [way_out; by constructor|].
  eapply step_call; [done|done|]. intros [] w5 _ H5; [way_out; by constructor|].
  eapply (step_quiet _ _ _ _ _ (fun p _ => p = profile_of c conf0)); [done| |].
  { unfold profile_of. case_decide; [apply returns_ret; auto using called_refl|].
    eapply step_logf; [apply called_refl|by eapply called_ready|]. intros w5' H5'.
    by destruct (config_Profiles (DefaultProfile c)) as [t|]; apply returns_ret. }
  intros [conf1 [e|]] w6 H6 Hprof; [way_out; by eapply init_bad_profile|].
  eapply step_quiet; [done|apply updateConfig_step; by eapply called_ready|].
  intros [conf [e|]] w7 H7 Hwr; simpl in Hwr; [way_out; by eapply init_bad_settings|].
  eapply step_call; [done|done|]. intros [e|] w8 _ H8; [way_out; by eapply init_refused|].
  eapply step_ran; [done|apply updateRepo_step|]. intros r w9 H9 Hk. simpl in H9.
  assert (Hi : initializes repoRoot c _ r) by by eapply (init_keyed repoRoot c id conf0 conf1 conf).
  destruct r; apply returns_ret; eauto.
Qed.

(** C15. [initRepo] makes a new identity, its default configuration, checks the
    directory, applies the requested profile, writes every setting of [AsioConfig],
    creates the repository with exactly that configuration and then its swarm key,
    in this order; each step is made only if all before it succeeded, and the first
    failure is the result.  So a repository that was already there is never touched,
    none is created but from the requested settings, and a success has the requested
    swarm key in place; only a swarm key that cannot be written leaves a repository
    behind with an error. *)
Theorem initRepo_creates repoRoot c w :
  ready w ->
  returns (initRepo repoRoot c)
    (fun r w' => exists l, called l w w' /\ initializes repoRoot c l r /\
       (r = None -> key_written repoRoot c (go_fs w'))) w.
Proof. apply initRepo_meets. Qed.

(** ** Opening the repository *)
Section opens.
Context (repoRoot : string) (c : AsioConfig).

Abbreviation opened repo := (did "fsrepo.Open" (fsrepo_Open repoRoot) (inl repo)).
Abbreviation config repo conf := (did "repo.Config" (repo_Config repo) (inl conf)).
Abbreviation lock b := (saw (fun fs => config_locked repoRoot fs = b)).

(** The ways [openRepo] can go. *)
Inductive opens : list item -> result Repo -> Prop :=
| open_refused err : opens [did "fsrepo.Open" (fsrepo_Open repoRoot) (inr err)] (inr err)
| open_unread repo err : opens [opened repo; did "repo.Config" (repo_Config repo) (inr err)] (inr err)
| open_unclonable repo conf err :
    config_Clone conf = inr err -> opens [opened repo; config repo conf] (inr err)
| open_locked repo conf conf1 :
    config_Clone conf = inl conf1 -> opens [opened repo; config repo conf; lock true] (inl repo)
| open_bad_settings repo conf conf1 err :
    config_Clone conf = inl conf1 -> ~ acceptable c conf1 ->
    opens [opened repo; config repo conf; lock false] (inr err)
| open_unwritten repo conf conf1 conf2 err :
    config_Clone conf = inl conf1 -> written c conf1 conf2 ->
    opens [opened repo; config repo conf; lock false;
           did "repo.SetConfig" (repo_SetConfig repo conf2) (Some err)] (inr err)
| open_keyed repo conf conf1 conf2 r :
    config_Clone conf = inl conf1 -> written c conf1 conf2 ->
    opens [opened repo; config repo conf; lock false;
           did "repo.SetConfig" (repo_SetConfig repo conf2) None; ran (updateRepo repoRoot c) r]
      (match r with None => inl repo | Some err => inr err end).
End opens.

Lemma openRepo_meets repoRoot c w :
  ready w ->
  returns (openRepo repoRoot c)
    (fun r w' => exists l, called l w w' /\ opens repoRoot c l r) w.
Proof.
  intros Hr. unfold openRepo.
  eapply step_call; [apply called_refl|done|]. intros [repo|e] w1 _ H1.
  2:{ apply returns_ret. eexists. split; [eassumption|constructor]. }
  eapply step_call; [done|done|]. intros [conf|e] w2 _ H2.
  2:{ apply returns_ret. eexists. split; [eassumption|constructor]. }
  destruct (config_Clone conf) as [conf1|e] eqn:Ecl.
  2:{ apply returns_ret. eexists. split; [eassumption|]. by constructor. }
  eapply (step_saw _ _ _ _ _ (fun b fs => config_locked repoRoot fs = negb b)); [done|apply configUnlocked_step|]. intros unlocked H3 _. simpl in H3.
  destruct unlocked; simpl in H3 |- *.
  2:{ eapply step_logf; [done|done|]. intros w4 H4. apply returns_ret.
      eexists. split; [eassumption|]. by eapply open_locked. }
  eapply step_quiet; [done|apply updateConfig_step; by eapply called_ready|].
  intros [conf2 [e|]] w4 H4 Hwr; simpl in Hwr.
  { apply returns_ret. eexists. split; [eassumption|]. by eapply open_bad_settings. }
  eapply step_call; [done|done|]. intros [e|] w5 _ H5.
  { apply returns_ret. eexists. split; [eassumption|]. by eapply open_unwritten. }
  eapply step_ran; [done|apply updateRepo_step|]. intros r w6 H6 _. simpl in H6.
  pose proof (open_keyed repoRoot c repo conf conf1 conf2 r Ecl Hwr) as Ho.
  destruct r; apply returns_ret; eauto.
Qed.

(** C16. Opening honours the configuration lock: the repository is opened, its
    configuration read and cloned, and the lock file looked up in the file system
    as it then is.  When the file is there the repository is returned as it is, and
    nothing is written; when it is not, every requested setting is written into the
    clone, the clone becomes the repository's configuration and the swarm key is
    written.  Each step is made only if all before it succeeded, and the first
    failure is the result. *)
Theorem openRepo_configures repoRoot c w :
  ready w ->
  returns (openRepo repoRoot c)
    (fun r w' => exists l, called l w w' /\ opens repoRoot c l r) w.
Proof. apply openRepo_meets. Qed.
End repo_spec.

(** ** Witnesses *)
#[local] Existing Instance toy_types.
#[local] Existing Instance toy_ext.

Lemma toy_ready fails : ready (toy_world fails).
Proof. split; [done|apply toy_heap_ok]. Qed.

Lemma initRepo_creates_witness :
  (initRepo "repo" toy_asio (toy_world [])).1 = Ok None /\
  returns (initRepo "repo" toy_asio)
    (fun r w' => exists l, called l (toy_world []) w' /\ initializes "repo" toy_asio l r)
    (toy_world []).
Proof.
  split; [vm_compute; reflexivity|].
  eapply returns_mono; [apply (initRepo_creates "repo" toy_asio (toy_world [])); apply toy_ready|].
  intros r w' (l & H1 & H2 & _). exists l. split; [exact H1|exact H2].
Defined.

Lemma openRepo_configures_witness :
  (exists repo, (openRepo "repo" toy_asio (toy_world [])).1 = Ok (inl repo)) /\
  returns (openRepo "repo" toy_asio)
    (fun r w' => exists l, called l (toy_world []) w' /\ opens "repo" toy_asio l r) (toy_world []).
Proof.
  split; [eexists; vm_compute; reflexivity|].
  apply (openRepo_configures "repo" toy_asio (toy_world [])). apply toy_ready.
Defined.
