(* ===== verification/Json.v ===== *)
(** * [encoding/json], as [start_node] uses it

    [json.Unmarshal] into a flat struct of integers, strings, booleans and string
    slices: the scanner of JSON text, and the decoder that assigns object members
    to struct fields through a table of field names, as reflection does.  Text is
    taken to be valid UTF-8 (the only kind C++'s serializer emits).  The fuel is
    enough for every text (JsonFuel.v); Go's own limit of 10000 nested levels is left
    out, the settings are two levels deep. *)
From S2P Require Import Prelude GoStrings.
From Stdlib Require Import Ascii.

#[warnings="-register-all"]
Inductive json :=
| JNull
| JBool (b : bool)
| JNum (text : string)
| JStr (s : string)
| JArr (l : list json)
| JObj (kvs : list (string * json)).

(** ** Scanner *)

Definition is_ws (c : ascii) : bool :=
  let n := nat_of_ascii c in bool_decide (n = 32 \/ n = 9 \/ n = 10 \/ n = 13).

Fixpoint skip_ws (s : string) : string :=
  match s with
  | String c s' => if is_ws c then skip_ws s' else s
  | "" => ""
  end.

Definition is_digit (c : ascii) : bool := bool_decide (48 <= nat_of_ascii c <= 57).

(** The longest prefix of digits, and the rest. *)
Fixpoint span_digits (s : string) : string * string :=
  match s with
  | String c s' =>
      if is_digit c then let '(d, r) := span_digits s' in (String c d, r) else ("", s)
  | "" => ("", "")
  end.

(** The fraction and the exponent of a number, both optional. *)
Definition scan_frac (s : string) : option (string * string) :=
  match s with
  | String "." s' =>
      match span_digits s' with
      | ("", _) => None
      | (d, r) => Some (String "." d, r)
      end
  | _ => Some ("", s)
  end.

Definition scan_exp (s : string) : option (string * string) :=
  match s with
  | String e s' =>
      if decide (e = "e"%char \/ e = "E"%char) then
        let '(sign, s'') := match s' with
                            | String "+" r => ("+", r)
                            | String "-" r => ("-", r)
                            | _ => ("", s')
                            end in
        match span_digits s'' with
        | ("", _) => None
        | (d, r) => Some (String e (sign +:+ d), r)
        end
      else Some ("", s)
  | "" => Some ("", "")
  end.

Definition scan_number (s : string) : option (string * string) :=
  let '(sign, s1) := match s with String "-" r => ("-", r) | _ => ("", s) end in
  let int := match s1 with
             | String "0" r => Some ("0", r)
             | _ => match span_digits s1 with ("", _) => None | (d, r) => Some (d, r) end
             end in
  match int with
  | None => None
  | Some (d, s2) =>
      match scan_frac s2 with
      | None => None
      | Some (f, s3) =>
          match scan_exp s3 with
          | None => None
          | Some (e, s4) => Some (sign +:+ d +:+ f +:+ e, s4)
          end
      end
  end.

Definition hex_val (c : ascii) : option nat :=
  let n := nat_of_ascii c in
  if decide (48 <= n <= 57) then Some (n - 48)
  else if decide (97 <= n <= 102) then Some (n - 87)
  else if decide (65 <= n <= 70) then Some (n - 55) else None.

Definition hex4 (a b c d : ascii) : option N :=
  match hex_val a, hex_val b, hex_val c, hex_val d with
  | Some a, Some b, Some c, Some d =>
      Some (((N.of_nat a * 16 + N.of_nat b) * 16 + N.of_nat c) * 16 + N.of_nat d)%N
  | _, _, _, _ => None
  end.

(** UTF-8 encoding of a code point. *)
Definition utf8 (n : N) : string :=
  let b x := ascii_of_N x in
  (if n <? 128 then String (b n) ""
   else if n <? 2048 then String (b (192 + n / 64)) (String (b (128 + n mod 64)) "")
   else if n <? 65536 then
     String (b (224 + n / 4096)) (String (b (128 + n / 64 mod 64)) (String (b (128 + n mod 64)) ""))
   else String (b (240 + n / 262144)) (String (b (128 + n / 4096 mod 64))
          (String (b (128 + n / 64 mod 64)) (String (b (128 + n mod 64)) ""))))%N.

Definition rune_error : string := utf8 65533.

Definition simple_escape (c : ascii) : option ascii :=
  if decide (c = dquote \/ c = "\"%char \/ c = "/"%char) then Some c
  else if decide (c = "b"%char) then Some (ascii_of_nat 8)
  else if decide (c = "f"%char) then Some (ascii_of_nat 12)
  else if decide (c = "n"%char) then Some (ascii_of_nat 10)
  else if decide (c = "r"%char) then Some (ascii_of_nat 13)
  else if decide (c = "t"%char) then Some (ascii_of_nat 9) else None.

Definition prepend (a : string) (r : option (string * string)) : option (string * string) :=
  match r with Some (b, rest) => Some (a +:+ b, rest) | None => None end.

(** A string after its opening quote. *)
Fixpoint scan_string (s : string) : option (string * string) :=
  match s with
  | "" => None
  | String c s1 =>
      if decide (c = dquote) then Some ("", s1)
      else if decide (c = "\"%char) then
        match s1 with
        | String e s2 =>
            if decide (e = "u"%char) then
              match s2 with
              | String h1 (String h2 (String h3 (String h4 s3))) =>
                  match hex4 h1 h2 h3 h4 with
                  | None => None
                  | Some n =>
                      if (n <? 55296)%N || (57343 <? n)%N then prepend (utf8 n) (scan_string s3)
                      else
                        match s3 with
                        | String "\" (String "u" (String k1 (String k2 (String k3 (String k4 s4))))) =>
                            match hex4 k1 k2 k3 k4 with
                            | Some m =>
                                if (n <? 56320)%N && (56319 <? m)%N && (m <? 57344)%N
                                then prepend (utf8 (65536 + (n - 55296) * 1024 + (m - 56320))%N) (scan_string s4)
                                else prepend rune_error (scan_string s3)
                            | None => prepend rune_error (scan_string s3)
                            end
                        | _ => prepend rune_error (scan_string s3)
                        end
                  end
              | _ => None
              end
            else match simple_escape e with
                 | Some x => prepend (String x "") (scan_string s2)
                 | None => None
                 end
        | "" => None
        end
      else if decide (nat_of_ascii c < 32) then None
      else prepend (String c "") (scan_string s1)
  end.

Definition scan_literal (lit : string) (v : json) (s : string) : option (json * string) :=
  if String.prefix lit s then Some (v, string_drop (String.length lit) s) else None.

Fixpoint scan_value (fuel : nat) (s : string) : option (json * string) :=
  match fuel with
  | O => None
  | S fuel =>
      match skip_ws s with
      | "" => None
      | String c s1 =>
          if decide (c = "{"%char) then
            match skip_ws s1 with
            | String "}" r => Some (JObj [], r)
            | _ => match scan_members fuel s1 with
                   | Some (kvs, r) => Some (JObj kvs, r)
                   | None => None
                   end
            end
          else if decide (c = "["%char) then
            match skip_ws s1 with
            | String "]" r => Some (JArr [], r)
            | _ => match scan_elems fuel s1 with
                   | Some (l, r) => Some (JArr l, r)
                   | None => None
                   end
            end
          else if decide (c = dquote) then
            match scan_string s1 with Some (t, r) => Some (JStr t, r) | None => None end
          else if decide (c = "t"%char) then scan_literal "true" (JBool true) (String c s1)
          else if decide (c = "f"%char) then scan_literal "false" (JBool false) (String c s1)
          else if decide (c = "n"%char) then scan_literal "null" JNull (String c s1)
          else match scan_number (String c s1) with Some (t, r) => Some (JNum t, r) | None => None end
      end
  end
with scan_members (fuel : nat) (s : string) : option (list (string * json) * string) :=
  match fuel with
  | O => None
  | S fuel =>
      match skip_ws s with
      | String c s1 =>
          if decide (c = dquote) then
            match scan_string s1 with
            | None => None
            | Some (k, s2) =>
                match skip_ws s2 with
                | String ":" s3 =>
                    match scan_value fuel s3 with
                    | None => None
                    | Some (v, s4) =>
                        match skip_ws s4 with
                        | String "}" r => Some ([(k, v)], r)
                        | String "," r =>
                            match scan_members fuel r with
                            | Some (kvs, r') => Some ((k, v) :: kvs, r')
                            | None => None
                            end
                        | _ => None
                        end
                    end
                | _ => None
                end
            end
          else None
      | "" => None
      end
  end
with scan_elems (fuel : nat) (s : string) : option (list json * string) :=
  match fuel with
  | O => None
  | S fuel =>
      match scan_value fuel s with
      | None => None
      | Some (v, s1) =>
          match skip_ws s1 with
          | String "]" r => Some ([v], r)
          | String "," r =>
              match scan_elems fuel r with
              | Some (l, r') => Some (v :: l, r')
              | None => None
              end
          | _ => None
          end
      end
  end.

(** A whole document: one value with white space around it. *)
Definition json_parse (s : string) : option json :=
  match scan_value (2 * String.length s + 1) s with
  | Some (v, r) => if decide (skip_ws r = "") then Some v else None
  | None => None
  end.

(** ** Decoder *)

Inductive kind := KInt | KStr | KBool | KStrs.

Inductive gval := VInt (z : Z) | VStr (s : string) | VBool (b : bool) | VStrs (l : list string).

(** The struct: field names with their kinds, and the current values. *)
Abbreviation layout := (list (string * kind)).
Abbreviation fields := (gmap string gval).

Fixpoint parse_digits (acc : Z) (s : string) : option Z :=
  match s with
  | "" => Some acc
  | String c s' =>
      if is_digit c then parse_digits (10 * acc + (Z.of_nat (nat_of_ascii c) - 48)) s' else None
  end.

(** [strconv.ParseInt(s, 10, 64)] followed by the overflow test for the platform's
    [int] of [bits] bits. *)
Definition ParseInt (bits : Z) (s : string) : option Z :=
  let parsed :=
    match s with
    | "" => None
    | String c s' =>
        if decide (c = "-"%char) then
          if decide (s' = "") then None
          else match parse_digits 0 s' with Some z => Some (- z)%Z | None => None end
        else parse_digits 0 s
    end in
  match parsed with
  | Some z => if decide (- 2 ^ (bits - 1) <= z < 2 ^ (bits - 1))%Z then Some z else None
  | None => None
  end.

Definition type_error (what : string) : error :=
  Errorf ("json: cannot unmarshal " +:+ what +:+ " into Go value").

(** The elements of a string slice: null leaves an element as it is, a value of
    another type also does and is an error. *)
Fixpoint decode_strs (old : list string) (l : list json) : list string * option error :=
  match l with
  | [] => ([], None)
  | j :: l' =>
      let '(rest, err) := decode_strs (tail old) l' in
      let cur := match old with x :: _ => x | [] => "" end in
      match j with
      | JStr s => (s :: rest, err)
      | JNull => (cur :: rest, err)
      | _ => (cur :: rest, Some (type_error "array element"))
      end
  end.

(** Decoding a value into a field: the new content, and an error that is recorded
    while decoding goes on. *)
Definition decode_value (bits : Z) (old : gval) (j : json) : gval * option error :=
  match old, j with
  | VStrs _, JNull => (VStrs [], None)
  | _, JNull => (old, None)
  | VInt _, JNum t => match ParseInt bits t with
                      | Some z => (VInt z, None)
                      | None => (old, Some (type_error ("number " +:+ t)))
                      end
  | VStr _, JStr s => (VStr s, None)
  | VBool _, JBool b => (VBool b, None)
  | VStrs l, JArr js => let '(l', e) := decode_strs l js in (VStrs l', e)
  | _, _ => (old, Some (type_error "value"))
  end.

Definition ascii_lower (c : ascii) : ascii :=
  let n := nat_of_ascii c in if decide (65 <= n <= 90) then ascii_of_nat (n + 32) else c.

Fixpoint string_lower (s : string) : string :=
  match s with "" => "" | String c s' => String (ascii_lower c) (string_lower s') end.

(** The field a member name selects: the exact name, or the first that differs
    only in case. *)
Definition select_field (lay : layout) (k : string) : option string :=
  match find (fun f => bool_decide (f.1 = k)) lay with
  | Some f => Some f.1
  | None =>
      match find (fun f => bool_decide (string_lower f.1 = string_lower k)) lay with
      | Some f => Some f.1
      | None => None
      end
  end.

Definition zero_value (k : kind) : gval :=
  match k with KInt => VInt 0 | KStr => VStr "" | KBool => VBool false | KStrs => VStrs [] end.

(** The zero value of the struct. *)
Definition zero_struct (lay : layout) : fields :=
  list_to_map (map (fun f => (f.1, zero_value f.2)) lay).

Definition decode_member (lay : layout) (bits : Z) (st : fields * option error) (kv : string * json) :
    fields * option error :=
  match select_field lay kv.1 with
  | None => st
  | Some f =>
      match st.1 !! f with
      | None => st
      | Some old =>
          let '(v, e) := decode_value bits old kv.2 in
          (<[f := v]> st.1, match st.2 with Some e0 => Some e0 | None => e end)
      end
  end.

Definition decode_struct (lay : layout) (bits : Z) (j : json) : fields * option error :=
  match j with
  | JObj kvs => foldl (decode_member lay bits) (zero_struct lay, None) kvs
  | JNull => (zero_struct lay, None)
  | _ => (zero_struct lay, Some (type_error "value"))
  end.

(** [json.Unmarshal]: a syntax error is found before anything is decoded. *)
Definition json_Unmarshal (lay : layout) (bits : Z) (text : string) : fields * option error :=
  match json_parse text with
  | None => (zero_struct lay, Some (Errorf "invalid JSON text"))
  | Some j => decode_struct lay bits j
  end.

(** ** Lemmas *)

Lemma parse_digits_go x s : parse_digits 0 (pretty_N_go x s) = parse_digits (Z.of_N x) s.
Proof.
  revert s. induction (N.lt_wf_0 x) as [x _ IH]; intros s.
  assert (x = 0 \/ 0 < x)%N as [->|Hx] by lia; [done|].
  rewrite pretty_N_go_step, IH by (done || by apply N.div_lt).
  assert (Hd : (x mod 10 < 10)%N) by by apply N.mod_lt.
  assert (Hc : is_digit (pretty_N_char (x mod 10)) = true /\
               Z.of_nat (nat_of_ascii (pretty_N_char (x mod 10))) = (48 + Z.of_N (x mod 10))%Z).
  { revert Hd. generalize (x mod 10)%N as d. intros d Hd.
    assert (d = 0 \/ d = 1 \/ d = 2 \/ d = 3 \/ d = 4 \/ d = 5 \/ d = 6 \/ d = 7 \/ d = 8 \/ d = 9)%N
      as Hcases by lia. by destruct_or! Hcases; subst. }
  destruct Hc as [Hc1 Hc2]. cbn [parse_digits]. rewrite Hc1, Hc2. f_equal.
  pose proof (N.div_mod x 10). lia.
Qed.

Lemma ParseInt_format bits z :
  (0 <= z)%Z ->
  ParseInt bits (FormatInt10 z) = if decide (z < 2 ^ (bits - 1))%Z then Some z else None.
Proof.
  intros Hz.
  assert (Hp : parse_digits 0 (FormatInt10 z) = Some z).
  { destruct z as [|p|p]; [done| |lia].
    change (FormatInt10 (Zpos p)) with (pretty (Npos p)). unfold pretty, pretty_N.
    rewrite decide_False by done. by rewrite parse_digits_go. }
  unfold ParseInt. pose proof (FormatInt10_nonempty z) as Hne.
  destruct (FormatInt10 z) as [|c s] eqn:E; [done|].
  rewrite (decide_False (P := c = "-"%char)).
  - rewrite Hp. pose proof (Z.pow_nonneg 2 (bits - 1)).
    repeat case_decide; try done; lia.
  - intros ->. done.
Qed.

(** Decoding members with distinct names, each into its own field or into none:
    the order of the members does not matter. *)
Lemma decode_members_spec (lay : layout) bits (kvs : list (string * json)) (T st : fields) :
  NoDup (map fst kvs) ->
  (forall k j, (k, j) ∈ kvs -> select_field lay k = None \/
     select_field lay k = Some k /\ exists old v, st !! k = Some old /\ T !! k = Some v
                                    /\ decode_value bits old j = (v, None)) ->
  exists st' : fields, foldl (decode_member lay bits) (st, None) kvs = (st', None) /\
    forall f, st' !! f = if decide (f ∈ map fst kvs /\ select_field lay f <> None) then T !! f
                         else st !! f.
Proof.
  revert st. induction kvs as [|[k j] kvs IH]; intros st Hnd Hall.
  { exists st. split; [done|]. intros f. rewrite decide_False; [done|]. set_solver. }
  simpl in Hnd. apply NoDup_cons in Hnd as [Hk Hnd]. simpl.
  destruct (Hall k j (list_elem_of_here _ _)) as [Hs|(Hs & old & v & Hold & Hv & Hdec)].
  - unfold decode_member at 2. cbn [fst snd]. rewrite Hs.
    destruct (IH st Hnd) as (st' & Hst' & Hf).
    { intros k' j' Hin. apply Hall. by right. }
    exists st'. split; [done|]. intros f. rewrite Hf. repeat case_decide; try done; set_solver.
  - unfold decode_member at 2. cbn [fst snd]. rewrite Hs, Hold, Hdec.
    destruct (IH (<[k := v]> st) Hnd) as (st' & Hst' & Hf).
    { intros k' j' Hin. assert (k' <> k).
      { intros ->. apply Hk, list_elem_of_fmap. by exists (k, j'). }
      rewrite lookup_insert_ne by done. apply Hall. by right. }
    exists st'. split; [done|]. intros f. rewrite Hf, lookup_insert. simpl.
    repeat case_decide; subst; try done; set_solver.
Qed.
