(* ===== verification/JsonFuel.v ===== *)
(** * The JSON scanner has enough fuel

    [json_parse] gives [scan_value] one unit of fuel more than twice the length of
    the text.  More never changes the result, so a document is refused for its
    syntax only. *)
From S2P Require Import Prelude GoStrings Json.
#[local] Open Scope go_scope.

(** ** What the scanners leave is no longer than what they were given *)

Abbreviation len := String.length.

Lemma len_skip_ws s : len (skip_ws s) <= len s.
Proof. induction s as [|c s IH]; simpl; [done|]. destruct (is_ws c); simpl; lia. Qed.

Lemma len_span_digits s : len (span_digits s).2 <= len s.
Proof.
  induction s as [|c s IH]; simpl; [done|]. destruct (is_digit c); [|done].
  destruct (span_digits s); simpl in *. lia.
Qed.

Lemma len_string_drop n s : len (string_drop n s) <= len s.
Proof. revert s. induction n as [|n IH]; intros [|c s]; simpl; try done. specialize (IH s). lia. Qed.

(** What remains of a text is bounded by [n]. *)
Definition leaves {A} (n : nat) (r : option (A * string)) : Prop :=
  match r with Some (_, rest) => len rest <= n | None => True end.

Lemma leaves_mono {A} n m (r : option (A * string)) : leaves n r -> n <= m -> leaves m r.
Proof. destruct r as [[a s]|]; simpl; lia. Qed.

Lemma leaves_prepend n a r : leaves n r -> leaves n (prepend a r).
Proof. by destruct r as [[]|]. Qed.

Lemma leaves_digits s : leaves (len s) (match span_digits s with ("", _) => None | (d, r) => Some (d, r) end).
Proof. pose proof (len_span_digits s) as H. by destruct (span_digits s) as [[|] r]. Qed.

Lemma leaves_frac s : leaves (len s) (scan_frac s).
Proof.
  destruct s as [|c s]; simpl; [lia|]. pose proof (len_span_digits s) as H.
  destruct (span_digits s) as [d r]; simpl in H.
  destruct c as [[] [] [] [] [] [] [] []]; simpl; try lia; destruct d; simpl; lia.
Qed.

Lemma leaves_exp s : leaves (len s) (scan_exp s).
Proof.
  destruct s as [|c s]; simpl; [lia|]. case_decide; [|simpl; lia].
  match goal with |- leaves _ (let '(sign, s'') := ?x in _) => assert (Hx : len x.2 <= len s) end.
  { repeat case_match; simpl; lia. }
  match goal with |- leaves _ (let '(sign, s'') := ?x in _) => destruct x as [sign s''] end.
  simpl in Hx. pose proof (len_span_digits s'') as Hd.
  destruct (span_digits s'') as [[|] r]; simpl in *; lia.
Qed.

Lemma leaves_number s : leaves (len s) (scan_number s).
Proof.
  unfold scan_number.
  match goal with |- leaves _ (let '(sign, s1) := ?x in _) => assert (Hx : len x.2 <= len s) end.
  { repeat case_match; simpl; lia. }
  match goal with |- leaves _ (let '(sign, s1) := ?x in _) => destruct x as [sign s1] end. simpl in Hx.
  match goal with |- leaves _ (match ?x with _ => _ end) => assert (Hi : leaves (len s1) x) end.
  { pose proof (leaves_digits s1) as H. repeat case_match; simplify_eq; simpl in *; try done; lia. }
  match goal with |- leaves _ (match ?x with _ => _ end) => destruct x as [[d s2]|] end; [|done].
  pose proof (leaves_frac s2) as Hf. destruct (scan_frac s2) as [[f s3]|]; [|done].
  pose proof (leaves_exp s3) as He. destruct (scan_exp s3) as [[e s4]|]; [|done]. simpl in *. lia.
Qed.

Lemma leaves_string_le n s : len s <= n -> leaves n (scan_string s).
Proof.
  revert s. induction n as [|n IH]; intros [|c s] Hn; simpl in Hn; try done; [lia|].
  assert (IH' : forall a t, len t <= n -> leaves (S n) (prepend a (scan_string t))).
  { intros a t Ht. apply leaves_prepend. eapply leaves_mono; [by apply IH|lia]. }
  simpl scan_string.
  repeat (case_match; simplify_eq; try exact I; try (apply IH'; simpl in *; lia); try (simpl; lia)).
Qed.

Lemma leaves_string s : leaves (len s) (scan_string s).
Proof. by apply leaves_string_le. Qed.

Lemma leaves_literal lit v s : leaves (len s) (scan_literal lit v s).
Proof. unfold scan_literal. case_match; [|done]. apply len_string_drop. Qed.

(** Passes [r] on, keeping what is known of its rest. *)
Ltac leaves_case H :=
  match type of H with leaves _ ?r => destruct r as [[? ?]|]; [|exact I] end; simpl in H.

(** Skips white space, keeping the bound on what follows. *)
Ltac skip_case s :=
  let H := fresh "Hws" in pose proof (len_skip_ws s) as H; destruct (skip_ws s) as [|? ?]; simpl in H.

Lemma leaves_json fuel :
  (forall s, leaves (len s) (scan_value fuel s)) /\ (forall s, leaves (len s) (scan_members fuel s)) /\
  (forall s, leaves (len s) (scan_elems fuel s)).
Proof.
  induction fuel as [|fuel (IHv & IHm & IHe)]; [done|].
  repeat split; intros s; simpl.
  - skip_case s; [done|]. repeat case_decide; subst.
    + pose proof (IHm s0) as Hm. skip_case s0; repeat case_match; simplify_eq; simpl in *; try done; lia.
    + pose proof (IHe s0) as Hm. skip_case s0; repeat case_match; simplify_eq; simpl in *; try done; lia.
    + pose proof (leaves_string s0) as Hs. leaves_case Hs. simpl. lia.
    + eapply leaves_mono; [apply leaves_literal|simpl; lia].
    + eapply leaves_mono; [apply leaves_literal|simpl; lia].
    + eapply leaves_mono; [apply leaves_literal|simpl; lia].
    + pose proof (leaves_number (String a s0)) as Hs. leaves_case Hs. simpl. lia.
  - skip_case s; [done|]. case_decide; [|done].
    pose proof (leaves_string s0) as Hs. leaves_case Hs. skip_case s2; [done|].
    repeat (case_match; try exact I); simplify_eq; simpl in *;
    repeat match goal with
    | Hx : scan_value fuel ?t = Some _ |- _ => pose proof (IHv t); rewrite Hx in *; clear Hx
    | Hx : scan_members fuel ?t = Some _ |- _ => pose proof (IHm t); rewrite Hx in *; clear Hx
    | Hx : skip_ws ?t = _ |- _ => pose proof (len_skip_ws t); rewrite Hx in *; clear Hx
    end; simpl in *; lia.
  - pose proof (IHv s) as Hv. leaves_case Hv. skip_case s0; [done|].
    repeat (case_match; try exact I); simplify_eq; simpl in *;
    repeat match goal with
    | Hx : scan_elems fuel ?t = Some _ |- _ => pose proof (IHe t); rewrite Hx in *; clear Hx
    end; simpl in *; lia.
Qed.

(** ** Fuel above the bound changes nothing *)
Lemma enough_fuel f f' :
  f <= f' ->
  (forall s, 2 * len s + 1 <= f -> scan_value f' s = scan_value f s) /\
  (forall s, 2 * len s + 1 <= f -> scan_members f' s = scan_members f s) /\
  (forall s, 2 * len s + 2 <= f -> scan_elems f' s = scan_elems f s).
Proof.
  revert f'. induction f as [|f IH]; intros f' Hf; [repeat split; intros; lia|].
  destruct f' as [|f']; [lia|]. destruct (IH f' ltac:(lia)) as (IHv & IHm & IHe).
  repeat split; intros s Hs; simpl.
  - skip_case s; [done|]. rewrite IHm, IHe by lia. done.
  - skip_case s; [done|]. case_decide; [|done].
    pose proof (leaves_string s0) as Hq. destruct (scan_string s0) as [[k s2]|]; [|done]. simpl in Hq.
    skip_case s2; [done|]. destruct a0 as [[] [] [] [] [] [] [] []]; try done. rewrite IHv by lia.
    destruct (leaves_json f) as (Lv & _). specialize (Lv s1).
    destruct (scan_value f s1) as [[v s4]|]; [|done]. simpl in Lv. skip_case s4; [done|].
    by rewrite IHm by lia.
  - rewrite IHv by lia. destruct (leaves_json f) as (Lv & _). specialize (Lv s).
    destruct (scan_value f s) as [[v s1]|]; [|done]. simpl in Lv. skip_case s1; [done|].
    by rewrite IHe by lia.
Qed.

(** The scanner never runs out of fuel: on every text, whatever its nesting,
    any fuel above the one [json_parse] gives leads to the same result, so a text is
    refused only because it is not a JSON document. *)
Lemma json_parse_enough_fuel s fuel :
  2 * len s + 1 <= fuel ->
  json_parse s = match scan_value fuel s with
                 | Some (v, r) => if decide (skip_ws r = "") then Some v else None
                 | None => None
                 end.
Proof.
  intros Hf. destruct (enough_fuel (2 * len s + 1) fuel Hf) as (Hv & _). unfold json_parse.
  by rewrite Hv.
Qed.
