(* ===== verification/Settings.v ===== *)
(** * Settings from C++ to Go

    [asio_ipfs::config] (include/ipfs_config.h) is serialized by [config_to_json]
    (src/node.cpp) and parsed by [start_node] into [AsioConfig] through the struct
    tags of ipfs_config.go.  The serializer of nlohmann::json is a parameter: what
    the glue relies on is that its text parses back to the same members, in some
    order. *)
From S2P Require Import Prelude GoStrings GoPath GoOs Ext World Toy Effects Log Config.
From S2P Require Import Json.
From Stdlib Require Import Ascii.

(** ** Go: [json.Unmarshal] into an [AsioConfig] *)

(** The struct tags. *)
Definition asio_layout : layout :=
  [("LowWater", KInt); ("HighWater", KInt); ("GracePeriod", KStr); ("AutoRelay", KBool);
   ("RelayHop", KBool); ("Bootstrap", KStrs); ("Peering", KStrs); ("SwarmPort", KInt);
   ("APIAddress", KStr); ("GatewayAddress", KStr); ("DefaultProfile", KStr);
   ("StorageMax", KStr); ("AutoNAT", KBool); ("AutoNATLimit", KInt); ("AutoNATPeerLimit", KInt);
   ("SwarmKey", KStr); ("RoutingType", KStr); ("RunGC", KBool)].

Definition get_int (st : fields) (f : string) : Z :=
  match st !! f with Some (VInt z) => z | _ => 0%Z end.

Definition get_str (st : fields) (f : string) : string :=
  match st !! f with Some (VStr s) => s | _ => "" end.

Definition get_bool (st : fields) (f : string) : bool :=
  match st !! f with Some (VBool b) => b | _ => false end.

Definition get_strs (st : fields) (f : string) : list string :=
  match st !! f with Some (VStrs l) => l | _ => [] end.

Definition asio_of_fields (st : fields) : AsioConfig :=
  mkAsioConfig (get_int st "LowWater") (get_int st "HighWater") (get_str st "GracePeriod")
    (get_bool st "AutoRelay") (get_bool st "RelayHop") (get_strs st "Bootstrap")
    (get_strs st "Peering") (get_int st "SwarmPort") (get_str st "APIAddress")
    (get_str st "GatewayAddress") (get_str st "DefaultProfile") (get_str st "StorageMax")
    (get_bool st "AutoNAT") (get_int st "AutoNATLimit") (get_int st "AutoNATPeerLimit")
    (get_str st "SwarmKey") (get_str st "RoutingType") (get_bool st "RunGC").

(** [var asiocfg AsioConfig; err := json.Unmarshal([]byte(jsoncfg), &asiocfg)], with
    [bits] the width of the platform's [int]. *)
Definition Unmarshal_AsioConfig (bits : Z) (jsoncfg : string) : AsioConfig * option error :=
  let '(st, err) := json_Unmarshal asio_layout bits jsoncfg in (asio_of_fields st, err).

(** ** C++: include/ipfs_config.h and [config_to_json] *)

Record config := mkCppConfig {
  repo_root : string;
  default_profile : string;
  storage_max : string;
  low_water : Z;
  high_water : Z;
  grace_period : Z;
  swarm_port : Z;
  gateway_address : string;
  api_address : string;
  autonat : bool;
  autonat_limit : Z;
  autonat_peer_limit : Z;
  bootstrap : list string;
  peering : list string;
  swarm_key : string;
  routing_type : string;
  auto_relay : bool;
  relay_hop : bool;
  run_gc : bool;
}.

Inductive Mode := Desktop | Server.

(** The constructor of [config]: member initializers, then the server's values. *)
Definition config_of_mode (mode : Mode) : config :=
  match mode with
  | Desktop =>
      mkCppConfig "./ipfs-repo" "" "2GB" 100 200 20 10100 "" "" true 30 3 [] [] "" "dht" true false true
  | Server =>
      mkCppConfig "./ipfs-repo" "server" "20GB" 100 200 20 10100 "/ip4/127.0.0.1/tcp/6200"
        "/ip4/127.0.0.1/tcp/6100" true 30 3 [] [] "" "dht" false false false
  end.

(** The [unsigned int] members. *)
Definition cpp_ints (cfg : config) : list Z :=
  [low_water cfg; high_water cfg; grace_period cfg; swarm_port cfg; autonat_limit cfg;
   autonat_peer_limit cfg].

(** Those the Go side reads as [int]; the grace period travels as text. *)
Definition go_ints (cfg : config) : list Z :=
  [low_water cfg; high_water cfg; swarm_port cfg; autonat_limit cfg; autonat_peer_limit cfg].

Definition cpp_config_ok (cfg : config) : Prop :=
  Forall (fun z => 0 <= z < 2 ^ 32)%Z (cpp_ints cfg).

(** The members of the object [config_to_json] builds. *)
Definition json_members (cfg : config) : list (string * json) :=
  [("RepoRoot", JStr (repo_root cfg));
   ("LowWater", JNum (FormatInt10 (low_water cfg)));
   ("HighWater", JNum (FormatInt10 (high_water cfg)));
   ("GracePeriod", JStr (FormatInt10 (grace_period cfg) +:+ "s"));
   ("Bootstrap", JArr (map JStr (bootstrap cfg)));
   ("Peering", JArr (map JStr (peering cfg)));
   ("SwarmPort", JNum (FormatInt10 (swarm_port cfg)));
   ("APIAddress", JStr (api_address cfg));
   ("GatewayAddress", JStr (gateway_address cfg));
   ("DefaultProfile", JStr (default_profile cfg));
   ("AutoRelay", JBool (auto_relay cfg));
   ("RelayHop", JBool (relay_hop cfg));
   ("StorageMax", JStr (storage_max cfg));
   ("AutoNAT", JBool (autonat cfg));
   ("AutoNATLimit", JNum (FormatInt10 (autonat_limit cfg)));
   ("AutoNATPeerLimit", JNum (FormatInt10 (autonat_peer_limit cfg)));
   ("SwarmKey", JStr (swarm_key cfg));
   ("RoutingType", JStr (routing_type cfg));
   ("RunGC", JBool (run_gc cfg))].

Section settings.
(** [nlohmann::json::dump] of an object with these members. *)
Context (dump : list (string * json) -> string).

Definition config_to_json (cfg : config) : result string :=
  if decide (bootstrap cfg = []) then inr (Errorf "IPFS bootstrap cannot be empty")
  else inl (dump (json_members cfg)).

(** The settings [cfg] asks for. *)
Definition asio_of_config (cfg : config) : AsioConfig :=
  mkAsioConfig (low_water cfg) (high_water cfg) (FormatInt10 (grace_period cfg) +:+ "s")
    (auto_relay cfg) (relay_hop cfg) (bootstrap cfg) (peering cfg) (swarm_port cfg)
    (api_address cfg) (gateway_address cfg) (default_profile cfg) (storage_max cfg)
    (autonat cfg) (autonat_limit cfg) (autonat_peer_limit cfg) (swarm_key cfg)
    (routing_type cfg) (run_gc cfg).

(** The text of [cfg] parses back to its members. *)
Definition dump_parses (cfg : config) : Prop :=
  exists kvs, json_parse (dump (json_members cfg)) = Some (JObj kvs) /\ kvs ≡ₚ json_members cfg.

(** ** Lemmas *)

(** The struct holding [asio_of_config cfg]. *)
Definition config_fields (cfg : config) : fields :=
  list_to_map
    [("LowWater", VInt (low_water cfg)); ("HighWater", VInt (high_water cfg));
     ("GracePeriod", VStr (FormatInt10 (grace_period cfg) +:+ "s"));
     ("AutoRelay", VBool (auto_relay cfg)); ("RelayHop", VBool (relay_hop cfg));
     ("Bootstrap", VStrs (bootstrap cfg)); ("Peering", VStrs (peering cfg));
     ("SwarmPort", VInt (swarm_port cfg)); ("APIAddress", VStr (api_address cfg));
     ("GatewayAddress", VStr (gateway_address cfg)); ("DefaultProfile", VStr (default_profile cfg));
     ("StorageMax", VStr (storage_max cfg)); ("AutoNAT", VBool (autonat cfg));
     ("AutoNATLimit", VInt (autonat_limit cfg)); ("AutoNATPeerLimit", VInt (autonat_peer_limit cfg));
     ("SwarmKey", VStr (swarm_key cfg)); ("RoutingType", VStr (routing_type cfg));
     ("RunGC", VBool (run_gc cfg))].

Lemma decode_strs_strings l old : decode_strs old (map JStr l) = (l, None).
Proof. revert old. induction l as [|x l IH]; intros old; simpl; [done|]. by rewrite IH. Qed.

Lemma members_nodup cfg : NoDup (map fst (json_members cfg)).
Proof. simpl. apply (bool_decide_unpack _). by vm_compute. Qed.

(** Every member but the repository's path fills the field of its name. *)
Lemma members_decode bits cfg k j :
  Forall (fun z => 0 <= z < 2 ^ (bits - 1))%Z (go_ints cfg) ->
  (k, j) ∈ json_members cfg ->
  select_field asio_layout k = None \/
  select_field asio_layout k = Some k /\
    exists old v, zero_struct asio_layout !! k = Some old /\ config_fields cfg !! k = Some v
                  /\ decode_value bits old j = (v, None).
Proof.
  intros Hi Hin. unfold go_ints in Hi. rewrite !Forall_cons in Hi.
  destruct Hi as (H1 & H2 & H4 & H5 & H6 & _).
  assert (Hint : forall z, (0 <= z < 2 ^ (bits - 1))%Z ->
            decode_value bits (VInt 0) (JNum (FormatInt10 z)) = (VInt z, None)).
  { intros z [Hz1 Hz2]. simpl. by rewrite ParseInt_format, decide_True. }
  unfold json_members in Hin. rewrite !elem_of_cons, elem_of_nil in Hin.
  destruct_or! Hin; try done; injection Hin as -> ->;
    first [left; reflexivity
          | right; split; [reflexivity|]; eexists _, _; split; [reflexivity|];
            split; [reflexivity|]; first [by apply Hint | reflexivity | simpl; by rewrite decode_strs_strings]].
Qed.

Lemma config_fields_asio cfg : asio_of_fields (config_fields cfg) = asio_of_config cfg.
Proof. reflexivity. Qed.

Lemma decode_members_error lay bits kvs k t st err z :
  (k, JNum t) ∈ kvs -> select_field lay k = Some k -> ParseInt bits t = None ->
  st !! k = Some (VInt z) ->
  (foldl (decode_member lay bits) (st, err) kvs).2 <> None.
Proof.
  intros Hin Hsel Hp. revert st err z. induction kvs as [|[k' j'] kvs IH]; intros st err z Hst.
  { by apply not_elem_of_nil in Hin. }
  assert (Hkeep : forall kvs0 st0 e0, (foldl (decode_member lay bits) (st0, Some e0) kvs0).2 <> None).
  { clear. induction kvs0 as [|kv kvs0 IH]; intros st0 e0; [done|]. simpl.
    unfold decode_member at 2. destruct (select_field lay kv.1); [|apply IH].
    simpl. destruct (st0 !! s); [|apply IH]. destruct (decode_value _ _ _). apply IH. }
  apply elem_of_cons in Hin as [Heq|Hin].
  - injection Heq as <- <-. simpl. unfold decode_member at 2. simpl. rewrite Hsel, Hst. simpl.
    rewrite Hp. destruct err; apply Hkeep.
  - simpl. unfold decode_member at 2. simpl. destruct (select_field lay k') as [f|]; [|by eapply IH].
    destruct (st !! f) as [old|] eqn:Ef; [|by eapply IH].
    destruct (decide (f = k)) as [->|Hne].
    + rewrite Hst in Ef. injection Ef as <-.
      assert (exists z', (decode_value bits (VInt z) j').1 = VInt z') as [z' Hz'].
      { destruct j'; simpl; try (by eexists). destruct (ParseInt bits text); by eexists. }
      destruct (decode_value bits (VInt z) j') as [v e]. simpl in Hz'. subst.
      eapply IH; [done|]. by rewrite lookup_insert_eq.
    + destruct (decode_value bits old j') as [v e]. eapply IH; [done|].
      by rewrite lookup_insert_ne.
Qed.

Lemma unmarshal_parsed bits text kvs :
  json_parse text = Some (JObj kvs) ->
  Unmarshal_AsioConfig bits text
  = let '(st, err) := foldl (decode_member asio_layout bits) (zero_struct asio_layout, None) kvs in
    (asio_of_fields st, err).
Proof. intros Hp. unfold Unmarshal_AsioConfig, json_Unmarshal. by rewrite Hp. Qed.

Lemma unmarshal_fits bits cfg :
  dump_parses cfg -> cpp_config_ok cfg -> Forall (fun z => z < 2 ^ (bits - 1))%Z (go_ints cfg) ->
  Unmarshal_AsioConfig bits (dump (json_members cfg)) = (asio_of_config cfg, None).
Proof.
  intros (kvs & Hp & Hperm) Hok Hi.
  assert (Hr : Forall (fun z => 0 <= z < 2 ^ (bits - 1))%Z (go_ints cfg)).
  { unfold cpp_config_ok, cpp_ints, go_ints in *. rewrite !Forall_cons in *.
    destruct Hok as (? & ? & _ & ? & ? & ? & _), Hi as (? & ? & ? & ? & ? & _). repeat split; try lia. done. }
  rewrite (unmarshal_parsed _ _ kvs) by done.
  destruct (decode_members_spec asio_layout bits kvs (config_fields cfg) (zero_struct asio_layout))
    as (st' & -> & Hf).
  { rewrite Hperm. apply members_nodup. }
  { intros k j Hin. apply (members_decode bits cfg); [done|]. by rewrite <- Hperm. }
  f_equal. rewrite <- config_fields_asio.
  assert (Hg : forall f, (f ∈ map fst (json_members cfg)) -> select_field asio_layout f <> None ->
                         st' !! f = config_fields cfg !! f).
  { intros f H1 H2. rewrite Hf, decide_True; [done|]. split; [|done]. by rewrite Hperm. }
  unfold asio_of_fields, get_int, get_str, get_bool, get_strs.
  by rewrite !Hg by (first [by apply (bool_decide_unpack _); vm_compute | by vm_compute]).
Qed.

Lemma unmarshal_overflows bits cfg :
  dump_parses cfg -> cpp_config_ok cfg -> Exists (fun z => 2 ^ (bits - 1) <= z)%Z (go_ints cfg) ->
  (Unmarshal_AsioConfig bits (dump (json_members cfg))).2 <> None.
Proof.
  intros (kvs & Hp & Hperm) Hok Hex.
  assert (exists (k : string) (z : Z), ((k, JNum (FormatInt10 z)) ∈ json_members cfg) /\
            select_field asio_layout k = Some k /\ zero_struct asio_layout !! k = Some (VInt 0) /\
            (0 <= z)%Z /\ (2 ^ (bits - 1) <= z)%Z) as (k & z & Hin & Hs & Hz & Hpos & Hbig).
  { unfold cpp_config_ok, cpp_ints, go_ints in *. rewrite !Forall_cons in Hok.
    rewrite !Exists_cons, Exists_nil in Hex. destruct Hok as (? & ? & _ & ? & ? & ? & _).
    destruct_or! Hex; try done;
      [exists "LowWater" | exists "HighWater" | exists "SwarmPort" | exists "AutoNATLimit"
      | exists "AutoNATPeerLimit"];
      eexists; (split; [unfold json_members; rewrite !elem_of_cons; naive_solver|]);
      (split; [reflexivity|]); (split; [reflexivity|]); (split; [|exact Hex]); lia. }
  rewrite (unmarshal_parsed _ _ kvs) by done.
  pose proof (decode_members_error asio_layout bits kvs k (FormatInt10 z) (zero_struct asio_layout)
                None 0%Z) as He.
  destruct (foldl _ _ kvs) as [st' err]. simpl in *. apply He; [by rewrite Hperm|done| |done].
  rewrite ParseInt_format, decide_False by lia. done.
Qed.

(** ** Properties *)

(** C12. Settings survive the trip from C++ to Go: for a configuration with a
    bootstrap list, parsing the serialized text yields exactly the settings of the
    C++ object, grace period in seconds included, provided the integers the Go
    side reads as [int] fit the platform's; when one does not, parsing reports an
    error.  Serializing is refused, with an exception and so before anything is
    started, exactly when the bootstrap list is empty. *)
Theorem config_roundtrip bits cfg :
  dump_parses cfg -> cpp_config_ok cfg ->
  match config_to_json cfg with
  | inr _ => bootstrap cfg = []
  | inl text => bootstrap cfg <> [] /\
      (Forall (fun z => z < 2 ^ (bits - 1))%Z (go_ints cfg) ->
       Unmarshal_AsioConfig bits text = (asio_of_config cfg, None)) /\
      (Exists (fun z => 2 ^ (bits - 1) <= z)%Z (go_ints cfg) ->
       (Unmarshal_AsioConfig bits text).2 <> None)
  end.
Proof.
  intros Hd Hok. unfold config_to_json. case_decide; [done|].
  split; [done|]. split; [by apply unmarshal_fits|by apply unmarshal_overflows].
Qed.
End settings.

(** ** Witness: a serializer *)

(** [nlohmann::json::dump] for text without special characters. *)
Definition toy_quote (s : string) : string := String dquote "" +:+ s +:+ String dquote "".

Definition toy_dump_value (j : json) : string :=
  match j with
  | JNum t => t
  | JStr s => toy_quote s
  | JBool b => if b then "true" else "false"
  | JArr l => "[" +:+ join_with "," (map (fun j => match j with JStr s => toy_quote s | _ => "null" end) l) +:+ "]"
  | _ => "null"
  end.

Definition toy_dump (kvs : list (string * json)) : string :=
  "{" +:+ join_with "," (map (fun kv => toy_quote kv.1 +:+ ":" +:+ toy_dump_value kv.2) (reverse kvs)) +:+ "}".

Definition toy_cpp_config : config :=
  mkCppConfig "./repo" "" "2GB" 100 200 20 10100 "" "/ip4/127.0.0.1/tcp/6100" true 30 3
    ["/dns4/boot/tcp/1/p2p/Qm"] [] "" "dht" true false true.

Lemma config_roundtrip_witness :
  config_to_json toy_dump toy_cpp_config = inl (toy_dump (json_members toy_cpp_config)) /\
  Unmarshal_AsioConfig 64 (toy_dump (json_members toy_cpp_config)) = (asio_of_config toy_cpp_config, None).
Proof.
  split; [reflexivity|].
  assert (Hd : dump_parses toy_dump toy_cpp_config).
  { exists (reverse (json_members toy_cpp_config)). split; [vm_compute; reflexivity|].
    apply reverse_Permutation. }
  pose proof (config_roundtrip toy_dump 64 toy_cpp_config Hd) as H. apply H.
  - repeat constructor; simpl; lia.
  - repeat constructor; simpl; lia.
Defined.
