(* ===== verification/Progress.v ===== *)
(** * Progress of a start-up

    [start_node] and the services it starts only touch the node they were given,
    the process flags, the third-party state, and add goroutines and channels.
    [at_ n c w w'] says so of the states before and now, and keeps in the cursor
    [c] what has been done: the node's record, the third-party calls, the
    goroutines started and the flags.  The step rules of this file move the
    cursor, and allow a panic that satisfies [E]. *)
From S2P Require Import Prelude GoStrings GoPath GoOs Ext World Toy Effects Log Cancel.
From S2P Require Import Calls.
#[local] Open Scope go_scope.

(** [runs m Q E s]: [m] returns and [Q] holds, or it panics and [E] holds of the
    message. *)
Definition runs {S A} (m : M S A) (Q : A -> S -> Prop) (E : string -> Prop) (s : S) : Prop :=
  wp m (fun r s' => match r with Ok a => Q a s' | Panic p => E p end) s.

Section runs_rules.
Context {S A B : Type} (E : string -> Prop).

Lemma runs_ret (a : A) (Q : A -> S -> Prop) s : Q a s -> runs (ret a) Q E s.
Proof. done. Qed.

Lemma runs_panic p (Q : A -> S -> Prop) s : E p -> runs (panic p) Q E s.
Proof. done. Qed.

Lemma runs_bind (m : M S A) (k : A -> M S B) Q s :
  runs m (fun a s' => runs (k a) Q E s') E s -> runs (bind m k) Q E s.
Proof. unfold runs, wp, bind. destruct (m s) as [[a|p] s']; done. Qed.

Lemma runs_mono (m : M S A) (Q Q' : A -> S -> Prop) (E' : string -> Prop) s :
  runs m Q E s -> (forall a s', Q a s' -> Q' a s') -> (forall p, E p -> E' p) -> runs m Q' E' s.
Proof. unfold runs, wp. destruct (m s) as [[a|p] s']; simpl; auto. Qed.

Lemma runs_returns (m : M S A) (Q : A -> S -> Prop) s : returns m Q s -> runs m Q E s.
Proof. unfold runs, returns, wp. destruct (m s) as [[a|p] s']; simpl; done. Qed.

Lemma runs_modify (f : S -> S) (Q : unit -> S -> Prop) s : Q tt (f s) -> runs (modify f) Q E s.
Proof. done. Qed.

(** A statement that returns, with what it guarantees. *)
Lemma runs_step (m : M S A) (k : A -> M S B) (P : A -> S -> Prop) Q s :
  returns m P s -> (forall a s', P a s' -> runs (k a) Q E s') -> runs (bind m k) Q E s.
Proof.
  intros Hm Hk. apply runs_bind, runs_returns. eapply returns_mono; [exact Hm|]. exact Hk.
Qed.

(** A statement that may also panic. *)
Lemma runs_seq (m : M S A) (k : A -> M S B) (P : A -> S -> Prop) Q s :
  runs m P E s -> (forall a s', P a s' -> runs (k a) Q E s') -> runs (bind m k) Q E s.
Proof. intros Hm Hk. apply runs_bind. eapply runs_mono; eauto. Qed.
End runs_rules.

Lemma runs_no_panic {S A} (m : M S A) (Q : A -> S -> Prop) s :
  runs m Q (fun _ => False) s <-> returns m Q s.
Proof. reflexivity. Qed.

Section progress.
Context `{External}.

(** ** The cursor *)

Record cursor := mkCur {
  c_node : Node;
  c_items : list item;
  c_gor : list Goroutine;
  c_mprome : bool;
  c_metrics : bool;
  c_plugins : bool;
}.

Definition cur_call (i : item) (c : cursor) : cursor :=
  mkCur (c_node c) (c_items c ++ [i]) (c_gor c) (c_mprome c) (c_metrics c) (c_plugins c).

Definition cur_calls (l : list item) (c : cursor) : cursor :=
  mkCur (c_node c) (c_items c ++ l) (c_gor c) (c_mprome c) (c_metrics c) (c_plugins c).

Definition cur_node (f : Node -> Node) (c : cursor) : cursor :=
  mkCur (f (c_node c)) (c_items c) (c_gor c) (c_mprome c) (c_metrics c) (c_plugins c).

Definition cur_go (gs : list Goroutine) (c : cursor) : cursor :=
  mkCur (c_node c) (c_items c) (c_gor c ++ gs) (c_mprome c) (c_metrics c) (c_plugins c).

Definition cur_mprome (c : cursor) : cursor :=
  mkCur (c_node c) (c_items c) (c_gor c) true (c_metrics c) (c_plugins c).

Definition cur_metrics (c : cursor) : cursor :=
  mkCur (c_node c) (c_items c) (c_gor c) (c_mprome c) true (c_plugins c).

Definition cur_plugins (c : cursor) : cursor :=
  mkCur (c_node c) (c_items c) (c_gor c) (c_mprome c) (c_metrics c) true.

Lemma cur_call_calls i c : cur_call i c = cur_calls [i] c.
Proof. reflexivity. Qed.

Lemma cur_calls_app cs1 cs2 c : cur_calls cs2 (cur_calls cs1 c) = cur_calls (cs1 ++ cs2) c.
Proof. unfold cur_calls. simpl. by rewrite app_assoc. Qed.

Lemma cur_calls_nil c : cur_calls [] c = c.
Proof. unfold cur_calls. rewrite app_nil_r. by destruct c. Qed.

Lemma cur_go_app gs1 gs2 c : cur_go gs2 (cur_go gs1 c) = cur_go (gs1 ++ gs2) c.
Proof. unfold cur_go. simpl. by rewrite app_assoc. Qed.

Lemma cur_go_nil c : cur_go [] c = c.
Proof. unfold cur_go. rewrite app_nil_r. by destruct c. Qed.

Lemma cur_plugins_id c : c_plugins c = true -> cur_plugins c = c.
Proof. unfold cur_plugins. intros <-. by destruct c. Qed.

(** The fields of a node no start-up code assigns. *)
Definition node_ident (nd : Node) :=
  (n_ctx nd, n_cancel nd, n_next_cancel_signal_id nd, n_cancel_signals nd, n_state_cb nd,
   n_state_cb_arg nd, n_log_cb nd).

Record at_ (n : nat) (c : cursor) (w w' : World) : Prop := mkAt {
  at_gnode : w_gnode w' = w_gnode w;
  at_ctx_anc : w_ctx_anc w' = w_ctx_anc w;
  at_cancelled : w_cancelled w' = w_cancelled w;
  at_logger : w_logger w' = w_logger w;
  at_cheap : w_cheap w' = w_cheap w;
  at_cnext : w_cnext w <= w_cnext w';
  at_next : w_next w <= w_next w';
  at_others : forall m, m <> n -> w_nodes w' !! m = w_nodes w !! m;
  at_ident : node_ident <$> (w_nodes w' !! n) = node_ident <$> (w_nodes w !! n);
  at_chans : forall ch, ch < w_next w -> w_chans w' !! ch = w_chans w !! ch;
  at_node : w_nodes w' !! n = Some (c_node c);
  at_calls : calls (w_trace w') = calls (w_trace w) ++ names (c_items c);
  at_env : interacts (c_items c) (w_env w) (w_env w');
  at_callbacks : callbacks (w_trace w') = callbacks (w_trace w);
  at_gor : w_gor w' = w_gor w ++ c_gor c;
  at_mprome : w_mprome_injected w' = c_mprome c;
  at_metrics : w_mporme_metrics w' = c_metrics c;
  at_plugins : w_plugins_injected w' = c_plugins c;
}.

(** The cursor of a state in which nothing has been done yet. *)
Definition cur_start (nd : Node) (w : World) : cursor :=
  mkCur nd [] [] (w_mprome_injected w) (w_mporme_metrics w) (w_plugins_injected w).

Lemma at_start n nd w : w_nodes w !! n = Some nd -> at_ n (cur_start nd w) w w.
Proof.
  intros Hn. split; simpl; try done; rewrite ?app_nil_r; try done. constructor. apply rtc_refl.
Qed.

Lemma at_ready n c w w' : at_ n c w w' -> ready w -> ready w'.
Proof.
  intros [] [Hl [H1 H2]]. split; [unfold log_ok; congruence|]. split; [lia|].
  intros p Hp. rewrite at_cheap0. apply H2. lia.
Qed.

Lemma at_called n c cs w w1 w2 : at_ n c w w1 -> called cs w1 w2 -> at_ n (cur_calls cs c) w w2.
Proof.
  intros [] ([] & Ht & Hcb & Hi). split; simpl; try (etransitivity; eassumption); try congruence; try lia.
  - intros m Hm. rewrite sc_nodes. auto.
  - intros ch Hch. rewrite sc_chans. auto.
  - by rewrite Ht, at_calls0, names_app, app_assoc.
  - by eapply interacts_app.
Qed.

Lemma at_quiet n c w w1 w2 : at_ n c w w1 -> called [] w1 w2 -> at_ n c w w2.
Proof.
  intros H1 H2. pose proof (at_called _ _ _ _ _ _ H1 H2) as Hc. unfold cur_calls in Hc.
  rewrite app_nil_r in Hc. by destruct c.
Qed.

Lemma at_go n c w w1 gs :
  at_ n c w w1 -> at_ n (cur_go gs c) w (upd_gor (fun l => l ++ gs) w1).
Proof. intros []. split; simpl; try done. by rewrite at_gor0, app_assoc. Qed.

(** ** Moving the cursor *)
Section steps.
Context {A B : Type} (n : nat) (c : cursor) (w w1 : World) (E : string -> Prop).
Context (Hat : at_ n c w w1).

Lemma run_call name (op : Ext A) (k : A -> M World B) Q :
  not_clock name = true ->
  (forall a w2, op (w_env w1) = (a, w_env w2) -> at_ n (cur_call (did name op a) c) w w2 -> runs (k a) Q E w2) ->
  runs (bind (call name op) k) Q E w1.
Proof.
  unfold not_clock. rewrite bool_decide_eq_true. intros Hn Hk.
  eapply runs_step; [by apply call_called|]. intros a w2 (Hc & e & He & <-).
  apply Hk; [done|]. by apply (at_called _ _ [did name op a] _ _ _ Hat).
Qed.

Lemma run_clock (k : Z -> M World B) Q :
  (forall a w2, at_ n c w w2 -> runs (k a) Q E w2) ->
  runs (bind (call "time.Now" time_Now) k) Q E w1.
Proof.
  intros Hk. eapply runs_step; [by apply clock_called|]. intros a w2 Hc.
  apply Hk. by eapply at_quiet.
Qed.

Lemma run_log l (k : unit -> M World B) Q :
  ready w -> (forall w2, at_ n c w w2 -> runs (k tt) Q E w2) ->
  runs (bind (log_Println l) k) Q E w1.
Proof.
  intros Hr Hk. eapply runs_step; [apply log_Println_called; by eapply at_ready|].
  intros [] w2 Hc. apply Hk. by eapply at_quiet.
Qed.

Lemma run_logf f l (k : unit -> M World B) Q :
  ready w -> (forall w2, at_ n c w w2 -> runs (k tt) Q E w2) ->
  runs (bind (log_Printf f l) k) Q E w1.
Proof.
  intros Hr Hk. eapply runs_step; [apply log_Printf_called; by eapply at_ready|].
  intros [] w2 Hc. apply Hk. by eapply at_quiet.
Qed.

Lemma run_load (k : Node -> M World B) Q :
  runs (k (c_node c)) Q E w1 -> runs (bind (load_node n) k) Q E w1.
Proof.
  intros Hk. apply runs_bind. unfold runs, wp, load_node, bind, gets.
  rewrite (at_node _ _ _ _ Hat). simpl. exact Hk.
Qed.

Lemma run_store f (k : unit -> M World B) Q :
  (forall nd, node_ident (f nd) = node_ident nd) ->
  (forall w2, at_ n (cur_node f c) w w2 -> runs (k tt) Q E w2) ->
  runs (bind (store_node n f) k) Q E w1.
Proof.
  intros Hf Hk. unfold store_node. apply runs_bind. apply Hk. destruct Hat.
  split; simpl; try done.
  - intros m Hm. rewrite lookup_alter_ne by done. auto.
  - rewrite lookup_alter_eq, <- at_ident0, at_node0. simpl. by rewrite Hf.
  - by rewrite lookup_alter_eq, at_node0.
Qed.

Lemma run_go g (k : unit -> M World B) Q :
  (forall w2, at_ n (cur_go [g] c) w w2 -> runs (k tt) Q E w2) ->
  runs (bind (go g) k) Q E w1.
Proof.
  intros Hk. unfold go. apply runs_bind, runs_modify. by apply Hk, at_go.
Qed.

Lemma run_gets (f : World -> A) (k : A -> M World B) Q :
  runs (k (f w1)) Q E w1 -> runs (bind (gets f) k) Q E w1.
Proof. intros Hk. apply runs_bind. exact Hk. Qed.

Lemma run_deref_some (x : A) (k : A -> M World B) Q :
  runs (k x) Q E w1 -> runs (bind (deref (Some x)) k) Q E w1.
Proof. intros Hk. apply runs_bind. exact Hk. Qed.

Lemma run_may_panic name (op : Ext (outcome A)) (k : A -> M World B) Q :
  not_clock name = true ->
  (forall p e, (op e).1 = Panic p -> E p) ->
  (forall a w2, op (w_env w1) = (Ok a, w_env w2) -> at_ n (cur_call (did name op (Ok a)) c) w w2 ->
     runs (k a) Q E w2) ->
  runs (bind (call_may_panic name op) k) Q E w1.
Proof.
  unfold not_clock. rewrite bool_decide_eq_true. intros Hn Hp Hk.
  apply runs_bind. unfold call_may_panic.
  eapply runs_step; [by apply call_called|]. intros a w2 (Hc & e & He & <-).
  pose proof (at_called _ _ [did name op a] _ _ _ Hat Hc) as Hat2. destruct a as [a|p].
  - apply runs_ret. by apply Hk.
  - apply runs_panic. eapply Hp. by rewrite He.
Qed.
End steps.

Lemma runs_unit_end (m : M World unit) w E Q :
  runs (bind m ret) Q E w -> runs m Q E w.
Proof. unfold runs, wp, bind, ret. by destruct (m w) as [[a|p] w']. Qed.

(** A loop whose body keeps the cursor. *)
Lemma run_loop {A B} n c w w1 E (l : list A) (body : A -> M World unit) (k : unit -> M World B) Q :
  at_ n c w w1 ->
  (forall x w2, at_ n c w w2 -> runs (body x) (fun _ w3 => at_ n c w w3) E w2) ->
  (forall w2, at_ n c w w2 -> runs (k tt) Q E w2) ->
  runs (bind (for_range l body) k) Q E w1.
Proof.
  intros Hat Hb Hk. apply runs_bind. revert w1 Hat. induction l as [|x l IH]; intros w1 Hat; simpl.
  { apply runs_ret. by apply Hk. }
  eapply runs_seq; [by apply Hb|]. intros [] w2. apply IH.
Qed.

Lemma run_log_end n c w w1 E l Q :
  at_ n c w w1 -> ready w -> (forall w2, at_ n c w w2 -> Q tt w2) -> runs (log_Println l) Q E w1.
Proof.
  intros Hat Hr Hk. apply runs_returns.
  eapply returns_mono; [apply log_Println_called; by eapply at_ready|].
  intros [] w2 Hc. apply Hk. by eapply at_quiet.
Qed.

Lemma run_logf_end n c w w1 E f l Q :
  at_ n c w w1 -> ready w -> (forall w2, at_ n c w w2 -> Q tt w2) -> runs (log_Printf f l) Q E w1.
Proof.
  intros Hat Hr Hk. apply runs_returns.
  eapply returns_mono; [apply log_Printf_called; by eapply at_ready|].
  intros [] w2 Hc. apply Hk. by eapply at_quiet.
Qed.
End progress.

(** Writes the calls of a cursor as one list. *)
Ltac norm_cur H := rewrite ?cur_call_calls, ?cur_calls_app in H; cbn [app] in H.
