(* ===== verification/Serve.v ===== *)
(** * Background services (ipfs_api.go, ipfs_gc.go, ipfs_mfs.go)

    The HTTP API and gateway and the periodic garbage collector: each is switched
    on by a setting, and hands the caller a channel on which its goroutines report
    errors. *)
From S2P Require Import Prelude GoStrings GoPath GoOs Ext World Toy Effects Log Cancel.
From S2P Require Import Config.
#[local] Open Scope go_scope.

Section serve.
Context `{External}.

(** ** The command context

    The closures of [oldcmds.Context]: [start_node]'s [LoadConfig], and
    [buildEnv]'s [ConstructNode]. *)
Definition load_config (captured : string * Config) (path : string) : outcome (result Config) :=
  let '(repoRoot, cfg) := captured in
  if decide (path <> repoRoot) then Panic "n.cctx.LoadConfig repoRoot!=path" else Ok (inl cfg).

Definition cctx_Config (n : nat) : M World (result Config) :=
  nd <- load_node n ;;
  cctx <- deref (n_cctx nd) ;;
  call_may_panic "cctx.GetConfig" (cctx_GetConfig (ConfigRoot cctx) (load_config <$> LoadConfig cctx)).

Definition construct_node (n : nat) : M World (result IpfsNode) :=
  nd <- load_node n ;;
  match n_node nd with
  | None => ret (inr (Errorf "unexpected ConstructNode, n.node is still nil"))
  | Some node => ret (inl node)
  end.

(** ** ipfs_api.go *)

Definition defaultMux (path : string) : ServeOption := DefaultMux path.

Definition format_error (f : string) (args : list string) : error := Errorf (Sprintf f (map FStr args)).

(** The options of the two servers. *)
Definition api_opts (cfg : Config) : list ServeOption :=
  [MetricsCollectionOption "api"; MetricsOpenCensusCollectionOption; CheckVersionOption;
   CommandsOption false; GatewayOption false WebUIPaths; VersionOption;
   defaultMux "/debug/vars"; defaultMux "/debug/pprof/";
   MutexFractionOption "/debug/pprof-mutex/"; MetricsScrapingOption "/debug/metrics/prometheus";
   LogOption] ++
  (if decide (0 < String.length (Gateway_RootRedirect cfg))
   then [RedirectOption "" (Gateway_RootRedirect cfg)] else []).

Definition gateway_opts (cfg : Config) : list ServeOption :=
  [MetricsCollectionOption "gateway"; HostnameOption;
   GatewayOption (Gateway_Writable cfg) ["/ipfs"; "/ipns"]; VersionOption; CheckVersionOption;
   CommandsROOption true] ++
  (if Experimental_P2pHttpProxy cfg then [P2PProxyOption] else []) ++
  (if decide (0 < String.length (Gateway_RootRedirect cfg))
   then [RedirectOption "" (Gateway_RootRedirect cfg)] else []).

(** The loop that opens the listeners; the two callers' messages differ. *)
Definition listen_on (invalid : string -> error -> error) (failed : Multiaddr -> error -> error)
    (addr : string) : M World (result Listener) :=
  match ma_NewMultiaddr addr with
  | inr err => ret (inr (invalid addr err))
  | inl maddr =>
      lis <- call "manet.Listen" (manet_Listen maddr) ;;
      match lis with
      | inr err => ret (inr (failed maddr err))
      | inl lis => ret (inl lis)
      end
  end.

Definition wg_Add (errc : nat) : M World unit :=
  modify (upd_chans (alter (fun c => mkChan (ch_sendq c) (S (ch_wg c)) (ch_closed c)) errc)).

(** The tail of both functions: a channel, a goroutine for each listener and one
    that closes the channel when they are done. *)
Definition serve_listeners (node : IpfsNode) (listeners : list Listener) (opts : list ServeOption) :
    M World nat :=
  errc <- make_chan 0 ;;
  for_range listeners (fun lis => wg_Add errc ;;; go (GServe errc node lis opts)) ;;;
  go (GWaitClose errc) ;;;
  ret errc.

(** The returned channel is [None] for nil. *)
Definition maybeServeHTTPApi (n : nat) (acfg : AsioConfig) : M World (result (option nat)) :=
  if decide (String.length (APIAddress acfg) = 0) then
    log_Println ["IPFS API is disabled"] ;;;
    ret (inl None)
  else
  cfg <- cctx_Config n ;;
  match cfg with
  | inr err => ret (inr (format_error "maybeServeHTTPApi: GetConfig() failed: %s" [err_msg err]))
  | inl cfg =>
  let apiAddrs := Addresses_API cfg in
  listeners <- collect apiAddrs
    (listen_on
       (fun addr err => format_error "maybeServeHTTPApi: invalid API address: %q (err: %s)" [addr; err_msg err])
       (fun maddr err => format_error "serveHTTPApi: manet.Listen(%s) failed: %s" [ma_String maddr; err_msg err])) ;;
  match listeners with
  | inr err => ret (inr err)
  | inl listeners =>
  for_range listeners (fun listener =>
    log_Printf ("IPFS API server listening on %s" +:+ String newline "")
      [FStr (ma_String (Listener_Multiaddr listener))]) ;;;
  let opts := api_opts cfg in
  nd <- load_node n ;;
  node <- deref (n_node nd) ;;
  first <- match listeners with
           | [] => panic "index out of range [0] with length 0"
           | lis :: _ => ret lis
           end ;;
  err <- call "repo.SetAPIAddr" (node_SetAPIAddr node (Listener_Multiaddr first)) ;;
  match err with
  | Some err => ret (inr (format_error "serveHTTPApi: SetAPIAddr() failed: %s" [err_msg err]))
  | None =>
  errc <- serve_listeners node listeners opts ;;
  ret (inl (Some errc))
  end end end.

Definition maybeServeHTTPGateway (n : nat) (acfg : AsioConfig) : M World (result (option nat)) :=
  if decide (String.length (GatewayAddress acfg) = 0) then
    log_Println ["IPFS Gateway is disabled"] ;;;
    ret (inl None)
  else
  cfg <- cctx_Config n ;;
  match cfg with
  | inr err => ret (inr (format_error "maybeServeHTTPGateway: GetConfig() failed: %s" [err_msg err]))
  | inl cfg =>
  let gatewayAddrs := Addresses_Gateway cfg in
  listeners <- collect gatewayAddrs
    (listen_on
       (fun addr err => format_error "maybeServeHTTPGateway: invalid gateway address: %q (err: %s)" [addr; err_msg err])
       (fun maddr err => format_error "maybeServeHTTPGateway: manet.Listen(%s) failed: %s" [ma_String maddr; err_msg err])) ;;
  match listeners with
  | inr err => ret (inr err)
  | inl listeners =>
  let gwType := if Gateway_Writable cfg then "writable" else "readonly" in
  for_range listeners (fun listener =>
    log_Printf ("IPFS Gateway (%s) server listening on %s" +:+ String newline "")
      [FStr gwType; FStr (ma_String (Listener_Multiaddr listener))]) ;;;
  let opts := gateway_opts cfg in
  node <- construct_node n ;;
  match node with
  | inr err => ret (inr (format_error "maybeServeHTTPGateway: ConstructNode() failed: %s" [err_msg err]))
  | inl node =>
  errc <- serve_listeners node listeners opts ;;
  ret (inl (Some errc))
  end end end.

(** ** ipfs_gc.go and ipfs_mfs.go *)

Definition maybeRunGC (n : nat) (acfg : AsioConfig) : M World (result (option nat)) :=
  if negb (RunGC acfg) then
    log_Println ["IPFS gc is not enabled and will be not started"] ;;;
    ret (inl None)
  else
  errc <- make_chan 0 ;;
  go (GPeriodicGC n errc) ;;;
  ret (inl (Some errc)).

(** ipfs_gc.go: [go_asio_ipfs_gc]. *)
Definition go_asio_ipfs_gc (cancel_signal fn fn_arg : Z) : M World unit :=
  g <- gets w_gnode ;;
  match g with
  | None => go (GVoidCB fn IPFS_NO_NODE fn_arg)
  | Some n =>
      cancel_ctx <- withCancel n cancel_signal ;;
      go (GGc cancel_ctx n fn fn_arg)
  end.

(** [corerepo.GarbageCollectAsync] with [corerepo.CollectResult] is one blocking
    call that watches the operation's context; it is given [n.node] even when that
    is nil. *)
Definition run_gc_op (cancel_ctx n : nat) (fn fn_arg : Z) : M World unit :=
  nd <- load_node n ;;
  done <- gets (fun w => ctx_done w cancel_ctx) ;;
  err <- match n_node nd with
         | Some node => call "corerepo.GarbageCollect" (GarbageCollect node done)
         | None => call_may_panic "corerepo.GarbageCollect" (GarbageCollect_nil done)
         end ;;
  match err with
  | Some err =>
      log_Printf ("go_asio_ipfs_gc failed %q" +:+ String newline "") [FStr (err_msg err)] ;;;
      executeVoidCB fn IPFS_GC_FAILED fn_arg
  | None => executeVoidCB fn IPFS_SUCCESS fn_arg
  end.

Definition startPinMFS : M World (option error) :=
  panic "IPFS startPinMFS is unsupported and disabled".

End serve.
