(* ===== verification/ServeSpec.v ===== *)
(** * What the background services promise

    Each service is off, or fails before any of its goroutines is started, or has
    one goroutine for each listener it opened. *)
From S2P Require Import Prelude GoStrings GoPath GoOs Ext World Toy Effects Log Cancel.
From S2P Require Import Calls Config ConfigSpec Progress Serve.
#[local] Open Scope go_scope.

Section serve_spec.
Context `{External}.

(** ** Listeners *)

(** Opening the listeners of a list of addresses, in order, up to the first failure;
    [invalid] and [refused] are the caller's error messages. *)
Section listens.
Context (invalid : string -> error -> error) (refused : Multiaddr -> error -> error).

Inductive listens : list string -> list item -> result (list Listener) -> Prop :=
| listen_none : listens [] [] (inl [])
| listen_invalid addr addrs err :
    ma_NewMultiaddr addr = inr err -> listens (addr :: addrs) [] (inr (invalid addr err))
| listen_refused addr addrs maddr err :
    ma_NewMultiaddr addr = inl maddr ->
    listens (addr :: addrs) [did "manet.Listen" (manet_Listen maddr) (inr err)]
      (inr (refused maddr err))
| listen_opened addr addrs maddr lis l r :
    ma_NewMultiaddr addr = inl maddr -> listens addrs l r ->
    listens (addr :: addrs) (did "manet.Listen" (manet_Listen maddr) (inl lis) :: l)
      (match r with inl liss => inl (lis :: liss) | inr err => inr err end).

Lemma listens_length addrs l liss : listens addrs l (inl liss) -> length liss = length addrs.
Proof.
  remember (inl liss) as r eqn:Hr. intros Hl. revert liss Hr.
  induction Hl as [| | |addr addrs maddr lis l r Hm Hl IH]; intros liss' [=]; subst; [done|].
  destruct r as [liss|]; [|done]. simplify_eq. simpl. by rewrite IH.
Qed.

Lemma run_listen_all n c w w1 E addrs :
  at_ n c w w1 ->
  runs (collect addrs (listen_on invalid refused))
    (fun r w2 => exists l, at_ n (cur_calls l c) w w2 /\ listens addrs l r) E w1.
Proof.
  revert c w1. induction addrs as [|addr addrs IH]; intros c w1 Hat; simpl.
  { apply runs_ret. exists []. rewrite cur_calls_nil. split; [done|constructor]. }
  apply (runs_seq E _ _ (fun r w2 => exists l, at_ n (cur_calls l c) w w2 /\
      match r with
      | inl lis => exists maddr, ma_NewMultiaddr addr = inl maddr /\
          l = [did "manet.Listen" (manet_Listen maddr) (inl lis)]
      | inr err => listens (addr :: addrs) l (inr err)
      end)).
  { unfold listen_on. destruct (ma_NewMultiaddr addr) as [maddr|err] eqn:Em.
    - eapply run_call; [done|done|]. intros [lis|err] w2 _ Hat2; apply runs_ret.
      + eexists [_]. split; [exact Hat2|]. by exists maddr.
      + eexists [_]. split; [exact Hat2|]. by constructor.
    - apply runs_ret. exists []. rewrite cur_calls_nil. split; [done|by constructor]. }
  intros [lis|err] w2 (l1 & Hat2 & Hr); [|apply runs_ret; by exists l1].
  destruct Hr as (maddr & Em & ->). eapply runs_seq; [by apply IH|].
  intros r w3 (l & Hat3 & Hl). rewrite cur_calls_app in Hat3.
  pose proof (listen_opened addr addrs maddr lis l r Em Hl) as Ho.
  destruct r; apply runs_ret; eauto.
Qed.
End listens.

(** ** Channels and servers *)

Lemma run_make_chan {B} n c w w1 E (k : nat -> M World B) Q :
  at_ n c w w1 ->
  (forall errc w2, at_ n c w w2 -> w_next w <= errc -> w_chans w2 !! errc = Some (mkChan [] 0 false) ->
     runs (k errc) Q E w2) ->
  runs (bind (make_chan 0) k) Q E w1.
Proof.
  intros Hat Hk. apply runs_bind. unfold make_chan, fresh, modify, ret, runs, wp, bind. simpl.
  apply Hk; simpl; [|destruct Hat; lia|by rewrite lookup_insert_eq].
  destruct Hat. split; simpl; try done; try lia.
  intros ch Hch. rewrite lookup_insert_ne by lia. auto.
Qed.

Lemma run_wg_Add {B} n c w w1 E errc k0 (k : unit -> M World B) Q :
  at_ n c w w1 -> w_next w <= errc -> w_chans w1 !! errc = Some (mkChan [] k0 false) ->
  (forall w2, at_ n c w w2 -> w_chans w2 !! errc = Some (mkChan [] (S k0) false) ->
     runs (k tt) Q E w2) ->
  runs (bind (wg_Add errc) k) Q E w1.
Proof.
  intros Hat Hn Hc Hk. unfold wg_Add. apply runs_bind. apply Hk; simpl.
  - destruct Hat. split; simpl; try done.
    intros ch Hch. rewrite lookup_alter_ne by lia. auto.
  - by rewrite lookup_alter_eq, Hc.
Qed.

(** The goroutines of a server with these listeners. *)
Definition servers (errc : nat) (node : IpfsNode) (opts : list ServeOption) (liss : list Listener) :
    list Goroutine :=
  map (fun lis => GServe errc node lis opts) liss ++ [GWaitClose errc].

Lemma run_serve_loop n c w w1 E errc k0 node opts liss :
  at_ n c w w1 -> w_next w <= errc -> w_chans w1 !! errc = Some (mkChan [] k0 false) ->
  runs (for_range liss (fun lis => wg_Add errc ;;; go (GServe errc node lis opts)))
    (fun _ w2 => at_ n (cur_go (map (fun lis => GServe errc node lis opts) liss) c) w w2 /\
       w_chans w2 !! errc = Some (mkChan [] (k0 + length liss) false)) E w1.
Proof.
  intros Hat Hn. revert c k0 w1 Hat. induction liss as [|lis liss IH]; intros c k0 w1 Hat Hc; simpl.
  { apply runs_ret. by rewrite cur_go_nil, Nat.add_0_r. }
  apply runs_bind. eapply run_wg_Add; [done..|]. intros w2 Hat2 Hc2.
  apply runs_modify.
  eapply (runs_mono E); [eapply IH; [by apply (at_go n c w w2 [GServe errc node lis opts])|done]| |done].
 intros [] w4 [Hat4 Hc4].
  rewrite cur_go_app in Hat4. rewrite Nat.add_succ_comm in Hc4. done.
Qed.

Lemma run_serve_listeners n c w w1 E node liss opts :
  at_ n c w w1 ->
  runs (serve_listeners node liss opts)
    (fun errc w2 => at_ n (cur_go (servers errc node opts liss) c) w w2 /\ w_next w <= errc /\
       w_chans w2 !! errc = Some (mkChan [] (length liss) false)) E w1.
Proof.
  intros Hat. unfold serve_listeners. eapply run_make_chan; [done|]. intros errc w2 Hat2 Hn Hc.
  eapply runs_seq; [by eapply run_serve_loop|]. intros [] w3 [Hat3 Hc3].
  apply runs_bind, runs_modify, runs_ret. split; [|done].
  unfold servers. rewrite <- cur_go_app. by apply at_go.
Qed.

(** ** The command context *)

(** Documented behaviour of [Context.GetConfig]: it returns what [LoadConfig] does,
    called with the context's root. *)
Definition GetConfig_loads : Prop :=
  forall root f e, exists e', cctx_GetConfig root (Some f) e = (f root, e').

(** The node's context has been completed by [start_node] for [cfg]. *)
Definition configured (nd : Node) (cfg : Config) : Prop :=
  exists cctx, n_cctx nd = Some cctx /\ LoadConfig cctx = Some (ConfigRoot cctx, cfg).

(** The root of a node's context. *)
Definition node_root (nd : Node) : string :=
  match n_cctx nd with Some cctx => ConfigRoot cctx | None => "" end.

(** [n.cctx.GetConfig()] called the closure of [start_node] and returned [cfg]. *)
Definition read_config (root : string) (cfg : Config) : item :=
  did "cctx.GetConfig" (cctx_GetConfig root (Some (load_config (root, cfg)))) (Ok (inl cfg)).

Lemma run_cctx_Config {B} n c w w1 E cfg (k : result Config -> M World B) Q :
  GetConfig_loads -> configured (c_node c) cfg -> at_ n c w w1 ->
  (forall w2, at_ n (cur_call (read_config (node_root (c_node c)) cfg) c) w w2 -> runs (k (inl cfg)) Q E w2) ->
  runs (bind (cctx_Config n) k) Q E w1.
Proof.
  intros HG (cctx & Hc & Hl) Hat Hk. apply runs_bind. unfold cctx_Config.
  unfold node_root in Hk. rewrite Hc in Hk.
  eapply run_load; [done|]. rewrite Hc. apply run_deref_some. unfold call_may_panic. rewrite Hl. simpl.
  apply runs_bind. apply runs_returns.
  eapply returns_mono; [by apply call_called, (bool_decide_eq_true_1 _ (eq_refl : not_clock "cctx.GetConfig" = true))|].
  intros r w2 (Hc2 & e & He & _).
  destruct (HG (ConfigRoot cctx) (load_config (ConfigRoot cctx, cfg)) (w_env w1)) as [e' He'].
  rewrite He' in He. simpl in He. rewrite decide_False in He by tauto. injection He as <- _.
  apply runs_ret, Hk. eapply (at_called n c [_]); [exact Hat|exact Hc2].
Qed.

(** ** The two servers *)

(** The state after a server has been started with channel [errc]: one goroutine for
    each listener, all in the wait group, and one that closes the channel. *)
Definition serving (n : nat) (c : cursor) (w : World) (errc : nat) (node : IpfsNode)
    (opts : list ServeOption) (liss : list Listener) (w' : World) : Prop :=
  at_ n (cur_go (servers errc node opts liss) c) w w' /\ w_next w <= errc /\
  w_chans w' !! errc = Some (mkChan [] (length liss) false).

Definition api_invalid (addr : string) (err : error) : error :=
  format_error "maybeServeHTTPApi: invalid API address: %q (err: %s)" [addr; err_msg err].

Definition api_refused (maddr : Multiaddr) (err : error) : error :=
  format_error "serveHTTPApi: manet.Listen(%s) failed: %s" [ma_String maddr; err_msg err].

Definition gw_invalid (addr : string) (err : error) : error :=
  format_error "maybeServeHTTPGateway: invalid gateway address: %q (err: %s)" [addr; err_msg err].

Definition gw_refused (maddr : Multiaddr) (err : error) : error :=
  format_error "maybeServeHTTPGateway: manet.Listen(%s) failed: %s" [ma_String maddr; err_msg err].

(** What the API server does before it starts a goroutine: its configuration, its
    listeners, its address in the repository; the first failure is the result. *)
Inductive api_prepares (root : string) (node : IpfsNode) (cfg : Config) :
    list item -> result (list Listener) -> Prop :=
| api_unopened l err :
    listens api_invalid api_refused (Addresses_API cfg) l (inr err) ->
    api_prepares root node cfg (read_config root cfg :: l) (inr err)
| api_unpublished l lis liss err :
    listens api_invalid api_refused (Addresses_API cfg) l (inl (lis :: liss)) ->
    api_prepares root node cfg
      ((read_config root cfg :: l) ++
       [did "repo.SetAPIAddr" (node_SetAPIAddr node (Listener_Multiaddr lis)) (Some err)])
      (inr (format_error "serveHTTPApi: SetAPIAddr() failed: %s" [err_msg err]))
| api_published l lis liss :
    listens api_invalid api_refused (Addresses_API cfg) l (inl (lis :: liss)) ->
    api_prepares root node cfg
      ((read_config root cfg :: l) ++
       [did "repo.SetAPIAddr" (node_SetAPIAddr node (Listener_Multiaddr lis)) None])
      (inl (lis :: liss)).

(** The gateway publishes no address. *)
Inductive gateway_prepares (root : string) (cfg : Config) : list item -> result (list Listener) -> Prop :=
| gateway_opened l r :
    listens gw_invalid gw_refused (Addresses_Gateway cfg) l r ->
    gateway_prepares root cfg (read_config root cfg :: l) r.

(** What the servers allow: the API's gateway shows the web UI paths and never
    writes, the gateway shows the IPFS and IPNS paths and writes only when told to;
    only the API runs commands without restriction. *)
Record api_options (cfg : Config) (opts : list ServeOption) : Prop := mkApiOptions {
  ao_paths : forall wr ps, GatewayOption wr ps ∈ opts <-> wr = false /\ ps = WebUIPaths;
  ao_commands : CommandsOption false ∈ opts;
  ao_redirect : forall a b, RedirectOption a b ∈ opts <->
    a = "" /\ b = Gateway_RootRedirect cfg /\ b <> "";
}.

Record gateway_options (cfg : Config) (opts : list ServeOption) : Prop := mkGatewayOptions {
  go_paths : forall wr ps, GatewayOption wr ps ∈ opts <->
    wr = Gateway_Writable cfg /\ ps = ["/ipfs"; "/ipns"];
  go_commands : CommandsROOption true ∈ opts /\ forall b, CommandsOption b ∉ opts;
  go_proxy : P2PProxyOption ∈ opts <-> Experimental_P2pHttpProxy cfg = true;
  go_redirect : forall a b, RedirectOption a b ∈ opts <->
    a = "" /\ b = Gateway_RootRedirect cfg /\ b <> "";
}.

Lemma redirect_option cfg o :
  o ∈ (if decide (0 < String.length (Gateway_RootRedirect cfg))
       then [RedirectOption "" (Gateway_RootRedirect cfg)] else []) <->
  o = RedirectOption "" (Gateway_RootRedirect cfg) /\ Gateway_RootRedirect cfg <> "".
Proof.
  case_decide as Hd; [rewrite list_elem_of_singleton|rewrite elem_of_nil];
    destruct (Gateway_RootRedirect cfg); simpl in *; naive_solver lia.
Qed.

Lemma proxy_option cfg o :
  o ∈ (if Experimental_P2pHttpProxy cfg then [P2PProxyOption] else []) <->
  o = P2PProxyOption /\ Experimental_P2pHttpProxy cfg = true.
Proof.
  destruct (Experimental_P2pHttpProxy cfg);
    [rewrite list_elem_of_singleton|rewrite elem_of_nil]; naive_solver.
Qed.

Lemma api_opts_meets cfg : api_options cfg (api_opts cfg).
Proof.
  unfold api_opts. split; [intros wr ps| |intros a b];
    rewrite elem_of_app, redirect_option; [rewrite !elem_of_cons, elem_of_nil; naive_solver| |
    rewrite !elem_of_cons, elem_of_nil; naive_solver].
  left. rewrite !elem_of_cons. tauto.
Qed.

Lemma gateway_opts_meets cfg : gateway_options cfg (gateway_opts cfg).
Proof.
  unfold gateway_opts. split; [intros wr ps| |split| intros a b].
  2: split; [|intros b].
  all: rewrite !elem_of_app, proxy_option, redirect_option, !elem_of_cons, elem_of_nil; naive_solver.
Qed.

Lemma run_announce {A B} n c w w1 E f (g : A -> list farg) l (k : unit -> M World B) Q :
  at_ n c w w1 -> ready w -> (forall w2, at_ n c w w2 -> runs (k tt) Q E w2) ->
  runs (bind (for_range l (fun x => log_Printf f (g x))) k) Q E w1.
Proof.
  intros Hat Hr Hk. eapply run_loop; [done| |done]. intros x w2 Hat2. by eapply run_logf_end.
Qed.

Section with_node.
Context (n : nat) (acfg : AsioConfig) (cfg : Config) (node : IpfsNode) (E : string -> Prop).
Context (HG : GetConfig_loads).

Lemma run_Api c w w1 :
  ready w -> at_ n c w w1 -> configured (c_node c) cfg -> n_node (c_node c) = Some node ->
  (Addresses_API cfg = [] -> E "index out of range [0] with length 0") ->
  runs (maybeServeHTTPApi n acfg)
    (fun r w2 =>
       if decide (APIAddress acfg = "") then r = inl None /\ at_ n c w w2
       else exists l a, api_prepares (node_root (c_node c)) node cfg l a /\
         match a with
         | inl liss => exists errc, r = inl (Some errc) /\
             serving n (cur_calls l c) w errc node (api_opts cfg) liss w2
         | inr err => r = inr err /\ at_ n (cur_calls l c) w w2
         end) E w1.
Proof.
  intros Hr Hat Hcfg Hnode Hempty. unfold maybeServeHTTPApi.
  destruct (decide (APIAddress acfg = "")) as [->|Hne].
  { eapply run_log; [done..|]. intros w2 Hat2. by apply runs_ret. }
  rewrite decide_False by (by destruct (APIAddress acfg)).
  eapply run_cctx_Config; [done..|]. intros w2 Hat2. fold api_invalid api_refused.
  eapply runs_seq; [by apply run_listen_all|]. intros [liss|err] w3 (l & Hat3 & Hl);
    rewrite cur_call_calls, cur_calls_app in Hat3.
  2:{ apply runs_ret. eexists _, _. split; [by apply api_unopened|done]. }
  eapply run_announce; [done..|]. intros w4 Hat4.
  eapply run_load; [done|]. simpl. rewrite Hnode. apply run_deref_some.
  destruct liss as [|lis liss].
  { apply runs_bind, runs_panic, Hempty. apply listens_length in Hl. by apply length_zero_iff_nil. }
  apply runs_bind, runs_ret. eapply run_call; [done|done|]. intros [err|] w5 _ Hat5;
    rewrite cur_call_calls, cur_calls_app in Hat5.
  { apply runs_ret. eexists _, _. split; [by eapply api_unpublished|done]. }
  eapply runs_seq; [by apply run_serve_listeners|]. intros errc w6 Hs.
  apply runs_ret. eexists _, _. split; [by eapply api_published|]. by exists errc.
Qed.

Lemma run_Gateway c w w1 :
  ready w -> at_ n c w w1 -> configured (c_node c) cfg -> n_node (c_node c) = Some node ->
  runs (maybeServeHTTPGateway n acfg)
    (fun r w2 =>
       if decide (GatewayAddress acfg = "") then r = inl None /\ at_ n c w w2
       else exists l a, gateway_prepares (node_root (c_node c)) cfg l a /\
         match a with
         | inl liss => exists errc, r = inl (Some errc) /\
             serving n (cur_calls l c) w errc node (gateway_opts cfg) liss w2
         | inr err => r = inr err /\ at_ n (cur_calls l c) w w2
         end) E w1.
Proof.
  intros Hr Hat Hcfg Hnode. unfold maybeServeHTTPGateway.
  destruct (decide (GatewayAddress acfg = "")) as [->|Hne].
  { eapply run_log; [done..|]. intros w2 Hat2. by apply runs_ret. }
  rewrite decide_False by (by destruct (GatewayAddress acfg)).
  eapply run_cctx_Config; [done..|]. intros w2 Hat2. fold gw_invalid gw_refused.
  eapply runs_seq; [by apply run_listen_all|]. intros [liss|err] w3 (l & Hat3 & Hl);
    rewrite cur_call_calls, cur_calls_app in Hat3.
  2:{ apply runs_ret. eexists _, _. split; [by constructor|done]. }
  eapply run_announce; [done..|]. intros w4 Hat4.
  unfold construct_node. apply runs_bind. eapply run_load; [done|]. simpl. rewrite Hnode.
  apply runs_ret.
  eapply runs_seq; [by apply run_serve_listeners|]. intros errc w6 Hs.
  apply runs_ret. eexists _, _. split; [by constructor|]. by exists errc.
Qed.

Lemma run_GC c w w1 :
  ready w -> at_ n c w w1 ->
  runs (maybeRunGC n acfg)
    (fun r w2 =>
       match r with
       | inl None => RunGC acfg = false /\ at_ n c w w2
       | inl (Some errc) => RunGC acfg = true /\ w_next w <= errc /\
           at_ n (cur_go [GPeriodicGC n errc] c) w w2
       | inr _ => False
       end) E w1.
Proof.
  intros Hr Hat. unfold maybeRunGC. destruct (RunGC acfg); simpl.
  - eapply run_make_chan; [done|]. intros errc w2 Hat2 Hn _. eapply run_go; [done|].
    intros w3 Hat3. by apply runs_ret.
  - eapply run_log; [done..|]. intros w2 Hat2. by apply runs_ret.
Qed.
End with_node.

(** C13. The API server is all or nothing as far as goroutines go: switched off it
    only logs.  Switched on it reads the configuration, opens one listener per API
    address in order and publishes the first one's address in the repository; each
    of these is done only if all before it succeeded, and the first failure is the
    result, with no goroutine started.  Only when all have succeeded does it start
    exactly one serving goroutine per listener, registered in the wait group, and
    one that closes the returned channel; the served gateway shows the web UI paths
    read-only.  Nothing else of the process changes.  (Without API addresses it
    panics instead, see [api_without_addresses].) *)
Theorem maybeServeHTTPApi_starts n nd acfg cfg node w :
  ready w -> GetConfig_loads -> w_nodes w !! n = Some nd -> configured nd cfg ->
  n_node nd = Some node -> Addresses_API cfg <> [] ->
  returns (maybeServeHTTPApi n acfg)
    (fun r w' =>
       if decide (APIAddress acfg = "") then r = inl None /\ at_ n (cur_start nd w) w w'
       else exists l a, api_prepares (node_root nd) node cfg l a /\
         match a with
         | inl liss => exists errc opts, r = inl (Some errc) /\ api_options cfg opts /\
             serving n (cur_calls l (cur_start nd w)) w errc node opts liss w'
         | inr err => r = inr err /\ at_ n (cur_calls l (cur_start nd w)) w w'
         end) w.
Proof.
  intros Hr HG Hn Hc Hnode Hne. apply runs_no_panic.
  eapply runs_mono; [apply (run_Api n acfg cfg node (fun _ => False) HG (cur_start nd w) w w); (done || by apply at_start)| |done].
  intros r w2. case_decide; [done|]. intros (l & [liss|err] & Hp & Hx); exists l; [|by exists (inr err)].
  exists (inl liss). destruct Hx as (errc & Hx). split; [done|]. exists errc, (api_opts cfg).
  split; [apply Hx|]. split; [apply api_opts_meets|apply Hx].
Qed.

(** C14. The gateway server likewise, except that it opens its listeners from the
    gateway addresses, publishes nothing, serves the node of the command context
    with options that let it write exactly when the configuration says so and never
    run commands freely, and with no address at all starts only the goroutine that
    closes its channel. *)
Theorem maybeServeHTTPGateway_starts n nd acfg cfg node w :
  ready w -> GetConfig_loads -> w_nodes w !! n = Some nd -> configured nd cfg ->
  n_node nd = Some node ->
  returns (maybeServeHTTPGateway n acfg)
    (fun r w' =>
       if decide (GatewayAddress acfg = "") then r = inl None /\ at_ n (cur_start nd w) w w'
       else exists l a, gateway_prepares (node_root nd) cfg l a /\
         match a with
         | inl liss => exists errc opts, r = inl (Some errc) /\ gateway_options cfg opts /\
             serving n (cur_calls l (cur_start nd w)) w errc node opts liss w'
         | inr err => r = inr err /\ at_ n (cur_calls l (cur_start nd w)) w w'
         end) w.
Proof.
  intros Hr HG Hn Hc Hnode. apply runs_no_panic.
  eapply runs_mono; [apply (run_Gateway n acfg cfg node (fun _ => False) HG (cur_start nd w) w w); (done || by apply at_start)| |done].
  intros r w2. case_decide; [done|]. intros (l & [liss|err] & Hp & Hx); exists l; [|by exists (inr err)].
  exists (inl liss). destruct Hx as (errc & Hx). split; [done|]. exists errc, (gateway_opts cfg).
  split; [apply Hx|]. split; [apply gateway_opts_meets|apply Hx].
Qed.

(** C28. With the API switched on and no API address in the repository's
    configuration (possible when the configuration is locked) the process panics:
    the first listener is taken from an empty list. *)
Theorem api_without_addresses n nd acfg cfg node w :
  ready w -> GetConfig_loads -> w_nodes w !! n = Some nd -> configured nd cfg ->
  n_node nd = Some node -> Addresses_API cfg = [] -> APIAddress acfg <> "" ->
  (maybeServeHTTPApi n acfg w).1 = Panic "index out of range [0] with length 0".
Proof.
  intros Hr HG Hn Hc Hnode Hempty Hne.
  pose proof (run_Api n acfg cfg node (eq "index out of range [0] with length 0") HG
                (cur_start nd w) w w Hr (at_start _ _ _ Hn) Hc Hnode (fun _ => eq_refl)) as Hrun.
  assert (Hf : runs (maybeServeHTTPApi n acfg) (fun _ _ => False)
                 (eq "index out of range [0] with length 0") w).
  { eapply runs_mono; [exact Hrun| |done]. intros r w' Hx. cbv beta in Hx. destruct (decide (APIAddress acfg = "")); [done|].
    destruct Hx as (l & a & Hp & _).
    inversion Hp as [l0 err Hl|l0 lis liss err Hl|l0 lis liss Hl]; rewrite Hempty in Hl; inversion Hl. }
  unfold runs, wp in Hf. by destruct (maybeServeHTTPApi n acfg w) as [[r|p] w']; simpl in *; subst.
Qed.
End serve_spec.

(** ** Witnesses *)
#[local] Existing Instance toy_types.
#[local] Existing Instance toy_ext.

Definition toy_ipfs : @IpfsNode toy_types := mkIpfs true true None tt.

(** Settings that switch both servers on. *)
Definition toy_server_asio : AsioConfig :=
  mkAsioConfig 100 200 "20s" true false ["/dns4/b/tcp/4001/p2p/QmB"] [] 10100
    "/ip4/127.0.0.1/tcp/5001" "/ip4/127.0.0.1/tcp/8080" "" "2GB" true 30 3 "key" "dht" true.

(** [toy_node_world] with a node whose command context is complete, for [cfg]. *)
Definition toy_cctx (cfg : Config) : CmdCtx := mkCmdCtx "repo" (Some ("repo", cfg)) (mkLoader 6 tt) 0 false.

Definition toy_running_node (cfg : Config) : Node :=
  set_n_cctx (Some (toy_cctx cfg)) (toy_node (Some tt) (Some toy_ipfs)).

Definition toy_running_world (fails : list string) (cfg : Config) : World :=
  upd_nodes (fun _ => {[0 := toy_running_node cfg]}) (toy_node_world fails None None).

Lemma toy_running_ready fails cfg : ready (toy_running_world fails cfg).
Proof. split; [done|]. split; [simpl; lia|done]. Qed.

Lemma toy_GetConfig_loads : GetConfig_loads.
Proof. intros root f e. by exists e. Qed.

Lemma toy_configured cfg : configured (toy_running_node cfg) cfg.
Proof. by exists (toy_cctx cfg). Qed.

(** Both servers start on the toy configuration, each with one listener. *)
Lemma maybeServeHTTPApi_starts_witness :
  (maybeServeHTTPApi 0 toy_server_asio (toy_running_world [] toy_config)).1 = Ok (inl (Some 2)) /\
  returns (maybeServeHTTPApi 0 toy_server_asio)
    (fun r w' => r = inl (Some 2) -> exists l liss,
       api_prepares "repo" toy_ipfs toy_config l (inl liss) /\
       w_chans w' !! 2 = Some (mkChan [] (length liss) false))
    (toy_running_world [] toy_config).
Proof.
  split; [vm_compute; reflexivity|].
  eapply returns_mono.
  - apply (maybeServeHTTPApi_starts 0 (toy_running_node toy_config) toy_server_asio toy_config
             toy_ipfs); [apply toy_running_ready|apply toy_GetConfig_loads
             |reflexivity|apply toy_configured|reflexivity|discriminate].
  - intros r w' Hr ->. simpl in Hr. destruct Hr as (l & [liss|err] & Hp & Hx).
    + destruct Hx as (errc & opts & [= <-] & _ & _ & _ & Hc). exists l, liss. split; [exact Hp|exact Hc].
    + destruct Hx as [Hx _]. discriminate Hx.
Defined.

Lemma maybeServeHTTPGateway_starts_witness :
  (maybeServeHTTPGateway 0 toy_server_asio (toy_running_world [] toy_config)).1 = Ok (inl (Some 2)) /\
  returns (maybeServeHTTPGateway 0 toy_server_asio)
    (fun r w' => r = inl (Some 2) -> exists l liss,
       gateway_prepares "repo" toy_config l (inl liss) /\
       w_chans w' !! 2 = Some (mkChan [] (length liss) false))
    (toy_running_world [] toy_config).
Proof.
  split; [vm_compute; reflexivity|].
  eapply returns_mono.
  - apply (maybeServeHTTPGateway_starts 0 (toy_running_node toy_config) toy_server_asio toy_config
             toy_ipfs); [apply toy_running_ready|apply toy_GetConfig_loads
             |reflexivity|apply toy_configured|reflexivity].
  - intros r w' Hr ->. simpl in Hr. destruct Hr as (l & [liss|err] & Hp & Hx).
    + destruct Hx as (errc & opts & [= <-] & _ & _ & _ & Hc). exists l, liss. split; [exact Hp|exact Hc].
    + destruct Hx as [Hx _]. discriminate Hx.
Defined.

(** The toy configuration without API addresses. *)
Lemma api_without_addresses_witness :
  (maybeServeHTTPApi 0 toy_server_asio
     (toy_running_world [] (set_Addresses_API [] toy_config))).1
  = Panic "index out of range [0] with length 0".
Proof.
  apply (api_without_addresses 0 (toy_running_node (set_Addresses_API [] toy_config)) toy_server_asio
           (set_Addresses_API [] toy_config) toy_ipfs);
    [apply toy_running_ready|apply toy_GetConfig_loads|reflexivity|apply toy_configured
    |reflexivity|reflexivity|discriminate].
Defined.
