(* ===== verification/Start.v ===== *)
(** * Node life cycle (ipfs_node.go)

    Building the environment, starting the node, and the exported functions that
    start and free it.  [start_node] is split where its comments split it: what
    precedes the node, the node, its services, and the metrics. *)
From stdpp Require Import sorting.
From S2P Require Import Prelude GoStrings GoPath GoOs Ext World Toy Effects Log Cancel.
From S2P Require Import Calls Config Repo Json Settings Serve.
#[local] Open Scope go_scope.

Section start.
Context `{External}.

Definition line (f : string) : string := f +:+ String newline "".

Definition loadPlugins (repoPath : string) : M World (result PluginLoader) :=
  plugins <- call "loader.NewPluginLoader" (loader_New repoPath) ;;
  match plugins with
  | inr err => ret (inr (format_error "error loading plugins: %s" [err_msg err]))
  | inl plugins =>
  r <- call "plugins.Initialize" (loader_Initialize plugins) ;;
  match r with
  | (Some err, _) => ret (inr (format_error "error initializing plugins: %s" [err_msg err]))
  | (None, plugins) =>
  injected <- gets w_plugins_injected ;;
  if negb injected then
    r <- call "plugins.Inject" (loader_Inject plugins) ;;
    match r with
    | (Some err, _) => ret (inr (format_error "error initializing plugins: %s" [err_msg err]))
    | (None, plugins) =>
        modify (upd_plugins_injected (fun _ => true)) ;;;
        ret (inl plugins)
    end
  else ret (inl (mkLoader 4 (pl_rest plugins)))
  end end.

Definition buildEnv (n : nat) (repoRoot : string) : M World (result CmdCtx) :=
  log_Println ["IPFS repository path is"; repoRoot] ;;;
  plugins <- loadPlugins repoRoot ;;
  match plugins with
  | inr err => ret (inr err)
  | inl plugins => ret (inl (mkCmdCtx repoRoot None plugins n false))
  end.

Definition printVersion : M World unit :=
  let v := CurrentVersionNumber +:+ (if decide (CurrentCommit <> "") then "-" +:+ CurrentCommit else "") in
  log_Printf (line "go-ipfs version: %s") [FStr v] ;;;
  log_Printf (line "Repo version: %d") [FInt fsrepo_RepoVersion] ;;;
  log_Printf (line "System version: %s") [FStr (runtime_GOARCH +:+ "/" +:+ runtime_GOOS)] ;;;
  log_Printf (line "Golang version: %s") [FStr runtime_Version].

Definition printPeers (n : nat) : M World unit :=
  nd <- load_node n ;;
  api <- deref (n_api nd) ;;
  node <- deref (n_node nd) ;;
  peers <- call "swarm.Peers" (Swarm_Peers api node) ;;
  match peers with
  | inr err => log_Println ["Failed to read swarm peers:"; err_msg err]
  | inl peers =>
      if decide (length peers = 0) then
        log_Println ["WARNING: IPFS was unable to connect to peers"]
      else
        for_range peers (fun peer => log_Printf (line "IPFS Peer %v %v") [FStr peer.1; FStr peer.2])
  end.

Definition sort_Strings (l : list string) : list string := merge_sort String.le l.

Definition printSwarmAddrs (node : IpfsNode) : M World unit :=
  if negb (IsOnline node) then
    log_Println ["Swarm listening disabled, running in offline mode."]
  else
  r <- call "InterfaceListenAddresses" (InterfaceListenAddresses node) ;;
  let '(ifaceAddrs, err) := r in
  match err with
  | Some err => log_Println ["WARNING: failed to read listening addresses:"; err_msg err]
  | None => ret tt
  end ;;;
  for_range (sort_Strings ifaceAddrs) (fun addr =>
    log_Printf (line "Swarm listening on %s") [FStr addr]) ;;;
  addrs <- call "PeerHost.Addrs" (PeerHost_Addrs node) ;;
  for_range (sort_Strings addrs) (fun addr =>
    log_Printf (line "Swarm announcing %s") [FStr addr]).

(** [n.cctx], which must not be nil where it is dereferenced. *)
Definition node_cctx (n : nat) : M World CmdCtx := nd <- load_node n ;; deref (n_cctx nd).

Definition node_node (n : nat) : M World IpfsNode := nd <- load_node n ;; deref (n_node nd).

Definition set_LoadConfig (f : option (string * Config)) (c : CmdCtx) : CmdCtx :=
  mkCmdCtx (ConfigRoot c) f (Plugins c) (ConstructNode c) (Gateway c).

Definition set_Plugins (p : PluginLoader) (c : CmdCtx) : CmdCtx :=
  mkCmdCtx (ConfigRoot c) (LoadConfig c) p (ConstructNode c) (Gateway c).

Definition set_IsDaemon (node : IpfsNode) : IpfsNode :=
  mkIpfs true (IsOnline node) (PNetFingerprint node) (in_rest node).

(** *** The pieces of [start_node]: a code is an early [return]. *)
Definition inject_mprome : M World (option Z) :=
  injected <- gets w_mprome_injected ;;
  if negb injected then
    err <- call "mprome.Inject" mprome_Inject ;;
    match err with
    | Some err =>
        log_Println ["Injecting prometheus handler for metrics failed:"; err_msg err] ;;;
        ret (Some IPFS_MPROME_INJECT_FAILED)
    | None =>
        modify (upd_mprome_injected (fun _ => true)) ;;;
        ret None
    end
  else ret None.

(** The environment, and the repository in it. *)
Definition start_repo (n : nat) (repoRoot : string) (asiocfg : AsioConfig) :
    M World (Repo * Config + Z) :=
  printVersion ;;;
  env <- buildEnv n repoRoot ;;
  store_node n (set_n_cctx (match env with inl cctx => Some cctx | inr _ => None end)) ;;;
  match env with
  | inr err =>
      log_Println ["Failed to build environment:"; err_msg err] ;;;
      ret (inr IPFS_BUILD_ENV_FAILED)
  | inl _ =>
  cctx <- node_cctx n ;;
  init <- call "fsrepo.IsInitialized" (fsrepo_IsInitialized (ConfigRoot cctx)) ;;
  err <- (if negb init then initRepo (ConfigRoot cctx) asiocfg else ret None) ;;
  match err with
  | Some err =>
      log_Println ["Failed in initRepo:"; err_msg err] ;;;
      ret (inr IPFS_CREATE_REPO_FAILED)
  | None =>
  repo <- openRepo (ConfigRoot cctx) asiocfg ;;
  match repo with
  | inr err =>
      log_Println ["Failed to open repo,"; err_msg err] ;;;
      ret (inr IPFS_OPEN_REPO_FAILED)
  | inl repo =>
  cfg <- call "repo.Config" (repo_Config repo) ;;
  match cfg with
  | inr err =>
      log_Println ["Unable to get repo config"; err_msg err] ;;;
      ret (inr IPFS_READ_CONFIG_FAILED)
  | inl cfg =>
  store_node n (fun nd => set_n_cctx (set_LoadConfig (Some (repoRoot, cfg)) <$> n_cctx nd) nd) ;;;
  ret (inl (repo, cfg))
  end end end end.

(** *** The node itself. *)
Definition start_core (n : nat) (repo : Repo) (cfg : Config) : M World (option Z) :=
  start <- call "time.Now" time_Now ;;
  bcfg <- makeBuildCfg repo cfg ;;
  now <- call "time.Now" time_Now ;;
  log_Printf "IPFS plugins startup time %v" [FStr (fmt_Duration (now - start))] ;;;
  start <- call "time.Now" time_Now ;;
  nd <- load_node n ;;
  done <- gets (fun w => ctx_done w (n_ctx nd)) ;;
  node <- call "core.NewNode" (core_NewNode done bcfg) ;;
  store_node n (set_n_node (match node with inl node => Some node | inr _ => None end)) ;;;
  match node with
  | inr err =>
      log_Println ["Unable to create node"; err_msg err] ;;;
      ret (Some IPFS_START_NODE_FAILED)
  | inl _ =>
  now <- call "time.Now" time_Now ;;
  log_Printf "IPFS core node startup time %v, relay mode is %v"
    [FStr (fmt_Duration (now - start)); FStr (Flag_String (Network_Relay cfg))] ;;;
  store_node n (fun nd => set_n_node (set_IsDaemon <$> n_node nd) nd) ;;;
  node <- node_node n ;;
  match PNetFingerprint node with
  | Some fingerprint =>
      log_Println ["Swarm is limited to private network of peers with the swarm key"] ;;;
      log_Printf (line "Swarm key fingerprint: %x") [FBytes fingerprint]
  | None => log_Println ["Swarm is in a public network."]
  end ;;;
  printSwarmAddrs node ;;;
  cctx <- node_cctx n ;;
  r <- call "plugins.Start" (loader_Start (Plugins cctx) node) ;;
  let '(err, plugins) := r in
  store_node n (fun nd => set_n_cctx (set_Plugins plugins <$> n_cctx nd) nd) ;;;
  match err with
  | Some err =>
      log_Println ["IPFS failed to start plugins:"; err_msg err] ;;;
      ret (Some IPFS_PLUGINS_FAILED)
  | None => ret None
  end
  end.

(** *** The services: their error channels. *)
Definition start_services (n : nat) (asiocfg : AsioConfig) :
    M World (option nat * option nat * option nat + Z) :=
  r <- maybeRunGC n asiocfg ;;
  match r with
  | inr err =>
      log_Println ["IPFS failed to run GC:"; err_msg err] ;;;
      ret (inr IPFS_GC_FAILED)
  | inl gcErrc =>
  r <- maybeServeHTTPApi n asiocfg ;;
  match r with
  | inr err =>
      log_Println ["IPFS failed to start API:"; err_msg err] ;;;
      ret (inr IPFS_API_FAILED)
  | inl apiErrc =>
  r <- maybeServeHTTPGateway n asiocfg ;;
  match r with
  | inr err => ret (inr IPFS_GATEWAY_FAILED)
  | inl gwErrc => ret (inl (gcErrc, apiErrc, gwErrc))
  end end end.

(** *** The metrics and the core API. *)
Definition start_api (n : nat) : M World (option Z) :=
  metrics <- gets w_mporme_metrics ;;
  (if negb metrics then
     call_may_panic "promauto.ipfs_info" (promauto_ipfs_info CurrentVersionNumber CurrentCommit) ;;;
     modify (upd_mporme_metrics (fun _ => true))
   else ret tt) ;;;
  node <- node_node n ;;
  store_node n (set_n_collector (Some node)) ;;;
  call_may_panic "prometheus.MustRegister" (prometheus_MustRegister node) ;;;
  api <- call "coreapi.NewCoreAPI" (coreapi_New node) ;;
  store_node n (set_n_api (match api with inl api => Some api | inr _ => None end)) ;;;
  match api with
  | inr err =>
      log_Println ["Unable to create core API %s"; err_msg err] ;;;
      ret (Some IPFS_API_ACCESS_FAILED)
  | inl _ =>
      printPeers n ;;;
      ret None
  end.

(** The state callback must be there; a monitor watches the services. *)
Definition start_monitor (n : nat) (gcErrc apiErrc gwErrc : option nat) : M World Z :=
  nd <- load_node n ;;
  (if decide (n_state_cb nd = 0%Z) then panic "IPFS state callback is not provided" else ret tt) ;;;
  (if decide (gcErrc <> None \/ apiErrc <> None \/ gwErrc <> None) then
     go (GMonitorStart (mkMonitor n gcErrc apiErrc gwErrc 0 None))
   else ret tt) ;;;
  log_Println ["IPFS node is ready"] ;;;
  ret IPFS_SUCCESS.

(** Everything after the repository has been opened. *)
Definition start_in_repo (n : nat) (asiocfg : AsioConfig) (repo : Repo) (cfg : Config) : M World Z :=
  r <- start_core n repo cfg ;;
  match r with
  | Some code => ret code
  | None =>
  r <- start_services n asiocfg ;;
  match r with
  | inr code => ret code
  | inl (gcErrc, apiErrc, gwErrc) =>
  r <- start_api n ;;
  match r with
  | Some code => ret code
  | None => start_monitor n gcErrc apiErrc gwErrc
  end end end.

Definition start_node (jsoncfg : string) (n : nat) (repoRoot : string) : M World Z :=
  seed <- call "time.Now" time_Now ;;
  let '(asiocfg, err) := Unmarshal_AsioConfig GoIntBits jsoncfg in
  match err with
  | Some err =>
      log_Println ["Failed to parse config"; err_msg err] ;;;
      ret IPFS_PARSE_CONFIG_FAIL
  | None =>
  r <- inject_mprome ;;
  match r with
  | Some code => ret code
  | None =>
  r <- start_repo n repoRoot asiocfg ;;
  match r with
  | inr code => ret code
  | inl (repo, cfg) => start_in_repo n asiocfg repo cfg
  end end end.

(** ** Allocation, the exported functions *)

Definition allocate_node (state_cb state_cb_arg : Z) : M World Z :=
  g <- gets w_gnode ;;
  match g with
  | Some _ => ret IPFS_NODE_EXISTS
  | None =>
      n <- fresh ;;
      ctx <- context_WithCancel None ;;
      modify (upd_nodes <[n := mkNode ctx None None None None ctx 0 ∅ state_cb state_cb_arg 0]>) ;;;
      modify (upd_gnode (fun _ => Some n)) ;;;
      ret IPFS_SUCCESS
  end.

(** C strings arrive as the memory they point to. *)
Definition go_asio_ipfs_start_blocking (c_cfg c_repoPath : string) (state_cb state_cb_arg : Z) :
    M World Z :=
  err <- allocate_node state_cb state_cb_arg ;;
  if decide (err <> IPFS_SUCCESS) then ret err
  else
  g <- gets w_gnode ;;
  n <- deref g ;;
  let repoRoot := C_GoString c_repoPath in
  let cfg := C_GoString c_cfg in
  err <- start_node cfg n repoRoot ;;
  if decide (err <> IPFS_SUCCESS) then
    (* [_ = go_asio_ipfs_free] names the function without calling it *)
    ret err
  else ret IPFS_SUCCESS.

Definition go_asio_ipfs_start_async (c_cfg c_repoPath : string) (state_cb state_cb_arg fn fn_arg : Z) :
    M World unit :=
  err <- allocate_node state_cb state_cb_arg ;;
  if decide (err <> IPFS_SUCCESS) then go (GVoidCB fn err fn_arg)
  else
  g <- gets w_gnode ;;
  n <- deref g ;;
  let repoRoot := C_GoString c_repoPath in
  let cfg := C_GoString c_cfg in
  go (GStart cfg n repoRoot fn fn_arg).

(** The goroutine of [go_asio_ipfs_start_async]. *)
Definition run_start (cfg : string) (n : nat) (repoRoot : string) (fn fn_arg : Z) : M World unit :=
  err <- start_node cfg n repoRoot ;;
  executeVoidCB fn err fn_arg.

(** [<- ctx.Done()] *)
Definition wait_done (ctx : nat) : M World unit :=
  done <- gets (fun w => ctx_done w ctx) ;;
  if (done : bool) then ret tt else panic "blocked on a context that is never cancelled".

Definition go_asio_ipfs_free : M World Z :=
  g <- gets w_gnode ;;
  match g with
  | None => ret IPFS_NO_NODE
  | Some n =>
      nd <- load_node n ;;
      cancel_func (n_cancel nd) ;;;
      wait_done (n_ctx nd) ;;;
      match n_collector nd with
      | Some collector =>
          _ <- call "prometheus.Unregister" (prometheus_Unregister collector) ;; ret tt
      | None => ret tt
      end ;;;
      match n_node nd with
      | Some node => _ <- call "node.Close" (node_Close node) ;; ret tt
      | None => ret tt
      end ;;;
      match n_cctx nd with
      | Some cctx =>
          r <- call "plugins.Close" (loader_Close (Plugins cctx)) ;;
          let '(err, plugins) := r in
          store_node n (fun nd => set_n_cctx (set_Plugins plugins <$> n_cctx nd) nd) ;;;
          match err with
          | Some _ => log_Println ["IPFS failed to close plugins. Next node start might fail"]
          | None => ret tt
          end
      | None => ret tt
      end ;;;
      modify (upd_gnode (fun _ => None)) ;;;
      log_Println ["IPFS node gracefully stopped"] ;;;
      ret IPFS_SUCCESS
  end.

(** The result is a block of C memory the caller frees. *)
Definition go_asio_ipfs_node_id : M World nat :=
  g <- gets w_gnode ;;
  match g with
  | None => C_CString ""
  | Some n =>
      match keyencode_FromString "b58mh" with
      | inr err => panic (err_msg err)
      | inl ke =>
          node <- node_node n ;;
          C_CString (ke_FormatID ke node)
      end
  end.

End start.
