(* ===== verification/StartSpec.v ===== *)
(** * What starting a node promises

    [start_node] is a pipeline of stages.  Each stage is specified by a predicate:
    which interactions it may have with third-party code and the host, and what it
    then gives, a value for the later stages or the error code [start_node]
    returns.  The whole start is their composition, in which the first failure
    ends everything. *)
From S2P Require Import Prelude GoStrings GoPath GoOs Ext World Toy Effects Log Cancel.
From S2P Require Import Calls Config ConfigSpec Repo RepoSpec Json Settings Progress Serve ServeSpec.
From S2P Require Import Start.
#[local] Open Scope go_scope.

Section start_spec.
Context `{External}.

(** ** Pipelines *)

(** A stage: its interactions, then a value or an error code. *)
Definition spec (A : Type) : Type := list item -> A + Z -> Prop.

(** [P], then [K] with its value; a failure of [P] is the result of the whole. *)
Definition andthen {A B} (P : spec A) (K : A -> spec B) : spec B := fun l x =>
  (exists code, P l (inr code) /\ x = inr code) \/
  (exists a l1 l2, P l1 (inl a) /\ K a l2 x /\ l = l1 ++ l2).

(** Nothing more happens. *)
Definition finished {A} (a : A) : spec A := fun l x => l = [] /\ x = inl a.

Lemma andthen_stop {A B} (P : spec A) (K : A -> spec B) l code :
  P l (inr code) -> andthen P K l (inr code).
Proof. intros HP. left. eauto. Qed.

Lemma andthen_go {A B} (P : spec A) (K : A -> spec B) l l1 l2 a x :
  P l1 (inl a) -> K a l2 x -> l = l1 ++ l2 -> andthen P K l x.
Proof. intros. right. eauto 6. Qed.

Lemma finished_intro {A} (a : A) : finished a [] (inl a).
Proof. done. Qed.

(** ** The stages of [start_node] *)

(** The metrics are injected once per process. *)
Inductive injects_mprome : bool -> spec unit :=
| mprome_already : injects_mprome true [] (inl tt)
| mprome_injected : injects_mprome false [did "mprome.Inject" mprome_Inject None] (inl tt)
| mprome_failed err :
    injects_mprome false [did "mprome.Inject" mprome_Inject (Some err)] (inr IPFS_MPROME_INJECT_FAILED).

Section in_repo.
Context (root : string) (acfg : AsioConfig).

Abbreviation loader pl := (did "loader.NewPluginLoader" (loader_New root) (inl pl)).
Abbreviation initialize pl r := (did "plugins.Initialize" (loader_Initialize pl) r).
Abbreviation inject pl r := (did "plugins.Inject" (loader_Inject pl) r).

(** The plugins are injected once per process; later loaders are told they have been. *)
Inductive builds_env : bool -> spec PluginLoader :=
| env_no_loader inj err :
    builds_env inj [did "loader.NewPluginLoader" (loader_New root) (inr err)] (inr IPFS_BUILD_ENV_FAILED)
| env_not_initialized inj pl pl1 err :
    builds_env inj [loader pl; initialize pl (Some err, pl1)] (inr IPFS_BUILD_ENV_FAILED)
| env_not_injected pl pl1 pl2 err :
    builds_env false [loader pl; initialize pl (None, pl1); inject pl1 (Some err, pl2)]
      (inr IPFS_BUILD_ENV_FAILED)
| env_injected pl pl1 pl2 :
    builds_env false [loader pl; initialize pl (None, pl1); inject pl1 (None, pl2)] (inl pl2)
| env_poked pl pl1 :
    builds_env true [loader pl; initialize pl (None, pl1)] (inl (mkLoader 4 (pl_rest pl1))).

Abbreviation initialized b := (did "fsrepo.IsInitialized" (fsrepo_IsInitialized root) b).

Inductive makes_repo : spec unit :=
| repo_there : makes_repo [initialized true] (inl tt)
| repo_made l : initializes root acfg l None -> makes_repo (initialized false :: l) (inl tt)
| repo_failed l err :
    initializes root acfg l (Some err) -> makes_repo (initialized false :: l) (inr IPFS_CREATE_REPO_FAILED).

Inductive opens_repo : spec (Repo * Config) :=
| repo_unopened l err : opens root acfg l (inr err) -> opens_repo l (inr IPFS_OPEN_REPO_FAILED)
| repo_unread l repo err :
    opens root acfg l (inl repo) ->
    opens_repo (l ++ [did "repo.Config" (repo_Config repo) (inr err)]) (inr IPFS_READ_CONFIG_FAILED)
| repo_opened l repo cfg :
    opens root acfg l (inl repo) ->
    opens_repo (l ++ [did "repo.Config" (repo_Config repo) (inl cfg)]) (inl (repo, cfg)).

Definition repo_stage (injected : bool) : spec (PluginLoader * (Repo * Config)) :=
  andthen (builds_env injected) (fun pl => andthen makes_repo (fun _ =>
  andthen opens_repo (fun rc => finished (pl, rc)))).

(** The options [makeBuildCfg] gives. *)
Definition build_cfg (repo : Repo) (cfg : Config) (b : BuildCfg) : Prop :=
  routing_table !! Routing_Type cfg = Some (bc_Routing b) /\ bc_Repo b = repo /\
  bc_Permanent b = true /\ bc_Online b = true /\ bc_DisableEncryptedConnections b = false /\
  bc_ExtraOpts b !! "pubsub" = Some false /\ bc_ExtraOpts b !! "ipnsps" = Some false.

(** The addresses are asked for, to be logged, when the node is online. *)
Definition shows_addrs (node : IpfsNode) (l : list item) : Prop :=
  if IsOnline node then exists ifaces addrs,
    l = [did "InterfaceListenAddresses" (InterfaceListenAddresses node) ifaces;
         did "PeerHost.Addrs" (PeerHost_Addrs node) addrs]
  else l = [].

Inductive makes_node (done : bool) (repo : Repo) (cfg : Config) : spec IpfsNode :=
| node_failed b err :
    build_cfg repo cfg b ->
    makes_node done repo cfg [did "core.NewNode" (core_NewNode done b) (inr err)]
      (inr IPFS_START_NODE_FAILED)
| node_made b node l :
    build_cfg repo cfg b -> shows_addrs (set_IsDaemon node) l ->
    makes_node done repo cfg (did "core.NewNode" (core_NewNode done b) (inl node) :: l)
      (inl (set_IsDaemon node)).

Inductive starts_plugins (pl : PluginLoader) (node : IpfsNode) : spec PluginLoader :=
| plugins_failed pl1 err :
    starts_plugins pl node [did "plugins.Start" (loader_Start pl node) (Some err, pl1)]
      (inr IPFS_PLUGINS_FAILED)
| plugins_started pl1 :
    starts_plugins pl node [did "plugins.Start" (loader_Start pl node) (None, pl1)] (inl pl1).

Definition core_stage (done : bool) (pl : PluginLoader) (repo : Repo) (cfg : Config) :
    spec (PluginLoader * IpfsNode) :=
  andthen (makes_node done repo cfg) (fun node =>
  andthen (starts_plugins pl node) (fun pl1 => finished (pl1, node))).

(** The servers, each with its listeners when it is on. *)
Inductive serves_api (node : IpfsNode) (cfg : Config) : spec (option (list Listener)) :=
| api_off : APIAddress acfg = "" -> serves_api node cfg [] (inl None)
| api_failed l err :
    APIAddress acfg <> "" -> api_prepares root node cfg l (inr err) ->
    serves_api node cfg l (inr IPFS_API_FAILED)
| api_on l liss :
    APIAddress acfg <> "" -> api_prepares root node cfg l (inl liss) ->
    serves_api node cfg l (inl (Some liss)).

Inductive serves_gateway (cfg : Config) : spec (option (list Listener)) :=
| gateway_off : GatewayAddress acfg = "" -> serves_gateway cfg [] (inl None)
| gateway_failed l err :
    GatewayAddress acfg <> "" -> gateway_prepares root cfg l (inr err) ->
    serves_gateway cfg l (inr IPFS_GATEWAY_FAILED)
| gateway_on l liss :
    GatewayAddress acfg <> "" -> gateway_prepares root cfg l (inl liss) ->
    serves_gateway cfg l (inl (Some liss)).

Definition service_stage (node : IpfsNode) (cfg : Config) :
    spec (option (list Listener) * option (list Listener)) :=
  andthen (serves_api node cfg) (fun api =>
  andthen (serves_gateway cfg) (fun gw => finished (api, gw))).

(** The version metric is registered once per process. *)
Definition info (metrics : bool) : list item :=
  if metrics then []
  else [did "promauto.ipfs_info" (promauto_ipfs_info CurrentVersionNumber CurrentCommit) (Ok tt)].

Abbreviation register node := (did "prometheus.MustRegister" (prometheus_MustRegister node) (Ok tt)).

Inductive provides_api (metrics : bool) (node : IpfsNode) : spec CoreAPI :=
| api_denied err :
    provides_api metrics node
      (info metrics ++ [register node; did "coreapi.NewCoreAPI" (coreapi_New node) (inr err)])
      (inr IPFS_API_ACCESS_FAILED)
| api_provided api peers :
    provides_api metrics node
      (info metrics ++ [register node; did "coreapi.NewCoreAPI" (coreapi_New node) (inl api);
                        did "swarm.Peers" (Swarm_Peers api node) peers])
      (inl api).

(** What a start that succeeds has made. *)
Record parts := mkParts {
  pt_plugins : PluginLoader;
  pt_cfg : Config;
  pt_node : IpfsNode;
  pt_api : CoreAPI;
  pt_api_listeners : option (list Listener);
  pt_gw_listeners : option (list Listener);
}.

Definition later_stages (metrics done : bool) (pl : PluginLoader) (repo : Repo) (cfg : Config) : spec parts :=
  andthen (core_stage done pl repo cfg) (fun '(pl1, node) =>
  andthen (service_stage node cfg) (fun '(api_lis, gw_lis) =>
  andthen (provides_api metrics node) (fun api =>
  finished (mkParts pl1 cfg node api api_lis gw_lis)))).

(** The whole start; the flags say what earlier starts of the process have done,
    [done] whether the node's context was already cancelled. *)
Definition starts (mprome plugins metrics done : bool) : spec parts :=
  andthen (injects_mprome mprome) (fun _ =>
  andthen (repo_stage plugins) (fun '(pl, (repo, cfg)) =>
  later_stages metrics done pl repo cfg)).
End in_repo.

(** ** What a start leaves behind *)

Definition any_service (acfg : AsioConfig) : bool :=
  RunGC acfg || bool_decide (APIAddress acfg <> "") || bool_decide (GatewayAddress acfg <> "").

(** The record of a node after a successful start. *)
Definition completed (n : nat) (root : string) (p : parts) (nd nd' : Node) : Prop :=
  n_cctx nd' = Some (mkCmdCtx root (Some (root, pt_cfg p)) (pt_plugins p) n false) /\
  n_node nd' = Some (pt_node p) /\ IsDaemon (pt_node p) = true /\
  n_collector nd' = Some (pt_node p) /\ n_api nd' = Some (pt_api p) /\
  node_ident nd' = node_ident nd.

(** The goroutines of a server that is on, with its error channel. *)
Definition service_gors (node : IpfsNode) (opts : list ServeOption) (ch : option nat)
    (liss : option (list Listener)) : list Goroutine :=
  match ch, liss with Some errc, Some liss => servers errc node opts liss | _, _ => [] end.

(** The goroutines of a successful start: the services that are on, and a monitor
    over their channels if there are any. *)
Definition start_gors (n : nat) (acfg : AsioConfig) (p : parts) (gc api gw : option nat) : list Goroutine :=
  match gc with Some errc => [GPeriodicGC n errc] | None => [] end ++
  service_gors (pt_node p) (api_opts (pt_cfg p)) api (pt_api_listeners p) ++
  service_gors (pt_node p) (gateway_opts (pt_cfg p)) gw (pt_gw_listeners p) ++
  (if any_service acfg then [GMonitorStart (mkMonitor n gc api gw 0 None)] else []).

(** A channel is there exactly for the services that are on. *)
Definition start_channels (acfg : AsioConfig) (p : parts) (gc api gw : option nat) : Prop :=
  (is_Some gc <-> RunGC acfg = true) /\
  (is_Some api <-> is_Some (pt_api_listeners p)) /\ (is_Some api <-> APIAddress acfg <> "") /\
  (is_Some gw <-> is_Some (pt_gw_listeners p)) /\ (is_Some gw <-> GatewayAddress acfg <> "").

(** The panics [start_node] can end in. *)
Inductive start_panic (state_cb : Z) (acfg : AsioConfig) : string -> Prop :=
| panic_routing t :
    routing_table !! t = None -> start_panic state_cb acfg ("unrecognized routing option: " +:+ t)
| panic_addresses :
    APIAddress acfg <> "" -> start_panic state_cb acfg "index out of range [0] with length 0"
| panic_info v k e p :
    (promauto_ipfs_info v k e).1 = Panic p -> start_panic state_cb acfg p
| panic_register node e p :
    (prometheus_MustRegister node e).1 = Panic p -> start_panic state_cb acfg p
| panic_callback :
    state_cb = 0%Z -> start_panic state_cb acfg "IPFS state callback is not provided".

(** ** The pieces of [start_node] *)
Section pieces.
Context (n : nat) (w : World) (E : string -> Prop) (Hr : ready w).

Lemma run_printVersion {B} c w1 (k : unit -> M World B) Q :
  at_ n c w w1 -> (forall w2, at_ n c w w2 -> runs (k tt) Q E w2) ->
  runs (bind printVersion k) Q E w1.
Proof.
  intros Hat Hk. unfold printVersion.
  eapply (runs_seq E _ _ (fun _ w2 => at_ n c w w2)); [|by intros []].
  do 3 (eapply run_logf; [done..|]; intros); by eapply run_logf_end.
Qed.

(** What starts of the process have injected. *)
Definition flags (c : cursor) : bool * bool * bool := (c_mprome c, c_plugins c, c_metrics c).

Definition no_new_monitor (c c' : cursor) : Prop :=
  forall m, GMonitorStart m ∈ c_gor c' -> GMonitorStart m ∈ c_gor c.

Lemma no_new_monitor_eq c c' : c_gor c' = c_gor c -> no_new_monitor c c'.
Proof. unfold no_new_monitor. by intros ->. Qed.

(** A piece of the code that implements the stage [P]: its interactions and its
    result, which [out] relates to the stage's, and what it leaves when it goes on. *)
Definition piece {R A} (P : spec A) (c : cursor) (out : R -> A + Z -> Prop)
    (post : R -> A -> cursor -> Prop) (r : R) (w' : World) : Prop :=
  exists c' l x, at_ n c' w w' /\ c_items c' = c_items c ++ l /\ out r x /\ P l x /\
    match x with inl a => post r a c' | inr _ => no_new_monitor c c' end.

Lemma piece_stop {R A} (P : spec A) c (out : R -> A + Z -> Prop) post r w' c' l code :
  at_ n c' w w' -> c_items c' = c_items c ++ l -> out r (inr code) -> P l (inr code) ->
  no_new_monitor c c' -> piece P c out post r w'.
Proof. intros. by exists c', l, (inr code). Qed.

Lemma piece_go {R A} (P : spec A) c (out : R -> A + Z -> Prop) (post : R -> A -> cursor -> Prop) r w' c' l a :
  at_ n c' w w' -> c_items c' = c_items c ++ l -> out r (inl a) -> P l (inl a) ->
  post r a c' -> piece P c out post r w'.
Proof. intros. by exists c', l, (inl a). Qed.

Lemma piece_bind {R1 A R2 B} (P : spec A) (K : A -> spec B) c w1 (out1 : R1 -> A + Z -> Prop) post1
    (out2 : R2 -> B + Z -> Prop) post2 (m : M World R1) (k : R1 -> M World R2) :
  runs m (piece P c out1 post1) E w1 ->
  (forall r a c', post1 r a c' -> no_new_monitor c c') ->
  (forall r code c' w2, out1 r (inr code) -> at_ n c' w w2 ->
     runs (k r) (fun r' w3 => at_ n c' w w3 /\ out2 r' (inr code)) E w2) ->
  (forall r a c' w2, out1 r (inl a) -> at_ n c' w w2 -> post1 r a c' ->
     runs (k r) (piece (K a) c' out2 post2) E w2) ->
  runs (bind m k) (piece (andthen P K) c out2 post2) E w1.
Proof.
  intros Hm Hmon Hf Hs. eapply runs_seq; [exact Hm|].
  intros r w2 (c' & l & [a|code] & Hat & Hl & Ho & HP & Hpost).
  - eapply runs_mono; [by eapply Hs| |done]. intros r' w3 (c2 & l2 & x & Hat2 & Hl2 & Ho2 & HK & Hx).
    exists c2, (l ++ l2), x. split; [done|]. split; [by rewrite Hl2, Hl, app_assoc|]. split; [done|].
    split; [by eapply andthen_go|]. destruct x; [done|]. intros m' Hm'. by eapply Hmon, Hx.
  - eapply runs_mono; [by eapply Hf| |done]. intros r' w3 [Hat3 Ho3].
    exists c', l, (inr code). split; [done|]. split; [done|]. split; [done|].
    split; [by apply andthen_stop|done].
Qed.

(** A code is an early return. *)
Definition out_code {A} (r : option Z) (x : A + Z) : Prop :=
  match r, x with
  | None, inl _ => True
  | Some code, inr code' => code = code' /\ code <> IPFS_SUCCESS
  | _, _ => False
  end.

Definition out_value {V A} (P : V -> A -> Prop) (r : V + Z) (x : A + Z) : Prop :=
  match r, x with
  | inl v, inl a => P v a
  | inr code, inr code' => code = code' /\ code <> IPFS_SUCCESS
  | _, _ => False
  end.

(** The code of the whole. *)
Definition out_final {A} (r : Z) (x : A + Z) : Prop :=
  match x with inl _ => r = IPFS_SUCCESS | inr code => r = code /\ code <> IPFS_SUCCESS end.

Ltac items_eq := simpl; rewrite <- ?app_assoc; reflexivity.

(** Ends a piece with an error code. *)
Ltac stop H := apply runs_ret; eapply piece_stop; [exact H|items_eq|by split| |by apply no_new_monitor_eq].

Lemma run_inject_mprome c w1 :
  at_ n c w w1 ->
  runs inject_mprome
    (piece (injects_mprome (c_mprome c)) c out_code (fun _ _ c' =>
       c_gor c' = c_gor c /\ c_node c' = c_node c /\ flags c' = (true, c_plugins c, c_metrics c))) E w1.
Proof.
  intros Hat. unfold inject_mprome. apply run_gets. rewrite (at_mprome _ _ _ _ Hat).
  destruct (c_mprome c) eqn:Em; simpl.
  { apply runs_ret. eapply (piece_go _ _ _ _ _ _ c [] tt); [done|by rewrite app_nil_r|done|constructor|].
    unfold flags. by rewrite Em. }
  eapply run_call; [done|done|]. intros [err|] w2 _ Hat2; norm_cur Hat2.
  - eapply run_log; [done..|]. intros w3 Hat3. stop Hat3. constructor.
  - apply runs_bind, runs_modify, runs_ret.
    eapply (piece_go _ _ _ _ _ _ (cur_mprome (cur_calls [did "mprome.Inject" mprome_Inject None] c))
              [did "mprome.Inject" mprome_Inject None] tt);
      [destruct Hat2; split; simpl in *; done|done|done|by constructor|done].
Qed.
(** *** The repository *)
Lemma run_buildEnv c w1 root :
  at_ n c w w1 ->
  runs (buildEnv n root) (fun r w2 => exists l,
      match r with
      | inl cctx => exists pl, at_ n (cur_plugins (cur_calls l c)) w w2 /\
          builds_env root (c_plugins c) l (inl pl) /\ cctx = mkCmdCtx root None pl n false
      | inr _ => at_ n (cur_calls l c) w w2 /\
          builds_env root (c_plugins c) l (inr IPFS_BUILD_ENV_FAILED)
      end) E w1.
Proof.
  intros Hat. unfold buildEnv. eapply run_log; [done..|]. intros w2 Hat2.
  unfold loadPlugins. apply runs_bind.
  eapply run_call; [done|done|]. intros [pl|err] w3 _ Hat3.
  2:{ do 2 apply runs_ret. eexists. split; [exact Hat3|]. constructor. }
  eapply run_call; [done|done|]. intros [[err|] pl'] w4 _ Hat4; norm_cur Hat4.
  { do 2 apply runs_ret. eexists. split; [exact Hat4|]. constructor. }
  apply run_gets. rewrite (at_plugins _ _ _ _ Hat4). cbn [c_plugins cur_calls].
  destruct (c_plugins c) eqn:Ep; cbn [negb].
  - do 2 apply runs_ret. eexists _, _. rewrite cur_plugins_id by done.
    split; [exact Hat4|]. split; [constructor|done].
  - eapply run_call; [done|done|]. intros [[err|] pl''] w5 _ Hat5; norm_cur Hat5.
    { do 2 apply runs_ret. eexists. split; [exact Hat5|]. econstructor. }
    apply runs_bind, runs_modify. do 2 apply runs_ret. eexists _, _.
    split; [destruct Hat5; split; simpl in *; eassumption || reflexivity|].
    split; [econstructor|done].
Qed.

Lemma run_makes_repo {B} c w1 root acfg (k : option error -> M World B) Q :
  at_ n c w w1 ->
  (forall w2 err l, at_ n (cur_calls l c) w w2 ->
     makes_repo root acfg l (inr IPFS_CREATE_REPO_FAILED) -> runs (k (Some err)) Q E w2) ->
  (forall w2 l, at_ n (cur_calls l c) w w2 -> makes_repo root acfg l (inl tt) -> runs (k None) Q E w2) ->
  runs (init <- call "fsrepo.IsInitialized" (fsrepo_IsInitialized root) ;;
        err <- (if negb init then initRepo root acfg else ret None) ;; k err) Q E w1.
Proof.
  intros Hat Hf Hs. eapply run_call; [done|done|]. intros [|] w2 _ Hat2; simpl.
  - apply runs_bind, runs_ret. eapply Hs; [exact Hat2|constructor].
  - eapply runs_step; [apply initRepo_meets; by eapply at_ready|].
    intros [err|] w3 (l & Hc & Hi & _); pose proof (at_called _ _ _ _ _ _ Hat2 Hc) as Hat3;
      rewrite cur_call_calls, cur_calls_app in Hat3.
    + eapply Hf; [exact Hat3|]. by econstructor.
    + eapply Hs; [exact Hat3|]. by constructor.
Qed.

Lemma run_opens_repo {B} c w1 root acfg (fo fr : error -> M World B) (k : Repo -> Config -> M World B) Q :
  at_ n c w w1 ->
  (forall w2 err l, at_ n (cur_calls l c) w w2 ->
     opens_repo root acfg l (inr IPFS_OPEN_REPO_FAILED) -> runs (fo err) Q E w2) ->
  (forall w2 err l, at_ n (cur_calls l c) w w2 ->
     opens_repo root acfg l (inr IPFS_READ_CONFIG_FAILED) -> runs (fr err) Q E w2) ->
  (forall w2 repo cfg l, at_ n (cur_calls l c) w w2 -> opens_repo root acfg l (inl (repo, cfg)) ->
     runs (k repo cfg) Q E w2) ->
  runs (repo <- openRepo root acfg ;;
        match repo with
        | inr err => fo err
        | inl repo =>
            cfg <- call "repo.Config" (repo_Config repo) ;;
            match cfg with inr err => fr err | inl cfg => k repo cfg end
        end) Q E w1.
Proof.
  intros Hat H1 H2 H3. eapply runs_step; [apply openRepo_meets; by eapply at_ready|].
  intros [repo|err] w2 (l & Hc & Ho); pose proof (at_called _ _ _ _ _ _ Hat Hc) as Hat2.
  2:{ eapply H1; [exact Hat2|]. by econstructor. }
  eapply run_call; [done|done|]. intros [cfg|err] w3 _ Hat3;
    rewrite cur_call_calls, cur_calls_app in Hat3.
  - eapply H3; [exact Hat3|]. by constructor.
  - eapply H2; [exact Hat3|]. by econstructor.
Qed.

(** The context a node gets. *)
Definition open_cctx (root : string) (cfg : Config) (pl : PluginLoader) : CmdCtx :=
  mkCmdCtx root (Some (root, cfg)) pl n false.

Lemma run_start_repo c w1 root acfg :
  at_ n c w w1 ->
  runs (start_repo n root acfg)
    (piece (repo_stage root acfg (c_plugins c)) c (out_value (fun rc a => a.2 = rc))
       (fun _ a c' => c_gor c' = c_gor c /\ flags c' = (c_mprome c, true, c_metrics c) /\
          c_node c' = set_n_cctx (Some (open_cctx root a.2.2 a.1)) (c_node c))) E w1.
Proof.
  intros Hat. unfold start_repo, repo_stage. eapply run_printVersion; [done..|]. intros w2 Hat2.
  eapply runs_seq; [by apply run_buildEnv|]. intros [cctx|err] w3 (l1 & Hb).
  2:{ destruct Hb as [Hat3 Hb]. eapply run_store; [done|done|]. intros w4 Hat4.
      eapply run_log; [done..|]. intros w5 Hat5. stop Hat5. by apply andthen_stop. }
  destruct Hb as (pl & Hat3 & Hb & ->). eapply run_store; [done|done|]. intros w4 Hat4.
  unfold node_cctx. apply runs_bind. eapply run_load; [done|]. simpl. apply runs_ret.
  eapply run_makes_repo; [exact Hat4| |]; [intros w5 err l2 Hat5 Hm|intros w5 l2 Hat5 Hm]; simpl in Hm.
  { eapply run_log; [done..|]. intros w6 Hat6. stop Hat6.
    eapply andthen_go; [exact Hb| |reflexivity]. by apply andthen_stop. }
  eapply run_opens_repo; [exact Hat5| | |]; simpl.
  - intros w6 err l3 Hat6 Ho. eapply run_log; [done..|]. intros w7 Hat7. stop Hat7.
    do 2 (eapply andthen_go; [eassumption| |reflexivity]). by apply andthen_stop.
  - intros w6 err l3 Hat6 Ho. eapply run_log; [done..|]. intros w7 Hat7. stop Hat7.
    do 2 (eapply andthen_go; [eassumption| |reflexivity]). by apply andthen_stop.
  - intros w6 repo cfg l3 Hat6 Ho. eapply run_store; [done|done|]. intros w7 Hat7. apply runs_ret.
    eapply (piece_go _ _ _ _ _ _ _ _ (pl, (repo, cfg))); [exact Hat7|items_eq|done| |done].
    do 2 (eapply andthen_go; [eassumption| |reflexivity]).
    eapply andthen_go; [eassumption|apply finished_intro|by rewrite app_nil_r].
Qed.

(** *** The core node *)
Lemma run_printSwarmAddrs {B} c w1 node (k : unit -> M World B) Q :
  at_ n c w w1 ->
  (forall w2 l, at_ n (cur_calls l c) w w2 -> shows_addrs node l -> runs (k tt) Q E w2) ->
  runs (bind (printSwarmAddrs node) k) Q E w1.
Proof.
  intros Hat Hk. unfold printSwarmAddrs, shows_addrs in *.
  eapply (runs_seq E _ _ (fun _ w2 => exists l, at_ n (cur_calls l c) w w2 /\
    if IsOnline node then exists ifaces addrs,
      l = [did "InterfaceListenAddresses" (InterfaceListenAddresses node) ifaces;
           did "PeerHost.Addrs" (PeerHost_Addrs node) addrs] else l = []));
    [|intros [] w2 (l & Hat2 & Hl); by eapply Hk].
  destruct (IsOnline node); simpl.
  2:{ eapply run_log_end; [done..|]. intros w2 Hat2. exists []. by rewrite cur_calls_nil. }
  eapply run_call; [done|done|]. intros [ifaces err] w2 _ Hat2; norm_cur Hat2.
  match type of Hat2 with at_ _ ?c2 _ _ => eapply (runs_seq E _ _ (fun _ w3 => at_ n c2 w w3)) end.
  { destruct err as [err|]; [by eapply run_log_end|by apply runs_ret]. }
  intros _ w3 Hat3. eapply run_announce; [done..|]. intros w4 Hat4.
  eapply run_call; [done|done|]. intros addrs w5 _ Hat5; norm_cur Hat5.
  apply runs_unit_end. eapply run_announce; [done..|]. intros w6 Hat6.
  apply runs_ret. eexists. split; [exact Hat6|]. eauto.
Qed.

Lemma run_makeBuildCfg {B} w1 repo cfg (k : BuildCfg -> M World B) Q :
  (routing_table !! Routing_Type cfg = None -> E ("unrecognized routing option: " +:+ Routing_Type cfg)) ->
  (forall b, build_cfg repo cfg b -> runs (k b) Q E w1) ->
  runs (bind (makeBuildCfg repo cfg) k) Q E w1.
Proof.
  intros HE Hk. apply runs_bind. pose proof (makeBuildCfg_cases repo cfg w1) as Hc.
  unfold build_cfg in Hk.
  destruct (routing_table !! Routing_Type cfg) as [r|] eqn:Er.
  - destruct Hc as (b & Hb & Hrb & H1 & H2 & H3 & H4 & H5 & H6). unfold runs, wp. rewrite Hb. simpl.
    apply Hk. by rewrite Hrb.
  - unfold runs, wp. rewrite Hc. simpl. auto.
Qed.

Lemma at_ctx_done c w1 ctx : at_ n c w w1 -> ctx_done w1 ctx = ctx_done w ctx.
Proof.
  intros Hat. unfold ctx_done. by rewrite (at_ctx_anc _ _ _ _ Hat), (at_cancelled _ _ _ _ Hat).
Qed.

Lemma run_start_core c w1 cctx repo cfg :
  at_ n c w w1 -> n_cctx (c_node c) = Some cctx ->
  (forall t, routing_table !! t = None -> E ("unrecognized routing option: " +:+ t)) ->
  runs (start_core n repo cfg)
    (piece (core_stage (ctx_done w (n_ctx (c_node c))) (Plugins cctx) repo cfg) c out_code
       (fun _ a c' => c_gor c' = c_gor c /\ flags c' = flags c /\ IsDaemon a.2 = true /\
          c_node c' = set_n_cctx (Some (set_Plugins a.1 cctx)) (set_n_node (Some a.2) (c_node c)))) E w1.
Proof.
  intros Hat Hcctx HE. unfold start_core, core_stage. eapply run_clock; [done|]. intros start w2 Hat2.
  apply run_makeBuildCfg; [by apply HE|]. intros bcfg Hb.
  eapply run_clock; [done|]. intros now w3 Hat3. eapply run_logf; [done..|]. intros w4 Hat4.
  eapply run_clock; [done|]. intros start' w5 Hat5. eapply run_load; [done|]. apply run_gets.
  rewrite (at_ctx_done _ _ _ Hat5).
  eapply run_call; [done|done|]. intros [node|err] w6 _ Hat6; norm_cur Hat6;
    (eapply run_store; [done|done|]; intros w7 Hat7).
  2:{ eapply run_log; [done..|]. intros w8 Hat8. stop Hat8. apply andthen_stop. by constructor. }
  eapply run_clock; [done|]. intros now' w8 Hat8. eapply run_logf; [done..|]. intros w9 Hat9.
  eapply run_store; [done|done|]. intros w10 Hat10.
  unfold node_node. apply runs_bind. eapply run_load; [done|]. simpl. apply runs_ret.
  match type of Hat10 with at_ _ ?c10 _ _ =>
    eapply (runs_seq E _ _ (fun _ w11 => at_ n c10 w w11)) end.
  { destruct (PNetFingerprint _); [eapply run_log; [done..|]; intros w11 Hat11; by eapply run_logf_end
                                  |by eapply run_log_end]. }
  intros _ w11 Hat11. eapply run_printSwarmAddrs; [done|]. intros w12 l Hat12 Hl.
  unfold node_cctx. apply runs_bind. eapply run_load; [done|]. simpl. rewrite Hcctx. apply runs_ret.
  eapply run_call; [done|done|]. intros [err pl] w13 _ Hat13.
  eapply run_store; [done|done|]. intros w14 Hat14.
  pose proof (node_made (ctx_done w (n_ctx (c_node c))) repo cfg bcfg node l Hb Hl) as Hm.
  destruct err as [err|].
  - eapply run_log; [done..|]. intros w15 Hat15. stop Hat15.
    eapply andthen_go; [exact Hm| |reflexivity]. apply andthen_stop. constructor.
  - apply runs_ret.
    eapply (piece_go _ _ _ _ _ _ _ _ (pl, set_IsDaemon node)); [exact Hat14|items_eq|done| |].
    + eapply andthen_go; [exact Hm| |reflexivity].
      eapply andthen_go; [constructor|apply finished_intro|by rewrite app_nil_r].
    + simpl. rewrite Hcctx. done.
Qed.

(** *** The services *)
Lemma no_new_monitor_service c c0 node opts ch liss :
  c_gor c0 = c_gor c -> no_new_monitor c (cur_go (service_gors node opts ch liss) c0).
Proof.
  intros Hg m. simpl. rewrite Hg, elem_of_app. intros [Hm|Hm]; [done|]. exfalso.
  destruct ch as [errc|], liss as [liss|]; simpl in Hm; try by apply elem_of_nil in Hm.
  unfold servers in Hm. apply elem_of_app in Hm as [Hm|Hm].
  - apply list_elem_of_fmap in Hm as (lis & [=] & _).
  - by apply list_elem_of_singleton in Hm.
Qed.

(** What a service leaves behind: its goroutines, on its channel if it is on. *)
Definition service_post (node : IpfsNode) (opts : list ServeOption) (addr : string) (c : cursor)
    (r : result (option nat)) (liss : option (list Listener)) (c' : cursor) : Prop :=
  exists ch, r = inl ch /\ (is_Some ch <-> is_Some liss) /\ (is_Some ch <-> addr <> "") /\
    c_node c' = c_node c /\ flags c' = flags c /\
    c_gor c' = c_gor c ++ service_gors node opts ch liss.

Lemma service_post_no_monitor node opts addr c r liss c' :
  service_post node opts addr c r liss c' -> no_new_monitor c c'.
Proof.
  intros (ch & _ & _ & _ & _ & _ & Hg) m Hm.
  apply (no_new_monitor_service c c node opts ch liss eq_refl). simpl. by rewrite <- Hg.
Qed.

Lemma service_off node opts addr c :
  addr = "" -> service_post node opts addr c (inl None) None c.
Proof.
  intros ->. exists None. rewrite app_nil_r. pose proof (is_Some_None (A := nat)).
  repeat split; try done; by intros [? [=]].
Qed.

Lemma service_on node opts addr c l errc liss :
  addr <> "" ->
  service_post node opts addr c (inl (Some errc)) (Some liss) (cur_go (servers errc node opts liss) (cur_calls l c)).
Proof. intros Ha. exists (Some errc). repeat split; simpl; eauto. Qed.

Definition out_service (code : Z) (r : result (option nat)) (x : option (list Listener) + Z) : Prop :=
  match r, x with
  | inl _, inl _ => True
  | inr _, inr code' => code = code'
  | _, _ => False
  end.

Lemma run_api_stage c w1 cfg node acfg :
  GetConfig_loads -> at_ n c w w1 -> configured (c_node c) cfg -> n_node (c_node c) = Some node ->
  (APIAddress acfg <> "" -> E "index out of range [0] with length 0") ->
  runs (maybeServeHTTPApi n acfg)
    (piece (serves_api (node_root (c_node c)) acfg node cfg) c (out_service IPFS_API_FAILED)
       (service_post node (api_opts cfg) (APIAddress acfg) c)) E w1.
Proof.
  intros HG Hat Hcfg Hnode HE. destruct (decide (APIAddress acfg = "")) as [Hoff|Hon].
  { unfold maybeServeHTTPApi. rewrite decide_True by (by rewrite Hoff).
    eapply run_log; [done..|]. intros w2 Hat2. apply runs_ret.
    eapply (piece_go _ _ _ _ _ _ _ [] None); [exact Hat2|by rewrite app_nil_r|done|by constructor|].
    by apply service_off. }
  eapply runs_mono; [eapply (run_Api n acfg cfg node E); eauto| |done].
  intros r w2 Hr2. cbv beta in Hr2. rewrite decide_False in Hr2 by done.
  destruct Hr2 as (l & [liss|err] & Hp & Hx).
  - destruct Hx as (errc & -> & Hat2 & _).
    eapply (piece_go _ _ _ _ _ _ _ l (Some liss)); [exact Hat2|done|done|by constructor|].
    by apply service_on.
  - destruct Hx as [-> Hat2].
    eapply piece_stop; [exact Hat2|done|done| |by apply no_new_monitor_eq]. by econstructor.
Qed.

Lemma run_gateway_stage c w1 cfg node acfg :
  GetConfig_loads -> at_ n c w w1 -> configured (c_node c) cfg -> n_node (c_node c) = Some node ->
  runs (maybeServeHTTPGateway n acfg)
    (piece (serves_gateway (node_root (c_node c)) acfg cfg) c (out_service IPFS_GATEWAY_FAILED)
       (service_post node (gateway_opts cfg) (GatewayAddress acfg) c)) E w1.
Proof.
  intros HG Hat Hcfg Hnode. destruct (decide (GatewayAddress acfg = "")) as [Hoff|Hon].
  { unfold maybeServeHTTPGateway. rewrite decide_True by (by rewrite Hoff).
    eapply run_log; [done..|]. intros w2 Hat2. apply runs_ret.
    eapply (piece_go _ _ _ _ _ _ _ [] None); [exact Hat2|by rewrite app_nil_r|done|by constructor|].
    by apply service_off. }
  eapply runs_mono; [eapply (run_Gateway n acfg cfg node E); eauto| |done].
  intros r w2 Hr2. cbv beta in Hr2. rewrite decide_False in Hr2 by done.
  destruct Hr2 as (l & [liss|err] & Hp & Hx).
  - destruct Hx as (errc & -> & Hat2 & _).
    eapply (piece_go _ _ _ _ _ _ _ l (Some liss)); [exact Hat2|done|done|by constructor|].
    by apply service_on.
  - destruct Hx as [-> Hat2].
    eapply piece_stop; [exact Hat2|done|done| |by apply no_new_monitor_eq]. by econstructor.
Qed.

Definition gc_gors (gc : option nat) : list Goroutine :=
  match gc with Some errc => [GPeriodicGC n errc] | None => [] end.

(** The services that are on, with their channels. *)
Definition services_post (acfg : AsioConfig) (cfg : Config) (node : IpfsNode) (c : cursor)
    (r : option nat * option nat * option nat + Z)
    (a : option (list Listener) * option (list Listener)) (c' : cursor) : Prop :=
  exists gc api gw, r = inl (gc, api, gw) /\ c_node c' = c_node c /\ flags c' = flags c /\
    c_gor c' = c_gor c ++ gc_gors gc ++ service_gors node (api_opts cfg) api a.1 ++
               service_gors node (gateway_opts cfg) gw a.2 /\
    (is_Some gc <-> RunGC acfg = true) /\
    (is_Some api <-> is_Some a.1) /\ (is_Some api <-> APIAddress acfg <> "") /\
    (is_Some gw <-> is_Some a.2) /\ (is_Some gw <-> GatewayAddress acfg <> "").

Lemma run_gc_stage c w1 acfg :
  at_ n c w w1 ->
  runs (maybeRunGC n acfg)
    (fun r w2 => exists gc, r = inl gc /\ (is_Some gc <-> RunGC acfg = true) /\
       at_ n (cur_go (gc_gors gc) c) w w2) E w1.
Proof.
  intros Hat. eapply runs_mono; [by eapply (run_GC n acfg E)| |done].
  intros [[errc|]|err] w2; [intros (Hg & _ & Hat2)|intros (Hg & Hat2)|done]; rewrite Hg.
  - by exists (Some errc).
  - exists None. simpl. rewrite cur_go_nil. split; [done|]. split; [|done]. by split; [intros []|].
Qed.

Lemma run_start_services c w1 cfg node acfg :
  GetConfig_loads -> at_ n c w w1 -> configured (c_node c) cfg -> n_node (c_node c) = Some node ->
  (APIAddress acfg <> "" -> E "index out of range [0] with length 0") ->
  runs (start_services n acfg)
    (piece (service_stage (node_root (c_node c)) acfg node cfg) c (out_value (fun _ _ => True))
       (services_post acfg cfg node c)) E w1.
Proof.
  intros HG Hat Hcfg Hnode HE. unfold start_services, service_stage.
  eapply runs_seq; [by apply run_gc_stage|]. intros r w2 (gc & -> & Hgc & Hat2).
  eapply (runs_mono _ _ (piece (service_stage (node_root (c_node c)) acfg node cfg)
    (cur_go (gc_gors gc) c) (out_value (fun _ _ => True)) (services_post acfg cfg node c))); [| |done].
  { eapply piece_bind; [by eapply (run_api_stage (cur_go (gc_gors gc) c))|apply service_post_no_monitor| |].
    { intros [o|err] code c' w3 Ho Hat3; [done|]. simpl in Ho. subst code.
      eapply run_log; [done..|]. intros w4 Hat4. apply runs_ret. split; [done|by split]. }
    intros r api_lis c3 w3 _ Hat3 (api & -> & Ha1 & Ha2 & Hn3 & Hm3 & Hg3).
    pose proof (run_gateway_stage c3 w3 cfg node acfg HG Hat3) as Hgw. rewrite Hn3 in Hgw.
    eapply piece_bind; [by apply Hgw|apply service_post_no_monitor| |].
    { intros [o|err] code c' w4 Ho Hat4; [done|]. simpl in Ho. subst code. apply runs_ret. split; [done|by split]. }
    intros r gw_lis c4 w4 _ Hat4 (gw & -> & Hw1 & Hw2 & Hn4 & Hm4 & Hg4). apply runs_ret.
    eapply piece_go; [exact Hat4|by rewrite app_nil_r| |by apply finished_intro|]; [done|].
    exists gc, api, gw. split; [done|]. rewrite Hn4, Hn3, Hm4, Hm3, Hg4, Hg3. simpl.
    rewrite !app_assoc. done. }
  intros r w3 (c' & l & x & Hat3 & Hl & Ho & HP & Hx). exists c', l, x.
  do 4 (split; [done|]). destruct x; [done|]. intros m Hm. apply Hx in Hm. simpl in Hm.
  destruct gc; simpl in Hm; [|by rewrite app_nil_r in Hm].
  apply elem_of_app in Hm as [Hm|Hm]; [done|]. by apply list_elem_of_singleton in Hm.
Qed.

(** *** The API *)
Lemma run_printPeers {B} c w1 api node (k : unit -> M World B) Q :
  at_ n c w w1 -> n_api (c_node c) = Some api -> n_node (c_node c) = Some node ->
  (forall w2 peers, at_ n (cur_calls [did "swarm.Peers" (Swarm_Peers api node) peers] c) w w2 ->
     runs (k tt) Q E w2) ->
  runs (bind (printPeers n) k) Q E w1.
Proof.
  intros Hat Ha Hn Hk.
  eapply (runs_seq E _ _ (fun _ w2 => exists peers,
    at_ n (cur_calls [did "swarm.Peers" (Swarm_Peers api node) peers] c) w w2));
    [|intros [] w2 [peers Hat2]; by eapply Hk].
  unfold printPeers. eapply run_load; [done|]. rewrite Ha, Hn. do 2 apply run_deref_some.
  eapply run_call; [done|done|]. intros [peers|err] w2 _ Hat2; norm_cur Hat2.
  - case_decide; [eapply run_log_end; eauto|]. apply runs_unit_end. eapply run_announce; [done..|].
    intros w3 Hat3. apply runs_ret. eauto.
  - eapply run_log_end; eauto.
Qed.

Lemma run_start_api c w1 node :
  at_ n c w w1 -> n_node (c_node c) = Some node ->
  (forall v k e p, (promauto_ipfs_info v k e).1 = Panic p -> E p) ->
  (forall nd e p, (prometheus_MustRegister nd e).1 = Panic p -> E p) ->
  runs (start_api n)
    (piece (provides_api (c_metrics c) node) c out_code
       (fun _ api c' => c_gor c' = c_gor c /\ flags c' = (c_mprome c, c_plugins c, true) /\
          c_node c' = set_n_api (Some api) (set_n_collector (Some node) (c_node c)))) E w1.
Proof.
  intros Hat Hn HE1 HE2. unfold start_api. apply run_gets. rewrite (at_metrics _ _ _ _ Hat).
  eapply (runs_seq E _ _ (fun _ w2 => at_ n (cur_metrics (cur_calls (info (c_metrics c)) c)) w w2)).
  { destruct (c_metrics c) eqn:Em; simpl.
    - apply runs_ret. rewrite cur_calls_nil. unfold cur_metrics. rewrite <- Em. by destruct c.
    - eapply run_may_panic; [done|done|eauto|]. intros [] w2 _ Hat2; norm_cur Hat2.
      apply runs_modify. destruct Hat2. split; simpl in *; eassumption || reflexivity. }
  intros [] w2 Hat2. unfold node_node. apply runs_bind. eapply run_load; [done|]. simpl.
  rewrite Hn. apply runs_ret. eapply run_store; [done|done|]. intros w3 Hat3.
  eapply run_may_panic; [done|done|eauto|]. intros [] w4 _ Hat4; norm_cur Hat4.
  eapply run_call; [done|done|]. intros [api|err] w5 _ Hat5;
    (eapply run_store; [done|done|]; intros w6 Hat6).
  - eapply run_printPeers; [done|done|done|]. intros w7 peers Hat7. apply runs_ret.
    eapply piece_go; [exact Hat7|items_eq|done|by econstructor|done].
  - eapply run_log; [done..|]. intros w7 Hat7. stop Hat7. constructor.
Qed.

Lemma run_start_monitor acfg c w1 gc api gw :
  at_ n c w w1 ->
  (n_state_cb (c_node c) = 0%Z -> E "IPFS state callback is not provided") ->
  (is_Some gc <-> RunGC acfg = true) -> (is_Some api <-> APIAddress acfg <> "") ->
  (is_Some gw <-> GatewayAddress acfg <> "") ->
  runs (start_monitor n gc api gw)
    (fun r w2 => r = IPFS_SUCCESS /\ n_state_cb (c_node c) <> 0%Z /\
       at_ n (cur_go (if any_service acfg then [GMonitorStart (mkMonitor n gc api gw 0 None)] else []) c)
         w w2) E w1.
Proof.
  intros Hat HE H1 H2 H3. unfold start_monitor. eapply run_load; [done|].
  case_decide; [by apply runs_bind, runs_panic, HE|]. apply runs_bind, runs_ret.
  assert (Hany : any_service acfg = true <-> gc <> None \/ api <> None \/ gw <> None).
  { unfold any_service. rewrite !orb_true_iff, !bool_decide_eq_true, !not_eq_None_Some. tauto. }
  case_decide as Hd.
  - rewrite (proj2 Hany Hd). eapply run_go; [done|]. intros w2 Hat2. eapply run_log; [done..|].
    intros w3 Hat3. by apply runs_ret.
  - apply runs_bind, runs_ret. eapply run_log; [done..|]. intros w3 Hat3. apply runs_ret.
    destruct (any_service acfg); [tauto|]. by rewrite cur_go_nil.
Qed.

Lemma services_post_no_monitor acfg cfg node c r a c' :
  services_post acfg cfg node c r a c' -> no_new_monitor c c'.
Proof.
  intros (gc & api & gw & _ & _ & _ & Hg & _) m. rewrite Hg, !elem_of_app.
  intros [Hm|[Hm|[Hm|Hm]]]; [done| | |].
  - destruct gc; simpl in Hm; [by apply list_elem_of_singleton in Hm|by apply elem_of_nil in Hm].
  - apply (no_new_monitor_service c c node (api_opts cfg) api a.1 eq_refl). set_solver.
  - apply (no_new_monitor_service c c node (gateway_opts cfg) gw a.2 eq_refl). set_solver.
Qed.
End pieces.

(** ** The whole of [start_node] *)
Section whole.
Context (n : nat) (nd : Node) (w : World) (acfg : AsioConfig).
Context (Hr : ready w) (HG : GetConfig_loads).

Abbreviation E := (start_panic (n_state_cb nd) acfg).

(** What a successful start leaves, from the cursor [c] on. *)
Definition final (root : string) (c : cursor) (_ : Z) (p : parts) (c' : cursor) : Prop :=
  completed n root p (c_node c) (c_node c') /\ n_state_cb (c_node c') <> 0%Z /\
  flags c' = (c_mprome c, c_plugins c, true) /\
  exists gc api gw, c_gor c' = c_gor c ++ start_gors n acfg p gc api gw /\ start_channels acfg p gc api gw.

Lemma run_start_in_repo c w1 root repo cfg pl :
  at_ n c w w1 -> n_state_cb (c_node c) = n_state_cb nd ->
  n_cctx (c_node c) = Some (open_cctx n root cfg pl) ->
  runs (start_in_repo n acfg repo cfg)
    (piece n w (later_stages root acfg (c_metrics c) (ctx_done w (n_ctx (c_node c))) pl repo cfg) c
       out_final (final root c)) E w1.
Proof.
  intros Hat Hcb Hcctx. unfold start_in_repo, later_stages.
  eapply piece_bind.
  { eapply (run_start_core n w _ Hr c w1 (open_cctx n root cfg pl)); [done|exact Hcctx|].
    intros. by constructor. }
  { intros r a c' (Hg & _). by apply no_new_monitor_eq. }
  { intros [code|] code' c' w2 Ho Hat2; [|done]. destruct Ho as [<- Hne]. apply runs_ret. by split. }
  intros [code|] [pl1 node] c2 w2 Ho Hat2 (Hg2 & Hm2 & Hd & Hn2); [done|]. simpl in Hd, Hn2.
  assert (Hcfg : configured (c_node c2) cfg) by (eexists; by rewrite Hn2).
  assert (Hnode2 : n_node (c_node c2) = Some node) by by rewrite Hn2.
  assert (Hroot : node_root (c_node c2) = root) by by rewrite Hn2.
  pose proof (run_start_services n w E Hr c2 w2 cfg node acfg HG Hat2 Hcfg Hnode2) as Hsv.
  rewrite Hroot in Hsv. eapply piece_bind.
  { apply Hsv. intros. by constructor. }
  { intros r a c'. by eapply (services_post_no_monitor n w). }
  { intros [r|code] code' c' w3 Ho' Hat3; [done|]. destruct Ho' as [<- Hne]. apply runs_ret. by split. }
  intros [r|code] [api_lis gw_lis] c3 w3 Ho3 Hat3 Hp3; [|done].
  destruct Hp3 as (gc & api & gw & [= ->] & Hn3 & Hm3 & Hg3 & H1 & H2 & H3 & H4 & H5).
  assert (Hf3 : flags c3 = flags c) by congruence. injection Hf3 as Hf31 Hf32 Hf33.
  rewrite <- Hf33. eapply piece_bind.
  { eapply (run_start_api _ _ _ Hr _ _ node); [done|by rewrite Hn3| |]; intros; by econstructor. }
  { intros r a c' (Hg & _). by apply no_new_monitor_eq. }
  { intros [code|] code' c' w4 Ho4 Hat4; [|done]. destruct Ho4 as [<- Hne]. apply runs_ret. by split. }
  intros [code|] capi c4 w4 Ho4 Hat4 (Hg4 & Hm4 & Hn4); [done|].
  assert (Hcb4 : n_state_cb (c_node c4) = n_state_cb nd) by by rewrite Hn4, Hn3, Hn2.
  eapply runs_mono; [by eapply (run_start_monitor n w E Hr acfg); [done|rewrite Hcb4; apply panic_callback|..]| |done].
  intros r w5 (-> & Hne & Hat5).
  eapply piece_go; [exact Hat5|by rewrite app_nil_r|done|apply finished_intro|].
  simpl. split; [|split; [done|split]].
  - unfold completed. simpl. rewrite Hn4, Hn3, Hn2. simpl. done.
  - unfold flags in *. simpl. by rewrite Hm4, Hf31, Hf32.
  - exists gc, api, gw. split; [|done]. simpl. rewrite Hg4, Hg3, Hg2. unfold start_gors. simpl.
    by rewrite !app_assoc.
Qed.

Lemma run_start_node jsoncfg root :
  w_nodes w !! n = Some nd -> Unmarshal_AsioConfig GoIntBits jsoncfg = (acfg, None) ->
  runs (start_node jsoncfg n root)
    (piece n w (starts root acfg (w_mprome_injected w) (w_plugins_injected w) (w_mporme_metrics w)
                  (ctx_done w (n_ctx nd)))
       (cur_start nd w) out_final (fun _ p c' =>
          completed n root p nd (c_node c') /\ n_state_cb (c_node c') <> 0%Z /\
          flags c' = (true, true, true) /\
          exists gc api gw, c_gor c' = start_gors n acfg p gc api gw /\ start_channels acfg p gc api gw))
    E w.
Proof.
  intros Hn Hun. unfold start_node, starts. rewrite Hun.
  eapply run_clock; [by apply at_start|]. intros seed w1 Hat1.
  eapply piece_bind.
  { by eapply (run_inject_mprome n w E Hr). }
  { intros r a c' (Hg & _). by apply no_new_monitor_eq. }
  { intros [code|] code' c' w2 Ho Hat2; [|done]. destruct Ho as [<- Hne]. apply runs_ret. by split. }
  intros [code|] [] c2 w2 Ho Hat2 (Hg2 & Hn2 & Hf2); [done|]. injection Hf2 as Hf21 Hf22 Hf23.
  rewrite <- Hf22.
  eapply piece_bind.
  { by eapply (run_start_repo n w E Hr). }
  { intros r a c' (Hg & _). by apply no_new_monitor_eq. }
  { intros [r|code] code' c' w3 Ho' Hat3; [done|]. destruct Ho' as [<- Hne]. apply runs_ret. by split. }
  intros [[repo cfg]|code] [pl rc] c3 w3 Ho3 Hat3 (Hg3 & Hf3 & Hn3); [|done]. simpl in Ho3, Hn3. subst rc.
  injection Hf3 as Hf31 Hf32 Hf33. simpl in Hn3.
  assert (Hnd : c_node c3 = set_n_cctx (Some (open_cctx n root cfg pl)) nd) by by rewrite Hn3, Hn2.
  eapply runs_mono; [eapply (run_start_in_repo c3 w3 root repo cfg pl); [done|by rewrite Hnd..]| |done].
  intros r w4 (c' & l & x & Hat4 & Hl & Hx & HP & Hpost).
  exists c', l, x. rewrite Hnd, Hf33, Hf23 in HP. do 4 (split; [done|]). destruct x as [p|code]; [|done].
  destruct Hpost as (Hc & Hcb & Hf4 & gc & api & gw & Hg4 & Hch).
  split; [unfold completed in *; by rewrite Hnd in Hc|]. split; [done|].
  split; [by rewrite Hf4, Hf31, Hf21, Hf32|]. exists gc, api, gw. split; [|done].
  by rewrite Hg4, Hg3, Hg2.
Qed.

Lemma start_node_bad_config jsoncfg root err :
  w_nodes w !! n = Some nd -> Unmarshal_AsioConfig GoIntBits jsoncfg = (acfg, Some err) ->
  returns (start_node jsoncfg n root)
    (fun r w' => r = IPFS_PARSE_CONFIG_FAIL /\ at_ n (cur_start nd w) w w') w.
Proof.
  intros Hn Hun. unfold start_node. rewrite Hun. apply runs_no_panic.
  eapply run_clock; [by apply at_start|]. intros seed w1 Hat1.
  eapply run_log; [done..|]. intros w2 Hat2. by apply runs_ret.
Qed.
End whole.

(** ** Properties *)

(** C1. Starting a node is a pipeline: the metrics are injected, the plugins
    loaded, the repository created if need be and opened, the node made, its
    plugins started, the services started, the API made.  Each stage's interactions
    are exactly those [starts] allows, with their arguments and results, and the
    first call that fails ends the start with the code of its own stage: nothing
    is called after it, no monitor is started, and of the process's state only the
    node and the injection flags have changed.  A success means that every call that
    can fail the start succeeded, and leaves the node with its context, core node
    (as a daemon), API and metrics collector, all three injection flags set, and
    exactly the goroutines of the services that are on, each on its own channel,
    with a monitor over these channels when there is any.  The process panics only
    for an unknown routing type, an API without addresses, a missing state callback
    or a panicking metrics registry. *)
Theorem start_node_pipeline n nd w acfg jsoncfg repoRoot :
  ready w -> GetConfig_loads -> w_nodes w !! n = Some nd ->
  Unmarshal_AsioConfig GoIntBits jsoncfg = (acfg, None) ->
  runs (start_node jsoncfg n repoRoot)
    (fun r w' => exists c x, at_ n c w w' /\
       starts repoRoot acfg (w_mprome_injected w) (w_plugins_injected w) (w_mporme_metrics w)
         (ctx_done w (n_ctx nd)) (c_items c) x /\
       match x with
       | inr code => r = code /\ code <> IPFS_SUCCESS /\ forall m, GMonitorStart m ∉ c_gor c
       | inl p =>
           r = IPFS_SUCCESS /\ completed n repoRoot p nd (c_node c) /\ n_state_cb (c_node c) <> 0%Z /\
           flags c = (true, true, true) /\
           exists gc api gw, c_gor c = start_gors n acfg p gc api gw /\ start_channels acfg p gc api gw
       end)
    (start_panic (n_state_cb nd) acfg) w.
Proof.
  intros Hr HG Hn Hun.
  eapply runs_mono; [by eapply run_start_node| |done].
  intros r w' (c & l & x & Hat & Hl & Ho & HP & Hx). simpl in Hl. subst l.
  exists c, x. split; [done|]. split; [done|]. destruct x as [p|code]; [done|].
  destruct Ho as [-> Hne]. split; [done|]. split; [done|]. intros m Hm. apply Hx in Hm.
  by apply elem_of_nil in Hm.
Qed.
End start_spec.
