(* ===== verification/Lifecycle.v ===== *)
(** * One node at a time

    The exported functions that allocate, start and free the process's node: the
    slot [g_node] is taken by the first start and given back by [go_asio_ipfs_free]
    alone. *)
From S2P Require Import Prelude GoStrings GoPath GoOs Ext World Toy Effects Log Cancel.
From S2P Require Import Calls Config ConfigSpec Repo RepoSpec Json Settings Progress Serve ServeSpec.
From S2P Require Import Start StartSpec.
#[local] Open Scope go_scope.

Section lifecycle.
Context `{External}.

(** The node's cancel function cancels the node's context, a root context. *)
Definition node_wf (w : World) (n : nat) (nd : Node) : Prop :=
  w_nodes w !! n = Some nd /\ n_cancel nd = n_ctx nd /\ w_ctx_anc w !! n_ctx nd = Some [n_ctx nd].

Definition fresh_node (w : World) (state_cb state_cb_arg : Z) : Node :=
  mkNode (S (w_next w)) None None None None (S (w_next w)) 0 ∅ state_cb state_cb_arg 0.

(** The state [allocate_node] leaves. *)
Record allocated (w : World) (state_cb state_cb_arg : Z) (w' : World) : Prop := mkAllocated {
  al_gnode : w_gnode w' = Some (w_next w);
  al_nodes : w_nodes w' = <[w_next w := fresh_node w state_cb state_cb_arg]> (w_nodes w);
  al_ctx : w_ctx_anc w' = <[S (w_next w) := [S (w_next w)]]> (w_ctx_anc w);
  al_next : w_next w' = S (S (w_next w));
  al_flags : (w_mprome_injected w', w_mporme_metrics w', w_plugins_injected w')
             = (w_mprome_injected w, w_mporme_metrics w, w_plugins_injected w);
  al_rest : (w_cancelled w', w_chans w', w_gor w', w_logger w', w_trace w')
            = (w_cancelled w, w_chans w, w_gor w, w_logger w, w_trace w);
  al_c : (w_cnext w', w_cheap w', w_env w') = (w_cnext w, w_cheap w, w_env w);
}.

Lemma allocate_node_spec state_cb state_cb_arg w :
  returns (allocate_node state_cb state_cb_arg)
    (fun r w' => match w_gnode w with
                 | Some _ => r = IPFS_NODE_EXISTS /\ w' = w
                 | None => r = IPFS_SUCCESS /\ allocated w state_cb state_cb_arg w'
                 end) w.
Proof.
  unfold allocate_node. apply returns_bind, returns_gets.
  destruct (w_gnode w); [by apply returns_ret|].
  unfold returns, wp, fresh, context_WithCancel, bind, gets, modify, ret. simpl.
  split; [done|]. by split.
Qed.

Lemma allocated_wf w cb arg w' :
  allocated w cb arg w' -> node_wf w' (w_next w) (fresh_node w cb arg).
Proof.
  intros []. split; [by rewrite al_nodes0, lookup_insert_eq|]. split; [done|].
  simpl. by rewrite al_ctx0, lookup_insert_eq.
Qed.

Lemma allocated_ready w cb arg w' : allocated w cb arg w' -> ready w -> ready w'.
Proof.
  intros [] [Hl [H1 H2]]. injection al_rest0 as _ _ _ El _. injection al_c0 as E1 E2 _.
  unfold ready, log_ok, heap_ok. by rewrite El, E1, E2.
Qed.

Lemma at_wf n c w w' nd : at_ n c w w' -> node_wf w n nd -> node_wf w' n (c_node c).
Proof.
  intros [] (Hn & Hc & Hx). rewrite at_node, Hn in at_ident. simpl in at_ident.
  injection at_ident. intros. split; [done|]. split; [congruence|]. rewrite at_ctx_anc. congruence.
Qed.

(** [start_node], whatever the configuration: the process slot is untouched. *)
Lemma run_start_any jsoncfg n nd repoRoot w :
  ready w -> GetConfig_loads -> w_nodes w !! n = Some nd ->
  runs (start_node jsoncfg n repoRoot) (fun r w' => exists c, at_ n c w w')
    (start_panic (n_state_cb nd) (Unmarshal_AsioConfig GoIntBits jsoncfg).1) w.
Proof.
  intros Hr HG Hn. destruct (Unmarshal_AsioConfig GoIntBits jsoncfg) as [acfg [err|]] eqn:Hun.
  - apply runs_returns. eapply returns_mono; [by eapply start_node_bad_config|].
    intros r w' [_ Hat]. by eexists.
  - eapply runs_mono; [by eapply run_start_node| |done]. intros r w' (c & l & x & Hat & _). by exists c.
Qed.

(** C20. A failed start keeps the slot: whatever code a blocking start returns, on a
    process without a node it has taken the slot with a new node over the given
    callback, so that every later start is refused with [IPFS_NODE_EXISTS] and
    changes nothing, until the node is freed (the clean-up the source writes,
    [_ = go_asio_ipfs_free], calls nothing). *)
Theorem failed_start_keeps_slot c_cfg c_repo cb arg w :
  ready w -> GetConfig_loads -> w_gnode w = None ->
  let acfg := (Unmarshal_AsioConfig GoIntBits (C_GoString c_cfg)).1 in
  runs (go_asio_ipfs_start_blocking c_cfg c_repo cb arg)
    (fun r w' => w_gnode w' = Some (w_next w) /\
       (exists nd, node_wf w' (w_next w) nd /\ n_state_cb nd = cb /\ n_state_cb_arg nd = arg) /\
       forall c_cfg2 c_repo2 cb2 arg2,
         go_asio_ipfs_start_blocking c_cfg2 c_repo2 cb2 arg2 w' = (Ok IPFS_NODE_EXISTS, w'))
    (start_panic cb acfg) w.
Proof.
  intros Hr HG Hg acfg. unfold go_asio_ipfs_start_blocking at 1.
  eapply runs_step; [apply allocate_node_spec|]. rewrite Hg. intros r w1 [-> Hal].
  rewrite decide_False by tauto. apply run_gets. rewrite (al_gnode _ _ _ _ Hal).
  apply run_deref_some. pose proof (allocated_wf _ _ _ _ Hal) as Hwf.
  pose proof (allocated_ready _ _ _ _ Hal Hr) as Hr1.
  eapply runs_seq.
  { apply (run_start_any (C_GoString c_cfg) (w_next w) (fresh_node w cb arg)); [done..|apply Hwf]. }
  intros r w2 [c Hat].
  assert (Hend : w_gnode w2 = Some (w_next w)) by (by rewrite (at_gnode _ _ _ _ Hat), (al_gnode _ _ _ _ Hal)).
  assert (Hpost : w_gnode w2 = Some (w_next w) /\
       (exists nd, node_wf w2 (w_next w) nd /\ n_state_cb nd = cb /\ n_state_cb_arg nd = arg) /\
       forall c_cfg2 c_repo2 cb2 arg2,
         go_asio_ipfs_start_blocking c_cfg2 c_repo2 cb2 arg2 w2 = (Ok IPFS_NODE_EXISTS, w2)).
  { split; [done|]. split.
    - exists (c_node c). split; [by eapply at_wf|].
      pose proof (at_ident _ _ _ _ Hat) as Hi.
      rewrite (at_node _ _ _ _ Hat), (proj1 Hwf) in Hi. simpl in Hi. injection Hi. done.
    - intros. unfold go_asio_ipfs_start_blocking, allocate_node, bind, gets. by rewrite Hend. }
  case_decide; apply runs_ret; exact Hpost.
Qed.

(** ** Freeing *)

Definition call_if {A} (o : option A) (name : string) : list string :=
  match o with Some _ => [name] | None => [] end.

Definition free_calls (nd : Node) : list string :=
  call_if (n_collector nd) "prometheus.Unregister" ++ call_if (n_node nd) "node.Close" ++
  call_if (n_cctx nd) "plugins.Close".

(** A context and everything derived from it. *)
Definition derived (w : World) (root c : nat) : Prop :=
  exists anc, w_ctx_anc w !! c = Some anc /\ root ∈ anc.

Lemma cancelled_derived w root c :
  root ∈ w_cancelled w -> derived w root c -> ctx_done w c = true.
Proof.
  intros Hr (anc & Ha & Hin). unfold ctx_done. rewrite Ha. simpl. apply existsb_exists.
  exists root. split; [by apply list_elem_of_In|]. by apply bool_decide_eq_true.
Qed.

(** The tail of [go_asio_ipfs_free], after the context is done, never changes the
    node's cancellation. *)
Lemma run_optional_call {A B C} (n : nat) c w w1 E (o : option A) name (op : A -> Ext B) (k : unit -> M World C) Q :
  not_clock name = true -> at_ n c w w1 ->
  (forall w2 l, names l = call_if o name -> at_ n (cur_calls l c) w w2 -> runs (k tt) Q E w2) ->
  runs (bind (match o with Some x => _ <- call name (op x) ;; ret tt | None => ret tt end) k) Q E w1.
Proof.
  intros Hnm Hat Hk. destruct o as [x|]; apply runs_bind.
  - eapply run_call; [done|done|]. intros r w2 _ Hat2. apply runs_ret. by eapply Hk; [|exact Hat2].
  - apply runs_ret. apply (Hk w1 []); [done|]. by rewrite cur_calls_nil.
Qed.

Lemma free_meets n nd w :
  ready w -> w_gnode w = Some n -> node_wf w n nd ->
  returns go_asio_ipfs_free
    (fun r w' => r = IPFS_SUCCESS /\ w_gnode w' = None /\
       calls (w_trace w') = calls (w_trace w) ++ free_calls nd /\
       w_cancelled w' = {[n_ctx nd]} ∪ w_cancelled w /\ w_ctx_anc w' = w_ctx_anc w /\
       callbacks (w_trace w') = callbacks (w_trace w) /\
       w_gor w' = w_gor w /\ w_cheap w' = w_cheap w /\ ready w') w.
Proof.
  intros Hr Hg (Hn & Hc & Hx). apply runs_no_panic. unfold go_asio_ipfs_free.
  apply run_gets. rewrite Hg. apply runs_bind.
  eapply (runs_returns _ (load_node n)), (returns_load_node n nd); [done|].
  apply runs_bind, runs_modify. set (w1 := upd_cancelled _ w).
  apply runs_bind. unfold wait_done. apply run_gets.
  assert (Hdone : ctx_done w1 (n_ctx nd) = true).
  { apply (cancelled_derived w1 (n_ctx nd)); [simpl; rewrite Hc; set_solver|].
    exists [n_ctx nd]. split; [exact Hx|by apply list_elem_of_singleton]. }
  rewrite Hdone. apply runs_ret.
  assert (Hr1 : ready w1) by exact Hr.
  assert (Hat : at_ n (cur_start nd w1) w1 w1) by by apply at_start.
  eapply (run_optional_call n _ _ _ _ (n_collector nd)); [done|exact Hat|]. intros w2 l1 Hl1 Hat2.
  eapply (run_optional_call n _ _ _ _ (n_node nd)); [done|exact Hat2|]. intros w3 l2 Hl2 Hat3.
  rewrite cur_calls_app in Hat3.
  eapply (runs_seq _ _ _ (fun _ w4 => exists c', at_ n c' w1 w4 /\ names (c_items c') = free_calls nd /\ c_gor c' = [])).
  { destruct (n_cctx nd) as [cctx|] eqn:Ecc.
    - eapply run_call; [done|done|]. intros [err pl] w4 _ Hat4; norm_cur Hat4.
      eapply run_store; [done|done|]. intros w5 Hat5.
      assert (Hfc : names (l1 ++ l2) ++ ["plugins.Close"] = free_calls nd)
        by (unfold free_calls; rewrite Ecc, names_app, Hl1, Hl2; simpl; by rewrite <- app_assoc).
      destruct err as [err|]; [eapply run_log_end; [done..|]; intros w6 Hat6|apply runs_ret];
        eexists; (split; [eassumption|]); (split; [|done]); simpl; by rewrite names_app.
    - apply runs_ret. eexists. split; [exact Hat3|]. split; [|done]. simpl. unfold free_calls.
      by rewrite Ecc, app_nil_r, names_app, Hl1, Hl2. }
  intros [] w4 (c' & Hat4 & Hcc & Hgg). apply runs_bind, runs_modify.
  set (w5 := upd_gnode _ w4). eapply runs_step.
  { apply (log_Println_called _ w5). exact (at_ready _ _ _ _ Hat4 Hr1). }
  intros [] w6 Hlog. pose proof (called_ready _ _ _ Hlog (at_ready _ _ _ _ Hat4 Hr1)) as Hr6.
  destruct Hlog as ([] & Hcl & Hcb & _). apply runs_ret. destruct Hat4. rewrite app_nil_r in Hcl.
  split; [done|]. split; [by rewrite sc_gnode|].
  split; [rewrite Hcl; simpl; by rewrite at_calls, Hcc|].
  split; [rewrite sc_cancelled; simpl; rewrite at_cancelled; simpl; by rewrite Hc|].
  split; [rewrite sc_ctx_anc; simpl; by rewrite at_ctx_anc|].
  split; [by rewrite Hcb|].
  split; [rewrite sc_gor; simpl; by rewrite at_gor, Hgg, app_nil_r|].
  split; [rewrite sc_cheap; simpl; by rewrite at_cheap|done].
Qed.

(** C6. Freeing gives everything back: without blocking, it cancels the node's
    context and with it every operation's, leaves alone the contexts of other
    nodes, unregisters the metrics collector, closes the core node and the plugins
    exactly when the node had got that far, and empties the slot; a second call
    reports [IPFS_NO_NODE] and does nothing. *)
Theorem free_releases n nd w :
  ready w -> w_gnode w = Some n -> node_wf w n nd ->
  returns go_asio_ipfs_free
    (fun r w' => r = IPFS_SUCCESS /\ w_gnode w' = None /\
       calls (w_trace w') = calls (w_trace w) ++ free_calls nd /\
       (forall c, derived w (n_ctx nd) c -> ctx_done w' c = true) /\
       (forall c, is_Some (w_ctx_anc w !! c) -> ~ derived w (n_ctx nd) c -> ctx_done w' c = ctx_done w c) /\
       w_cheap w' = w_cheap w /\ go_asio_ipfs_free w' = (Ok IPFS_NO_NODE, w')) w.
Proof.
  intros Hr Hg Hwf. eapply returns_mono; [by eapply free_meets|].
  intros r w' (-> & Hg' & Hc & Hcan & Hanc & _ & _ & Hheap & _). split; [done|]. split; [done|].
  split; [done|]. split.
  { intros c (anc & Ha & Hin). apply (cancelled_derived w' (n_ctx nd)); [set_solver|].
    exists anc. by rewrite Hanc. }
  split.
  { intros c [anc Ha] Hnd. unfold ctx_done. rewrite Hanc, Ha, Hcan. simpl.
    assert (Hnin : n_ctx nd ∉ anc) by (intros Hin; apply Hnd; by exists anc).
    clear Ha Hnd. induction anc as [|x anc IH]; [done|]. simpl. rewrite IH by set_solver.
    f_equal. apply bool_decide_ext. set_solver. }
  split; [done|]. unfold go_asio_ipfs_free, bind, gets. by rewrite Hg'.
Qed.
End lifecycle.

(** ** Witnesses *)
#[local] Existing Instance toy_types.
#[local] Existing Instance toy_ext.

Definition toy_json : string := toy_dump (json_members toy_cpp_config).

(** The settings [toy_json] stands for. *)
Definition toy_settings : AsioConfig := asio_of_config toy_cpp_config.

Lemma toy_settings_parsed : Unmarshal_AsioConfig GoIntBits toy_json = (toy_settings, None).
Proof. vm_compute. reflexivity. Qed.

Definition toy_start : World -> outcome Z * World := go_asio_ipfs_start_blocking toy_json "repo" 100 200.

(** A process that has just allocated its node. *)
Definition toy_allocated (fails : list string) : World := (allocate_node 100 200 (toy_world fails)).2.

Lemma toy_allocated_ready fails : ready (toy_allocated fails).
Proof. split; [done|]. split; [simpl; lia|done]. Qed.

Example toy_start_outcomes :
  map (fun f => (toy_start (toy_world [f])).1)
    [""; "mprome.Inject"; "NewPluginLoader"; "fsrepo.Init"; "fsrepo.Open"; "core.NewNode"; "Start";
     "manet.Listen"; "NewCoreAPI"]
  = [Ok 0; Ok 9; Ok 24; Ok 4; Ok 5; Ok 8; Ok 6; Ok 21; Ok 7]%Z.
Proof. vm_compute. reflexivity. Qed.

Lemma start_node_pipeline_witness :
  (start_node toy_json 0 "repo" (toy_allocated [])).1 = Ok IPFS_SUCCESS /\
  runs (start_node toy_json 0 "repo")
    (fun r w' => r = IPFS_SUCCESS -> exists c p, at_ 0 c (toy_allocated []) w' /\
       starts "repo" toy_settings false false false false (c_items c) (inl p) /\
       completed 0 "repo" p (fresh_node (toy_world []) 100 200) (c_node c))
    (start_panic 100 toy_settings) (toy_allocated []).
Proof.
  split; [vm_compute; reflexivity|].
  eapply runs_mono.
  - apply (start_node_pipeline 0 (fresh_node (toy_world []) 100 200) (toy_allocated []) toy_settings);
      [apply toy_allocated_ready|apply toy_GetConfig_loads|reflexivity|apply toy_settings_parsed].
  - intros r w' (c & [p|code] & Hat & Hs & Hx) ->.
    + exists c, p. split; [exact Hat|]. split; [exact Hs|]. apply Hx.
    + destruct Hx as (Hr & Hne & _). symmetry in Hr. contradiction.
  - done.
Defined.

Lemma failed_start_keeps_slot_witness :
  (toy_start (toy_world ["core.NewNode"])).1 = Ok IPFS_START_NODE_FAILED /\
  runs toy_start (fun r w' => w_gnode w' = Some 0) (start_panic 100 toy_settings) (toy_world ["core.NewNode"]).
Proof.
  split; [vm_compute; reflexivity|].
  eapply runs_mono.
  - apply (failed_start_keeps_slot toy_json "repo" 100 200 (toy_world ["core.NewNode"]));
      [apply toy_ready|apply toy_GetConfig_loads|reflexivity].
  - intros r w' [Hg _]. exact Hg.
  - intros p Hp. assert (Hj : (Unmarshal_AsioConfig GoIntBits (C_GoString toy_json)).1 = toy_settings)
      by (vm_compute; reflexivity).
    rewrite <- Hj. exact Hp.
Defined.

Lemma free_releases_witness :
  let w := (toy_start (toy_world [])).2 in
  (go_asio_ipfs_free w).1 = Ok IPFS_SUCCESS /\
  returns go_asio_ipfs_free (fun r w' => w_gnode w' = None /\
    calls (w_trace w') = calls (w_trace w) ++ ["prometheus.Unregister"; "node.Close"; "plugins.Close"]) w.
Proof.
  intros w. split; [vm_compute; reflexivity|].
  set (nd := default (fresh_node w 0 0) (w_nodes w !! 0)).
  assert (Hl : w_logger w = mkLogger 3 OutStderr) by (vm_compute; reflexivity).
  assert (Hh : w_cheap w = ∅) by (vm_compute; reflexivity).
  assert (Hc : 0 < w_cnext w) by (vm_compute; lia).
  eapply returns_mono.
  - apply (free_releases 0 nd w).
    + split; [unfold log_ok; by rewrite Hl|]. split; [exact Hc|]. intros p _. by rewrite Hh.
    + vm_compute. reflexivity.
    + split; [vm_compute; reflexivity|]. split; vm_compute; reflexivity.
  - intros r w' (_ & Hg & Hcalls & _). split; [exact Hg|]. rewrite Hcalls. f_equal; vm_compute; reflexivity.
Defined.
