(* ===== verification/Bindings.v ===== *)
(** * The operations (ipfs_bindings.go)

    Each exported operation reads its arguments on C++'s thread, registers its
    cancellation, and leaves the work to a goroutine that ends in one callback.
    The [go_asio_ipfs_*] definitions are the synchronous parts, the [run_*]
    definitions the goroutines they start; a third-party call is told whether the
    operation's context was done when the call was made. *)
From S2P Require Import Prelude GoStrings GoPath GoOs Ext World Toy Effects Log Cancel.
From S2P Require Import Calls Config Repo Json Settings Serve Start.
#[local] Open Scope go_scope.

Section bindings.
Context `{External}.

(** ipfs_bindings.go: [go_asio_ipfs_resolve], whose body is commented out. *)
Definition go_asio_ipfs_resolve (cancel_signal : Z) (c_ipns_id : string) (fn fn_arg : Z) : M World unit :=
  ret tt.

(** ** Publishing *)

Definition time_Second : Z := 10 ^ 9.

(** [time.Duration(seconds) * time.Second], in 64 bits. *)
Definition duration_of_seconds (seconds : Z) : Z := i64 (seconds * time_Second).

Definition publish (ctx : nat) (duration : Z) (n : option IpfsNode) (cid : string) : M World (option error) :=
  match path_ParseCidToPath cid with
  | inr err =>
      log_Println ["go_asio_ipfs_publish failed to parse cid " +:+ String dquote ""; cid; String dquote ""] ;;;
      ret (Some err)
  | inl path =>
      node <- deref n ;;
      now <- call "time.Now" time_Now ;;
      let eol := (now + duration)%Z in
      done <- gets (fun w => ctx_done w ctx) ;;
      err <- call "Namesys.PublishWithEOL" (PublishWithEOL done node path eol) ;;
      match err with
      | Some err =>
          log_Println ["go_asio_ipfs_publish PublishWithEOL failed: "; err_msg err] ;;;
          ret (Some err)
      | None => ret None
      end
  end.

Definition go_asio_ipfs_publish (cancel_signal : Z) (cid : string) (seconds fn fn_arg : Z) : M World unit :=
  g <- gets w_gnode ;;
  match g with
  | None => go (GVoidCB fn IPFS_NO_NODE fn_arg)
  | Some n =>
      let id := C_GoString cid in
      cancel_ctx <- withCancel n cancel_signal ;;
      go (GPublish cancel_ctx seconds n id fn fn_arg)
  end.

Definition run_publish (cancel_ctx : nat) (seconds : Z) (n : nat) (id : string) (fn fn_arg : Z) : M World unit :=
  nd <- load_node n ;;
  err <- publish cancel_ctx (duration_of_seconds seconds) (n_node nd) id ;;
  match err with
  | Some _ => C_execute_void_cb fn IPFS_PUBLISH_FAILED fn_arg
  | None => C_execute_void_cb fn IPFS_SUCCESS fn_arg
  end.

(** ** Adding content *)

(** [C.GoBytes(data, C.int(size))], where [data] points to the memory [mem]. *)
Definition go_bytes (mem : string) (size : Z) : M World string :=
  match C_GoBytes mem (i32 size) with Ok msg => ret msg | Panic p => panic p end.

(** The end of a successful data operation: a C copy of the bytes, freed when the
    callback has returned. *)
Definition data_success (fn fn_arg : Z) (bytes : string) : M World unit :=
  cdata <- C_CBytes bytes ;;
  C_execute_data_cb fn IPFS_SUCCESS cdata (Z.of_nat (String.length bytes)) fn_arg ;;;
  C_free cdata.

Definition data_failure (fn code fn_arg : Z) : M World unit := C_execute_data_cb fn code 0 0 fn_arg.

Definition go_asio_ipfs_calc_cid (cancel_signal : Z) (data : string) (size fn fn_arg : Z) : M World unit :=
  g <- gets w_gnode ;;
  match g with
  | None => go (GDataCB fn IPFS_NO_NODE fn_arg)
  | Some n =>
      msg <- go_bytes data size ;;
      cancel_ctx <- withCancel n cancel_signal ;;
      go (GCalcCid cancel_ctx n msg fn fn_arg)
  end.

Definition run_calc_cid (cancel_ctx n : nat) (msg : string) (fn fn_arg : Z) : M World unit :=
  nd <- load_node n ;;
  api <- deref (n_api nd) ;;
  done <- gets (fun w => ctx_done w cancel_ctx) ;;
  p <- call "Unixfs.Add" (Unixfs_Add api done msg (Unixfs_HashOnly true)) ;;
  match p with
  | inr err =>
      log_Println ["Error: failed to calculate cid "; err_msg err] ;;;
      data_failure fn IPFS_CALC_CID_FAILED fn_arg
  | inl cid => data_success fn fn_arg (Cid_String cid)
  end.

Definition go_asio_ipfs_add (cancel_signal : Z) (data : string) (size : Z) (pin : bool) (fn fn_arg : Z) :
    M World unit :=
  g <- gets w_gnode ;;
  match g with
  | None => go (GDataCB fn IPFS_NO_NODE fn_arg)
  | Some n =>
      msg <- go_bytes data size ;;
      cancel_ctx <- withCancel n cancel_signal ;;
      go (GAdd cancel_ctx n msg pin fn fn_arg)
  end.

Definition run_add (cancel_ctx n : nat) (msg : string) (pin : bool) (fn fn_arg : Z) : M World unit :=
  nd <- load_node n ;;
  api <- deref (n_api nd) ;;
  done <- gets (fun w => ctx_done w cancel_ctx) ;;
  p <- call "Unixfs.Add" (Unixfs_Add api done msg (Unixfs_Pin pin)) ;;
  match p with
  | inr err =>
      log_Println ["Error: failed to insert content "; err_msg err] ;;;
      data_failure fn IPFS_ADD_FAILED fn_arg
  | inl cid => data_success fn fn_arg (Cid_String cid)
  end.

(** ** Reading content *)

Definition go_asio_ipfs_cat (cancel_signal : Z) (c_cid : string) (fn fn_arg : Z) : M World unit :=
  g <- gets w_gnode ;;
  match g with
  | None => go (GDataCB fn IPFS_NO_NODE fn_arg)
  | Some n =>
      let cid := C_GoString c_cid in
      cancel_ctx <- withCancel n cancel_signal ;;
      go (GCat cancel_ctx n cid fn fn_arg)
  end.

Definition run_cat (cancel_ctx n : nat) (cid : string) (fn fn_arg : Z) : M World unit :=
  let path := corepath_New cid in
  nd <- load_node n ;;
  api <- deref (n_api nd) ;;
  done <- gets (fun w => ctx_done w cancel_ctx) ;;
  f <- call "Unixfs.Get" (Unixfs_Get api done path) ;;
  match f with
  | inr err =>
      log_Printf (line "go_asio_ipfs_cat failed to Cat %q") [FStr (err_msg err)] ;;;
      data_failure fn IPFS_CAT_FAILED fn_arg
  | inl FN_Directory =>
      log_Printf (line "go_asio_ipfs_cat path corresponds to a directory") [] ;;;
      data_failure fn IPFS_CAT_FAILED fn_arg
  | inl FN_Other =>
      log_Printf (line "go_asio_ipfs_cat unsupported type") [] ;;;
      data_failure fn IPFS_CAT_FAILED fn_arg
  | inl (FN_File file) =>
      bytes <- call "ioutil.ReadAll" (ioutil_ReadAll file) ;;
      match bytes with
      | inr err =>
          log_Println ["go_asio_ipfs_cat failed to read"] ;;;
          data_failure fn IPFS_READ_FAILED fn_arg
      | inl bytes => data_success fn fn_arg bytes
      end
  end.

(** ** Pins *)

Definition go_asio_ipfs_pin (cancel_signal : Z) (c_cid : string) (fn fn_arg : Z) : M World unit :=
  g <- gets w_gnode ;;
  match g with
  | None => go (GVoidCB fn IPFS_NO_NODE fn_arg)
  | Some n =>
      let cid := C_GoString c_cid in
      cancel_ctx <- withCancel n cancel_signal ;;
      go (GPin cancel_ctx n cid fn fn_arg)
  end.

Definition run_pin (cancel_ctx n : nat) (cid : string) (fn fn_arg : Z) : M World unit :=
  let path := corepath_New cid in
  nd <- load_node n ;;
  api <- deref (n_api nd) ;;
  done <- gets (fun w => ctx_done w cancel_ctx) ;;
  err <- call "Pin.Add" (Pin_Add api done path) ;;
  match err with
  | Some err =>
      log_Printf (line "go_asio_ipfs_pin failed to pin %q %q") [FStr cid; FStr (err_msg err)] ;;;
      C_execute_void_cb fn IPFS_PIN_FAILED fn_arg
  | None => C_execute_void_cb fn IPFS_SUCCESS fn_arg
  end.

Definition go_asio_ipfs_unpin (cancel_signal : Z) (c_cid : string) (fn fn_arg : Z) : M World unit :=
  g <- gets w_gnode ;;
  match g with
  | None => go (GVoidCB fn IPFS_NO_NODE fn_arg)
  | Some n =>
      let cid := C_GoString c_cid in
      cancel_ctx <- withCancel n cancel_signal ;;
      go (GUnpin cancel_ctx n cid fn fn_arg)
  end.

Definition run_unpin (cancel_ctx n : nat) (cid : string) (fn fn_arg : Z) : M World unit :=
  let path := corepath_New cid in
  nd <- load_node n ;;
  api <- deref (n_api nd) ;;
  done <- gets (fun w => ctx_done w cancel_ctx) ;;
  err <- call "Pin.Rm" (Pin_Rm api done path) ;;
  match err with
  | Some err =>
      log_Printf (line "go_asio_ipfs_unpin failed to unpin %q %q") [FStr cid; FStr (err_msg err)] ;;;
      C_execute_void_cb fn IPFS_UNPIN_FAILED fn_arg
  | None => C_execute_void_cb fn IPFS_SUCCESS fn_arg
  end.

(** ** The operations as one family

    What C++ asks for, the handler it calls, the goroutine that serves it. *)
Inductive request :=
| RPublish (cid : string) (seconds : Z)
| RCalcCid (data : string) (size : Z)
| RAdd (data : string) (size : Z) (pin : bool)
| RCat (cid : string)
| RPin (cid : string)
| RUnpin (cid : string)
| RGc.

Definition handle (r : request) (cancel_signal fn fn_arg : Z) : M World unit :=
  match r with
  | RPublish cid seconds => go_asio_ipfs_publish cancel_signal cid seconds fn fn_arg
  | RCalcCid data size => go_asio_ipfs_calc_cid cancel_signal data size fn fn_arg
  | RAdd data size pin => go_asio_ipfs_add cancel_signal data size pin fn fn_arg
  | RCat cid => go_asio_ipfs_cat cancel_signal cid fn fn_arg
  | RPin cid => go_asio_ipfs_pin cancel_signal cid fn fn_arg
  | RUnpin cid => go_asio_ipfs_unpin cancel_signal cid fn fn_arg
  | RGc => go_asio_ipfs_gc cancel_signal fn fn_arg
  end.

(** The body of a goroutine started by an operation, or by a refused one. *)
Definition run_op (g : Goroutine) : M World unit :=
  match g with
  | GVoidCB fn code fn_arg => C_execute_void_cb fn code fn_arg
  | GDataCB fn code fn_arg => data_failure fn code fn_arg
  | GStart cfg n repoRoot fn fn_arg => run_start cfg n repoRoot fn fn_arg
  | GPublish cancel_ctx seconds n id fn fn_arg => run_publish cancel_ctx seconds n id fn fn_arg
  | GCalcCid cancel_ctx n msg fn fn_arg => run_calc_cid cancel_ctx n msg fn fn_arg
  | GAdd cancel_ctx n msg pin fn fn_arg => run_add cancel_ctx n msg pin fn fn_arg
  | GCat cancel_ctx n cid fn fn_arg => run_cat cancel_ctx n cid fn fn_arg
  | GPin cancel_ctx n cid fn fn_arg => run_pin cancel_ctx n cid fn fn_arg
  | GUnpin cancel_ctx n cid fn fn_arg => run_unpin cancel_ctx n cid fn fn_arg
  | GGc cancel_ctx n fn fn_arg => run_gc_op cancel_ctx n fn fn_arg
  | _ => ret tt
  end.
End bindings.
