(* ===== verification/BindingsSpec.v ===== *)
(** * What the operations promise

    The goroutine of an operation answers once, with the reply an abstract
    specification computes from the third-party results; the synchronous part
    only registers the cancellation and queues that goroutine. *)
From S2P Require Import Prelude GoStrings GoPath GoOs Ext World Toy Effects Log Cancel.
From S2P Require Import Calls Config ConfigSpec Repo RepoSpec Json Settings Progress Serve ServeSpec.
From S2P Require Import Start StartSpec Lifecycle Bindings.
#[local] Open Scope go_scope.

Section bindings_spec.
Context `{External}.

(** ** Replies *)

Record reply := mkReply { rp_code : Z; rp_data : option string }.

Definition ok_data (s : string) : reply := mkReply IPFS_SUCCESS (Some s).

Definition failed (code : Z) : reply := mkReply code None.

Definition of_error (code : Z) (e : option error) : reply :=
  match e with Some _ => failed code | None => mkReply IPFS_SUCCESS None end.

Definition void_event (fn fn_arg : Z) (r : reply) : event := EVoidCB fn (rp_code r) fn_arg.

Definition data_event (fn fn_arg : Z) (r : reply) : event :=
  EDataCB fn (rp_code r) (rp_data r)
    (match rp_data r with Some s => Z.of_nat (String.length s) | None => 0%Z end) fn_arg.

(** The specification of an operation: the reply, from the API and the core node
    of the process, the state of the operation's context and the environment. *)
Definition reply_of (api : CoreAPI) (node : IpfsNode) (done : bool) (g : Goroutine) (e : Env) : reply :=
  match g with
  | GPublish _ seconds _ id _ _ =>
      match path_ParseCidToPath id with
      | inr _ => failed IPFS_PUBLISH_FAILED
      | inl path =>
          let '(now, e1) := time_Now e in
          of_error IPFS_PUBLISH_FAILED
            (PublishWithEOL done node path (now + duration_of_seconds seconds)%Z e1).1
      end
  | GCalcCid _ _ msg _ _ =>
      match (Unixfs_Add api done msg (Unixfs_HashOnly true) e).1 with
      | inl cid => ok_data (Cid_String cid)
      | inr _ => failed IPFS_CALC_CID_FAILED
      end
  | GAdd _ _ msg pin _ _ =>
      match (Unixfs_Add api done msg (Unixfs_Pin pin) e).1 with
      | inl cid => ok_data (Cid_String cid)
      | inr _ => failed IPFS_ADD_FAILED
      end
  | GCat _ _ cid _ _ =>
      let '(f, e1) := Unixfs_Get api done (corepath_New cid) e in
      match f with
      | inl (FN_File file) =>
          match (ioutil_ReadAll file e1).1 with
          | inl bytes => ok_data bytes
          | inr _ => failed IPFS_READ_FAILED
          end
      | _ => failed IPFS_CAT_FAILED
      end
  | GPin _ _ cid _ _ => of_error IPFS_PIN_FAILED (Pin_Add api done (corepath_New cid) e).1
  | GUnpin _ _ cid _ _ => of_error IPFS_UNPIN_FAILED (Pin_Rm api done (corepath_New cid) e).1
  | GGc _ _ _ _ => of_error IPFS_GC_FAILED (GarbageCollect node done e).1
  | GVoidCB _ code _ | GDataCB _ code _ => failed code
  | _ => failed IPFS_SUCCESS
  end.

(** The operation a goroutine serves: its context, its node, and how it answers. *)
Definition op_of (g : Goroutine) : option (nat * nat * (reply -> event)) :=
  match g with
  | GPublish c _ n _ fn a => Some (c, n, void_event fn a)
  | GCalcCid c n _ fn a => Some (c, n, data_event fn a)
  | GAdd c n _ _ fn a => Some (c, n, data_event fn a)
  | GCat c n _ fn a => Some (c, n, data_event fn a)
  | GPin c n _ fn a => Some (c, n, void_event fn a)
  | GUnpin c n _ fn a => Some (c, n, void_event fn a)
  | GGc c n fn a => Some (c, n, void_event fn a)
  | _ => None
  end.

(** [w'] is [w] after some calls and log lines and exactly one callback, [e]; the
    glue's own state and the C heap are what they were. *)
Definition answered (e : event) (w w' : World) : Prop :=
  same_core w w' /\ callbacks (w_trace w') = callbacks (w_trace w) ++ [e].

Lemma answered_after cs e w w1 w2 : called cs w w1 -> answered e w1 w2 -> answered e w w2.
Proof.
  intros (S1 & _ & C1 & _) [S2 C2]. split; [by etransitivity|]. by rewrite C2, C1.
Qed.

Lemma one_event_answered e w w' : is_callback e = true -> one_event e w w' -> answered e w w'.
Proof.
  intros He (Hs & Ht & _). split; [done|]. rewrite Ht, callbacks_app. f_equal.
  unfold callbacks. rewrite filter_cons, decide_True by done. done.
Qed.

(** ** The ends of the handlers *)
Section ends.
Context (w w1 : World) (cs : list item) (Hc : called cs w w1) (Hr : ready w).

Lemma end_void fn code fn_arg :
  returns (C_execute_void_cb fn code fn_arg) (fun _ w' => answered (EVoidCB fn code fn_arg) w w') w1.
Proof.
  apply returns_modify. eapply answered_after; [exact Hc|].
  apply one_event_answered; [done|]. split; [by split|done].
Qed.

Lemma end_failure fn code fn_arg :
  returns (data_failure fn code fn_arg) (fun _ w' => answered (data_event fn fn_arg (failed code)) w w') w1.
Proof.
  apply returns_modify. eapply answered_after; [exact Hc|].
  apply one_event_answered; [done|]. split; [by split|done].
Qed.

Lemma end_success fn fn_arg bytes :
  returns (data_success fn fn_arg bytes) (fun _ w' => answered (data_event fn fn_arg (ok_data bytes)) w w') w1.
Proof.
  assert (Hr1 : ready w1) by by eapply called_ready. destruct Hr1 as [_ Hh].
  eapply returns_mono with (Q := fun _ w' => one_event (data_event fn fn_arg (ok_data bytes)) w1 w').
  - pose proof (show_block bytes (fun s => EDataCB fn IPFS_SUCCESS (Some s)
      (Z.of_nat (String.length bytes)) fn_arg) w1 Hh) as Hs.
    unfold data_success, C_CBytes, C_execute_data_cb. unfold returns, wp, bind, C_malloc in *. simpl in *.
    rewrite decide_False by (destruct Hh; lia). exact Hs.
  - intros [] w2 H2. eapply answered_after; [exact Hc|]. by apply one_event_answered.
Qed.
End ends.

Lemma returns_read_node n nd {B} (k : Node -> M World B) Q w :
  w_nodes w !! n = Some nd -> returns (k nd) Q w -> returns (bind (load_node n) k) Q w.
Proof. intros Hn Hk. apply returns_bind. by eapply returns_load_node. Qed.

Lemma step_clock {A B} (w w1 : World) cs name (op : Ext A) (k : A -> M World B) Q :
  called cs w w1 -> (name ∈ clocks) ->
  (forall a w2, op (w_env w1) = (a, w_env w2) -> called (cs ++ [read_clock op a]) w w2 ->
     returns (k a) Q w2) ->
  returns (bind (call name op) k) Q w1.
Proof.
  intros Hc Hn Hk. apply returns_bind. eapply returns_mono; [by apply clock_read|].
  intros a w2 [Hc2 He]. apply Hk; [done|]. by eapply called_trans.
Qed.

Lemma called_done cs w w1 c : called cs w w1 -> ctx_done w1 c = ctx_done w c.
Proof. intros [[] _]. unfold ctx_done. by rewrite sc_ctx_anc, sc_cancelled. Qed.

(** ** One lemma per operation *)
Section operations.
Context (w : World) (n ctx : nat) (nd : Node) (node : IpfsNode) (api : CoreAPI).
Context (Hr : ready w) (Hn : w_nodes w !! n = Some nd).
Context (Hnode : n_node nd = Some node) (Hapi : n_api nd = Some api).

Abbreviation answers g m :=
  (match op_of g with
   | Some (_, _, ev) =>
       returns m (fun _ w' => answered (ev (reply_of api node (ctx_done w ctx) g (w_env w))) w w') w
   | None => True
   end).

Lemma run_publish_answers seconds id fn a :
  answers (GPublish ctx seconds n id fn a) (run_publish ctx seconds n id fn a).
Proof.
  simpl. unfold run_publish. eapply returns_read_node; [done|]. rewrite Hnode. unfold publish.
  destruct (path_ParseCidToPath id) as [path|err].
  2:{ apply returns_bind. eapply step_log; [apply called_refl|done|]. intros w1 H1.
      apply returns_ret. by eapply end_void. }
  apply returns_bind. apply returns_bind, returns_ret.
  eapply step_clock; [apply called_refl|set_solver|]. intros now w1 E1 H1. rewrite E1.
  apply returns_bind, returns_gets. rewrite (called_done _ _ _ _ H1).
  eapply step_call; [done|done|]. intros [err|] w2 E2 H2; rewrite E2.
  - eapply step_log; [done|done|]. intros w3 H3. apply returns_ret. by eapply end_void.
  - apply returns_ret. by eapply end_void.
Qed.

Lemma run_calc_cid_answers msg fn a :
  answers (GCalcCid ctx n msg fn a) (run_calc_cid ctx n msg fn a).
Proof.
  simpl. unfold run_calc_cid. eapply returns_read_node; [done|]. rewrite Hapi.
  apply returns_bind, returns_ret. apply returns_bind, returns_gets.
  eapply step_call; [apply called_refl|done|]. intros [cid|err] w1 E1 H1; rewrite E1; simpl.
  - by eapply end_success.
  - eapply step_log; [done|done|]. intros w2 H2. by eapply end_failure.
Qed.

Lemma run_add_answers msg pin fn a :
  answers (GAdd ctx n msg pin fn a) (run_add ctx n msg pin fn a).
Proof.
  simpl. unfold run_add. eapply returns_read_node; [done|]. rewrite Hapi.
  apply returns_bind, returns_ret. apply returns_bind, returns_gets.
  eapply step_call; [apply called_refl|done|]. intros [cid|err] w1 E1 H1; rewrite E1; simpl.
  - by eapply end_success.
  - eapply step_log; [done|done|]. intros w2 H2. by eapply end_failure.
Qed.

Lemma run_cat_answers cid fn a : answers (GCat ctx n cid fn a) (run_cat ctx n cid fn a).
Proof.
  simpl. unfold run_cat. cbv zeta. eapply returns_read_node; [done|]. rewrite Hapi.
  apply returns_bind, returns_ret. apply returns_bind, returns_gets.
  eapply step_call; [apply called_refl|done|]. intros f w1 E1 H1. rewrite E1.
  destruct f as [[file| |]|err].
  - eapply step_call; [done|done|]. intros [bytes|err] w2 E2 H2; rewrite E2; simpl.
    + by eapply end_success.
    + eapply step_log; [done|done|]. intros w3 H3. by eapply end_failure.
  - eapply step_logf; [done|done|]. intros w2 H2. by eapply end_failure.
  - eapply step_logf; [done|done|]. intros w2 H2. by eapply end_failure.
  - eapply step_logf; [done|done|]. intros w2 H2. by eapply end_failure.
Qed.

Lemma run_pin_answers cid fn a : answers (GPin ctx n cid fn a) (run_pin ctx n cid fn a).
Proof.
  simpl. unfold run_pin. cbv zeta. eapply returns_read_node; [done|]. rewrite Hapi.
  apply returns_bind, returns_ret. apply returns_bind, returns_gets.
  eapply step_call; [apply called_refl|done|]. intros [err|] w1 E1 H1; rewrite E1; simpl.
  - eapply step_logf; [done|done|]. intros w2 H2. by eapply end_void.
  - by eapply end_void.
Qed.

Lemma run_unpin_answers cid fn a : answers (GUnpin ctx n cid fn a) (run_unpin ctx n cid fn a).
Proof.
  simpl. unfold run_unpin. cbv zeta. eapply returns_read_node; [done|]. rewrite Hapi.
  apply returns_bind, returns_ret. apply returns_bind, returns_gets.
  eapply step_call; [apply called_refl|done|]. intros [err|] w1 E1 H1; rewrite E1; simpl.
  - eapply step_logf; [done|done|]. intros w2 H2. by eapply end_void.
  - by eapply end_void.
Qed.

Lemma run_gc_answers fn a : answers (GGc ctx n fn a) (run_gc_op ctx n fn a).
Proof.
  simpl. unfold run_gc_op, executeVoidCB. eapply returns_read_node; [done|]. rewrite Hnode.
  apply returns_bind, returns_gets.
  eapply step_call; [apply called_refl|done|]. intros [err|] w1 E1 H1; rewrite E1; simpl.
  - eapply step_logf; [done|done|]. intros w2 H2. by eapply end_void.
  - by eapply end_void.
Qed.
End operations.

Lemma run_op_answers g ctx n ev nd node api w :
  ready w -> op_of g = Some (ctx, n, ev) -> w_nodes w !! n = Some nd ->
  n_node nd = Some node -> n_api nd = Some api ->
  returns (run_op g)
    (fun _ w' => answered (ev (reply_of api node (ctx_done w ctx) g (w_env w))) w w') w.
Proof.
  intros Hr Hop Hn Hnode Hapi.
  destruct g; simpl in Hop; try done; injection Hop as -> -> <-; simpl run_op.
  - by eapply (run_publish_answers w n ctx nd node api).
  - by eapply (run_calc_cid_answers w n ctx nd node api).
  - by eapply (run_add_answers w n ctx nd node api).
  - by eapply (run_cat_answers w n ctx nd node api).
  - by eapply (run_pin_answers w n ctx nd node api).
  - by eapply (run_unpin_answers w n ctx nd node api).
  - by eapply (run_gc_answers w n ctx nd node api).
Qed.

(** ** The synchronous parts *)

(** The goroutine of an accepted request, with context [c], on node [n]; reading
    the caller's buffer may panic. *)
Definition queued (r : request) (c n : nat) (fn a : Z) : outcome Goroutine :=
  let bytes data size mk :=
    match C_GoBytes data (i32 size) with Ok msg => Ok (mk msg) | Panic p => Panic p end in
  match r with
  | RPublish cid seconds => Ok (GPublish c seconds n (c_str cid) fn a)
  | RCalcCid data size => bytes data size (fun msg => GCalcCid c n msg fn a)
  | RAdd data size pin => bytes data size (fun msg => GAdd c n msg pin fn a)
  | RCat cid => Ok (GCat c n (c_str cid) fn a)
  | RPin cid => Ok (GPin c n (c_str cid) fn a)
  | RUnpin cid => Ok (GUnpin c n (c_str cid) fn a)
  | RGc => Ok (GGc c n fn a)
  end.

(** The goroutine that refuses a request. *)
Definition refusal (r : request) (fn a : Z) : Goroutine :=
  match r with
  | RCalcCid _ _ | RAdd _ _ _ | RCat _ => GDataCB fn IPFS_NO_NODE a
  | RPublish _ _ | RPin _ | RUnpin _ | RGc => GVoidCB fn IPFS_NO_NODE a
  end.

(** [w'] is [w] with one more cancellable context, registered under the signal, and
    one more goroutine. *)
Record accepted (n : nat) (nd : Node) (sig : Z) (g : Goroutine) (w w' : World) : Prop := mkAccepted {
  ac_gor : w_gor w' = w_gor w ++ [g];
  ac_nodes : w_nodes w' = <[n := set_n_cancel_signals (<[sig := w_next w]> (n_cancel_signals nd)) nd]> (w_nodes w);
  ac_ctx : w_ctx_anc w' = <[w_next w := [w_next w; n_ctx nd]]> (w_ctx_anc w);
  ac_next : w_next w' = S (w_next w);
  ac_gnode : w_gnode w' = w_gnode w;
  ac_cancelled : w_cancelled w' = w_cancelled w;
  ac_trace : w_trace w' = w_trace w;
  ac_env : w_env w' = w_env w;
  ac_logger : w_logger w' = w_logger w;
  ac_cheap : w_cheap w' = w_cheap w;
  ac_cnext : w_cnext w' = w_cnext w;
}.

Lemma withCancel_go n nd sig w (g : nat -> Goroutine) :
  w_nodes w !! n = Some nd -> w_ctx_anc w !! n_ctx nd = Some [n_ctx nd] ->
  returns (ctx <- withCancel n sig ;; go (g ctx)) (fun _ w' => accepted n nd sig (g (w_next w)) w w') w.
Proof.
  intros Hn Hx. apply returns_bind. eapply withCancel_spec; [done..|].
  intros w' E1 E2 E3 E4 E5 E6 E7 E8 E9 E10 E11. apply returns_modify. split; simpl; try congruence.
Qed.

Lemma handle_accepts r sig fn a n nd w g :
  w_gnode w = Some n -> w_nodes w !! n = Some nd -> w_ctx_anc w !! n_ctx nd = Some [n_ctx nd] ->
  queued r (w_next w) n fn a = Ok g ->
  returns (handle r sig fn a) (fun _ w' => accepted n nd sig g w w') w.
Proof.
  intros Hg Hn Hx Hq. destruct r; simpl in *;
    (apply returns_bind, returns_gets; rewrite Hg);
    try (injection Hq as <-; by apply (withCancel_go n nd sig w)).
  - apply returns_bind. unfold go_bytes. destruct (C_GoBytes data (i32 size)) as [msg|p]; [|done].
    injection Hq as <-. apply returns_ret. by apply (withCancel_go n nd sig w (fun c => GCalcCid c n msg fn a)).
  - apply returns_bind. unfold go_bytes. destruct (C_GoBytes data (i32 size)) as [msg|p]; [|done].
    injection Hq as <-. apply returns_ret. by apply (withCancel_go n nd sig w (fun c => GAdd c n msg pin fn a)).
Qed.

Lemma handle_panics r sig fn a n w p :
  w_gnode w = Some n -> queued r (w_next w) n fn a = Panic p -> handle r sig fn a w = (Panic p, w).
Proof.
  intros Hg Hq. destruct r; simpl in *; try done;
    unfold go_asio_ipfs_calc_cid, go_asio_ipfs_add, go_bytes, bind, gets; rewrite Hg;
    destruct (C_GoBytes data (i32 size)) as [msg|q]; try done; by injection Hq as ->.
Qed.

Lemma handle_refuses r sig fn a w :
  w_gnode w = None -> handle r sig fn a w = (Ok tt, upd_gor (fun l => l ++ [refusal r fn a]) w).
Proof.
  intros Hg. destruct r; simpl;
    unfold go_asio_ipfs_publish, go_asio_ipfs_calc_cid, go_asio_ipfs_add, go_asio_ipfs_cat,
      go_asio_ipfs_pin, go_asio_ipfs_unpin, go_asio_ipfs_gc, bind, gets, go, modify; by rewrite Hg.
Qed.

(** ** Machine integers *)

Lemma string_take_prefix k s : String.prefix (string_take k s) s = true.
Proof.
  apply prefix_true. exists (string_drop k s).
  revert k. induction s as [|c s IH]; intros [|k]; simpl; try done. by rewrite <- IH.
Qed.

Lemma go_bytes_cases mem size :
  (0 <= size < 2 ^ 64)%Z ->
  C_GoBytes mem (i32 size)
  = if decide (size mod 2 ^ 32 < 2 ^ 31)%Z
    then Ok (string_take (Z.to_nat (size mod 2 ^ 32)) mem)
    else Panic "gobytes: length out of range".
Proof.
  intros Hs. unfold C_GoBytes, i32.
  pose proof (Z.mod_pos_bound size (2 ^ 32)). pose proof (Z.mod_pos_bound (size + 2 ^ 31) (2 ^ 32)).
  assert (Hm : ((size + 2 ^ 31) mod 2 ^ 32 = if decide (size mod 2 ^ 32 < 2 ^ 31)
            then size mod 2 ^ 32 + 2 ^ 31 else size mod 2 ^ 32 - 2 ^ 31)%Z).
  { rewrite Zplus_mod. rewrite (Z.mod_small (2 ^ 31)) by lia. case_decide.
    - rewrite Z.mod_small; lia.
    - symmetry. apply (Z.mod_unique _ _ 1); lia. }
  rewrite Hm. case_decide.
  - rewrite decide_False by lia. f_equal. f_equal. lia.
  - rewrite decide_True by lia. done.
Qed.

Lemma duration_exact s :
  duration_of_seconds s = (s * 10 ^ 9)%Z <-> (- 9223372036 <= s <= 9223372036)%Z.
Proof. unfold duration_of_seconds, time_Second. rewrite i64_id_iff. lia. Qed.

(** ** Properties *)

(** C3. Every operation answers exactly once and with the specified reply: on a
    node that has been started, the goroutine of a publish, calc-cid, add, cat,
    pin, unpin or gc returns after exactly one callback, whose code and data are
    those of the abstract specification [reply_of] (success with the content, or
    the operation's own error code and a NULL block), and leaves the glue's state
    and the C heap as they were. *)
Theorem operation_replies g ctx n ev nd node api w :
  ready w -> op_of g = Some (ctx, n, ev) -> w_nodes w !! n = Some nd ->
  n_node nd = Some node -> n_api nd = Some api ->
  returns (run_op g)
    (fun _ w' => same_core w w' /\
       callbacks (w_trace w')
       = callbacks (w_trace w) ++ [ev (reply_of api node (ctx_done w ctx) g (w_env w))]) w.
Proof. apply run_op_answers. Qed.

(** C9. A request is read, registered and queued, or refused: without a node it
    queues a callback with [IPFS_NO_NODE] and does nothing else; with one, it
    derives a context from the node's, registers it under the signal and queues
    the operation's goroutine with the C arguments as Go values; no callback is
    made on the caller's thread.  A buffer that cannot be read panics first. *)
Theorem request_queues r sig fn a w :
  match w_gnode w with
  | None =>
      handle r sig fn a w = (Ok tt, upd_gor (fun l => l ++ [refusal r fn a]) w) /\
      returns (run_op (refusal r fn a)) (fun _ w' => exists e, answered e w w' /\
         (e = EVoidCB fn IPFS_NO_NODE a \/ e = EDataCB fn IPFS_NO_NODE None 0 a)) w
  | Some n => forall nd, w_nodes w !! n = Some nd -> w_ctx_anc w !! n_ctx nd = Some [n_ctx nd] ->
      match queued r (w_next w) n fn a with
      | Ok g => returns (handle r sig fn a) (fun _ w' => accepted n nd sig g w w') w
      | Panic p => handle r sig fn a w = (Panic p, w)
      end
  end.
Proof.
  destruct (w_gnode w) as [n|] eqn:Hg.
  - intros nd Hn Hx. destruct (queued r (w_next w) n fn a) as [g|p] eqn:Hq;
      [by eapply handle_accepts|by eapply handle_panics].
  - split; [by apply handle_refuses|].
    destruct r; simpl; (eapply returns_mono; [by first [apply (end_failure w w []), called_refl
                                                       |apply (end_void w w []), called_refl]|]);
      intros [] w' Hw'; eexists; (split; [exact Hw'|]); auto.
Qed.

(** The handler [m] read its content's bytes from [data], asked for [size] of them,
    and queued the goroutine [g] makes of them; or it panicked first. *)
Definition reads_content (data : string) (size : Z) (m : M World unit) (g : string -> Goroutine) (w : World) : Prop :=
  if decide (size mod 2 ^ 32 < 2 ^ 31)%Z then
    returns m (fun _ w' => exists msg, w_gor w' = w_gor w ++ [g msg] /\
      Z.of_nat (String.length msg) = (size mod 2 ^ 32)%Z /\ String.prefix msg data = true /\
      (Z.of_nat (String.length msg) = size <-> (size < 2 ^ 31)%Z)) w
  else m w = (Panic "gobytes: length out of range", w).

Lemma handle_reads r sig fn a n nd w data size g :
  w_gnode w = Some n -> w_nodes w !! n = Some nd -> w_ctx_anc w !! n_ctx nd = Some [n_ctx nd] ->
  (0 <= size < 2 ^ 64)%Z -> (size <= Z.of_nat (String.length data))%Z ->
  queued r (w_next w) n fn a
  = match C_GoBytes data (i32 size) with Ok msg => Ok (g msg) | Panic p => Panic p end ->
  reads_content data size (handle r sig fn a) g w.
Proof.
  intros Hg Hn Hx Hs Hl Hq. rewrite go_bytes_cases in Hq by done. unfold reads_content.
  pose proof (Z.mod_pos_bound size (2 ^ 32)). case_decide; [|by eapply handle_panics].
  eapply returns_mono; [by eapply handle_accepts|]. intros [] w' Hac. eexists. split; [apply Hac|].
  rewrite string_take_length.
  assert (Hle : (size mod 2 ^ 32 <= size)%Z) by (apply Z.mod_le; lia).
  assert (E : Z.of_nat (Z.to_nat (size mod 2 ^ 32) `min` String.length data) = (size mod 2 ^ 32)%Z) by lia.
  rewrite E. split; [done|]. split; [apply string_take_prefix|].
  split; [lia|]. intros. apply Z.mod_small. lia.
Qed.

(** C21. Content sizes are taken modulo 2^32: adding content of [size] bytes, or
    calculating its cid, on a process with a node, queues exactly the caller's bytes
    when [size] is below 2^31; otherwise, when the low 32 bits of [size] are below
    2^31, it silently queues that many of the first bytes only, which is fewer than
    asked for, and when they are not it panics before anything is registered. *)
Theorem request_size data size pin sig fn a n nd w :
  w_gnode w = Some n -> w_nodes w !! n = Some nd -> w_ctx_anc w !! n_ctx nd = Some [n_ctx nd] ->
  (0 <= size < 2 ^ 64)%Z -> (size <= Z.of_nat (String.length data))%Z ->
  reads_content data size (go_asio_ipfs_add sig data size pin fn a)
    (fun msg => GAdd (w_next w) n msg pin fn a) w /\
  reads_content data size (go_asio_ipfs_calc_cid sig data size fn a)
    (fun msg => GCalcCid (w_next w) n msg fn a) w.
Proof.
  intros. split.
  - by apply (handle_reads (RAdd data size pin) sig fn a n nd).
  - by apply (handle_reads (RCalcCid data size) sig fn a n nd).
Qed.

(** C22. A publish makes one call, with a lifetime that is exact up to 9223372036
    seconds (292 years) either way: it reads the clock once and asks for an end of
    life that is this time plus the requested seconds as a 64-bit number of
    nanoseconds, which wraps beyond; the callback then carries the call's outcome. *)
Theorem publish_lifetime seconds ctx n nd node id path fn a w :
  ready w -> w_nodes w !! n = Some nd -> n_node nd = Some node -> path_ParseCidToPath id = inl path ->
  returns (run_publish ctx seconds n id fn a)
    (fun _ w' => exists now eol err w1,
       called [read_clock time_Now now;
               did "Namesys.PublishWithEOL" (PublishWithEOL (ctx_done w ctx) node path eol) err] w w1 /\
       answered (EVoidCB fn (match err with Some _ => IPFS_PUBLISH_FAILED | None => IPFS_SUCCESS end) a) w1 w' /\
       eol = (now + i64 (seconds * 10 ^ 9))%Z /\
       (eol = now + seconds * 10 ^ 9 <-> - 9223372036 <= seconds <= 9223372036)%Z) w.
Proof.
  intros Hr Hn Hnode Hp. pose proof (duration_exact seconds) as Hexact.
  unfold run_publish. eapply returns_read_node; [done|]. rewrite Hnode. unfold publish. rewrite Hp.
  apply returns_bind. apply returns_bind, returns_ret.
  eapply step_clock; [apply called_refl|set_solver|]. intros now w1 _ H1.
  apply returns_bind, returns_gets. rewrite (called_done _ _ _ _ H1).
  eapply step_call; [done|done|]. unfold duration_of_seconds, time_Second in *.
  intros [err|] w2 _ H2.
  - eapply step_log; [done|done|]. intros w3 H3. apply returns_ret.
    eapply returns_mono; [eapply (end_void w3), called_refl|]. intros [] w4 H4.
    eexists _, _, _, _. split; [exact H3|]. split; [exact H4|]. split; [done|]. lia.
  - apply returns_ret. eapply returns_mono; [eapply (end_void w2), called_refl|]. intros [] w4 H4.
    eexists _, _, _, _. split; [exact H2|]. split; [exact H4|]. split; [done|]. lia.
Qed.

Lemma accepted_ready n nd sig g w w' : accepted n nd sig g w w' -> ready w -> ready w'.
Proof.
  intros Hac [Hl Hh]. unfold ready, log_ok, heap_ok.
  by rewrite (ac_logger _ _ _ _ _ _ Hac), (ac_cheap _ _ _ _ _ _ Hac), (ac_cnext _ _ _ _ _ _ Hac).
Qed.

(** C10. Cancelling through a request's signal reaches its operation: the goroutine
    of a request cancelled before it runs makes its third-party call with a done
    context; freeing the signal first instead detaches it, and the operation runs
    as if it had not been cancelled. *)
Theorem cancel_reaches_operation r sig fn a w n nd node api g ev (freed : bool) :
  ready w -> w_gnode w = Some n -> w_nodes w !! n = Some nd -> n_ctx nd < w_next w ->
  w_ctx_anc w !! n_ctx nd = Some [n_ctx nd] -> ctx_done w (n_ctx nd) = false ->
  (forall c, c ∈ w_cancelled w -> c < w_next w) ->
  n_node nd = Some node -> n_api nd = Some api ->
  queued r (w_next w) n fn a = Ok g -> op_of g = Some (w_next w, n, ev) ->
  returns (handle r sig fn a ;;;
           (if freed then go_asio_ipfs_cancellation_free sig else ret tt) ;;;
           go_asio_ipfs_cancel sig ;;;
           run_op g)
    (fun _ w' => callbacks (w_trace w')
                 = callbacks (w_trace w) ++ [ev (reply_of api node (negb freed) g (w_env w))]) w.
Proof.
  intros Hr Hg Hn Hlt Hx Hnd Hfresh Hnode Hapi Hq Hop. apply returns_bind.
  eapply returns_mono; [by eapply handle_accepts|]. intros [] w1 Hac.
  pose proof (accepted_ready _ _ _ _ _ _ Hac Hr) as Hr1. destruct Hac as [Egor Enodes Ectx Enext Egn Ecan Etr Eenv Elog Eheap Ecn].
  set (nd1 := set_n_cancel_signals (<[sig:=w_next w]> (n_cancel_signals nd)) nd) in *.
  assert (Hn1 : w_nodes w1 !! n = Some nd1) by (by rewrite Enodes, lookup_insert_eq).
  assert (Hnot : n_ctx nd ∉ w_cancelled w).
  { intros Hin. unfold ctx_done in Hnd. rewrite Hx in Hnd. simpl in Hnd.
    rewrite bool_decide_eq_true_2 in Hnd by done. done. }
  destruct freed; simpl.
  - unfold go_asio_ipfs_cancellation_free. apply returns_bind, returns_bind, returns_gets.
    rewrite Egn, Hg. apply returns_modify. unfold go_asio_ipfs_cancel.
    apply returns_bind, returns_bind, returns_gets. simpl. rewrite Egn, Hg. apply returns_bind.
    eapply (returns_load_node n (set_n_cancel_signals (delete sig (n_cancel_signals nd1)) nd1));
      [simpl; by rewrite lookup_alter_eq, Hn1|]. simpl. rewrite lookup_delete_eq. apply returns_ret.
    match goal with |- returns _ _ ?w2 => set (w2' := w2) end.
    assert (Hdone : ctx_done w2' (w_next w) = false).
    { unfold ctx_done. simpl. rewrite Ectx, lookup_insert_eq, Ecan. simpl.
      rewrite !bool_decide_eq_false_2; [done|done|]. intros Hin. apply Hfresh in Hin. lia. }
    eapply returns_mono; [eapply (run_op_answers g _ _ _ (set_n_cancel_signals (delete sig (n_cancel_signals nd1)) nd1) node api w2');
      [exact Hr1|exact Hop| |exact Hnode|exact Hapi]|].
    { simpl. by rewrite lookup_alter_eq, Hn1. }
    intros [] w3 [_ Hcb]. rewrite Hcb, Hdone. simpl. by rewrite Etr, Eenv.
  - apply returns_bind, returns_ret. unfold go_asio_ipfs_cancel.
    apply returns_bind, returns_bind, returns_gets. rewrite Egn, Hg. apply returns_bind.
    eapply (returns_load_node n nd1); [done|]. simpl. rewrite lookup_insert_eq. apply returns_modify.
    match goal with |- returns _ _ ?w2 => set (w2' := w2) end.
    assert (Hdone : ctx_done w2' (w_next w) = true).
    { unfold ctx_done. simpl. rewrite Ectx, lookup_insert_eq. simpl.
      by rewrite bool_decide_eq_true_2 by set_solver. }
    eapply returns_mono; [eapply (run_op_answers g _ _ _ nd1 node api w2'); [exact Hr1|exact Hop|exact Hn1|exact Hnode|exact Hapi]|].
    intros [] w3 [_ Hcb]. rewrite Hcb, Hdone. simpl. by rewrite Etr, Eenv.
Qed.

(** C24. Operations on a node whose start has not finished: the slot is visible as
    soon as it is allocated.  While the node has no core API, the goroutine of a
    calc-cid, add, cat, pin or unpin panics on the nil interface, and so stops the
    process with nothing called and no callback made.  While it has no core node, a
    publish panics likewise once its cid has been parsed, and reports a failure when
    it cannot be; a gc hands the nil node to the collector, and reports the error
    the collector returns unless the collector panics. *)
Theorem operation_before_start g ctx n ev nd w :
  ready w -> op_of g = Some (ctx, n, ev) -> w_nodes w !! n = Some nd ->
  match g with
  | GCalcCid _ _ _ _ _ | GAdd _ _ _ _ _ _ | GCat _ _ _ _ _ | GPin _ _ _ _ _ | GUnpin _ _ _ _ _ =>
      n_api nd = None -> run_op g w = (Panic nil_deref, w)
  | GPublish _ _ _ id _ _ => n_node nd = None ->
      match path_ParseCidToPath id with
      | inl _ => run_op g w = (Panic nil_deref, w)
      | inr _ => returns (run_op g) (fun _ w' => answered (ev (failed IPFS_PUBLISH_FAILED)) w w') w
      end
  | GGc _ _ _ _ => n_node nd = None ->
      match (GarbageCollect_nil (ctx_done w ctx) (w_env w)).1 with
      | Panic p => (run_op g w).1 = Panic p
      | Ok err => returns (run_op g) (fun _ w' => answered (ev (of_error IPFS_GC_FAILED err)) w w') w
      end
  | _ => True
  end.
Proof.
  intros Hr Hop Hn. destruct g; simpl in Hop; try done; injection Hop as -> -> <-; simpl; intros Hnil.
  2-6: unfold run_calc_cid, run_add, run_cat, run_pin, run_unpin, load_node, bind, gets, deref;
       rewrite Hn; simpl; by rewrite Hnil.
  - destruct (path_ParseCidToPath id) as [path|err] eqn:Hp; unfold run_publish, publish.
    + unfold load_node, bind, gets, deref. rewrite Hn. simpl. by rewrite Hp, Hnil.
    + eapply returns_read_node; [done|]. rewrite Hp. apply returns_bind.
      eapply step_log; [apply called_refl|done|]. intros w1 H1. apply returns_ret. by eapply end_void.
  - unfold run_gc_op, executeVoidCB, call_may_panic.
    destruct (GarbageCollect_nil (ctx_done w ctx) (w_env w)) as [[err|p] e] eqn:Hgc; simpl.
    + eapply returns_read_node; [done|]. rewrite Hnil. apply returns_bind, returns_gets, returns_bind.
      eapply step_call; [apply called_refl|done|]. intros r w1 E1 H1. rewrite Hgc in E1.
      injection E1 as <- _. apply returns_ret. destruct err as [err|]; [|by eapply end_void].
      eapply step_logf; [done|done|]. intros w2 H2. by eapply end_void.
    + unfold load_node, bind, gets, deref. rewrite Hn. simpl. rewrite Hnil. simpl.
      unfold bind, call. by rewrite Hgc.
Qed.
End bindings_spec.

(** ** Witnesses *)
#[local] Existing Instance toy_types.
#[local] Existing Instance toy_ext.

Definition toy_api : @CoreAPI toy_types := tt.

Definition toy_running : World := toy_running_world [] toy_config.

Lemma operation_replies_witness :
  returns (run_op (GAdd 5 0 "hello" true 7 9))
    (fun _ w' => callbacks (w_trace w') = [EDataCB 7 0 (Some "Qmhello") 7 9] /\ w_cheap w' = ∅)
    toy_running /\
  returns (run_op (GPublish 5 0 0 "" 7 9))
    (fun _ w' => callbacks (w_trace w') = [EVoidCB 7 17 9]) toy_running.
Proof.
  split.
  - eapply returns_mono.
    + apply (operation_replies (GAdd 5 0 "hello" true 7 9) 5 0 (data_event 7 9)
               (toy_running_node toy_config) toy_ipfs toy_api toy_running);
        [apply toy_running_ready|reflexivity|reflexivity|reflexivity|reflexivity].
    + intros [] w' [[] Hcb]. split; [rewrite Hcb; vm_compute; reflexivity|exact sc_cheap].
  - eapply returns_mono.
    + apply (operation_replies (GPublish 5 0 0 "" 7 9) 5 0 (void_event 7 9)
               (toy_running_node toy_config) toy_ipfs toy_api toy_running);
        [apply toy_running_ready|reflexivity|reflexivity|reflexivity|reflexivity].
    + intros [] w' [_ Hcb]. rewrite Hcb. vm_compute. reflexivity.
Defined.

Lemma request_queues_witness :
  returns (handle (RAdd "hello" 5 true) 0 7 9)
    (fun _ w' => w_gor w' = [GAdd 2 0 "hello" true 7 9] /\ w_trace w' = []) toy_running /\
  handle (RCat "Qm") 0 7 9 (toy_world []) = (Ok tt, upd_gor (fun l => l ++ [GDataCB 7 12 9]) (toy_world [])).
Proof.
  split.
  - eapply returns_mono.
    + apply (request_queues (RAdd "hello" 5 true) 0 7 9 toy_running (toy_running_node toy_config));
        reflexivity.
    + intros [] w' [Hgor _ _ _ _ _ Htr _ _ _ _]. split; [exact Hgor|exact Htr].
  - apply (request_queues (RCat "Qm") 0 7 9 (toy_world [])).
Defined.

(** All the bytes are queued. *)
Lemma request_size_witness :
  returns (go_asio_ipfs_add 0 "hello" 5 true 7 9)
    (fun _ w' => exists msg, w_gor w' = [GAdd 2 0 msg true 7 9] /\ Z.of_nat (String.length msg) = 5%Z)
    toy_running /\
  C_GoBytes "hello" (i32 (2 ^ 32 + 2)) = Ok "he" /\
  C_GoBytes "hello" (i32 (2 ^ 31)) = Panic "gobytes: length out of range".
Proof.
  split; [|split; reflexivity].
  destruct (request_size "hello" 5 true 0 7 9 0 (toy_running_node toy_config) toy_running) as [H1 _];
    [reflexivity|reflexivity|reflexivity|lia|simpl; lia|].
  unfold reads_content in H1. rewrite decide_True in H1 by reflexivity.
  eapply returns_mono; [exact H1|]. intros [] w' (msg & Hg & Hl & _). exists msg. split; [exact Hg|exact Hl].
Defined.

Lemma publish_lifetime_witness :
  returns (run_publish 5 60 0 "Qm" 7 9)
    (fun _ w' => exists now err w1, called [read_clock time_Now now;
       did "Namesys.PublishWithEOL" (PublishWithEOL false toy_ipfs "Qm" (now + 60 * 10 ^ 9)%Z) err] toy_running w1)
    toy_running.
Proof.
  eapply returns_mono.
  - apply (publish_lifetime 60 5 0 (toy_running_node toy_config) toy_ipfs "Qm" "Qm" 7 9 toy_running);
      [apply toy_running_ready|reflexivity|reflexivity|reflexivity].
  - intros [] w' (now & eol & err & w1 & Hc & _ & _ & He). exists now, err, w1.
    rewrite (proj2 He) in Hc by lia. exact Hc.
Defined.

Lemma cancel_reaches_operation_witness :
  returns (handle (RPin "Qm") 4 7 9 ;;; ret tt ;;; go_asio_ipfs_cancel 4 ;;; run_op (GPin 2 0 "Qm" 7 9))
    (fun _ w' => callbacks (w_trace w') = [EVoidCB 7 0 9]) toy_running.
Proof.
  eapply returns_mono.
  - apply (cancel_reaches_operation (RPin "Qm") 4 7 9 toy_running 0 (toy_running_node toy_config) toy_ipfs toy_api
             (GPin 2 0 "Qm" 7 9) (void_event 7 9) false);
      first [apply toy_running_ready | reflexivity | simpl; lia | set_solver].
  - intros [] w' Hcb. rewrite Hcb. vm_compute. reflexivity.
Defined.

Lemma operation_before_start_witness :
  run_op (GCat 5 0 "Qm" 7 9) (toy_allocated []) = (Panic nil_deref, toy_allocated []) /\
  (run_op (GGc 5 0 7 9) (toy_allocated [])).1 = Panic "nil node".
Proof.
  split.
  - apply (operation_before_start (GCat 5 0 "Qm" 7 9) 5 0 (data_event 7 9) (fresh_node (toy_world []) 100 200));
      first [apply toy_allocated_ready | reflexivity].
  - change (match (GarbageCollect_nil (ctx_done (toy_allocated []) 5) (w_env (toy_allocated []))).1 with
            | Panic p => (run_op (GGc 5 0 7 9) (toy_allocated [])).1 = Panic p
            | Ok err => returns (run_op (GGc 5 0 7 9)) (fun _ w' =>
                answered (void_event 7 9 (of_error IPFS_GC_FAILED err)) (toy_allocated []) w') (toy_allocated [])
            end).
    apply (operation_before_start (GGc 5 0 7 9) 5 0 (void_event 7 9) (fresh_node (toy_world []) 100 200)
             (toy_allocated []));
      [apply toy_allocated_ready | reflexivity | reflexivity | reflexivity].
Defined.
