(* ===== verification/Monitor.v ===== *)
(** * The state monitor (ipfs_node.go) and the goroutines it listens to

    The goroutine [start_node] leaves behind when a service is on: it reports the
    peer count when it changes, and the last service error when the node stops.
    A [select] takes one of the ready cases, so its choice is a parameter, as is what
    the rest of the process does while the loop waits; the senders are the servers of ipfs_api.go and the collector of ipfs_gc.go. *)
From S2P Require Import Prelude GoStrings GoPath GoOs Ext World Toy Effects Log Cancel.
From S2P Require Import Calls Config Serve Progress.
#[local] Open Scope go_scope.

Section monitor.
Context `{External}.

(** ** The senders *)

(** A goroutine blocks in a send on the channel. *)
Definition chan_send (errc : nat) (err : option error) (gc : bool) : M World unit :=
  modify (upd_chans (alter (fun c => mkChan (ch_sendq c ++ [(err, gc)]) (ch_wg c) (ch_closed c)) errc)).

(** [close(errc)]; closing twice panics. *)
Definition chan_close (errc : nat) : M World unit :=
  o <- gets (fun w => w_chans w !! errc) ;;
  c <- deref o ;;
  (if ch_closed c then panic "close of closed channel" else ret tt) ;;;
  modify (upd_chans (alter (fun c => mkChan (ch_sendq c) (ch_wg c) true) errc)).

(** [errc <- corehttp.Serve(node, lis, opts...)], up to the send. *)
Definition run_serve (errc : nat) (node : IpfsNode) (lis : Listener) (opts : list ServeOption) : M World unit :=
  err <- call "corehttp.Serve" (corehttp_Serve node lis opts) ;;
  chan_send errc err false.

(** The collector's goroutine up to its send, and after it. *)
Definition run_periodic_gc (n errc : nat) : M World unit :=
  log_Println ["IPFS GC launched"] ;;;
  nd <- load_node n ;;
  done <- gets (fun w => ctx_done w (n_ctx nd)) ;;
  err <- match n_node nd with
         | Some node => call "corerepo.PeriodicGC" (PeriodicGC done node)
         | None => call_may_panic "corerepo.PeriodicGC" (PeriodicGC_nil done)
         end ;;
  chan_send errc err true.

Definition run_close_gc (errc : nat) : M World unit :=
  chan_close errc ;;;
  log_Println ["IPFS GC thread is closed"].

(** [wg.Wait(); close(errc)], once every server is done. *)
Definition run_wait_close (errc : nat) : M World unit := chan_close errc.

(** ** The receiver *)

Definition chan_ready (w : World) (ch : option nat) : bool :=
  match ch with
  | None => false
  | Some c => match w_chans w !! c with
              | Some ch => match ch_sendq ch with _ :: _ => true | [] => ch_closed ch end
              | None => false
              end
  end.

(** [<- ch]: the first blocked sender's value; its goroutine goes on.  A closed
    channel gives nil. *)
Definition chan_recv (ch : option nat) : M World (option error) :=
  c <- deref ch ;;
  o <- gets (fun w => w_chans w !! c) ;;
  chn <- deref o ;;
  match ch_sendq chn with
  | (err, gc) :: rest =>
      (if gc : bool then
         modify (upd_chans <[c := mkChan rest (ch_wg chn) (ch_closed chn)]>) ;;;
         go (GCloseGC c)
       else modify (upd_chans <[c := mkChan rest (pred (ch_wg chn)) (ch_closed chn)]>)) ;;;
      ret err
  | [] => if ch_closed chn then ret None else panic "receive on an open channel without senders"
  end.

Definition totalPeers (n : nat) : M World Z :=
  nd <- load_node n ;;
  collector <- deref (n_collector nd) ;;
  vals <- call "collector.PeersTotalValues" (PeersTotalValues collector) ;;
  ret (u32 (float_uint32 (foldl float_add float_zero vals))).

(** Up to the loop: the first report. *)
Definition run_monitor_start (m : Monitor) : M World unit :=
  log_Println ["IPFS state monitor is launched"] ;;;
  pcnt <- totalPeers (mon_node m) ;;
  report <- makeStateCB (mon_node m) ;;
  report None pcnt ;;;
  go (GMonitor (mkMonitor (mon_node m) (mon_gcErrc m) (mon_apiErrc m) (mon_gwErrc m) pcnt (mon_lasterr m))).

(** The cases of the [select]. *)
Inductive sel := SelGC | SelAPI | SelGW | SelTick | SelDone.

Definition sel_ready (w : World) (m : Monitor) (s : sel) : bool :=
  match s with
  | SelGC => chan_ready w (mon_gcErrc m)
  | SelAPI => chan_ready w (mon_apiErrc m)
  | SelGW => chan_ready w (mon_gwErrc m)
  | SelTick => true
  | SelDone => match w_nodes w !! mon_node m with
               | Some nd => ctx_done w (n_ctx nd)
               | None => false
               end
  end.

Definition set_gcErrc (m : Monitor) : Monitor :=
  mkMonitor (mon_node m) None (mon_apiErrc m) (mon_gwErrc m) (mon_pcnt m) (mon_lasterr m).

Definition set_apiErrc (m : Monitor) : Monitor :=
  mkMonitor (mon_node m) (mon_gcErrc m) None (mon_gwErrc m) (mon_pcnt m) (mon_lasterr m).

Definition set_gwErrc (m : Monitor) : Monitor :=
  mkMonitor (mon_node m) (mon_gcErrc m) (mon_apiErrc m) None (mon_pcnt m) (mon_lasterr m).

Definition set_pcnt (p : Z) (m : Monitor) : Monitor :=
  mkMonitor (mon_node m) (mon_gcErrc m) (mon_apiErrc m) (mon_gwErrc m) p (mon_lasterr m).

Definition set_lasterr (e : error) (m : Monitor) : Monitor :=
  mkMonitor (mon_node m) (mon_gcErrc m) (mon_apiErrc m) (mon_gwErrc m) (mon_pcnt m) (Some e).

(** A receiving case: an error is logged and kept, nil disables the channel. *)
Definition on_recv (what : string) (clear : Monitor -> Monitor) (m : Monitor) (err : option error) :
    M World Monitor :=
  match err with
  | Some err => log_Println [what; err_msg err] ;;; ret (set_lasterr err m)
  | None => ret (clear m)
  end.

(** One iteration of the loop; [None] is the return of the goroutine. *)
Definition monitor_step (m : Monitor) (s : sel) : M World (option Monitor) :=
  nd <- load_node (mon_node m) ;;
  let report := stateCB (n_state_cb nd) (n_state_cb_arg nd) in
  let continue m :=
    (if decide (mon_lasterr m <> None) then cancel_func (n_cancel nd) else ret tt) ;;;
    ret (Some m) in
  match s with
  | SelGC =>
      err <- chan_recv (mon_gcErrc m) ;;
      m <- on_recv "IPFS gc error: " set_gcErrc m err ;;
      continue m
  | SelAPI =>
      err <- chan_recv (mon_apiErrc m) ;;
      m <- on_recv "IPFS API error: " set_apiErrc m err ;;
      continue m
  | SelGW =>
      err <- chan_recv (mon_gwErrc m) ;;
      m <- on_recv "IPFS Gateway error: " set_gwErrc m err ;;
      continue m
  | SelTick =>
      ncnt <- totalPeers (mon_node m) ;;
      m <- (if decide (mon_pcnt m <> ncnt) then
              let m := set_pcnt ncnt m in
              report None (mon_pcnt m) ;;;
              ret m
            else ret m) ;;
      continue m
  | SelDone =>
      report (mon_lasterr m) 0%Z ;;;
      log_Println ["IPFS state monitor is stopped"] ;;;
      ret None
  end.

(** The loop along a schedule: a choice of its [select], or something the rest of the
    process does while the loop waits. *)
Inductive move :=
| Choose (s : sel)
| Elsewhere (f : World -> World).

Fixpoint monitor_loop (m : Monitor) (ms : list move) : M World (option Monitor) :=
  match ms with
  | [] => ret (Some m)
  | Elsewhere f :: ms' => modify f ;;; monitor_loop m ms'
  | Choose s :: ms' =>
      r <- monitor_step m s ;;
      match r with
      | Some m' => monitor_loop m' ms'
      | None => ret None
      end
  end.
End monitor.
