(* ===== verification/MonitorSpec.v ===== *)
(** * What the state monitor promises

    Along any schedule of choices of its [select] and of what happens elsewhere: the
    state callbacks are the changes of the peer count, an error of a service stops
    the node, and the last report carries the last such error. *)
From S2P Require Import Prelude GoStrings GoPath GoOs Ext World Toy Effects Log Cancel.
From S2P Require Import Calls Config ConfigSpec Repo RepoSpec Json Settings Progress Serve ServeSpec.
From S2P Require Import Start StartSpec Lifecycle Monitor.
#[local] Open Scope go_scope.

Section monitor_spec.
Context `{External}.

(** ** The frame of the monitor *)

(** Only channels, goroutines, cancelled contexts, the trace and the third-party
    state move, and C++ is called back with [es]. *)
Record monitored (es : list event) (w w' : World) : Prop := mkMonitored {
  mo_nodes : w_nodes w' = w_nodes w;
  mo_ctx : w_ctx_anc w' = w_ctx_anc w;
  mo_logger : w_logger w' = w_logger w;
  mo_cheap : w_cheap w' = w_cheap w;
  mo_cnext : w_cnext w <= w_cnext w';
  mo_cancelled : w_cancelled w ⊆ w_cancelled w';
  mo_callbacks : callbacks (w_trace w') = callbacks (w_trace w) ++ es;
}.

Lemma monitored_refl w : monitored [] w w.
Proof. split; try done. by rewrite app_nil_r. Qed.

Lemma monitored_trans es1 es2 w1 w2 w3 :
  monitored es1 w1 w2 -> monitored es2 w2 w3 -> monitored (es1 ++ es2) w1 w3.
Proof.
  intros [A1 A2 A3 A4 A5 A6 A7] [B1 B2 B3 B4 B5 B6 B7].
  split; try congruence; try lia; [set_solver|]. by rewrite B7, A7, app_assoc.
Qed.

Lemma called_monitored cs w w' : called cs w w' -> monitored [] w w'.
Proof.
  intros ([] & _ & Hcb & _). split; try done; [by rewrite sc_cancelled|]. by rewrite Hcb, app_nil_r.
Qed.

Lemma monitored_ready es w w' : monitored es w w' -> ready w -> ready w'.
Proof.
  intros [A1 A2 A3 A4 A5 A6 A7] [Hl [H1 H2]]. unfold ready, log_ok, heap_ok. rewrite A3, A4.
  split; [done|]. split; [lia|]. intros p Hp. apply H2. lia.
Qed.

(** ** Its steps *)
Section steps.
Context {B : Type} (E : string -> Prop) (w w1 : World) (es : list event).
Context (Hm : monitored es w w1) (Hr : ready w).

Lemma mon_quiet {A} (m : M World A) (k : A -> M World B) (P : A -> World -> Prop) Q :
  returns m (fun a w2 => called [] w1 w2 /\ P a w2) w1 ->
  (forall a w2, monitored es w w2 -> P a w2 -> runs (k a) Q E w2) ->
  runs (bind m k) Q E w1.
Proof.
  intros Hq Hk. eapply runs_step; [exact Hq|]. intros a w2 [Hc HP]. apply Hk; [|done].
  rewrite <- (app_nil_r es). eapply monitored_trans; [done|]. by eapply called_monitored.
Qed.

Lemma mon_log l (k : unit -> M World B) Q :
  (forall w2, monitored es w w2 -> w_cancelled w2 = w_cancelled w1 -> runs (k tt) Q E w2) ->
  runs (bind (log_Println l) k) Q E w1.
Proof.
  intros Hk. eapply (mon_quiet (log_Println l) k (fun _ w2 => w_cancelled w2 = w_cancelled w1)).
  - eapply returns_mono; [apply log_Println_called; by eapply monitored_ready|].
    intros a w2 Hc. split; [done|]. by destruct Hc as [[] _].
  - intros []. apply Hk.
Qed.

Lemma mon_load n nd (k : Node -> M World B) Q :
  w_nodes w !! n = Some nd -> runs (k nd) Q E w1 -> runs (bind (load_node n) k) Q E w1.
Proof.
  intros Hn Hk. apply runs_bind. eapply (runs_returns E (load_node n)).
  eapply returns_load_node; [|exact Hk]. by rewrite (mo_nodes _ _ _ Hm).
Qed.


(** The report: [Some] error as a C string, freed afterwards. *)
Definition state_event (nd : Node) (err : option error) (cnt : Z) : event :=
  EStateCB (n_state_cb nd) (n_state_cb_arg nd) ((fun e => c_str (err_msg e)) <$> err) (u32 cnt).

Lemma mon_report nd err cnt (k : unit -> M World B) Q :
  (forall w2, monitored (es ++ [state_event nd err cnt]) w w2 -> w_cancelled w2 = w_cancelled w1 ->
     runs (k tt) Q E w2) ->
  runs (bind (stateCB (n_state_cb nd) (n_state_cb_arg nd) err cnt) k) Q E w1.
Proof.
  intros Hk. eapply (runs_step E _ _ (fun _ w2 => one_event (state_event nd err cnt) w1 w2)).
  - unfold stateCB, state_event. destruct err as [e|]; simpl.
    + pose proof (monitored_ready _ _ _ Hm Hr) as [_ Hh]. rewrite <- (c_str_app_nul (err_msg e)).
      pose proof (show_block (err_msg e +:+ String Ascii.zero "")
        (fun t => EStateCB (n_state_cb nd) (n_state_cb_arg nd) (Some (c_str t)) (u32 cnt)) w1 Hh) as Hs.
      unfold C_CString, C_execute_state_cb. unfold returns, wp, bind, C_malloc in *. simpl in *.
      rewrite decide_False by (destruct Hh; lia). exact Hs.
    + apply returns_modify. split; [by split|done].
  - intros [] w2 Hone. apply Hk; [|by destruct Hone as ([] & _ & _)].
    eapply monitored_trans; [exact Hm|]. destruct Hone as ([] & Ht & _). split; try done.
    + by rewrite sc_cancelled.
    + rewrite Ht, callbacks_app. f_equal.
Qed.

End steps.

(** ** What the monitor is told *)

(** The peer count a node's collector gives. *)
Definition peer_count (collector : IpfsNode) (e : Env) : Z :=
  u32 (float_uint32 (foldl float_add float_zero (PeersTotalValues collector e).1)).

Lemma mon_total {B} (E : string -> Prop) w w1 es n nd collector (k : Z -> M World B) Q :
  monitored es w w1 -> w_nodes w !! n = Some nd -> n_collector nd = Some collector ->
  (forall w2, monitored es w w2 -> w_cancelled w2 = w_cancelled w1 ->
     runs (k (peer_count collector (w_env w1))) Q E w2) ->
  runs (bind (totalPeers n) k) Q E w1.
Proof.
  intros Hm Hn Hc Hk. apply runs_bind. unfold totalPeers. eapply mon_load; [done|done|].
  rewrite Hc. apply runs_bind, runs_ret. eapply runs_step;
    [apply call_called; apply (bool_decide_unpack _); reflexivity|].
  intros vals w2 (Hcall & e & He & _). apply runs_ret. unfold peer_count in Hk. rewrite He in Hk.
  apply Hk; [|by destruct Hcall as [[] _]].
  rewrite <- (app_nil_r es). eapply monitored_trans; [done|]. by eapply called_monitored.
Qed.

(** What a ready case tells the loop: the first blocked sender's value, nil from a
    closed channel, the peer count, or that the node's context is done. *)
Inductive look :=
| Received (err : option error)
| Counted (cnt : Z)
| Stopped.

#[export] Instance look_eq_dec : EqDecision look.
Proof. solve_decision. Defined.

Definition head_of (w : World) (ch : option nat) : option error :=
  match ch with
  | Some c => match w_chans w !! c with
              | Some chn => match ch_sendq chn with (err, _) :: _ => err | [] => None end
              | None => None
              end
  | None => None
  end.

Definition look_at (collector : IpfsNode) (w : World) (m : Monitor) (s : sel) : look :=
  match s with
  | SelGC => Received (head_of w (mon_gcErrc m))
  | SelAPI => Received (head_of w (mon_apiErrc m))
  | SelGW => Received (head_of w (mon_gwErrc m))
  | SelTick => Counted (peer_count collector (w_env w))
  | SelDone => Stopped
  end.

Lemma recv_ready ch w :
  chan_ready w ch = true ->
  returns (chan_recv ch)
    (fun v w' => v = head_of w ch /\ monitored [] w w' /\ w_cancelled w' = w_cancelled w) w.
Proof.
  unfold chan_ready, chan_recv, head_of. destruct ch as [c|]; [|done]. intros Hready.
  apply returns_bind, returns_ret, returns_bind, returns_gets.
  destruct (w_chans w !! c) as [chn|]; [|done]. apply returns_bind, returns_ret.
  destruct (ch_sendq chn) as [|[err gc] rest].
  - rewrite Hready. apply returns_ret. auto using monitored_refl.
  - apply returns_bind. destruct gc.
    + apply returns_bind, returns_modify. unfold go. apply returns_modify, returns_ret.
      split; [done|]. split; [|done]. split; simpl; try done. by rewrite app_nil_r.
    + apply returns_modify, returns_ret.
      split; [done|]. split; [|done]. split; simpl; try done. by rewrite app_nil_r.
Qed.

(** ** One iteration *)

(** What an iteration does with what it is told: its report, its new state. *)
Definition iterated (nd : Node) (m : Monitor) (l : look) (r : option Monitor) (es : list event) : Prop :=
  match l, r with
  | Received err, Some m' =>
      es = [] /\ mon_pcnt m' = mon_pcnt m /\
      mon_lasterr m' = match err with Some e => Some e | None => mon_lasterr m end
  | Counted c, Some m' =>
      es = (if decide (c = mon_pcnt m) then [] else [state_event nd None c]) /\
      mon_pcnt m' = c /\ mon_lasterr m' = mon_lasterr m
  | Stopped, None => es = [state_event nd (mon_lasterr m) 0]
  | _, _ => False
  end.

Section iteration.
Context (w : World) (nd : Node) (collector : IpfsNode) (m : Monitor).
Context (Hr : ready w) (Hn : w_nodes w !! mon_node m = Some nd) (Hc : n_collector nd = Some collector).

Abbreviation after l := (fun r w2 => exists es, monitored es w w2 /\ iterated nd m l r es /\
  forall m', r = Some m' -> mon_node m' = mon_node m).

(** The end of an iteration: a kept error cancels the node. *)
Lemma mon_continue l m' es w1 :
  monitored es w w1 -> mon_node m' = mon_node m -> iterated nd m l (Some m') es ->
  returns ((if decide (mon_lasterr m' <> None) then cancel_func (n_cancel nd) else ret tt) ;;; ret (Some m'))
    (after l) w1.
Proof.
  intros Hm Hn' Hi. apply returns_bind. case_decide as Hd.
  - apply returns_modify, returns_ret. exists es. split.
    { destruct Hm. split; simpl; try done. set_solver. }
    split; [done|]. by intros m2 [= <-].
  - apply returns_ret, returns_ret. exists es. split; [done|]. split; [done|]. by intros m2 [= <-].
Qed.

Lemma mon_receive what clear ch :
  chan_ready w ch = true ->
  (forall m0, mon_node (clear m0) = mon_node m0 /\ mon_pcnt (clear m0) = mon_pcnt m0 /\
              mon_lasterr (clear m0) = mon_lasterr m0) ->
  returns (err <- chan_recv ch ;;
        m' <- on_recv what clear m err ;;
        (if decide (mon_lasterr m' <> None) then cancel_func (n_cancel nd) else ret tt) ;;; ret (Some m'))
    (after (Received (head_of w ch))) w.
Proof.
  intros Hready Hclear. apply returns_bind. eapply returns_mono; [by apply recv_ready|].
  intros err w1 (-> & Hm & _). destruct (head_of w ch) as [e|] eqn:He; cbn [on_recv].
  - apply returns_bind. apply runs_no_panic. eapply mon_log; [done|done|]. intros w2 Hm2 _.
    apply runs_ret. by eapply (mon_continue _ (set_lasterr e m)).
  - apply returns_bind, returns_ret. destruct (Hclear m) as (H1 & H2 & H3).
    by eapply (mon_continue _ (clear m)).
Qed.

Lemma monitor_step_spec s :
  sel_ready w m s = true -> returns (monitor_step m s) (after (look_at collector w m s)) w.
Proof.
  intros Hready. unfold monitor_step. apply runs_no_panic.
  eapply mon_load; [apply monitored_refl|exact Hn|].
  destruct s; simpl in Hready.
  1-3: by apply mon_receive.
  - eapply mon_total; [apply monitored_refl|exact Hn|exact Hc|]. intros w1 Hm1 _. simpl look_at.
    set (cnt := peer_count collector (w_env w)). case_decide as Hd.
    + apply runs_bind. eapply mon_report; [done|done|]. intros w2 Hm2 _. apply runs_ret.
      eapply (mon_continue _ (set_pcnt cnt m)); [exact Hm2|done|].
      simpl. rewrite decide_False; [done|]. congruence.
    + apply runs_bind, runs_ret. eapply mon_continue; [exact Hm1|done|]. simpl.
      assert (Heq : cnt = mon_pcnt m) by (destruct (decide (mon_pcnt m = cnt)); congruence).
      rewrite decide_True; done.
  - eapply mon_report; [apply monitored_refl|done|]. intros w2 Hm2 _.
    eapply mon_log; [done|done|]. intros w3 Hm3 _. apply runs_ret. by eexists.
Qed.
End iteration.

(** ** The loop *)
Definition is_state (e : event) : bool := match e with EStateCB _ _ _ _ => true | _ => false end.

Definition state_callbacks (t : list event) : list event := filter (fun e => is_state e = true) t.

Lemma state_callbacks_of t : state_callbacks t = filter (fun e => is_state e = true) (callbacks t).
Proof.
  unfold state_callbacks, callbacks. induction t as [|e t IH]; [done|].
  rewrite !filter_cons. destruct e; simpl; rewrite ?filter_cons; simpl; by rewrite IH.
Qed.

(** What the monitor reads of its node. *)
Definition monitor_view (nd : Node) := (n_collector nd, n_cancel nd, n_state_cb nd, n_state_cb_arg nd).

(** What the rest of the process may do while the loop waits: anything that leaves
    the node's monitor alone and makes no state callback. *)
Definition elsewhere (n : nat) (w w' : World) : Prop :=
  (ready w -> ready w') /\ monitor_view <$> (w_nodes w' !! n) = monitor_view <$> (w_nodes w !! n) /\
  state_callbacks (w_trace w') = state_callbacks (w_trace w).

(** The select takes ready cases, the rest of the process stays elsewhere. *)
Fixpoint admissible (m : Monitor) (ms : list move) (w : World) : Prop :=
  match ms with
  | [] => True
  | Elsewhere f :: ms' => elsewhere (mon_node m) w (f w) /\ admissible m ms' (f w)
  | Choose s :: ms' => sel_ready w m s = true /\
      match monitor_step m s w with (Ok (Some m'), w') => admissible m' ms' w' | _ => True end
  end.

Lemma elsewhere_chans n f w : elsewhere n w (upd_chans f w).
Proof. split; [by intros []|done]. Qed.

Lemma admissible_choose m s ms w m' w' :
  sel_ready w m s = true -> monitor_step m s w = (Ok (Some m'), w') -> admissible m' ms w' ->
  admissible m (Choose s :: ms) w.
Proof. intros H1 H2 H3. split; [done|]. by rewrite H2. Qed.

(** What the cases taken tell the loop, read from the states they are taken in. *)
Fixpoint looks (collector : IpfsNode) (m : Monitor) (ms : list move) (w : World) : list look :=
  match ms with
  | [] => []
  | Elsewhere f :: ms' => looks collector m ms' (f w)
  | Choose s :: ms' => look_at collector w m s ::
      match monitor_step m s w with (Ok (Some m'), w') => looks collector m' ms' w' | _ => [] end
  end.

Definition counts (ls : list look) : list Z :=
  omap (fun l => match l with Counted c => Some c | _ => None end) ls.

Definition errors (ls : list look) : list error :=
  omap (fun l => match l with Received e => e | _ => None end) ls.

(** The elements that differ from the one before, [x] first. *)
Fixpoint changes (x : Z) (l : list Z) : list Z :=
  match l with
  | [] => []
  | y :: l' => if decide (y = x) then changes x l' else y :: changes y l'
  end.

(** The last error told, the kept one when there is none. *)
Definition last_error (m : Monitor) (ls : list look) : option error :=
  match last (errors ls) with Some e => Some e | None => mon_lasterr m end.

(** The reports of a loop that was told [ls]: the counts that changed, and when it
    was stopped a last report. *)
Definition reports (nd : Node) (m : Monitor) (ls : list look) : list event :=
  map (state_event nd None) (changes (mon_pcnt m) (counts ls)) ++
  (if decide (Stopped ∈ ls) then [state_event nd (last_error m ls) 0] else []).


Lemma reports_step nd m l m' es ls :
  iterated nd m l (Some m') es -> reports nd m (l :: ls) = es ++ reports nd m' ls.
Proof.
  intros Hi. unfold reports, last_error.
  assert (Hs : l <> Stopped) by by destruct l.
  rewrite (decide_ext (Stopped ∈ l :: ls) (Stopped ∈ ls)) by (rewrite elem_of_cons; naive_solver).
  destruct l as [[e|]|c|]; simpl in Hi; [| | |done]; destruct Hi as (He & Hp & Hl); simpl; rewrite Hp, Hl; subst es.
  - simpl. rewrite last_cons. unfold errors. simpl. by destruct (last _).
  - done.
  - by case_decide as Hd; [rewrite Hd|].
Qed.

Lemma reports_end nd m es : iterated nd m Stopped None es -> reports nd m [Stopped] = es.
Proof. intros Hi. simpl in Hi. by subst es. Qed.

Lemma reports_view nd nd' m ls : monitor_view nd' = monitor_view nd -> reports nd' m ls = reports nd m ls.
Proof.
  intros [= _ _ E1 E2]. assert (Hs : forall e c, state_event nd' e c = state_event nd e c).
  { intros e c. unfold state_event. by rewrite E1, E2. }
  unfold reports. rewrite Hs. f_equal. apply map_ext. by intros c.
Qed.

Lemma iterated_events nd m l r es : iterated nd m l r es -> state_callbacks es = es.
Proof.
  destruct l as [err|c|], r as [m'|]; simpl; try done.
  - by intros (-> & _).
  - intros (-> & _). by case_decide.
  - by intros ->.
Qed.

Lemma monitored_states nd m l r es w w' :
  monitored es w w' -> iterated nd m l r es ->
  state_callbacks (w_trace w') = state_callbacks (w_trace w) ++ es.
Proof.
  intros Hm Hi. rewrite (state_callbacks_of (w_trace w')), (mo_callbacks _ _ _ Hm), filter_app.
  rewrite <- (state_callbacks_of (w_trace w)). f_equal. exact (iterated_events _ _ _ _ _ Hi).
Qed.

(** Moves that leave the C heap alone. *)
Definition keeps_heap (ms : list move) : Prop :=
  forall f w, Elsewhere f ∈ ms -> w_cheap (f w) = w_cheap w.

Lemma keeps_heap_tail mv ms : keeps_heap (mv :: ms) -> keeps_heap ms.
Proof. intros Hk f w Hf. apply Hk. by right. Qed.

Lemma monitor_loop_spec collector ms : forall m nd w,
  ready w -> w_nodes w !! mon_node m = Some nd -> n_collector nd = Some collector -> admissible m ms w ->
  returns (monitor_loop m ms)
    (fun r w' =>
       state_callbacks (w_trace w') = state_callbacks (w_trace w) ++ reports nd m (looks collector m ms w) /\
       (r = None <-> Stopped ∈ looks collector m ms w) /\
       (keeps_heap ms -> w_cheap w' = w_cheap w)) w.
Proof.
  induction ms as [|[s|f] ms IH]; intros m nd w Hr Hn Hc Hadm; simpl in Hadm |- *.
  - apply returns_ret. unfold reports. simpl. rewrite app_nil_r. split; [done|].
    split; [|done]. split; [done|]. intros Hin. by apply elem_of_nil in Hin.
  - destruct Hadm as [Hready Hadm].
    pose proof (monitor_step_spec w nd collector m Hr Hn Hc s Hready) as Hstep.
    apply returns_bind. eapply returns_mono; [by apply returns_run|].
    intros [m'|] w1 [Es (es & Hm & Hi & Hsame)]; rewrite Es in Hadm |- *;
      pose proof (monitored_states _ _ _ _ _ _ _ Hm Hi) as Hst.
    + eapply returns_mono; [eapply (IH m' nd w1)|].
      { by eapply monitored_ready. } { rewrite (Hsame m' eq_refl), (mo_nodes _ _ _ Hm). done. } { done. } { done. }
      intros r w2 (H1 & H2 & H3). split.
      { rewrite H1, Hst, (reports_step _ _ _ _ _ _ Hi), app_assoc. done. }
      split; [|intros Hk; rewrite H3 by (by eapply keeps_heap_tail); apply Hm].
      rewrite H2, elem_of_cons. split; [by right|]. intros [Hl|Hl]; [|done]. by rewrite <- Hl in Hi.
    + destruct (look_at collector w m s) eqn:El; simpl in Hi; try done. apply returns_ret. split; [by rewrite Hst, <- (reports_end nd m es)|].
      split; [|intros _; apply Hm]. split; [|done]. intros _. left.
  - destruct Hadm as [(H1 & H2 & H3) Hadm]. apply returns_bind, returns_modify.
    rewrite Hn in H2. destruct (w_nodes (f w) !! mon_node m) as [nd'|] eqn:Hn'; [|done].
    injection H2 as H2. assert (Hv : monitor_view nd' = monitor_view nd) by (unfold monitor_view; congruence).
    eapply returns_mono; [eapply (IH m nd' (f w)); [auto|done| |done]|].
    { unfold monitor_view in Hv. congruence. }
    intros r w2 (Ha & Hb & Hd). rewrite <- H3, <- (reports_view _ _ _ _ Hv). split; [done|]. split; [done|].
    intros Hk. rewrite Hd by (by eapply keeps_heap_tail). apply Hk. left.
Qed.

(** The monitor's goroutine up to its loop. *)
Lemma monitor_start_spec m nd collector w :
  ready w -> w_nodes w !! mon_node m = Some nd -> n_collector nd = Some collector ->
  returns (run_monitor_start m)
    (fun _ w' => exists w1, called [] w w1 /\
       let cnt := peer_count collector (w_env w1) in
       callbacks (w_trace w') = callbacks (w_trace w) ++ [state_event nd None cnt] /\
       w_cheap w' = w_cheap w /\
       exists l, w_gor w' = l ++ [GMonitor (set_pcnt cnt m)]) w.
Proof.
  intros Hr Hn Hc. unfold run_monitor_start. apply returns_bind.
  eapply returns_mono; [by apply log_Println_called|]. intros [] w1 Hcall.
  pose proof (called_monitored _ _ _ Hcall) as Hm1. apply runs_no_panic.
  eapply mon_total; [exact Hm1|exact Hn|exact Hc|]. intros w2 Hm2 _. apply runs_bind.
  unfold makeStateCB. eapply mon_load; [exact Hm2|exact Hn|]. apply runs_ret.
  eapply mon_report; [exact Hm2|done|]. intros w3 Hm3 _. unfold go. apply runs_modify.
  exists w1. split; [done|]. split; [exact (mo_callbacks _ _ _ Hm3)|]. split; [exact (mo_cheap _ _ _ Hm3)|].
  eexists. reflexivity.
Qed.

(** C8. The monitor reports changes only, and ends with the last error it was told.
    Its goroutine first reports the peer count it reads.  Its loop is then run along
    any schedule of ready cases of its [select], with anything the rest of the
    process does in between that leaves its node's monitor alone: every ready case
    can be taken, and the state callbacks made are exactly the peer counts read that
    differ from the one reported before (as 32-bit unsigned integers), and, when it
    takes the case of a done context, one last report with peer count 0 and the last
    error received from the collector, the API or the gateway, whenever there was
    one; the loop ends then and only then.  No iteration leaves a C string behind. *)
Theorem monitor_reports m nd collector ms w :
  ready w -> w_nodes w !! mon_node m = Some nd -> n_collector nd = Some collector -> admissible m ms w ->
  returns (run_monitor_start m)
    (fun _ w' => exists w1, called [] w w1 /\
       let cnt := peer_count collector (w_env w1) in
       callbacks (w_trace w') = callbacks (w_trace w) ++ [state_event nd None cnt] /\
       w_cheap w' = w_cheap w /\
       exists l, w_gor w' = l ++ [GMonitor (set_pcnt cnt m)]) w /\
  returns (monitor_loop m ms)
    (fun r w' =>
       state_callbacks (w_trace w') = state_callbacks (w_trace w) ++ reports nd m (looks collector m ms w) /\
       (r = None <-> Stopped ∈ looks collector m ms w) /\
       (keeps_heap ms -> w_cheap w' = w_cheap w)) w.
Proof. intros Hr Hn Hc Ha. split; [by apply monitor_start_spec|by apply monitor_loop_spec]. Qed.

(** The channel a case of the [select] receives from. *)
Definition sel_chan (m : Monitor) (s : sel) : option nat :=
  match s with
  | SelGC => mon_gcErrc m
  | SelAPI => mon_apiErrc m
  | SelGW => mon_gwErrc m
  | SelTick | SelDone => None
  end.

Definition sel_what (s : sel) : string :=
  match s with SelGC => "IPFS gc error: " | SelAPI => "IPFS API error: " | _ => "IPFS Gateway error: " end.

Definition sel_clear (s : sel) : Monitor -> Monitor :=
  match s with SelGC => set_gcErrc | SelAPI => set_apiErrc | _ => set_gwErrc end.

(** A receiving iteration, the three alike. *)
Lemma monitor_step_recv m s c nd w :
  w_nodes w !! mon_node m = Some nd -> sel_chan m s = Some c ->
  monitor_step m s w
  = (err <- chan_recv (Some c) ;;
     m <- on_recv (sel_what s) (sel_clear s) m err ;;
     (if decide (mon_lasterr m <> None) then cancel_func (n_cancel nd) else ret tt) ;;;
     ret (Some m)) w.
Proof.
  intros Hn Hs. unfold monitor_step, load_node, bind at 1, gets. simpl. unfold bind at 1. rewrite Hn. simpl.
  destruct s; simpl in Hs; try done; by rewrite Hs.
Qed.

Lemma recv_error c err gc rest wg cl w :
  w_chans w !! c = Some (mkChan ((Some err, gc) :: rest) wg cl) ->
  returns (chan_recv (Some c))
    (fun v w' => v = Some err /\ monitored [] w w' /\ w_cancelled w' = w_cancelled w) w.
Proof.
  intros Hch. eapply returns_mono; [apply recv_ready; simpl; by rewrite Hch|].
  intros v w' (-> & Hm & Hc). simpl. by rewrite Hch.
Qed.

(** C11. A failing service takes the node down: when the monitor picks an error sent
    by the collector, the API or the gateway, it cancels the node's context, so
    that every operation derived from it is done and its own last case is ready,
    and taking that case reports exactly that error with peer count 0 and ends. *)
Theorem service_failure_stops_node m s c err gc rest wg cl nd w :
  ready w -> node_wf w (mon_node m) nd -> sel_chan m s = Some c ->
  w_chans w !! c = Some (mkChan ((Some err, gc) :: rest) wg cl) ->
  sel_ready w m s = true /\
  returns (monitor_step m s)
    (fun r w1 => r = Some (set_lasterr err m) /\
       callbacks (w_trace w1) = callbacks (w_trace w) /\
       (forall d, derived w (n_ctx nd) d -> ctx_done w1 d = true) /\
       sel_ready w1 (set_lasterr err m) SelDone = true /\
       returns (monitor_step (set_lasterr err m) SelDone)
         (fun r w2 => r = None /\
            callbacks (w_trace w2) = callbacks (w_trace w) ++ [state_event nd (Some err) 0] /\
            w_cheap w2 = w_cheap w) w1) w.
Proof.
  intros Hr (Hn & Hcan & Hx) Hs Hch. split.
  { assert (Hrd : chan_ready w (sel_chan m s) = true) by (rewrite Hs; simpl; by rewrite Hch).
    destruct s; simpl in Hs; try done; exact Hrd. }
  eapply returns_ext; [by apply monitor_step_recv|].
  apply runs_no_panic. eapply runs_step; [by eapply recv_error|].
  intros v w1 (-> & Hm1 & Hc1). simpl. apply runs_bind. eapply mon_log; [exact Hm1|done|].
  intros w2 Hm2 Hc2. apply runs_ret. cbn [mon_lasterr set_lasterr]. rewrite decide_True by done.
  apply runs_bind, runs_modify, runs_ret. set (w3 := upd_cancelled _ w2).
  assert (Hm3 : monitored [] w w3).
  { destruct Hm2. split; simpl; try done. set_solver. }
  assert (Hin : n_ctx nd ∈ w_cancelled w3) by (simpl; rewrite Hcan; set_solver).
  split; [done|]. split; [by rewrite (mo_callbacks _ _ _ Hm3), app_nil_r|].
  assert (Hder : forall d, derived w (n_ctx nd) d -> ctx_done w3 d = true).
  { intros d (anc & Ha & Hd). apply (cancelled_derived w3 (n_ctx nd)); [done|].
    exists anc. by rewrite (mo_ctx _ _ _ Hm3). }
  split; [done|]. split.
  { simpl. rewrite (mo_nodes _ _ _ Hm2), Hn. apply Hder. exists [n_ctx nd]. split; [done|].
    by apply list_elem_of_singleton. }
  apply runs_no_panic. unfold monitor_step. eapply mon_load; [exact Hm3|exact Hn|].
  eapply mon_report; [exact Hm3|done|]. intros w4 Hm4 _. eapply mon_log; [done|done|].
  intros w5 Hm5 _. apply runs_ret. split; [done|].
  split; [by rewrite (mo_callbacks _ _ _ Hm5)|apply Hm5].
Qed.
End monitor_spec.

(** ** Witnesses *)
#[local] Existing Instance toy_types.
#[local] Existing Instance toy_ext.

(** The running toy node with its collector, and a failed API server's channel. *)
Definition toy_monitored_node : Node := set_n_collector (Some toy_ipfs) (toy_running_node toy_config).

Definition toy_monitored : World :=
  upd_chans (fun _ => {[8 := mkChan [] 0 false; 9 := mkChan [(Some (Errorf "accept failed"), false)] 1 false]})
    (upd_nodes (fun _ => {[0 := toy_monitored_node]}) (toy_node_world [] None None)).

Definition toy_monitor : Monitor := mkMonitor 0 (Some 8) (Some 9) None 4 None.

Lemma toy_monitored_ready : ready toy_monitored.
Proof. split; [done|]. split; [simpl; lia|done]. Qed.

(** While the loop waits, the collector's goroutine sends its error. *)
Definition toy_gc_fails : move :=
  Elsewhere (upd_chans <[8 := mkChan [(Some (Errorf "gc failed"), true)] 0 false]>).

Definition toy_schedule : list move :=
  [Choose SelTick; Choose SelTick; Choose SelAPI; toy_gc_fails; Choose SelGC; Choose SelDone].

(** Two readings of 5 peers give one report; the API fails, then the collector, whose
    error is the last. *)
Lemma monitor_reports_witness :
  looks toy_ipfs toy_monitor toy_schedule toy_monitored
  = [Counted 5; Counted 5; Received (Some (Errorf "accept failed")); Received (Some (Errorf "gc failed")); Stopped] /\
  returns (monitor_loop toy_monitor toy_schedule)
    (fun r w' => r = None /\ w_cheap w' = ∅ /\
       state_callbacks (w_trace w') = [EStateCB 100 200 None 5; EStateCB 100 200 (Some "gc failed") 0])
    toy_monitored.
Proof.
  assert (Hl : looks toy_ipfs toy_monitor toy_schedule toy_monitored
    = [Counted 5; Counted 5; Received (Some (Errorf "accept failed")); Received (Some (Errorf "gc failed")); Stopped])
    by (vm_compute; reflexivity).
  split; [exact Hl|]. eapply returns_mono.
  - apply (monitor_reports toy_monitor toy_monitored_node toy_ipfs toy_schedule toy_monitored);
      [apply toy_monitored_ready|reflexivity|reflexivity|].
    do 3 (eapply admissible_choose; [vm_compute; reflexivity|vm_compute; reflexivity|]).
    split; [apply elsewhere_chans|].
    eapply admissible_choose; [vm_compute; reflexivity|vm_compute; reflexivity|].
    split; [vm_compute; reflexivity|exact I].
  - intros r w' (Hs & Hr & Hh). rewrite Hl in Hs, Hr. split; [apply Hr; set_solver|].
    split; [apply Hh|rewrite Hs; vm_compute; reflexivity].
    intros f w Hf. unfold toy_schedule, toy_gc_fails in Hf. set_solver.
Defined.

Lemma service_failure_stops_node_witness :
  sel_ready toy_monitored toy_monitor SelAPI = true /\
  returns (monitor_step toy_monitor SelAPI)
    (fun r w1 => r = Some (set_lasterr (Errorf "accept failed") toy_monitor) /\
       sel_ready w1 (set_lasterr (Errorf "accept failed") toy_monitor) SelDone = true) toy_monitored.
Proof.
  destruct (service_failure_stops_node toy_monitor SelAPI 9 (Errorf "accept failed") false [] 1 false
              toy_monitored_node toy_monitored) as [H1 H2];
    [apply toy_monitored_ready|split; [reflexivity|split; reflexivity]|reflexivity|reflexivity|].
  split; [exact H1|]. eapply returns_mono; [exact H2|].
  intros r w1 (Hr & _ & _ & Hs & _). split; [exact Hr|exact Hs].
Defined.
