(* ===== verification/System.v ===== *)
(** * The process: C++ calls interleaved with goroutines

    A step of the process is a call of an exported function, the run of a goroutine
    up to its end or its next blocking point, or one iteration of the monitor; any
    goroutine may run at any time.  A panic ends the process, so no step follows
    it. *)
From S2P Require Import Prelude GoStrings GoPath GoOs Ext World Toy Effects Log Cancel.
From S2P Require Import Calls Config Repo Json Settings Serve Start Bindings Monitor.
#[local] Open Scope go_scope.

Section system.
Context `{External}.

(** ** Steps *)

Inductive label :=
| LStartBlocking (c_cfg c_repo : string) (cb arg : Z)
| LStartAsync (c_cfg c_repo : string) (cb arg fn fn_arg : Z)
| LFree
| LNodeId
| LAllocateSignal
| LFreeSignal (s : Z)
| LCancel (s : Z)
| LRequest (r : request) (s fn fn_arg : Z)
| LResolve (s : Z) (id : string) (fn fn_arg : Z)
| LRedirectLogs (cb : Z)
| LMemfree (p : nat)
| LRun (i : nat)
| LSelect (i : nat) (s : sel).

(** Running a goroutine other than the monitor's loop, to its end or to the send it
    blocks in. *)
Definition run_gor (g : Goroutine) : M World unit :=
  match g with
  | GPeriodicGC n errc => run_periodic_gc n errc
  | GCloseGC errc => run_close_gc errc
  | GServe errc node lis opts => run_serve errc node lis opts
  | GWaitClose errc => run_wait_close errc
  | GMonitorStart m => run_monitor_start m
  | g => run_op g
  end.

(** Whether the goroutine can go on: the wait group's waits for the servers, the
    monitor's loop is stepped by its [select]. *)
Definition can_run (w : World) (g : Goroutine) : bool :=
  match g with
  | GWaitClose errc => match w_chans w !! errc with Some c => bool_decide (ch_wg c = 0) | None => false end
  | GMonitor _ => false
  | _ => true
  end.

Definition enabled (w : World) (l : label) : bool :=
  match l with
  | LRun i => match w_gor w !! i with Some g => can_run w g | None => false end
  | LSelect i s => match w_gor w !! i with Some (GMonitor m) => sel_ready w m s | _ => false end
  | _ => true
  end.

(** The scheduler takes goroutine [i] off the list while it runs. *)
Definition take_gor (i : nat) : M World (option Goroutine) :=
  o <- gets (fun w => w_gor w !! i) ;;
  modify (upd_gor (delete i)) ;;;
  ret o.

Definition exec (l : label) : M World unit :=
  match l with
  | LStartBlocking c_cfg c_repo cb arg => _ <- go_asio_ipfs_start_blocking c_cfg c_repo cb arg ;; ret tt
  | LStartAsync c_cfg c_repo cb arg fn fn_arg => go_asio_ipfs_start_async c_cfg c_repo cb arg fn fn_arg
  | LFree => _ <- go_asio_ipfs_free ;; ret tt
  | LNodeId => _ <- go_asio_ipfs_node_id ;; ret tt
  | LAllocateSignal => _ <- go_asio_ipfs_cancellation_allocate ;; ret tt
  | LFreeSignal s => go_asio_ipfs_cancellation_free s
  | LCancel s => go_asio_ipfs_cancel s
  | LRequest r s fn fn_arg => handle r s fn fn_arg
  | LResolve s id fn fn_arg => go_asio_ipfs_resolve s id fn fn_arg
  | LRedirectLogs cb => go_asio_ipfs_redirect_logs cb
  | LMemfree p => go_asio_memfree p
  | LRun i =>
      o <- take_gor i ;;
      match o with Some g => run_gor g | None => ret tt end
  | LSelect i s =>
      o <- take_gor i ;;
      match o with
      | Some (GMonitor m) =>
          r <- monitor_step m s ;;
          match r with Some m' => go (GMonitor m') | None => ret tt end
      | _ => ret tt
      end
  end.

Inductive steps : list label -> World -> World -> Prop :=
| steps_nil w : steps [] w w
| steps_cons l ls w w1 w2 :
    enabled w l = true -> exec l w = (Ok tt, w1) -> steps ls w1 w2 -> steps (l :: ls) w w2.

(** The same, computed. *)
Definition run_label (l : label) (w : World) : option World :=
  if enabled w l then match exec l w with (Ok tt, w') => Some w' | (Panic _, _) => None end else None.

Fixpoint run_labels (ls : list label) (w : World) : option World :=
  match ls with
  | [] => Some w
  | l :: ls' => match run_label l w with Some w1 => run_labels ls' w1 | None => None end
  end.

Lemma run_labels_steps ls w w' : run_labels ls w = Some w' <-> steps ls w w'.
Proof.
  split.
  - revert w. induction ls as [|l ls IH]; intros w; simpl; [intros [= <-]; constructor|].
    unfold run_label. destruct (enabled w l) eqn:Hen; [|done].
    destruct (exec l w) as [[[]|p] w1] eqn:He; [|done]. intros Hr. econstructor; eauto.
  - induction 1 as [w|l ls w w1 w2 Hen He Hs IH]; simpl; [done|].
    unfold run_label. by rewrite Hen, He.
Qed.

(** A process that has just been loaded. *)
Record booted (w : World) : Prop := mkBooted {
  bt_gnode : w_gnode w = None;
  bt_nodes : w_nodes w = ∅;
  bt_ctx : w_ctx_anc w = ∅;
  bt_cancelled : w_cancelled w = ∅;
  bt_gor : w_gor w = [];
  bt_trace : w_trace w = [];
  bt_cheap : w_cheap w = ∅;
  bt_cnext : 0 < w_cnext w;
  bt_logger : lg_out (w_logger w) = OutStderr;
}.

(** ** Answers *)

(** Who an answer or a pending goroutine is for. *)
Definition event_for (e : event) : option (Z * Z) :=
  match e with EVoidCB fn _ a => Some (fn, a) | EDataCB fn _ _ _ a => Some (fn, a) | _ => None end.

Definition gor_for (g : Goroutine) : option (Z * Z) :=
  match g with
  | GVoidCB fn _ a | GDataCB fn _ a | GStart _ _ _ fn a | GPublish _ _ _ _ fn a
  | GCalcCid _ _ _ fn a | GAdd _ _ _ _ fn a | GCat _ _ _ fn a | GPin _ _ _ fn a
  | GUnpin _ _ _ fn a | GGc _ _ fn a => Some (fn, a)
  | _ => None
  end.

Definition label_for (l : label) : option (Z * Z) :=
  match l with
  | LRequest _ _ fn a => Some (fn, a)
  | LStartAsync _ _ _ _ fn a => Some (fn, a)
  | LResolve _ _ fn a => Some (fn, a)
  | _ => None
  end.

(** Requests the glue takes a callback for and does nothing about. *)
Definition is_resolve (l : label) : bool := match l with LResolve _ _ _ _ => true | _ => false end.

Definition count {A} (f : A -> option (Z * Z)) (k : Z * Z) (l : list A) : nat :=
  length (filter (fun x => f x = Some k) l).

(** Answers given and answers to come. *)
Definition balance (k : Z * Z) (w : World) : nat :=
  count event_for k (w_trace w) + count gor_for k (w_gor w).

Lemma count_app {A} (f : A -> option (Z * Z)) k l1 l2 : count f k (l1 ++ l2) = count f k l1 + count f k l2.
Proof. unfold count. by rewrite filter_app, length_app. Qed.

Lemma count_one {A} (f : A -> option (Z * Z)) k x :
  count f k [x] = if decide (f x = Some k) then 1 else 0.
Proof. unfold count. rewrite filter_cons. by case_decide. Qed.

Lemma count_delete {A} (f : A -> option (Z * Z)) k l i x :
  l !! i = Some x -> count f k l = count f k (delete i l) + count f k [x].
Proof.
  intros Hi. rewrite (delete_take_drop l i), count_app.
  rewrite <- (take_drop_middle l i x Hi) at 1. rewrite count_app.
  change (x :: drop (S i) l) with ([x] ++ drop (S i) l). rewrite count_app. lia.
Qed.

(** Steps that neither answer nor take on anything. *)
Definition quiet (w w' : World) : Prop := forall k, balance k w' = balance k w.

#[global] Instance quiet_preorder : PreOrder quiet.
Proof. split; [by intros w k|]. intros w1 w2 w3 H1 H2 k. by rewrite H2, H1. Qed.

Lemma quiet_eq w w' : w_trace w' = w_trace w -> w_gor w' = w_gor w -> quiet w w'.
Proof. intros H1 H2 k. unfold balance. by rewrite H1, H2. Qed.

Lemma quiet_event e w w' :
  event_for e = None -> w_trace w' = (w_trace w ++ [e])%list -> w_gor w' = w_gor w -> quiet w w'.
Proof.
  intros He H1 H2 k. unfold balance. rewrite H1, H2, count_app, count_one, decide_False by (by rewrite He). lia.
Qed.

Lemma quiet_go g w w' :
  gor_for g = None -> w_trace w' = w_trace w -> w_gor w' = (w_gor w ++ [g])%list -> quiet w w'.
Proof.
  intros He H1 H2 k. unfold balance. rewrite H1, H2, count_app, (count_one gor_for), decide_False by (by rewrite He). lia.
Qed.
End system.

#[global] Arguments quiet : simpl never.

#[export] Hint Extern 1 (@quiet _ _ _) =>
  solve [ apply quiet_eq; reflexivity
        | eapply quiet_event; [|reflexivity|reflexivity]; reflexivity
        | eapply quiet_go; [|reflexivity|reflexivity]; reflexivity ] : preserve.
