(* ===== verification/Frames.v ===== *)
(** * A frame for the code of the glue

    Most of the code changes the process state in a few elementary ways.
    [Harmless R] says that a relation between states allows each of them;
    every function of the glue that is not about answering or cancelling then
    [preserves] it.  The theorems on whole runs are instances. *)
From S2P Require Import Prelude GoStrings GoPath GoOs Ext World Toy Effects Log Cancel.
From S2P Require Import Calls Config Repo Json Settings Serve Start Bindings Monitor System.
#[local] Open Scope go_scope.

(** Goroutines that owe nobody an answer. *)
Definition background `{ExtTypes} (g : Goroutine) : Prop := gor_for g = None.

(** Assignments to a node that do not add a cancellation. *)
Definition keeps_context `{ExtTypes} (f : Node -> Node) : Prop :=
  forall nd, n_ctx (f nd) = n_ctx nd /\ n_cancel (f nd) = n_cancel nd /\
    forall s c, n_cancel_signals (f nd) !! s = Some c -> n_cancel_signals nd !! s = Some c.

Class Harmless `{External} (R : World -> World -> Prop) : Prop := {
  hl_pre :: PreOrder R;
  hl_call w name e : R w (upd_env (fun _ => e) (upd_trace (fun t => t ++ [ECall name])%list w));
  hl_fs w fs : R w (upd_env (fun e => mkEnv fs (env_x e)) w);
  hl_log w cb s : R w (upd_trace (fun t => t ++ [ELogCB cb s])%list w);
  hl_stderr w s : R w (upd_trace (fun t => t ++ [EStderr s])%list w);
  hl_state w cb arg err cnt : R w (upd_trace (fun t => t ++ [EStateCB cb arg err cnt])%list w);
  hl_chans w f : R w (upd_chans f w);
  hl_fresh w : R w (upd_next S w);
  hl_go w g : background g -> R w (upd_gor (fun l => l ++ [g])%list w);
  hl_malloc w s : R w (upd_cnext S (upd_cheap <[w_cnext w := s]> w));
  hl_free w p : R w (upd_cheap (delete p) w);
  hl_mprome w f : R w (upd_mprome_injected f w);
  hl_metrics w f : R w (upd_mporme_metrics f w);
  hl_plugins w f : R w (upd_plugins_injected f w);
  hl_store w n f : keeps_context f -> R w (upd_nodes (alter f n) w);
  hl_vacate w : R w (upd_gnode (fun _ => None) w);
  hl_allocate cb arg : preserves R (allocate_node cb arg);
  hl_withCancel n s : preserves R (withCancel n s);
}.

Section frames.
Context `{External} (R : World -> World -> Prop) {HR : Harmless R}.

Lemma keeps_context_delete s : keeps_context
  (fun nd => set_n_cancel_signals (delete s (n_cancel_signals nd)) nd).
Proof. intros nd. split; [done|]. split; [done|]. intros t c. simpl. rewrite lookup_delete_Some. tauto. Qed.

#[local] Hint Extern 1 (R _ _) =>
  solve [ apply hl_call | apply hl_fs | apply hl_log | apply hl_stderr | apply hl_state
        | apply hl_chans | apply hl_fresh | apply hl_go; reflexivity | apply hl_malloc
        | apply hl_free | apply hl_mprome | apply hl_metrics | apply hl_plugins
        | apply hl_vacate
        | apply hl_store; first [apply keeps_context_delete | intros ?; simpl; auto] ] : preserve.
#[local] Hint Resolve hl_allocate hl_withCancel : preserve.

Lemma frame_log_Output s : preserves R (log_Output s).
Proof.
  unfold log_Output, log_header, CustomLog_Write, executeLogCB, C_execute_log_cb. frame_tac.
Qed.

Lemma frame_log_Println l : preserves R (log_Println l).
Proof. apply frame_log_Output. Qed.

Lemma frame_log_Printf f l : preserves R (log_Printf f l).
Proof. apply frame_log_Output. Qed.
#[local] Hint Resolve frame_log_Println frame_log_Printf : preserve.

Lemma frame_load_node n : preserves R (load_node n).
Proof. apply (preserves_load_node R). Qed.

Lemma frame_deref {A} (o : option A) : preserves R (deref o).
Proof. apply (preserves_deref R). Qed.
#[local] Hint Resolve frame_load_node frame_deref : preserve.

Lemma frame_stateCB cb arg err cnt : preserves R (stateCB cb arg err cnt).
Proof. unfold stateCB, C_execute_state_cb. frame_tac. Qed.
#[local] Hint Resolve frame_stateCB : preserve.

Lemma frame_checkWritable d : preserves R (checkWritable d).
Proof. unfold checkWritable. frame_tac. Qed.

Lemma frame_updateConfig c a : preserves R (updateConfig c a).
Proof. unfold updateConfig. cbv zeta. frame_tac. Qed.

Lemma frame_updateRepo r a : preserves R (updateRepo r a).
Proof. unfold updateRepo. cbv zeta. frame_tac. Qed.

Lemma frame_configUnlocked r : preserves R (configUnlocked r).
Proof. unfold configUnlocked. cbv zeta. frame_tac. Qed.
#[local] Hint Resolve frame_checkWritable frame_updateConfig frame_updateRepo frame_configUnlocked : preserve.

Lemma frame_initRepo r a : preserves R (initRepo r a).
Proof. unfold initRepo. frame_tac. Qed.

Lemma frame_openRepo r a : preserves R (openRepo r a).
Proof. unfold openRepo. frame_tac. Qed.
#[local] Hint Resolve frame_initRepo frame_openRepo : preserve.

Lemma frame_makeBuildCfg r c : preserves R (makeBuildCfg r c).
Proof. unfold makeBuildCfg. cbv zeta. frame_tac. Qed.


Lemma frame_listen f g a : preserves R (listen_on f g a).
Proof. unfold listen_on. frame_tac. Qed.

Lemma frame_cctx_Config n : preserves R (cctx_Config n).
Proof. unfold cctx_Config. frame_tac. Qed.

Lemma frame_serve node l o : preserves R (serve_listeners node l o).
Proof. unfold serve_listeners, wg_Add. frame_tac. Qed.
#[local] Hint Resolve frame_makeBuildCfg frame_listen frame_cctx_Config frame_serve : preserve.

Lemma frame_Api n a : preserves R (maybeServeHTTPApi n a).
Proof. unfold maybeServeHTTPApi. cbv zeta. frame_tac. Qed.

Lemma frame_Gateway n a : preserves R (maybeServeHTTPGateway n a).
Proof. unfold maybeServeHTTPGateway, construct_node. cbv zeta. frame_tac. Qed.

Lemma frame_GC n a : preserves R (maybeRunGC n a).
Proof. unfold maybeRunGC. frame_tac. Qed.

Lemma frame_printPeers n : preserves R (printPeers n).
Proof. unfold printPeers. frame_tac. Qed.

Lemma frame_printSwarmAddrs n : preserves R (printSwarmAddrs n).
Proof. unfold printSwarmAddrs. frame_tac. Qed.

Lemma frame_buildEnv n r : preserves R (buildEnv n r).
Proof. unfold buildEnv, loadPlugins. frame_tac. Qed.

Lemma frame_printVersion : preserves R printVersion.
Proof. unfold printVersion. cbv zeta. frame_tac. Qed.

Lemma frame_mprome : preserves R inject_mprome.
Proof. unfold inject_mprome. frame_tac. Qed.
#[local] Hint Resolve frame_Api frame_Gateway frame_GC frame_printPeers frame_printSwarmAddrs
  frame_buildEnv frame_printVersion frame_mprome : preserve.

Lemma frame_start_repo n r a : preserves R (start_repo n r a).
Proof. unfold start_repo, node_cctx. frame_tac. Qed.

Lemma frame_start_core n r c : preserves R (start_core n r c).
Proof. unfold start_core, node_node, node_cctx. frame_tac. Qed.

Lemma frame_start_services n a : preserves R (start_services n a).
Proof. unfold start_services. frame_tac. Qed.

Lemma frame_start_api n : preserves R (start_api n).
Proof. unfold start_api, node_node. frame_tac. Qed.

Lemma frame_start_monitor n g a w : preserves R (start_monitor n g a w).
Proof. unfold start_monitor. frame_tac. Qed.
#[local] Hint Resolve frame_start_repo frame_start_core frame_start_services frame_start_api
  frame_start_monitor : preserve.

Lemma frame_start_in_repo n a r c : preserves R (start_in_repo n a r c).
Proof. unfold start_in_repo. frame_tac. Qed.
#[local] Hint Resolve frame_start_in_repo : preserve.

Lemma frame_start_node j n r : preserves R (start_node j n r).
Proof.
  unfold start_node. destruct (Unmarshal_AsioConfig GoIntBits j) as [acfg err]. frame_tac.
Qed.

#[local] Hint Resolve frame_start_node : preserve.

Lemma frame_start_blocking c r cb arg : preserves R (go_asio_ipfs_start_blocking c r cb arg).
Proof. unfold go_asio_ipfs_start_blocking. cbv zeta. frame_tac. Qed.


Lemma frame_node_id : preserves R go_asio_ipfs_node_id.
Proof. unfold go_asio_ipfs_node_id, node_node. frame_tac. Qed.

(** The logger is changed by nothing else. *)
Lemma frame_redirect cb :
  (forall w f, R w (upd_logger f w)) -> preserves R (go_asio_ipfs_redirect_logs cb).
Proof. intros Hl. unfold go_asio_ipfs_redirect_logs, log_SetFlags, log_SetOutput. frame_tac. Qed.

(** ** The background goroutines *)

Lemma frame_periodic_gc n errc : preserves R (run_periodic_gc n errc).
Proof. unfold run_periodic_gc, chan_send. frame_tac. Qed.

Lemma frame_close errc : preserves R (chan_close errc).
Proof. unfold chan_close. frame_tac. Qed.
#[local] Hint Resolve frame_close : preserve.

Lemma frame_close_gc errc : preserves R (run_close_gc errc).
Proof. unfold run_close_gc. frame_tac. Qed.

Lemma frame_run_serve errc node lis opts : preserves R (run_serve errc node lis opts).
Proof. unfold run_serve, chan_send. frame_tac. Qed.

Lemma frame_cancellation_allocate : preserves R go_asio_ipfs_cancellation_allocate.
Proof. unfold go_asio_ipfs_cancellation_allocate. cbv zeta. frame_tac. Qed.

Lemma frame_cancellation_free s : preserves R (go_asio_ipfs_cancellation_free s).
Proof. unfold go_asio_ipfs_cancellation_free. frame_tac. Qed.


Lemma frame_memfree p : preserves R (go_asio_memfree p).
Proof. unfold go_asio_memfree. frame_tac. Qed.

Lemma frame_publish ctx d n cid : preserves R (publish ctx d n cid).
Proof. unfold publish. cbv zeta. frame_tac. Qed.

Lemma frame_totalPeers n : preserves R (totalPeers n).
Proof. unfold totalPeers. frame_tac. Qed.

Lemma frame_chan_recv c : preserves R (chan_recv c).
Proof. unfold chan_recv. frame_tac. Qed.
#[local] Hint Resolve frame_totalPeers frame_chan_recv : preserve.

Lemma frame_monitor_start m : preserves R (run_monitor_start m).
Proof.
  unfold run_monitor_start, makeStateCB. frame_step; [frame_tac|]. frame_step; [frame_tac|].
  apply (preserves_bind_assoc R). frame_step; [frame_tac|].
  intros w. rewrite bind_ret_l. revert w. change (preserves R
    (stateCB (n_state_cb a1) (n_state_cb_arg a1) None a0 ;;;
     go (GMonitor (mkMonitor (mon_node m) (mon_gcErrc m) (mon_apiErrc m) (mon_gwErrc m) a0 (mon_lasterr m))))).
  frame_tac.
Qed.


(** ** Code that cancels a context

    Freeing, the monitor and [go_asio_ipfs_cancel] respect [R] from a state in which
    cancelling the contexts they are after does. *)
Lemma load_node_known n nd w : w_nodes w !! n = Some nd -> load_node n w = (Ok nd, w).
Proof. intros Hn. unfold load_node, bind, gets. by rewrite Hn. Qed.

Lemma load_node_unknown {A} n (k : Node -> M World A) w :
  w_nodes w !! n = None -> bind (load_node n) k w = (Panic nil_deref, w).
Proof. intros Hn. unfold load_node, bind, gets. by rewrite Hn. Qed.

Definition cancels (c : nat) : Prop := preserves R (cancel_func c).

Lemma frame_monitor_step_at m s w :
  (forall nd, w_nodes w !! mon_node m = Some nd -> cancels (n_cancel nd)) ->
  R w (monitor_step m s w).2.
Proof.
  intros Hc. unfold monitor_step, on_recv. cbv zeta.
  destruct (w_nodes w !! mon_node m) as [nd|] eqn:Hn; [|by rewrite load_node_unknown].
  rewrite (bind_Ok _ _ _ _ _ (load_node_known _ _ _ Hn)). specialize (Hc nd eq_refl).
  unfold cancels in Hc. revert w Hn. intros w _. revert w.
  match goal with |- forall w, R w (?body w).2 => change (preserves R body) end. frame_tac.
Qed.

Lemma frame_free_at w :
  (forall n nd, w_gnode w = Some n -> w_nodes w !! n = Some nd -> cancels (n_cancel nd)) ->
  R w (go_asio_ipfs_free w).2.
Proof.
  intros Hc. unfold go_asio_ipfs_free, wait_done. rewrite (bind_Ok _ _ w (w_gnode w) w) by done.
  destruct (w_gnode w) as [n|] eqn:Hg; [|by apply (preserves_ret R)].
  destruct (w_nodes w !! n) as [nd|] eqn:Hn; [|by rewrite load_node_unknown].
  rewrite (bind_Ok _ _ _ _ _ (load_node_known _ _ _ Hn)). specialize (Hc n nd eq_refl Hn).
  unfold cancels in Hc. clear Hg Hn. revert w.
  match goal with |- forall w, R w (?body w).2 => change (preserves R body) end. frame_tac.
Qed.

Lemma frame_cancel_at s w :
  (forall n nd c, w_gnode w = Some n -> w_nodes w !! n = Some nd ->
     n_cancel_signals nd !! s = Some c -> cancels c) ->
  R w (go_asio_ipfs_cancel s w).2.
Proof.
  intros Hc. unfold go_asio_ipfs_cancel. rewrite (bind_Ok _ _ w (w_gnode w) w) by done.
  destruct (w_gnode w) as [n|] eqn:Hg; [|by apply (preserves_ret R)].
  destruct (w_nodes w !! n) as [nd|] eqn:Hn; [|by rewrite load_node_unknown].
  rewrite (bind_Ok _ _ _ _ _ (load_node_known _ _ _ Hn)).
  destruct (n_cancel_signals nd !! s) as [c|] eqn:Hs; [|by apply (preserves_ret R)].
  apply (Hc n nd c eq_refl Hn Hs).
Qed.
End frames.

#[export] Hint Resolve frame_log_Println frame_log_Printf frame_stateCB frame_load_node frame_deref
  frame_start_node frame_publish frame_start_blocking frame_node_id
  frame_cancellation_allocate frame_cancellation_free frame_memfree frame_periodic_gc frame_close
  frame_close_gc frame_run_serve frame_monitor_start hl_allocate hl_withCancel : preserve.

(** The relation's instance is found where a lemma above is applied. *)
#[export] Hint Extern 0 (Harmless _) => typeclasses eauto : preserve.
