(* ===== verification/Invariants.v ===== *)
(** * Invariants of the process

    What every reachable state satisfies: addresses are fresh, the node in the slot
    exists, its cancel function cancels its own root context, every registered
    signal stands for a context derived from it, and the C heap's next block is
    free.  These are the hypotheses of the component theorems. *)
From S2P Require Import Prelude GoStrings GoPath GoOs Ext World Toy Effects Log Cancel.
From S2P Require Import Calls Config ConfigSpec Repo RepoSpec Json Settings Progress Serve ServeSpec.
From S2P Require Import Start StartSpec Lifecycle Bindings BindingsSpec Monitor System.
#[local] Open Scope go_scope.

Section inv.
Context `{External}.

Definition node_ok (w : World) (n : nat) (nd : Node) : Prop :=
  n < w_next w /\ node_wf w n nd /\
  forall s c, n_cancel_signals nd !! s = Some c -> w_ctx_anc w !! c = Some [c; n_ctx nd].

Record Inv (w : World) : Prop := mkInv {
  inv_ctx : forall c anc, w_ctx_anc w !! c = Some anc -> c < w_next w;
  inv_cancelled : forall c, c ∈ w_cancelled w -> c < w_next w;
  inv_nodes : forall n nd, w_nodes w !! n = Some nd -> node_ok w n nd;
  inv_gnode : forall n, w_gnode w = Some n -> is_Some (w_nodes w !! n);
  inv_heap : heap_ok w;
}.

(** The invariant is kept, and addresses are never given back: [b] is an address
    known to be in use. *)
Definition keeps (b : nat) (w w' : World) : Prop :=
  Inv w /\ b <= w_next w -> Inv w' /\ b <= w_next w'.

Lemma keeps_intro b w w' : (Inv w -> Inv w') -> w_next w <= w_next w' -> keeps b w w'.
Proof. unfold keeps. intros HI Hn [Hw Hb]. split; [auto|lia]. Qed.

#[global] Instance keeps_preorder b : PreOrder (keeps b).
Proof. unfold keeps. split; [intros w; auto|]. intros w1 w2 w3. auto. Qed.

(** The part of the state the invariant reads. *)
Lemma keeps_eq b w w' :
  w_gnode w' = w_gnode w -> w_nodes w' = w_nodes w -> w_ctx_anc w' = w_ctx_anc w ->
  w_next w' = w_next w -> w_cancelled w' = w_cancelled w -> w_cheap w' = w_cheap w ->
  w_cnext w' = w_cnext w -> keeps b w w'.
Proof.
  intros E1 E2 E3 E4 E5 E6 E7. apply keeps_intro; [|lia]. intros [I1 I2 I3 I4 I5].
  split; unfold node_ok, node_wf, heap_ok in *; rewrite ?E1, ?E2, ?E3, ?E4, ?E5, ?E6, ?E7; done.
Qed.

Lemma keeps_fresh b w : keeps b w (upd_next S w).
Proof.
  apply keeps_intro; [|simpl; lia]. intros [I1 I2 I3 I4 I5]. split; simpl; try done.
  - intros c anc Hc. specialize (I1 c anc Hc). lia.
  - intros c Hc. specialize (I2 c Hc). lia.
  - intros n nd Hn. destruct (I3 n nd Hn) as (G1 & G2 & G3). split; [simpl; lia|done].
Qed.

Lemma keeps_malloc s b w : keeps b w (upd_cnext S (upd_cheap <[w_cnext w := s]> w)).
Proof.
  apply keeps_intro; [|simpl; lia]. intros [I1 I2 I3 I4 [I5 I6]]. split; simpl; try done. split; simpl; [lia|].
  intros p Hp. rewrite lookup_insert_ne by lia. apply I6. lia.
Qed.

Lemma keeps_free p b w : keeps b w (upd_cheap (delete p) w).
Proof.
  apply keeps_intro; [|simpl; lia]. intros [I1 I2 I3 I4 [I5 I6]]. split; simpl; try done. split; simpl; [done|].
  intros q Hq. rewrite lookup_delete. case_decide; [done|]. by apply I6.
Qed.

(** An assignment to the fields of a node that are not about cancellation. *)
Lemma keeps_store b n f w :
  (forall nd, n_ctx (f nd) = n_ctx nd /\ n_cancel (f nd) = n_cancel nd /\
     forall s c, n_cancel_signals (f nd) !! s = Some c -> n_cancel_signals nd !! s = Some c) ->
  keeps b w (upd_nodes (alter f n) w).
Proof.
  intros Hf. apply keeps_intro; [|simpl; lia]. intros [I1 I2 I3 I4 I5]. split; simpl; try done.
  - intros m nd. rewrite lookup_alter. case_decide; subst.
    + rewrite fmap_Some. intros (nd0 & Hn & ->). destruct (I3 m nd0 Hn) as (G1 & (G2 & G3 & G4) & G5).
      destruct (Hf nd0) as (F1 & F2 & F3). split; [done|]. split.
      * split; [simpl; by rewrite lookup_alter_eq, Hn|]. rewrite F1, F2. done.
      * intros s c Hs. rewrite F1. by eapply G5, F3.
    + intros Hn. destruct (I3 m nd Hn) as (G1 & (G2 & G3) & G4). split; [done|]. split; [|done].
      split; [simpl; by rewrite lookup_alter_ne|done].
  - intros m Hm. rewrite lookup_alter. case_decide; subst; [|by apply I4].
    destruct (I4 m Hm) as [nd Hnd]. rewrite Hnd. by eexists.
Qed.

Lemma keeps_clear_gnode b w : keeps b w (upd_gnode (fun _ => None) w).
Proof. apply keeps_intro; [|simpl; lia]. intros [I1 I2 I3 I4 I5]. by split. Qed.

Lemma keeps_cancel b c w : c < w_next w -> keeps b w (upd_cancelled (fun s => {[c]} ∪ s) w).
Proof.
  intros Hc. apply keeps_intro; [|simpl; lia]. intros [I1 I2 I3 I4 I5]. split; simpl; try done.
  intros d Hd. apply elem_of_union in Hd as [Hd|Hd]; [|by apply I2].
  apply elem_of_singleton in Hd. by subst.
Qed.

(** Cancelling a context below the address in use. *)
Lemma preserves_cancel_below b c : c < b -> preserves (keeps b) (cancel_func c).
Proof.
  intros Hc w [HI Hb]. apply keeps_cancel; [|done]. lia.
Qed.

(** ** Deriving a context *)

(** A fresh context under a node's keeps the invariant, and may be registered. *)
Lemma keeps_withCancel b n s : preserves (keeps b) (withCancel n s).
Proof.
  intros w [HI Hb]. destruct HI as [I1 I2 I3 I4 I5].
  destruct (w_nodes w !! n) as [nd|] eqn:Hn.
  2:{ unfold withCancel, load_node, bind, gets. rewrite Hn. simpl. split; [by split|done]. }
  destruct (I3 n nd Hn) as (Hlt & (_ & Hcan & Hx) & Hsig).
  assert (Hw : returns (withCancel n s) (fun _ w' => Inv w' /\ b <= w_next w') w).
  { eapply withCancel_spec; [done..|]. intros w' E1 E2 E3 E4 E5 _ _ _ _ E9 E10.
    assert (Hkeep : forall c anc, w_ctx_anc w !! c = Some anc -> w_ctx_anc w' !! c = Some anc).
    { intros c anc Hc. rewrite E3, lookup_insert_ne; [done|]. specialize (I1 _ _ Hc). lia. }
    split; [|lia]. split; unfold heap_ok in *; rewrite ?E1, ?E4, ?E5, ?E9, ?E10; try done.
    - intros c anc. rewrite E3, lookup_insert. case_decide; [lia|]. intros Hc. specialize (I1 _ _ Hc). lia.
    - intros c Hc. specialize (I2 c Hc). lia.
    - intros m nd'. rewrite E2, lookup_insert. unfold node_ok, node_wf. rewrite E2, E4. case_decide; subst.
      + intros [= <-]. simpl. rewrite lookup_insert_eq. repeat split; try done; [lia|by apply Hkeep|].
        intros t c. rewrite lookup_insert. case_decide; [|intros Ht; by eapply Hkeep, Hsig].
        intros [= <-]. by rewrite E3, lookup_insert_eq.
      + intros Hm. destruct (I3 m nd' Hm) as (G1 & (G2 & G3 & G4) & G5).
        rewrite lookup_insert_ne by done. repeat split; try done; [lia|by apply Hkeep|].
        intros t c Ht. by eapply Hkeep, G5.
    - intros m Hm. rewrite E2, lookup_insert. case_decide; [by eexists|by apply I4]. }
  unfold returns, wp in Hw. by destruct (withCancel n s w) as [[c|p] w'].
Qed.

(** ** Allocating the node *)
Lemma keeps_allocate b cb arg : preserves (keeps b) (allocate_node cb arg).
Proof.
  intros w [HI Hb]. pose proof (allocate_node_spec cb arg w) as Hs. unfold returns, wp in Hs.
  destruct (allocate_node cb arg w) as [[r|p] w'] eqn:Ea; simpl in *; [|done].
  destruct (w_gnode w) as [n|] eqn:Hg; [by destruct Hs as [_ ->]|]. destruct Hs as [_ Hal].
  pose proof (allocated_wf _ _ _ _ Hal) as Hwf. destruct HI as [I1 I2 I3 I4 I5].
  destruct Hal as [A1 A2 A3 A4 A5 A6 A7]. injection A6 as A61 A62 A63 A64 A65. injection A7 as A71 A72 A73.
  assert (Hkeep : forall c anc, w_ctx_anc w !! c = Some anc -> w_ctx_anc w' !! c = Some anc).
  { intros c anc Hc. rewrite A3, lookup_insert_ne; [done|]. specialize (I1 _ _ Hc). lia. }
  split; [|lia]. split; unfold heap_ok in *; rewrite ?A1, ?A4, ?A61, ?A71, ?A72; try done.
  - intros c anc. rewrite A3, lookup_insert. case_decide; [lia|]. intros Hc. specialize (I1 _ _ Hc). lia.
  - intros c Hc. specialize (I2 c Hc). lia.
  - intros m nd. rewrite A2, lookup_insert. unfold node_ok. case_decide; subst.
    + intros [= <-]. split; [lia|]. split; [done|]. intros s c. simpl. by rewrite lookup_empty.
    + intros Hm. destruct (I3 m nd Hm) as (G1 & (G2 & G3 & G4) & G5). split; [lia|].
      unfold node_wf. rewrite A2, lookup_insert_ne by done.
      split; [split; [done|]; split; [done|by apply Hkeep]|]. intros t c Ht. by eapply Hkeep, G5.
  - intros m [= <-]. rewrite A2, lookup_insert_eq. by eexists.
Qed.
End inv.

#[global] Arguments keeps : simpl never.

#[export] Hint Extern 1 (@keeps _ _ _ _) =>
  solve [ apply keeps_eq; reflexivity | apply keeps_fresh | apply keeps_malloc | apply keeps_free
        | apply keeps_clear_gnode
        | apply keeps_store; intros ?; simpl; split; [reflexivity|]; split; [reflexivity|];
          intros ? ?; first [by auto | rewrite lookup_delete_Some; tauto] ] : preserve.
