(* ===== verification/Answers.v ===== *)
(** * One answer per request, under every interleaving

    A request other than a resolve is answered by exactly one callback: at any time
    the answers given and the goroutines that still owe one, with the resolves, add
    up to the requests made. *)
From S2P Require Import Prelude GoStrings GoPath GoOs Ext World Toy Effects Log Cancel.
From S2P Require Import Calls Config ConfigSpec Repo RepoSpec Json Settings Progress Serve ServeSpec.
From S2P Require Import Start StartSpec Lifecycle Bindings BindingsSpec Monitor System Frames.
#[local] Open Scope go_scope.

(** ** What neither answers nor takes requests on *)
Section quiet.
Context `{External}.

#[export] Instance quiet_harmless : Harmless quiet.
Proof.
  split; try (intros; first [ by apply quiet_eq 
    | eapply quiet_event; [|reflexivity|reflexivity]; reflexivity ]).
  - typeclasses eauto.
  - intros w g Hg. by apply (quiet_go g).
  - intros cb arg. unfold allocate_node. frame_tac.
  - intros n s. unfold withCancel. frame_step; [apply (preserves_load_node quiet)|]. frame_tac.
Qed.

(** The ones that cancel a context answer nobody either. *)
Lemma quiet_cancels c : cancels quiet c.
Proof. unfold cancels. frame_tac. Qed.

Lemma quiet_free : preserves quiet go_asio_ipfs_free.
Proof. intros w. apply (frame_free_at quiet). intros. apply quiet_cancels. Qed.

Lemma quiet_cancel s : preserves quiet (go_asio_ipfs_cancel s).
Proof. intros w. apply (frame_cancel_at quiet). intros. apply quiet_cancels. Qed.

Lemma quiet_redirect cb : preserves quiet (go_asio_ipfs_redirect_logs cb).
Proof. apply frame_redirect; [typeclasses eauto|]. intros. by apply quiet_eq. Qed.

Lemma quiet_monitor_step m s : preserves quiet (monitor_step m s).
Proof. intros w. apply (frame_monitor_step_at quiet). intros. apply quiet_cancels. Qed.
End quiet.

#[export] Hint Resolve quiet_free quiet_cancel quiet_redirect quiet_monitor_step : preserve.

Section gives.
Context `{External}.

(** ** Code that answers or takes on exactly one request *)

(** If [m] returns, the balance of [k] has grown by one and no other has changed. *)
Definition gives {A} (k : Z * Z) (m : M World A) : Prop :=
  forall w a w', m w = (Ok a, w') ->
    forall j, balance j w' = balance j w + (if decide (j = k) then 1 else 0).

Lemma gives_event k (e : event) : event_for e = Some k -> gives k (emit e).
Proof.
  intros He w a w' [= _ <-] j. unfold balance. simpl. rewrite count_app, count_one, He.
  repeat case_decide; simplify_eq; lia.
Qed.

Lemma gives_go k g : gor_for g = Some k -> gives k (go g).
Proof.
  intros He w a w' [= _ <-] j. unfold balance. simpl. rewrite count_app, (count_one gor_for), He.
  repeat case_decide; simplify_eq; lia.
Qed.

Lemma gives_after {A B} k (m : M World A) (f : A -> M World B) :
  preserves quiet m -> (forall x, gives k (f x)) -> gives k (bind m f).
Proof.
  intros Hm Hf w b w' Hb j. destruct (bind_Ok_inv _ _ _ _ _ Hb) as (a & w1 & H1 & H2).
  specialize (Hm w j). rewrite H1 in Hm. simpl in Hm. rewrite (Hf a _ _ _ H2), Hm. done.
Qed.

Lemma gives_before {A B} k (m : M World A) (f : A -> M World B) :
  gives k m -> (forall x, preserves quiet (f x)) -> gives k (bind m f).
Proof.
  intros Hm Hf w b w' Hb j. destruct (bind_Ok_inv _ _ _ _ _ Hb) as (a & w1 & H1 & H2).
  pose proof (Hf a w1 j) as Hq. rewrite H2 in Hq. simpl in Hq. rewrite Hq. by eapply Hm.
Qed.

Lemma gives_panic {A} k p : gives k (panic (A := A) p).
Proof. intros w a w'. discriminate. Qed.
End gives.

(** Passes the statements before the one that answers. *)
Ltac gives_step :=
  first
    [ apply gives_panic
    | apply gives_event; reflexivity
    | apply gives_go; reflexivity
    | match goal with
      | |- gives _ (match ?x with _ => _ end) => destruct x
      | |- gives _ (let _ := _ in _) => cbv zeta
      | |- gives _ (bind _ _) => apply gives_after; [solve [frame_tac] | intros ?]
      end ].

Ltac gives_tac := intros; repeat gives_step.

Section answers.
Context `{External}.

Lemma gives_void fn code a : gives (fn, a) (C_execute_void_cb fn code a).
Proof. by apply gives_event. Qed.

Lemma gives_data fn code d size a : gives (fn, a) (C_execute_data_cb fn code d size a).
Proof. unfold C_execute_data_cb. gives_tac. Qed.

Lemma gives_success fn a bytes : gives (fn, a) (data_success fn a bytes).
Proof.
  unfold data_success. apply gives_after; [frame_tac|]. intros cdata.
  apply gives_before; [apply gives_data|]. intros _. frame_tac.
Qed.

(** Every operation's goroutine answers its caller. *)
Lemma gives_run_op g k : gor_for g = Some k -> gives k (run_op g).
Proof.
  destruct g; simpl; intros [=]; subst k.
  all: unfold run_start, run_publish, run_calc_cid, run_add, run_cat, run_pin, run_unpin, run_gc_op,
         executeVoidCB, data_failure; cbv zeta.
  all: repeat first [ apply gives_void | apply gives_data | apply gives_success | gives_step ].
Qed.

(** Every handler queues one goroutine for its caller. *)
Lemma gives_handle r s fn a : gives (fn, a) (handle r s fn a).
Proof.
  destruct r; simpl;
    unfold go_asio_ipfs_publish, go_asio_ipfs_calc_cid, go_asio_ipfs_add, go_asio_ipfs_cat,
      go_asio_ipfs_pin, go_asio_ipfs_unpin, go_asio_ipfs_gc, go_bytes; cbv zeta; gives_tac.
Qed.

Lemma gives_start_async c r cb arg fn a : gives (fn, a) (go_asio_ipfs_start_async c r cb arg fn a).
Proof. unfold go_asio_ipfs_start_async. cbv zeta. gives_tac. Qed.

(** The other goroutines owe nobody an answer. *)
Lemma quiet_run_gor g : gor_for g = None -> preserves quiet (run_gor g).
Proof.
  destruct g; simpl; intros Hg; try done; unfold run_wait_close; eauto with preserve.
Qed.

Lemma gives_run_gor g k : gor_for g = Some k -> gives k (run_gor g).
Proof. intros Hg. destruct g; try done; by apply (gives_run_op _ k Hg). Qed.

(** ** The process *)

(** The request a step takes on. *)
Definition owed (k : Z * Z) (l : label) : nat :=
  if is_resolve l then 0 else if decide (label_for l = Some k) then 1 else 0.

Lemma take_gor_spec i w :
  exists w1, take_gor i w = (Ok (w_gor w !! i), w1) /\ w_trace w1 = w_trace w /\
    w_gor w1 = delete i (w_gor w).
Proof. by eexists. Qed.

Lemma exec_quiet l w w' k :
  label_for l = None \/ is_resolve l = true -> (forall i, l <> LRun i) -> (forall i s, l <> LSelect i s) ->
  exec l w = (Ok tt, w') -> balance k w' = balance k w.
Proof.
  intros Hl Hr Hs He. assert (Hq : preserves quiet (exec l)).
  { destruct l; simpl in *; try (exfalso; naive_solver); frame_tac. }
  specialize (Hq w k). by rewrite He in Hq.
Qed.

Lemma exec_run i w w' k : exec (LRun i) w = (Ok tt, w') -> balance k w' = balance k w.
Proof.
  simpl. destruct (take_gor_spec i w) as (w1 & Ht & Htr & Hg). rewrite (bind_Ok _ _ _ _ _ Ht).
  unfold balance at 2. destruct (w_gor w !! i) as [g|] eqn:Hi.
  - rewrite (count_delete gor_for k _ _ _ Hi), count_one, <- Hg, <- Htr.
    destruct (gor_for g) as [j|] eqn:Hj; intros He.
    + rewrite (gives_run_gor g j Hj _ _ _ He k). unfold balance. repeat case_decide; simplify_eq; lia.
    + pose proof (quiet_run_gor g Hj w1 k) as Hq. rewrite He in Hq. simpl in Hq. rewrite Hq.
      unfold balance. rewrite decide_False by done. lia.
  - intros [= <-]. unfold balance. rewrite Htr, Hg.
    assert (Hd : delete i (w_gor w) = w_gor w).
    { rewrite delete_take_drop. apply lookup_ge_None in Hi.
      rewrite take_ge by done. rewrite drop_ge by lia. apply app_nil_r. }
    by rewrite Hd.
Qed.

Lemma exec_select i s w w' k :
  enabled w (LSelect i s) = true -> exec (LSelect i s) w = (Ok tt, w') -> balance k w' = balance k w.
Proof.
  simpl. destruct (take_gor_spec i w) as (w1 & Ht & Htr & Hg). intros Hen.
  rewrite (bind_Ok _ _ _ _ _ Ht). destruct (w_gor w !! i) as [g|] eqn:Hi; [|done].
  destruct g; try done. intros He.
  assert (Hq : preserves quiet (r <- monitor_step m s ;; match r with Some m' => go (GMonitor m') | None => ret tt end))
    by frame_tac.
  specialize (Hq w1 k). rewrite He in Hq. simpl in Hq. rewrite Hq.
  unfold balance. rewrite (count_delete gor_for k _ _ _ Hi), count_one, <- Hg, <- Htr.
  rewrite decide_False by done. lia.
Qed.

Lemma exec_balance l w w' k :
  enabled w l = true -> exec l w = (Ok tt, w') -> balance k w' = balance k w + owed k l.
Proof.
  intros Hen He. unfold owed. destruct (is_resolve l) eqn:Hres.
  { rewrite Nat.add_0_r. eapply exec_quiet; [by right|by destruct l..|exact He]. }
  destruct (label_for l) as [j|] eqn:Hl.
  - assert (Hgv : gives j (exec l)).
    { destruct l; simpl in Hl; try done; injection Hl as <-; simpl;
        [apply gives_start_async|apply gives_handle]. }
    rewrite (Hgv _ _ _ He k). repeat case_decide; simplify_eq; lia.
  - replace (if decide _ then 1 else 0) with 0 by (by case_decide). rewrite Nat.add_0_r.
    destruct l; try done; try by eapply exec_quiet; [left|..|exact He].
    + by eapply exec_run.
    + by eapply exec_select.
Qed.

(** The requests made, of whatever kind, and those of them that are resolves. *)
Definition requested (k : Z * Z) (ls : list label) : nat := count label_for k ls.

Definition resolves (k : Z * Z) (ls : list label) : nat :=
  count label_for k (filter (fun l => is_resolve l = true) ls).

Lemma requested_cons k l ls :
  requested k (l :: ls) + resolves k ls = owed k l + resolves k (l :: ls) + requested k ls.
Proof.
  assert (Hc : forall l', count label_for k (l :: l') = count label_for k [l] + count label_for k l')
    by (intros; apply (count_app label_for k [l])).
  unfold requested, resolves, owed. rewrite (Hc ls), filter_cons.
  destruct (is_resolve l).
  - rewrite decide_True, (Hc (filter _ ls)) by done. lia.
  - rewrite (decide_False (P := false = true)) by discriminate. rewrite count_one. lia.
Qed.

Lemma steps_balance ls w w' k :
  steps ls w w' -> balance k w' + resolves k ls = balance k w + requested k ls.
Proof.
  induction 1 as [w|l ls w w1 w2 Hen He Hs IH]; [done|].
  pose proof (requested_cons k l ls). pose proof (exec_balance l w w1 k Hen He). lia.
Qed.

(** C2. Exactly one answer per request, except that a resolve gets none: in every
    state a freshly loaded process can reach, under any interleaving of C++'s calls
    with its goroutines, the callbacks made for a callback function and argument,
    the goroutines that still owe one and the resolves asked for with them add up to
    all the requests made with them (asynchronous starts, publishes, calc-cids,
    adds, cats, pins, unpins, gcs and resolves).  So no request is answered twice,
    and once no goroutine is left for it, each request but a resolve has been
    answered exactly once; the callback of a resolve, whose body is commented out,
    is never called. *)
Theorem one_answer_per_request ls w w' fn a :
  booted w -> steps ls w w' ->
  count event_for (fn, a) (w_trace w') + count gor_for (fn, a) (w_gor w') + resolves (fn, a) ls
  = requested (fn, a) ls.
Proof.
  intros [] Hs. pose proof (steps_balance ls w w' (fn, a) Hs) as Hb.
  unfold balance in Hb. rewrite bt_trace, bt_gor in Hb. exact Hb.
Qed.
End answers.

(** ** Witness *)
#[local] Existing Instance toy_types.
#[local] Existing Instance toy_ext.

Lemma toy_booted fails : booted (toy_world fails).
Proof. split; simpl; first [reflexivity | lia]. Qed.

(** A node is started, three requests are made with the same callback, one of them a
    resolve, and the goroutines of the other two run in the opposite order, around a
    run of the API server. *)
Definition toy_run : list label :=
  [LStartBlocking toy_json "repo" 100 200; LAllocateSignal; LRequest (RAdd "hello" 5 true) 0 7 9;
   LResolve 1 "Qmhello" 7 9; LRequest (RCat "Qmhello") 1 7 9; LRun 5; LRun 1; LRun 3].

Lemma one_answer_per_request_witness :
  exists w', steps toy_run (toy_world []) w' /\
    count event_for (7, 9)%Z (w_trace w') + count gor_for (7, 9)%Z (w_gor w') + 1 = 3 /\
    callbacks (w_trace w') = [EDataCB 7 15 None 0 9; EDataCB 7 0 (Some "Qmhello") 7 9].
Proof.
  set (r := run_labels toy_run (toy_world [])).
  assert (Hr : bool_decide (is_Some r) = true) by (vm_compute; reflexivity).
  apply bool_decide_eq_true in Hr as [w' Hw'].
  assert (Hc : (fun w => callbacks (w_trace w)) <$> r
               = Some [EDataCB 7 15 None 0 9; EDataCB 7 0 (Some "Qmhello") 7 9]) by (vm_compute; reflexivity).
  assert (Hs : steps toy_run (toy_world []) w') by (apply run_labels_steps; exact Hw').
  exists w'. split; [exact Hs|]. split.
  - exact (one_answer_per_request toy_run (toy_world []) w' 7 9 (toy_booted []) Hs).
  - rewrite Hw' in Hc. injection Hc as Hc. exact Hc.
Defined.
