(* ===== verification/Reach.v ===== *)
(** * What every reachable state satisfies

    The invariant of Invariants.v holds of every state a freshly loaded process
    reaches, whatever C++ calls and however the goroutines are scheduled; the log
    goes to the last callback C++ gave, which may be null. *)
From S2P Require Import Prelude GoStrings GoPath GoOs Ext World Toy Effects Log Cancel.
From S2P Require Import Calls Config ConfigSpec Repo RepoSpec Json Settings Progress Serve ServeSpec.
From S2P Require Import Start StartSpec Lifecycle Bindings BindingsSpec Monitor MonitorSpec System Frames Invariants.
From S2P Require Import Answers.
#[local] Open Scope go_scope.

(** ** What every step respects *)

(** A relation between states that answering, and starting a goroutine, respects
    too. *)
Class Respected `{External} (R : World -> World -> Prop) : Prop := {
  rs_harmless :: Harmless R;
  rs_emit w e : R w (upd_trace (fun t => t ++ [e])%list w);
  rs_gor w f : R w (upd_gor f w);
}.

Section respected.
Context `{External} (R : World -> World -> Prop) {HR : Respected R}.

#[local] Hint Extern 1 (R _ _) =>
  solve [ apply hl_call | apply hl_fresh | apply hl_malloc | apply hl_free | apply rs_emit
        | apply rs_gor ] : preserve.

Lemma respects_void fn code a : preserves R (C_execute_void_cb fn code a).
Proof. unfold C_execute_void_cb. frame_tac. Qed.

Lemma respects_data fn code d size a : preserves R (C_execute_data_cb fn code d size a).
Proof. unfold C_execute_data_cb. frame_tac. Qed.
#[local] Hint Resolve respects_void respects_data : preserve.

Lemma respects_success fn a bytes : preserves R (data_success fn a bytes).
Proof. unfold data_success. frame_tac. Qed.
#[local] Hint Resolve respects_success : preserve.

(** An operation, from the call to its answer. *)
Lemma respects_run_op g : preserves R (run_op g).
Proof.
  destruct g; simpl; unfold run_start, run_publish, run_calc_cid, run_add, run_cat, run_pin,
    run_unpin, run_gc_op, executeVoidCB, data_failure; cbv zeta; frame_tac.
Qed.

Lemma respects_handle r s fn a : preserves R (handle r s fn a).
Proof.
  destruct r; simpl;
    unfold go_asio_ipfs_publish, go_asio_ipfs_calc_cid, go_asio_ipfs_add, go_asio_ipfs_cat,
      go_asio_ipfs_pin, go_asio_ipfs_unpin, go_asio_ipfs_gc, go_bytes; cbv zeta; frame_tac.
Qed.

Lemma respects_start_async c r cb arg fn a : preserves R (go_asio_ipfs_start_async c r cb arg fn a).
Proof. unfold go_asio_ipfs_start_async. cbv zeta. frame_tac. Qed.

Lemma respects_resolve s id fn a : preserves R (go_asio_ipfs_resolve s id fn a).
Proof. unfold go_asio_ipfs_resolve. cbv zeta. frame_tac. Qed.

Lemma respects_run_gor g : preserves R (run_gor g).
Proof.
  destruct g; try apply respects_run_op; unfold run_gor, run_wait_close; eauto with preserve.
Qed.

Lemma respects_take i : preserves R (take_gor i).
Proof. unfold take_gor. frame_tac. Qed.
#[local] Hint Resolve respects_run_gor respects_handle respects_start_async respects_resolve
  respects_take : preserve.

(** The steps that cancel no context and do not redirect the log. *)
Lemma respects_exec l :
  l <> LFree -> (forall s, l <> LCancel s) -> (forall cb, l <> LRedirectLogs cb) ->
  (forall i s, l <> LSelect i s) -> preserves R (exec l).
Proof.
  intros H1 H2 H3 H4. destruct l; try (exfalso; naive_solver); simpl; frame_tac.
Qed.

Lemma exec_LSelect i s w :
  exec (LSelect i s) w =
  match w_gor w !! i with
  | Some (GMonitor m) =>
      r <- monitor_step m s ;; match r with Some m' => go (GMonitor m') | None => ret tt end
  | _ => ret tt
  end (upd_gor (delete i) w).
Proof. reflexivity. Qed.

(** The others, from a state in which the contexts they may cancel can be. *)
Lemma respects_select i s w :
  (forall n nd, w_nodes w !! n = Some nd -> cancels R (n_cancel nd)) ->
  R w (exec (LSelect i s) w).2.
Proof.
  intros Hc. rewrite exec_LSelect. etrans; [apply (rs_gor (R := R) w (delete i))|].
  destruct (w_gor w !! i) as [[]|]; try reflexivity.
  unfold bind at 1. match goal with |- context [monitor_step ?m s ?w2] =>
    pose proof (frame_monitor_step_at R m s w2 (fun nd => Hc _ nd)) as Hm;
    destruct (monitor_step m s w2) as [[r|p] w3] end; simpl in Hm |- *; [|exact Hm].
  etrans; [exact Hm|]. destruct r; simpl; [apply rs_gor|reflexivity].
Qed.
End respected.

Section reach.
Context `{External}.

#[export] Instance keeps_respected b : Respected (keeps b).
Proof.
  split; [split|..]; try (intros; solve
    [ typeclasses eauto | apply keeps_eq; reflexivity | apply keeps_fresh | apply keeps_malloc
    | apply keeps_free | apply keeps_clear_gnode | by apply keeps_store
    | apply keeps_allocate | apply keeps_withCancel ]).
Qed.

(** ** The invariant *)

(** In a state satisfying the invariant every context the glue may cancel exists. *)
Lemma node_cancel_known w n nd : Inv w -> w_nodes w !! n = Some nd -> cancels (keeps (w_next w)) (n_cancel nd).
Proof.
  intros HI Hn. apply preserves_cancel_below. destruct (inv_nodes w HI n nd Hn) as (_ & (_ & -> & Hx) & _).
  by eapply inv_ctx.
Qed.

Lemma signal_cancel_known w n nd s c :
  Inv w -> w_nodes w !! n = Some nd -> n_cancel_signals nd !! s = Some c ->
  cancels (keeps (w_next w)) c.
Proof.
  intros HI Hn Hs. apply preserves_cancel_below. destruct (inv_nodes w HI n nd Hn) as (_ & _ & Hx).
  eapply inv_ctx; [done|by eapply Hx].
Qed.

Lemma exec_keeps l w : Inv w -> keeps (w_next w) w (exec l w).2.
Proof.
  intros HI. pose proof (node_cancel_known w) as Hn. destruct l.
  all: try (apply (respects_exec (keeps (w_next w))); naive_solver).
  - simpl. pose proof (frame_free_at (keeps (w_next w)) w (fun n nd _ => Hn n nd HI)) as Hf.
    unfold bind. by destruct (go_asio_ipfs_free w) as [[]].
  - apply (frame_cancel_at (keeps (w_next w))). intros n nd c _. by apply signal_cancel_known.
  - apply (frame_redirect (keeps (w_next w))). intros. by apply keeps_eq.
  - apply (respects_select (keeps (w_next w))). eauto.
Qed.

Lemma exec_inv l w r w' : Inv w -> exec l w = (r, w') -> Inv w'.
Proof.
  intros HI He. pose proof (exec_keeps l w HI) as Hk. rewrite He in Hk. by apply Hk.
Qed.

Lemma steps_inv ls w w' : steps ls w w' -> Inv w -> Inv w'.
Proof. induction 1; eauto using exec_inv. Qed.

Lemma booted_inv w : booted w -> Inv w.
Proof.
  intros [E1 E2 E3 E4 E5 E6 E7 E8 E9]. split; [..|split]; rewrite ?E1, ?E2, ?E3, ?E4, ?E7; try done.
Qed.

(** ** The logger *)

#[export] Instance logger_respected : Respected (same w_logger).
Proof.
  split; [split|..]; try done; [typeclasses eauto|..].
  - intros cb arg. unfold allocate_node. frame_tac.
  - intros n s. unfold withCancel. frame_step; [apply (preserves_load_node (same w_logger))|]. frame_tac.
Qed.

Lemma logger_cancels c : cancels (same w_logger) c.
Proof. unfold cancels. frame_tac. Qed.

(** The callback a step sends the log to. *)
Definition redirection (l : label) : option Z := match l with LRedirectLogs cb => Some cb | _ => None end.

Lemma exec_logger l w : redirection l = None -> w_logger (exec l w).2 = w_logger w.
Proof.
  intros Hl. change (same w_logger w (exec l w).2). destruct l.
  all: try (apply (respects_exec (same w_logger)); naive_solver).
  - simpl. pose proof (frame_free_at (same w_logger) w (fun _ nd _ _ => logger_cancels (n_cancel nd))) as Hf.
    unfold bind. by destruct (go_asio_ipfs_free w) as [[]].
  - apply (frame_cancel_at (same w_logger)). intros. apply logger_cancels.
  - apply (respects_select (same w_logger)). intros. apply logger_cancels.
Qed.

(** Where the log goes after these steps: to the last callback given. *)
Definition log_target (out : LogOutput) (ls : list label) : LogOutput :=
  match last (omap redirection ls) with Some cb => OutCustom (mkCustomLog cb) | None => out end.

Lemma exec_redirects cb w : lg_out (w_logger (exec (LRedirectLogs cb) w).2) = OutCustom (mkCustomLog cb).
Proof. simpl. unfold go_asio_ipfs_redirect_logs. by case_decide. Qed.

Lemma steps_logger ls w w' : steps ls w w' -> lg_out (w_logger w') = log_target (lg_out (w_logger w)) ls.
Proof.
  unfold log_target. induction 1 as [|l ls w w1 w2 Hen He Hs IH]; [done|]. rewrite IH. simpl.
  destruct (redirection l) as [cb|] eqn:Hl.
  - destruct l; try done. injection Hl as ->. pose proof (exec_redirects cb w) as Hw. rewrite He in Hw.
    simpl in Hw. rewrite Hw, last_cons. fold (omap redirection ls). by destruct (last (omap redirection ls)).
  - pose proof (exec_logger l w Hl) as Hw. rewrite He in Hw. simpl in Hw. by rewrite Hw.
Qed.

(** C4. Every state a freshly loaded process can reach is well formed, whatever C++
    calls and however its goroutines are scheduled, over failed starts, frees and
    restarts: no context or node is recorded at an address still to be given out;
    the node in the slot exists, its cancel function cancels its own root context,
    and every registered signal stands for a context derived from that root alone,
    so freeing the node cancels all of them and cancelling a signal cancels nothing
    else; the next block of the C heap is free and not NULL; and the log goes to the
    last callback C++ gave [go_asio_ipfs_redirect_logs], to standard error if it
    never gave one, so a line can be logged if and only if the last callback given
    was not null. *)
Theorem reachable_invariant ls w w' :
  booted w -> steps ls w w' ->
  Inv w' /\ lg_out (w_logger w') = log_target OutStderr ls /\
  (log_ok w' <-> last (omap redirection ls) <> Some 0%Z).
Proof.
  intros Hb Hs. split; [by eapply steps_inv, booted_inv|].
  pose proof (steps_logger ls w w' Hs) as Hl. rewrite (bt_logger w Hb) in Hl. split; [exact Hl|].
  unfold log_ok. rewrite Hl. unfold log_target.
  destruct (last (omap redirection ls)) as [cb|]; split; congruence.
Qed.
End reach.

(** ** Witness *)
#[local] Existing Instance toy_types.
#[local] Existing Instance toy_ext.

(** The run of Answers.v, then a cancellation, a free and a second start. *)
Definition toy_long_run : list label :=
  (toy_run ++ [LRedirectLogs 5; LCancel 0; LFree; LStartBlocking toy_json "repo" 100 200; LAllocateSignal;
              LRequest (RPin "Qmhello") 0 7 9])%list.

(** The signals registered with the node in the slot. *)
Definition current_signals (w : World) : option (list (Z * nat)) :=
  match w_gnode w with
  | Some n => (fun nd => map_to_list (n_cancel_signals nd)) <$> w_nodes w !! n
  | None => None
  end.

Lemma reachable_invariant_witness :
  exists w', steps toy_long_run (toy_world []) w' /\ (Inv w' /\ log_ok w') /\
    current_signals w' = Some [(0%Z, 10)].
Proof.
  set (r := run_labels toy_long_run (toy_world [])).
  assert (Hr : bool_decide (is_Some r) = true) by (vm_compute; reflexivity).
  apply bool_decide_eq_true in Hr as [w' Hw'].
  assert (Hc : current_signals <$> r = Some (Some [(0%Z, 10)])) by (vm_compute; reflexivity).
  assert (Hs : steps toy_long_run (toy_world []) w') by (apply run_labels_steps; exact Hw').
  exists w'. split; [exact Hs|]. split.
  - destruct (reachable_invariant toy_long_run (toy_world []) w' (toy_booted []) Hs) as (HI & _ & Hl).
    split; [exact HI|]. apply Hl. discriminate.
  - rewrite Hw' in Hc. injection Hc as Hc. exact Hc.
Defined.
